(* ===== verification/_CoqProject ===== *)
-Q . S2P
Prelude.v
Types.v
OrderBook.v
BookFacts.v
Engine.v
EngineProps.v
Bytes.v
Protocol.v
FrameReader.v
WriteBuffer.v
Crc32.v
Spsc.v
Wakeup.v
Commands.v
Wal.v
WalProps.v
Snapshot.v
Egress.v
Text.v
RiskConfig.v
RiskFile.v
Session.v
Rounding.v
RateLimit.v
TcpServer.v
TcpProps.v
Throttle.v
EventLoop.v
MatchingThread.v
Keys.v
Recovery.v
Ownership.v
CoreInv.v
MatchProps.v
RestoreProps.v
Timeless.v
Fits.v
Names.v
EventProps.v
Answers.v
Accounts.v
Gateway.v
GatewayArgs.v
Durable.v
Lifecycle.v
WalVerify.v
VerifyBook.v
VerifyProps.v
System.v
Privacy.v
WireProps.v
OrderFlow.v
JsonViews.v
LobsterParser.v
LobsterReplay.v
LobsterProps.v
LobsterRefine.v
ZiPaper.v
ZiSim.v
LoadGen.v
ToolArgs.v
Benchmarker.v
LoadProps.v
Findings.v
