(* ===== verification/Prelude.v ===== *)
(** * Order Matching Machine: a verification library

    The program is a single-symbol exchange. A network thread (the TCP server)
    turns byte streams into commands; one bounded lock-free ring carries them to
    the matching thread, the only writer of the book; events and market data
    come back through per-connection rings. Commands are logged before they are
    applied, the book is snapshotted between batches, and a restarted gateway
    rebuilds the book from the newest snapshot and the tail of the log.

    ** Files, in dependency order, and the sources they model

    - [Prelude]: machine integers, list and map lemmas, automation.
    - [Types]: include/order.h, trade.h, ome/reject_reason.hpp.
    - [OrderBook]: order_book/order_book.hpp, src/order_book.cpp. Two sorted
      lists of price levels, each a FIFO of orders with a running total, and the
      id-to-location map ([gmap]). [BookFacts]: the book invariant [book_wf] and
      what each operation does to it.
    - [Engine]: src/matching_engine.cpp, with the abstract exchange (two priority
      queues and a sweep) it refines. [EngineProps]: the engine's claims.
    - [Bytes], [Protocol]: ome/protocol.hpp. Typeclass [Message] with laws
      [MessageLaws], one instance per message. [FrameReader], [WriteBuffer]:
      frame_reader.hpp, write_buffer.hpp. [WireProps]: the claims.
    - [Crc32]: crc32.hpp. [Spsc]: spsc_queue.h, sequentially (class
      [BoundedQueueLaws]) and as a step relation over its shared accesses.
    - [Wakeup]: waiter.hpp, notifier.hpp, as step relations.
    - [Commands]: commands.hpp. [Wal], [WalProps]: wal.hpp. [Snapshot]:
      snapshot.hpp. [Egress]: egress.hpp, book_snapshot.hpp. [RiskConfig]:
      risk_config.hpp. [Session]: session.hpp, token_bucket.hpp. [Rounding]:
      the reals behind rounded doubles. [RateLimit]: what a bucket grants.
    - [TcpServer], [TcpProps]: tcp_server.hpp, src/net/tcp_server.cpp.
      [Throttle]: the rate at which a connection's bytes become commands.
      [EventLoop]: what one turn of the event loop leaves.
    - [MatchingThread]: matching_thread.hpp. [Keys]: the packed order key.
      [Recovery]: replay equals the live run. [Ownership], [CoreInv]: the
      ownership tables describe the book. [MatchProps], [RestoreProps]: the
      claims. [EventProps]: what is posted on which queue. [Answers]: the
      specified answer to every request. [Accounts]: a ledger of what clients
      are told. [Timeless]: commands commute with erasing
      timestamps; restored clocks may lag. [Fits]: every field fits the snapshot
      format. [Names]: what a client's name for an order means. [Durable]: snapshots and truncations while running.
    - [Gateway], [GatewayArgs]: src/gateway_main.cpp, start-up and arguments.
      [Lifecycle]: the whole program with the sockets and pipes it opens, from
      its command line to its exit.
    - [WalVerify], [VerifyBook], [VerifyProps]: tools/wal_verify.cpp, a second
      implementation of the book that replays the log.
    - [System]: both threads together. [Privacy]: whose events wait where.
      [OrderFlow]: one order through them.
    - [Text]: the parts of the C++ text library the parsers use (strings,
      isspace, getline, number conversions). [RiskFile]: the risk file of
      risk_config.hpp. [JsonViews]: protocol_json.hpp, book_jsonl.hpp.
    - [LobsterParser], [LobsterReplay]: the lobster_*.cpp files (parser,
      converter, validator, replay). [LobsterProps], [LobsterRefine]: claims.
    - [ZiPaper], [ZiSim]: tools/zi_paper.cpp, tools/zi_sim.cpp. Samplers are
      computations over a list of uniform draws. [ToolArgs]: the main functions
      of the tools (arguments, exit codes, figures printed).
    - [LoadGen], [LoadProps]: bench/loadgen.cpp, the client side. A worker's
      socket calls are recorded; their answers are functions of the call's
      number. [Benchmarker]: include/benchmarker.h, src/main.cpp, percentiles.
    - [Findings]: proved divergences.

    ** State and operations

    A struct is a [Record], an enum an [Inductive], a member function a
    definition that takes the object last and returns it changed. Integers are
    [Z] reduced to their width where the source can leave it ([u8] .. [u64],
    [i64]); signed overflow, undefined in C++, is written as wrap-around, and
    theorems about it carry the bounds under which nothing wraps. Hash maps are
    [gmap]s, hash sets [gset]s; the order in which the source walks them is that
    of [map_to_list] and [elements]. Files are byte lists, text is a list of
    character codes. The clock, what a random generator draws and the outcome of
    every system call are arguments. Doubles are [spec_float] binary64, long
    doubles the 80-bit format of x86-64, where llround out of range gives the
    least 64-bit integer. The queues a connection owns live in stores addressed
    by pointer, shared between the threads' models.

    ** What the theorems show

    - Book and engine: [processOrder] refines the abstract exchange (same book,
      trades, answers); every reachable book is sound (sorted, uncrossed, totals
      and locations exact); price-time priority; conservation of quantity; the
      crossing loop terminates.
    - Wire: decoding inverts encoding for every message, and only encodings
      decode; a stream cut anywhere delivers the same frames; framing errors
      latch; the write buffer sends exactly what was accepted, in order.
    - Queue and wake-ups: the ring is a bounded FIFO, also under interleaving;
      no wake-up is missed when stores are visible at once, and one is when they
      are buffered as on x86; the notifier never dies (lemmas of [Wakeup]).
    - Durability: any cut of a log reads back as a prefix of its commands;
      corruption (any burst up to 32 bits) is detected; truncation behind a
      snapshot keeps the rest; at most [sync_every_n] commands are unsynced.
      Replaying what a crash left gives exactly the state the thread had when
      the log ended, whatever failed afterwards; a snapshot restores book and
      tables. A gateway that takes snapshots and truncates its log while it runs
      can be stopped at any time: a restart from its files has the live state up
      to timestamps; stopped by a signal, it leaves a log handed to fdatasync and
      loses nothing. The log verifier computes the digest of that state, for runs
      in which no command names an order a market order filled (its location
      table keeps those, see [Findings]). All this is for logs that took every
      record up to the point in question, and what is said of restarts for runs
      in which no session uses the client id of a resting order of its own again,
      renames succeed, and truncations go through (the last one may fail, though
      not by a read error taken for the end of the log). What a failed write, a
      failed rename and such a read error do instead is proved in [Findings].
    - Matching thread: the ownership tables describe the book after any
      commands; in any run, a Cancel removes exactly the order its session last
      entered under the name and still has resting, and nothing when there is
      none; cancel-on-disconnect removes exactly the session's orders; the risk check is exact within stated bounds; every request gets
      exactly one specified answer, before the fills; over any run the fills
      reported for an order, what rests and what was withdrawn add up to what
      was entered.
    - Network and system: exactly what a frame does to the connection and the
      server; the commands a connection queues stay under its rate and burst,
      rounding included; an order's bytes
      become its Ack and Fills on the client's own connection; under any
      interleaving a connection's queue holds its own session's events only;
      the lifetime of queues across threads (no dangling pointer);
      one turn of the event loop serves, drains and closes every connection it
      should, while closing erases from the list it walks;
      subscribers see the top of the book.
    - Files and tools: the risk file reads back what was written and nothing
      else; LOBSTER rows round-trip and parsed messages are well-formed; the
      replay refines the abstract exchange; the validator's verdict is the first
      differing row, or none and nothing compared when the seed does not load; a book seeded from a row agrees with it; JSON text and
      command line (lemmas of [JsonViews], [GatewayArgs]); the simulators
      keep sound books, the list one cancels from is exactly the resting orders,
      and the rows the other logs are true of the orders, up to the fields of a
      cancellation that do not describe its order ([Findings]).
    - Load generator: a worker ends and keeps to its rate; its counters are those
      of its calls, and what is sent is acknowledged or in flight; what it offers
      is read as its orders; each order is acknowledged at most once, and the
      latencies are exactly the times from the clock reading before its send to
      the one at its Ack, for those sent after the warm-up; the report is made of
      the workers' runs on their shares of the connections, adds them up, and its
      percentiles are samples.

    ** Fuel and bounds

    Loops that are not structural take fuel, and lemmas show it suffices:
    [cross_loop] is given one more than the number of resting orders (each turn
    removes one), [drain_frames] and [dispatch_frames] one more than the bytes
    buffered (a frame takes at least its header), [read_loop] one more than the
    bytes of the file, the verifier's [cross] and [market_loop] one more than its
    resting orders, the simulator's [cancel_loop] the length of the list it
    shortens. The sending loop of a load-generating client has no bound of its
    own (it need not end, see [Findings]); with an interval of a nanosecond or
    more 103 turns are enough, since a client that is a hundred intervals late
    is moved up to the present. The kernel's answers to [recv], [send] and [accept] come
    as finite lists, whose end means "nothing more now"; the generator's [recv]
    loop has no bound but that.

    ** Interleaving

    [Spsc] and [Wakeup] interleave single shared accesses under sequential
    consistency ([Wakeup] also under x86 store buffering). [System] interleaves
    whole handlers of one connection with single commands of the matching
    thread; the queues between them are the FIFOs [Spsc] justifies.

    ** Not modelled

    The result of fdatasync, which the code discards: a synced record is one
    handed to it. A failing read of a log looks to the code like its end, so that
    [read_wal] takes the bytes that were delivered.
    The text of messages to the console (usage, progress, tables) and the
    printing of doubles; what system calls do beyond their answers; thread start
    and join; random generators, std::log and std::pow (arguments of the
    simulators); accessors of classes; ome/ticks.hpp, whose one constant no C++
    code uses. The generator's loop ends by its clock, which
    random draws advance: its theorems hold after any number of turns. *)
From stdpp Require Import base list gmap sorting.
From Stdlib Require Import ZArith Lia.

#[global] Set Default Goal Selector "!".
Open Scope Z_scope.

(** ** Machine integers

    Every C++ integer is a [Z]; the arithmetic that can leave its width is
    written with one of these reductions, at the place where the source
    performs it. *)

(** Unsigned arithmetic is arithmetic modulo [2^w]. *)
Definition u8 (z : Z) : Z := z mod 2 ^ 8.
Definition u16 (z : Z) : Z := z mod 2 ^ 16.
Definition u32 (z : Z) : Z := z mod 2 ^ 32.
Definition u64 (z : Z) : Z := z mod 2 ^ 64.

(** Two's complement reinterpretation of the low 64 bits. *)
Definition i64 (z : Z) : Z := (z + 2 ^ 63) mod 2 ^ 64 - 2 ^ 63.

Definition is_u8 (z : Z) : Prop := 0 <= z < 2 ^ 8.
Definition is_u16 (z : Z) : Prop := 0 <= z < 2 ^ 16.
Definition is_u32 (z : Z) : Prop := 0 <= z < 2 ^ 32.
Definition is_u64 (z : Z) : Prop := 0 <= z < 2 ^ 64.
Definition is_i64 (z : Z) : Prop := - 2 ^ 63 <= z < 2 ^ 63.

#[export] Instance is_u8_dec z : Decision (is_u8 z).
Proof. unfold is_u8. apply _. Defined.
#[export] Instance is_u16_dec z : Decision (is_u16 z).
Proof. unfold is_u16. apply _. Defined.
#[export] Instance is_u32_dec z : Decision (is_u32 z).
Proof. unfold is_u32. apply _. Defined.
#[export] Instance is_u64_dec z : Decision (is_u64 z).
Proof. unfold is_u64. apply _. Defined.
#[export] Instance is_i64_dec z : Decision (is_i64 z).
Proof. unfold is_i64. apply _. Defined.

(** Evaluate a decidable closed proposition. *)
Ltac vm_decide := apply (bool_decide_unpack _); vm_compute; exact I.

Create HintDb ome discriminated.

(** Unfold the width predicates and evaluate their literal bounds. *)
Ltac widths :=
  unfold is_u8, is_u16, is_u32, is_u64, is_i64 in *;
  change (2 ^ 8) with 256 in *; change (2 ^ 16) with 65536 in *;
  change (2 ^ 32) with 4294967296 in *;
  change (2 ^ 63) with 9223372036854775808 in *;
  change (2 ^ 64) with 18446744073709551616 in *.

Ltac zwlia := widths; lia.

Lemma u8_id z : is_u8 z -> u8 z = z.
Proof. intros H. apply Z.mod_small, H. Qed.
Lemma u16_id z : is_u16 z -> u16 z = z.
Proof. intros H. apply Z.mod_small, H. Qed.
Lemma u32_id z : is_u32 z -> u32 z = z.
Proof. intros H. apply Z.mod_small, H. Qed.
Lemma u64_id z : is_u64 z -> u64 z = z.
Proof. intros H. apply Z.mod_small, H. Qed.

Lemma u8_range z : is_u8 (u8 z).
Proof. apply Z.mod_pos_bound. lia. Qed.
Lemma u16_range z : is_u16 (u16 z).
Proof. apply Z.mod_pos_bound. lia. Qed.
Lemma u32_range z : is_u32 (u32 z).
Proof. apply Z.mod_pos_bound. lia. Qed.
Lemma u64_range z : is_u64 (u64 z).
Proof. apply Z.mod_pos_bound. lia. Qed.

Lemma i64_range z : is_i64 (i64 z).
Proof.
  unfold i64, is_i64.
  pose proof (Z.mod_pos_bound (z + 2 ^ 63) (2 ^ 64) ltac:(lia)). lia.
Qed.

Lemma i64_id z : is_i64 z -> i64 z = z.
Proof. intros H. unfold i64. rewrite Z.mod_small; zwlia. Qed.

Lemma u64_add_l a b : u64 (u64 a + b) = u64 (a + b).
Proof. unfold u64. by rewrite Zplus_mod_idemp_l. Qed.
Lemma u64_add_r a b : u64 (a + u64 b) = u64 (a + b).
Proof. unfold u64. by rewrite Zplus_mod_idemp_r. Qed.
Lemma u64_sub_l a b : u64 (u64 a - b) = u64 (a - b).
Proof. unfold u64. by rewrite Zminus_mod_idemp_l. Qed.
Lemma u64_sub_r a b : u64 (a - u64 b) = u64 (a - b).
Proof. unfold u64. by rewrite Zminus_mod_idemp_r. Qed.
Lemma u64_u64 a : u64 (u64 a) = u64 a.
Proof. apply u64_id, u64_range. Qed.

(** A signed value survives the trip through its unsigned bit pattern. *)
Lemma i64_u64 z : is_i64 z -> i64 (u64 z) = z.
Proof.
  intros H. unfold i64, u64. rewrite Zplus_mod_idemp_l, Z.mod_small; zwlia.
Qed.

Lemma u64_i64 z : is_u64 z -> u64 (i64 z) = z.
Proof.
  intros H. unfold i64, u64. rewrite Zminus_mod_idemp_l.
  rewrite Z.add_simpl_r. apply Z.mod_small, H.
Qed.

#[export] Hint Resolve u8_range u16_range u32_range u64_range i64_range : ome.
Create Rewrite HintDb ome.
#[export] Hint Rewrite u64_add_l u64_add_r u64_sub_l u64_sub_r u64_u64 : ome.

(** ** Sums *)

Definition sumZ (l : list Z) : Z := foldr Z.add 0 l.

Lemma sumZ_cons x l : sumZ (x :: l) = x + sumZ l.
Proof. reflexivity. Qed.

Lemma sumZ_app l k : sumZ (l ++ k) = sumZ l + sumZ k.
Proof. induction l as [|x l IH]; simpl; lia. Qed.

Lemma sumZ_nonneg l : Forall (fun x => 0 <= x) l -> 0 <= sumZ l.
Proof. induction 1; simpl; lia. Qed.

(** An accumulating loop [for (x : l) acc += f x] at 64 bits. *)
Lemma foldl_u64_sum {A} (f : A -> Z) l a :
  foldl (fun acc x => u64 (acc + f x)) (u64 a) l = u64 (a + sumZ (f <$> l)).
Proof.
  revert a. induction l as [|x l IH]; intros a.
  - simpl. by rewrite Z.add_0_r.
  - cbn [foldl]. rewrite u64_add_l, IH, fmap_cons, sumZ_cons.
    f_equal. lia.
Qed.

(** ** [std::lower_bound]

    The halving search of the C++ standard library over a random-access
    range, [p x] standing for [comp (x, value)]; and the partition point it
    computes, as a linear scan. *)

Section lower_bound.
Context {A : Type} (p : A -> bool).

(** [count] is the remaining length, [first] the current iterator. *)
Fixpoint lower_bound_loop (fuel : nat) (l : list A) (first count : nat) : nat :=
  match fuel with
  | O => first
  | S fuel =>
      match count with
      | O => first
      | _ =>
          let half := Nat.div2 count in
          match l !! (first + half)%nat with
          | Some x =>
              if p x
              then lower_bound_loop fuel l (first + half + 1) (count - half - 1)
              else lower_bound_loop fuel l first half
          | None => first
          end
      end
  end.

Definition lower_bound (l : list A) : nat :=
  lower_bound_loop (length l) l 0 (length l).

Fixpoint partition_point (l : list A) : nat :=
  match l with
  | [] => 0
  | x :: l => if p x then S (partition_point l) else 0
  end.

(** The range is partitioned: once [p] fails it keeps failing. *)
Fixpoint partitioned (l : list A) : Prop :=
  match l with
  | [] => True
  | x :: l => (if p x then True else Forall (fun y => p y = false) l) /\ partitioned l
  end.

Lemma partition_point_le l : (partition_point l <= length l)%nat.
Proof. induction l as [|x l IH]; simpl; [lia|]. destruct (p x); lia. Qed.

Lemma partition_point_lookup l i x :
  partitioned l -> l !! i = Some x ->
  p x = true <-> (i < partition_point l)%nat.
Proof.
  revert i. induction l as [|y l IH]; intros i Hp Hi; [done|].
  destruct Hp as [Hy Hp]. destruct i as [|i]; simpl in *.
  - simplify_eq. destruct (p x); split; (done || lia).
  - destruct (p y).
    + rewrite (IH i Hp Hi). lia.
    + rewrite Forall_lookup in Hy. rewrite (Hy i x Hi). split; [done|lia].
Qed.

Lemma lower_bound_loop_spec fuel l first count :
  partitioned l -> (count <= fuel)%nat -> (first + count <= length l)%nat ->
  (first <= partition_point l <= first + count)%nat ->
  lower_bound_loop fuel l first count = partition_point l.
Proof.
  intros Hp. revert first count.
  induction fuel as [|fuel IH]; intros first count Hf Hl Hb;
    cbn [lower_bound_loop]; [lia|].
  destruct count as [|c]; [lia|].
  assert (Nat.div2 (S c) < S c)%nat as Hhalf by (apply Nat.lt_div2; lia).
  revert Hhalf Hf Hl Hb. generalize (S c). intros count.
  generalize (Nat.div2 count). intros half Hhalf Hf Hl Hb.
  destruct (l !! (first + half)%nat) as [x|] eqn:Hx.
  2: { apply lookup_ge_None in Hx. lia. }
  pose proof (partition_point_lookup l _ x Hp Hx) as Hiff.
  destruct (p x).
  - destruct Hiff as [Hiff _]. specialize (Hiff eq_refl). apply IH; lia.
  - destruct Hiff as [_ Hiff].
    assert (~ (first + half < partition_point l)%nat) as Hn.
    { intros H. by specialize (Hiff H). }
    apply IH; lia.
Qed.

(** The binary search finds the partition point. *)
Lemma lower_bound_spec l :
  partitioned l -> lower_bound l = partition_point l.
Proof.
  intros Hp. pose proof (partition_point_le l).
  apply lower_bound_loop_spec; [done|lia..].
Qed.

Lemma partition_point_split l :
  partitioned l ->
  exists pre suf, l = pre ++ suf /\ partition_point l = length pre /\
    Forall (fun x => p x = true) pre /\ Forall (fun x => p x = false) suf.
Proof.
  induction l as [|x l IH]; simpl.
  - intros _. exists [], []. eauto.
  - intros [Hx Hp]. destruct (p x) eqn:E.
    + destruct (IH Hp) as (pre & suf & -> & Hl & Hpre & Hsuf).
      exists (x :: pre), suf. simpl. rewrite Hl. eauto.
    + exists [], (x :: l). simpl. eauto.
Qed.

End lower_bound.

(** [vector::insert (begin + i, x)] and [vector::erase (begin + i)]. *)
Definition insert_at {A} (i : nat) (x : A) (l : list A) : list A :=
  take i l ++ x :: drop i l.

Lemma insert_at_app {A} (pre suf : list A) x :
  insert_at (length pre) x (pre ++ suf) = pre ++ x :: suf.
Proof. unfold insert_at. by rewrite take_app_length, drop_app_length. Qed.

(** Case analysis on the boolean comparison the goal branches on. *)
Ltac zcase :=
  match goal with
  | |- context [?a <? ?b] => destruct (Z.ltb_spec a b)
  | |- context [?a <=? ?b] => destruct (Z.leb_spec a b)
  | |- context [?a =? ?b] => destruct (Z.eqb_spec a b)
  | H : context [?a <? ?b] |- _ => destruct (Z.ltb_spec a b)
  | H : context [?a <=? ?b] |- _ => destruct (Z.leb_spec a b)
  | H : context [?a =? ?b] |- _ => destruct (Z.eqb_spec a b)
  end.
