(* ===== verification/Types.v ===== *)
(** The plain data the components exchange: [struct Order] and its enums
    (include/order.h), [struct Trade] (include/trade.h) and the reject
    reasons with their wire codes and names
    (include/ome/reject_reason.hpp). *)
From stdpp Require Import base list strings.
From Stdlib Require Import ZArith.
From S2P Require Import Prelude.

(** ** Orders (include/order.h) *)

Inductive Side := BID | ASK.
Inductive OrderType := MARKET | LIMIT | CANCEL.

#[export] Instance Side_eq_dec : EqDecision Side.
Proof. solve_decision. Defined.
#[export] Instance OrderType_eq_dec : EqDecision OrderType.
Proof. solve_decision. Defined.

Record Order := mkOrder {
  o_id : Z;
  o_price_ticks : Z;
  o_quantity : Z;
  o_side : Side;
  o_type : OrderType;
  o_timestamp : Z;
}.

#[export] Instance Order_eq_dec : EqDecision Order.
Proof. solve_decision. Defined.

(** Value initialization, [Order o{}]. *)
Definition order0 : Order := mkOrder 0 0 0 BID MARKET 0.

Definition set_quantity (o : Order) (q : Z) : Order :=
  mkOrder (o_id o) (o_price_ticks o) q (o_side o) (o_type o) (o_timestamp o).

(** The factory of the tests and the demo: the function-local counter
    [next_id] is an argument and a result. *)
Definition order_make (next_id price_ticks quantity : Z) (side : Side) (type : OrderType)
    (timestamp : Z) : Order * Z :=
  (mkOrder next_id price_ticks quantity side type timestamp, u64 (next_id + 1)).

(** An order a client of the book may hand in: the fields fit their widths. *)
Definition order_ok (o : Order) : Prop :=
  is_u64 (o_id o) /\ is_i64 (o_price_ticks o) /\ is_u32 (o_quantity o) /\
  is_u64 (o_timestamp o).

(** ** Trades (include/trade.h) *)

Record Trade := mkTrade {
  t_buyer_id : Z;
  t_seller_id : Z;
  t_price_ticks : Z;
  t_quantity : Z;
  t_timestamp : Z;
}.

#[export] Instance Trade_eq_dec : EqDecision Trade.
Proof. solve_decision. Defined.

(** ** Reject reasons (include/ome/reject_reason.hpp)

    The enum has a fixed underlying type, so any 16-bit code is a value of
    it; the codes without a name are [UNRECOGNIZED]. *)

Inductive RejectReason :=
  | NONE | UNKNOWN_ORDER | INVALID_PRICE | INVALID_QTY | DUPLICATE_ORDER_ID
  | RISK_MAX_ORDER_SIZE | RISK_PRICE_BAND
  | MALFORMED | RATE_LIMITED | NOT_SUBSCRIBED | UNKNOWN_MESSAGE_TYPE | NOT_IMPLEMENTED
  | UNRECOGNIZED (code : Z).

#[export] Instance RejectReason_eq_dec : EqDecision RejectReason.
Proof. solve_decision. Defined.

(** [static_cast<std::uint16_t>(r)]. *)
Definition reason_code (r : RejectReason) : Z :=
  match r with
  | NONE => 0
  | UNKNOWN_ORDER => 1
  | INVALID_PRICE => 2
  | INVALID_QTY => 3
  | DUPLICATE_ORDER_ID => 9
  | RISK_MAX_ORDER_SIZE => 4
  | RISK_PRICE_BAND => 5
  | MALFORMED => 6
  | RATE_LIMITED => 7
  | NOT_SUBSCRIBED => 8
  | UNKNOWN_MESSAGE_TYPE => 10
  | NOT_IMPLEMENTED => 11
  | UNRECOGNIZED c => c
  end.

(** [static_cast<RejectReason>(code)]. *)
Definition reason_of_code (c : Z) : RejectReason :=
  match c with
  | 0 => NONE
  | 1 => UNKNOWN_ORDER
  | 2 => INVALID_PRICE
  | 3 => INVALID_QTY
  | 4 => RISK_MAX_ORDER_SIZE
  | 5 => RISK_PRICE_BAND
  | 6 => MALFORMED
  | 7 => RATE_LIMITED
  | 8 => NOT_SUBSCRIBED
  | 9 => DUPLICATE_ORDER_ID
  | 10 => UNKNOWN_MESSAGE_TYPE
  | 11 => NOT_IMPLEMENTED
  | _ => UNRECOGNIZED c
  end.

Definition reason_to_string (r : RejectReason) : string :=
  match r with
  | NONE => "NONE"
  | UNKNOWN_ORDER => "UNKNOWN_ORDER"
  | INVALID_PRICE => "INVALID_PRICE"
  | INVALID_QTY => "INVALID_QTY"
  | RISK_MAX_ORDER_SIZE => "RISK_MAX_ORDER_SIZE"
  | RISK_PRICE_BAND => "RISK_PRICE_BAND"
  | MALFORMED => "MALFORMED"
  | RATE_LIMITED => "RATE_LIMITED"
  | NOT_SUBSCRIBED => "NOT_SUBSCRIBED"
  | DUPLICATE_ORDER_ID => "DUPLICATE_ORDER_ID"
  | UNKNOWN_MESSAGE_TYPE => "UNKNOWN_MESSAGE_TYPE"
  | NOT_IMPLEMENTED => "NOT_IMPLEMENTED"
  | UNRECOGNIZED _ => "UNRECOGNIZED"
  end.

(** A reason as the enum holds it: 16 bits, and a named code is never
    carried by [UNRECOGNIZED]. *)
Definition reason_ok (r : RejectReason) : Prop :=
  is_u16 (reason_code r) /\ reason_of_code (reason_code r) = r.

Lemma reason_of_code_code c : reason_code (reason_of_code c) = c.
Proof.
  destruct c as [|p|p]; [done| |done].
  do 4 (destruct p as [p|p|]; try reflexivity).
Qed.

Lemma reason_of_code_ok c : is_u16 c -> reason_ok (reason_of_code c).
Proof. intros H. split; by rewrite reason_of_code_code. Qed.
