(* ===== verification/OrderBook.v ===== *)
(** The limit order book (include/order_book/order_book.hpp,
    src/order_book.cpp): two vectors of price levels sorted best first, a
    FIFO of orders per level with a cached quantity, and the id to location
    map. This file holds the data and every operation; the invariant and the
    refinement of the operations to priority queues are in BookFacts.v. *)
From stdpp Require Import base list gmap strings pretty.
From Stdlib Require Import ZArith Lia.
From S2P Require Import Prelude Types.

Record PriceLevel := mkLevel {
  lvl_price_ticks : Z;
  total_qty : Z;
  orders : list Order;
}.

Record OrderBook := mkBook {
  bids_ : list PriceLevel;
  asks_ : list PriceLevel;
  order_loc_ : gmap Z (Side * Z);
}.

Definition empty_book : OrderBook := mkBook [] [] ∅.

(** The vector of one side, and its replacement. *)
Definition levels (s : Side) (b : OrderBook) : list PriceLevel :=
  match s with BID => bids_ b | ASK => asks_ b end.

Definition with_levels (s : Side) (ls : list PriceLevel) (b : OrderBook) : OrderBook :=
  match s with
  | BID => mkBook ls (asks_ b) (order_loc_ b)
  | ASK => mkBook (bids_ b) ls (order_loc_ b)
  end.

Definition with_loc (m : gmap Z (Side * Z)) (b : OrderBook) : OrderBook :=
  mkBook (bids_ b) (asks_ b) m.

Definition opposite (s : Side) : Side := match s with BID => ASK | ASK => BID end.

(** The comparators handed to [std::lower_bound]: bids descending, asks
    ascending. *)
Definition level_before (s : Side) (p : Z) (pl : PriceLevel) : bool :=
  match s with
  | BID => p <? lvl_price_ticks pl
  | ASK => lvl_price_ticks pl <? p
  end.

Definition find_level (s : Side) (p : Z) (ls : list PriceLevel) : nat :=
  lower_bound (level_before s p) ls.

(** ** addOrder *)

Definition add_to_side (s : Side) (o : Order) (ls : list PriceLevel) : list PriceLevel :=
  let price := o_price_ticks o in
  let qty := o_quantity o in
  let it := find_level s price ls in
  match ls !! it with
  | Some pl =>
      if lvl_price_ticks pl =? price
      then <[it := mkLevel (lvl_price_ticks pl) (u64 (total_qty pl + qty)) (orders pl ++ [o])]> ls
      else insert_at it (mkLevel price qty [o]) ls
  | None => insert_at it (mkLevel price qty [o]) ls
  end.

Definition addOrder (o : Order) (b : OrderBook) : OrderBook :=
  match o_type o with
  | LIMIT =>
      let s := o_side o in
      let b := with_levels s (add_to_side s o (levels s b)) b in
      with_loc (<[o_id o := (s, o_price_ticks o)]> (order_loc_ b)) b
  | _ => b
  end.

(** ** cancelOrder *)

(** The scan of one level for [id]: the order found, and the deque without it. *)
Fixpoint remove_id (id : Z) (os : list Order) : option (Order * list Order) :=
  match os with
  | [] => None
  | o :: os =>
      if o_id o =? id then Some (o, os)
      else match remove_id id os with
           | Some (x, os) => Some (x, o :: os)
           | None => None
           end
  end.

(** The lambda [erase_from]: [None] where it returns false. *)
Definition erase_from (s : Side) (price id : Z) (ls : list PriceLevel)
    : option (list PriceLevel) :=
  let it := find_level s price ls in
  match ls !! it with
  | Some pl =>
      if lvl_price_ticks pl =? price then
        match remove_id id (orders pl) with
        | Some (o, dq) =>
            match dq with
            | [] => Some (delete it ls)
            | _ => Some (<[it := mkLevel (lvl_price_ticks pl)
                                  (u64 (total_qty pl - o_quantity o)) dq]> ls)
            end
        | None => None
        end
      else None
  | None => None
  end.

Definition cancelOrder (id : Z) (b : OrderBook) : bool * OrderBook :=
  match order_loc_ b !! id with
  | None => (false, b)
  | Some (s, price) =>
      match erase_from s price id (levels s b) with
      | Some ls => (true, with_loc (delete id (order_loc_ b)) (with_levels s ls b))
      | None => (false, b)
      end
  end.

(** ** Crossing *)

Definition is_crossed (b : OrderBook) : bool :=
  match bids_ b, asks_ b with
  | bl :: _, al :: _ => lvl_price_ticks al <=? lvl_price_ticks bl
  | _, _ => false
  end.

(** [qty] leaves the front order of the front level; at zero the order is
    popped and an emptied level erased. The result also says which id, if
    any, left the book. *)
Definition fill_front (qty : Z) (ls : list PriceLevel) : list PriceLevel * option Z :=
  match ls with
  | pl :: ls' =>
      match orders pl with
      | o :: dq =>
          let q := u32 (o_quantity o - qty) in
          let total := u64 (total_qty pl - qty) in
          if q =? 0 then
            match dq with
            | [] => (ls', Some (o_id o))
            | _ => (mkLevel (lvl_price_ticks pl) total dq :: ls', Some (o_id o))
            end
          else (mkLevel (lvl_price_ticks pl) total (set_quantity o q :: dq) :: ls', None)
      | [] => (ls, None)
      end
  | [] => (ls, None)
  end.

(** [order_loc_.erase(id)] for an order that left. *)
Definition loc_erase (oid : option Z) (m : gmap Z (Side * Z)) : gmap Z (Side * Z) :=
  match oid with Some i => delete i m | None => m end.

Definition front_order (ls : list PriceLevel) : option Order :=
  match ls with
  | pl :: _ => match orders pl with o :: _ => Some o | [] => None end
  | [] => None
  end.

(** [None] where the source returns false. *)
Definition execute_top_cross (b : OrderBook) : option (Trade * OrderBook) :=
  if is_crossed b then
    match front_order (bids_ b), front_order (asks_ b) with
    | Some bid, Some ask =>
        let qty := Z.min (o_quantity bid) (o_quantity ask) in
        let trade := mkTrade (o_id bid) (o_id ask) (o_price_ticks ask) qty
                       (Z.max (o_timestamp bid) (o_timestamp ask)) in
        let '(bids, bid_gone) := fill_front qty (bids_ b) in
        let '(asks, ask_gone) := fill_front qty (asks_ b) in
        Some (trade, mkBook bids asks (loc_erase ask_gone (loc_erase bid_gone (order_loc_ b))))
    | _, _ => None
    end
  else None.

(** ** match_market *)

(** Resting orders, the bound on the iterations of the matching loops: every
    iteration pops an order or exhausts the aggressor. *)
Definition flat (ls : list PriceLevel) : list Order := ls ≫= orders.

Definition market_trade (market_order_id : Z) (side : Side) (take ts : Z) (o : Order) : Trade :=
  match side with
  | BID => mkTrade market_order_id (o_id o) (o_price_ticks o) take (Z.max ts (o_timestamp o))
  | ASK => mkTrade (o_id o) market_order_id (o_price_ticks o) take (Z.max ts (o_timestamp o))
  end.

(** One of the two while loops, over the passive side's vector. *)
Fixpoint match_loop (fuel : nat) (id : Z) (side : Side) (ts : Z)
    (q : Z) (ls : list PriceLevel) (loc : gmap Z (Side * Z)) (trades : list Trade)
    : Z * list PriceLevel * gmap Z (Side * Z) * list Trade :=
  match fuel with
  | O => (q, ls, loc, trades)
  | S fuel =>
      if (0 <? q) then
        match front_order ls with
        | Some o =>
            let take := Z.min q (o_quantity o) in
            let '(ls', gone) := fill_front take ls in
            match_loop fuel id side ts (u32 (q - take)) ls' (loc_erase gone loc)
              (trades ++ [market_trade id side take ts o])
        | None => (q, ls, loc, trades)
        end
      else (q, ls, loc, trades)
  end.

(** The passive side is the opposite of the aggressor's. The result is
    [quantity_io], the book and [trades_out]. *)
Definition match_market (id : Z) (side : Side) (quantity_io ts : Z) (b : OrderBook)
    (trades_out : list Trade) : Z * OrderBook * list Trade :=
  let ls := levels (opposite side) b in
  let '(q, ls', loc, trades) :=
    match_loop (S (length (flat ls))) id side ts quantity_io ls (order_loc_ b) trades_out in
  (q, with_loc loc (with_levels (opposite side) ls' b), trades).

(** ** LOBSTER entry points *)

(** The while loop over the level's deque. The boolean is false on the
    "insufficient size" exit. *)
Fixpoint reduce_loop (fuel : nat) (remaining total : Z) (os : list Order)
    (loc : gmap Z (Side * Z)) : bool * Z * list Order * gmap Z (Side * Z) :=
  match fuel with
  | O => (false, total, os, loc)
  | S fuel =>
      if 0 <? remaining then
        match os with
        | [] => (false, total, os, loc)
        | o :: dq =>
            let take := Z.min remaining (o_quantity o) in
            let q := u32 (o_quantity o - take) in
            let total := u64 (total - take) in
            let remaining := u32 (remaining - take) in
            if q =? 0
            then reduce_loop fuel remaining total dq (delete (o_id o) loc)
            else reduce_loop fuel remaining total (set_quantity o q :: dq) loc
        end
      else (true, total, os, loc)
  end.

Definition sum_quantity (os : list Order) : Z :=
  foldl (fun acc o => u64 (acc + o_quantity o)) 0 os.

Definition reduce_level_after_lobster_execution (passive_side : Side) (price traded_size : Z)
    (allow_missing_level : bool) (b : OrderBook) : bool * OrderBook :=
  if traded_size =? 0 then (true, b) else
  let book := levels passive_side b in
  let it := find_level passive_side price book in
  match book !! it with
  | Some pl =>
      if lvl_price_ticks pl =? price then
        if sum_quantity (orders pl) <? traded_size then (false, b) else
        let '(ok, total, os, loc) :=
          reduce_loop (S (length (orders pl))) traded_size (total_qty pl) (orders pl)
            (order_loc_ b) in
        let book' :=
          match ok, os with
          | true, [] => delete it book
          | _, _ => <[it := mkLevel (lvl_price_ticks pl) total os]> book
          end in
        (ok, with_loc loc (with_levels passive_side book' b))
      else (allow_missing_level, b)
  | None => (allow_missing_level, b)
  end.

(** The range-for of the lambda [touch]: the first order with the id gets the
    new quantity; the result also gives its previous quantity. *)
Fixpoint touch_id (id new_remaining : Z) (os : list Order) : option (Z * list Order) :=
  match os with
  | [] => None
  | o :: os =>
      if o_id o =? id then Some (o_quantity o, set_quantity o new_remaining :: os)
      else match touch_id id new_remaining os with
           | Some (q, os) => Some (q, o :: os)
           | None => None
           end
  end.

Definition touch (s : Side) (price id new_remaining : Z) (ls : list PriceLevel)
    : option (list PriceLevel) :=
  let it := find_level s price ls in
  match ls !! it with
  | Some pl =>
      if lvl_price_ticks pl =? price then
        match touch_id id new_remaining (orders pl) with
        | Some (q, os) =>
            Some (<[it := mkLevel (lvl_price_ticks pl)
                           (u64 (total_qty pl - q + new_remaining)) os]> ls)
        | None => None
        end
      else None
  | None => None
  end.

Definition replace_remaining_quantity (id new_remaining : Z) (b : OrderBook)
    : bool * OrderBook :=
  if new_remaining =? 0 then cancelOrder id b else
  match order_loc_ b !! id with
  | None => (false, b)
  | Some (s, price) =>
      match touch s price id new_remaining (levels s b) with
      | Some ls => (true, with_levels s ls b)
      | None => (false, b)
      end
  end.

(** ** Observers *)

Definition bid_levels_ticks (max_levels : nat) (b : OrderBook) : list (Z * Z) :=
  (fun pl => (lvl_price_ticks pl, total_qty pl)) <$> take max_levels (bids_ b).

Definition ask_levels_ticks (max_levels : nat) (b : OrderBook) : list (Z * Z) :=
  (fun pl => (lvl_price_ticks pl, total_qty pl)) <$> take max_levels (asks_ b).

Definition best_bid_ticks (b : OrderBook) : option Z := lvl_price_ticks <$> head (bids_ b).
Definition best_ask_ticks (b : OrderBook) : option Z := lvl_price_ticks <$> head (asks_ b).

(** FNV-1a, 64 bits. *)
Definition kFnvOffset : Z := 1469598103934665603.
Definition kFnvPrime : Z := 1099511628211.

Definition mix (h v : Z) : Z :=
  foldl (fun h i => u64 (Z.lxor h (Z.land (Z.shiftr v (8 * i)) 255) * kFnvPrime))
    h [0; 1; 2; 3; 4; 5; 6; 7].

Definition digest_side (tag : Z) (ls : list PriceLevel) (h : Z) : Z :=
  let h := mix h tag in
  let h := mix h (Z.of_nat (length ls)) in
  foldl (fun h lvl =>
    let h := mix h (u64 (lvl_price_ticks lvl)) in
    let h := mix h (total_qty lvl) in
    mix h (Z.of_nat (length (orders lvl)))) h ls.

Definition digest (b : OrderBook) : Z :=
  digest_side 2 (asks_ b) (digest_side 1 (bids_ b) kFnvOffset).

(** [debug_dump], its lines concatenated; [pretty] is [std::to_string]. *)
Definition newline : string := String (Ascii.ascii_of_nat 10) "".

Definition dump_level (lvl : PriceLevel) : string :=
  "  ticks=" +:+ pretty (lvl_price_ticks lvl) +:+ " qty=" +:+ pretty (total_qty lvl) +:+
  " orders=" +:+ pretty (Z.of_nat (length (orders lvl))) +:+ newline.

Definition dump_side (title : string) (ls : list PriceLevel) : string :=
  foldl (fun out lvl => out +:+ dump_level lvl) (title +:+ newline) ls.

Definition debug_dump (b : OrderBook) : string :=
  dump_side "BIDS" (bids_ b) +:+ dump_side "ASKS" (asks_ b).

Definition all_orders (b : OrderBook) : list Order := flat (bids_ b) ++ flat (asks_ b).

Definition level_consistent (lvl : PriceLevel) : bool :=
  (sum_quantity (orders lvl) =? total_qty lvl) &&
  match orders lvl with [] => false | _ => true end.

Definition levels_consistent (b : OrderBook) : bool :=
  forallb level_consistent (bids_ b) && forallb level_consistent (asks_ b).
