(* ===== verification/BookFacts.v ===== *)
(** The order book's representation invariant [book_wf], that every operation
    keeps it, and what each operation does to the two priority queues the
    levels stand for ([flat]: a side's orders, best price first and oldest
    first within a price). *)
From stdpp Require Import base list gmap sorting.
From Stdlib Require Import ZArith Lia.
From S2P Require Import Prelude Types OrderBook.

(** ** Priority *)

(** [before s a b]: on side [s], price [a] is strictly better than [b]. *)
Definition before (s : Side) (a b : Z) : Prop :=
  match s with BID => b < a | ASK => a < b end.

Definition beforeb (s : Side) (a b : Z) : bool :=
  match s with BID => b <? a | ASK => a <? b end.

Lemma beforeb_spec s a b : reflect (before s a b) (beforeb s a b).
Proof. destruct s; simpl; apply Z.ltb_spec0. Qed.

Ltac priority := unfold before, beforeb in *; lia.

Lemma beforeb_true s a b : before s a b -> beforeb s a b = true.
Proof. by destruct (beforeb_spec s a b). Qed.
Lemma beforeb_false s a b : ~ before s a b -> beforeb s a b = false.
Proof. by destruct (beforeb_spec s a b). Qed.

Lemma level_before_eq s p pl : level_before s p pl = beforeb s (lvl_price_ticks pl) p.
Proof. by destruct s. Qed.

Lemma before_trans s a b c : before s a b -> before s b c -> before s a c.
Proof. destruct s; priority. Qed.
Lemma before_irrefl s a : ~ before s a a.
Proof. destruct s; priority. Qed.
Lemma before_total s a b : before s a b \/ a = b \/ before s b a.
Proof. destruct s; priority. Qed.
#[export] Hint Resolve beforeb_true beforeb_false before_trans before_irrefl : ome.

(** ** Well-formed sides *)

Definition qsum (os : list Order) : Z := sumZ (o_quantity <$> os).

Definition resting (s : Side) (p : Z) (o : Order) : Prop :=
  o_price_ticks o = p /\ o_side o = s /\ o_type o = LIMIT /\ is_u32 (o_quantity o).

Definition level_wf (s : Side) (pl : PriceLevel) : Prop :=
  orders pl <> [] /\ total_qty pl = u64 (qsum (orders pl)) /\
  Forall (resting s (lvl_price_ticks pl)) (orders pl).

Definition level_lt (s : Side) (a b : PriceLevel) : Prop :=
  before s (lvl_price_ticks a) (lvl_price_ticks b).

Definition side_wf (s : Side) (ls : list PriceLevel) : Prop :=
  StronglySorted (level_lt s) ls /\ Forall (level_wf s) ls.

(** What the location map records of an order. *)
Definition key (o : Order) : Z * (Side * Z) := (o_id o, (o_side o, o_price_ticks o)).

Definition book_wf (b : OrderBook) : Prop :=
  side_wf BID (bids_ b) /\ side_wf ASK (asks_ b) /\
  NoDup (o_id <$> all_orders b) /\
  order_loc_ b = list_to_map (key <$> all_orders b).

Lemma qsum_cons o os : qsum (o :: os) = o_quantity o + qsum os.
Proof. reflexivity. Qed.
Lemma qsum_app l k : qsum (l ++ k) = qsum l + qsum k.
Proof. unfold qsum. by rewrite fmap_app, sumZ_app. Qed.

Lemma sum_quantity_eq os : sum_quantity os = u64 (qsum os).
Proof. unfold sum_quantity. apply (foldl_u64_sum o_quantity os 0). Qed.

Lemma level_wf_consistent s pl : level_wf s pl -> level_consistent pl = true.
Proof.
  intros (Hne & Ht & _). unfold level_consistent.
  rewrite sum_quantity_eq, Ht, Z.eqb_refl. by destruct (orders pl).
Qed.

(** ** Flattening *)

Lemma flat_app l k : flat (l ++ k) = flat l ++ flat k.
Proof. apply bind_app. Qed.
Lemma flat_cons pl l : flat (pl :: l) = orders pl ++ flat l.
Proof. reflexivity. Qed.

Lemma Forall_flat (P : Order -> Prop) (Q : PriceLevel -> Prop) s ls :
  Forall (level_wf s) ls -> Forall Q ls ->
  (forall pl o, Q pl -> resting s (lvl_price_ticks pl) o -> P o) ->
  Forall P (flat ls).
Proof.
  intros Hwf HQ HP. induction ls as [|pl ls IH]; [constructor|].
  apply Forall_cons in Hwf as [(_ & _ & Hr) Hwf]. apply Forall_cons in HQ as [Hq HQ].
  rewrite flat_cons. apply Forall_app. split; [|auto].
  eapply Forall_impl; eauto.
Qed.

Lemma side_wf_nil s : side_wf s [].
Proof. split; constructor. Qed.

Lemma side_wf_cons_inv s pl ls :
  side_wf s (pl :: ls) ->
  level_wf s pl /\ side_wf s ls /\ Forall (level_lt s pl) ls.
Proof.
  intros [Hs Hf]. apply StronglySorted_inv in Hs as [Hs Hlt].
  apply Forall_cons in Hf as [Hpl Hf]. done.
Qed.

Lemma side_wf_cons s pl ls :
  level_wf s pl -> side_wf s ls -> Forall (level_lt s pl) ls -> side_wf s (pl :: ls).
Proof. intros Hpl [Hs Hf] Hlt. split; constructor; done. Qed.

Lemma side_wf_app s l k :
  side_wf s (l ++ k) <->
  side_wf s l /\ side_wf s k /\ (forall a b, a ∈ l -> b ∈ k -> level_lt s a b).
Proof.
  induction l as [|pl l IH]; simpl.
  - split; [|by intros (_ & ? & _)]. intros H.
    split; [apply side_wf_nil|]. split; [done|]. set_solver.
  - split.
    + intros (Hpl & Hw & Hlt)%side_wf_cons_inv.
      apply IH in Hw as (Hl & Hk & Hlk). apply Forall_app in Hlt as [Hltl Hltk].
      split; [by apply side_wf_cons|]. split; [done|].
      intros a b [->|Ha]%elem_of_cons Hb; [|by apply Hlk].
      by rewrite Forall_forall in Hltk; apply Hltk.
    + intros ((Hpl & Hl & Hlt)%side_wf_cons_inv & Hk & Hlk).
      apply side_wf_cons; [done| |].
      * apply IH. split; [done|]. split; [done|].
        intros a b Ha Hb. apply Hlk; [by right|done].
      * apply Forall_app. split; [done|]. apply Forall_forall.
        intros b Hb. apply Hlk; [by left|done].
Qed.

(** ** What [find_level] finds *)

Inductive level_view (s : Side) (p : Z) (ls : list PriceLevel) : Prop :=
| LvFound pre pl suf :
    ls = pre ++ pl :: suf -> find_level s p ls = length pre ->
    lvl_price_ticks pl = p ->
    Forall (fun l => before s (lvl_price_ticks l) p) pre ->
    Forall (fun l => before s p (lvl_price_ticks l)) suf -> level_view s p ls
| LvMissing pre suf :
    ls = pre ++ suf -> find_level s p ls = length pre ->
    Forall (fun l => before s (lvl_price_ticks l) p) pre ->
    Forall (fun l => before s p (lvl_price_ticks l)) suf -> level_view s p ls.

Lemma sorted_partitioned s p ls :
  StronglySorted (level_lt s) ls -> partitioned (level_before s p) ls.
Proof.
  induction 1 as [|pl ls Hs IH Hlt]; simpl; [done|]. split; [|done].
  rewrite level_before_eq. destruct (beforeb_spec s (lvl_price_ticks pl) p) as [H|H]; [done|].
  eapply Forall_impl; [exact Hlt|]. intros l Hl. simpl in Hl.
  rewrite level_before_eq. apply beforeb_false. intros Hb. apply H.
  by eapply before_trans.
Qed.

Lemma find_level_view s p ls : side_wf s ls -> level_view s p ls.
Proof.
  intros [Hs Hf]. pose proof (sorted_partitioned s p ls Hs) as Hp.
  destruct (partition_point_split _ ls Hp) as (pre & suf & -> & Hpp & Hpre & Hsuf).
  assert (find_level s p (pre ++ suf) = length pre) as Hfind.
  { unfold find_level. by rewrite lower_bound_spec. }
  assert (Forall (fun l => before s (lvl_price_ticks l) p) pre) as Hpre'.
  { eapply Forall_impl; [exact Hpre|]. intros l. simpl. rewrite level_before_eq.
    by destruct (beforeb_spec s (lvl_price_ticks l) p). }
  destruct suf as [|pl suf]; [by eapply LvMissing|].
  apply Forall_cons in Hsuf as [Hpl _].
  assert (side_wf s (pre ++ pl :: suf)) as Hw by done.
  apply side_wf_app in Hw as (_ & (_ & _ & Hlt)%side_wf_cons_inv & _).
  rewrite level_before_eq in Hpl.
  destruct (beforeb_spec s (lvl_price_ticks pl) p) as [|Hnb]; [done|].
  destruct (before_total s (lvl_price_ticks pl) p) as [?|[Heq|Hb]]; [done| |].
  - eapply LvFound; eauto. eapply Forall_impl; [exact Hlt|].
    unfold level_lt. intros l. by rewrite Heq.
  - eapply LvMissing; eauto. constructor; [done|].
    eapply Forall_impl; [exact Hlt|]. unfold level_lt. intros l. by apply before_trans.
Qed.

Lemma lookup_mid {A} (pre : list A) x suf : (pre ++ x :: suf) !! length pre = Some x.
Proof. by rewrite list_lookup_middle. Qed.

Lemma insert_mid {A} (pre : list A) x y suf :
  <[length pre := y]> (pre ++ x :: suf) = pre ++ y :: suf.
Proof. by rewrite insert_app_r_alt, Nat.sub_diag. Qed.

Lemma delete_mid {A} (pre : list A) x suf :
  delete (length pre) (pre ++ x :: suf) = pre ++ suf.
Proof. by rewrite delete_middle. Qed.

(** Replacing one level by another of the same price keeps the side sorted. *)
Lemma side_wf_replace s pre pl pl' suf :
  side_wf s (pre ++ pl :: suf) -> lvl_price_ticks pl' = lvl_price_ticks pl ->
  level_wf s pl' -> side_wf s (pre ++ pl' :: suf).
Proof.
  intros Hw Hp Hl. apply side_wf_app in Hw as (Hpre & (_ & Hsuf & Hlt)%side_wf_cons_inv & Hx).
  apply side_wf_app. split; [done|]. split.
  - apply side_wf_cons; [done..|]. unfold level_lt in *. by rewrite Hp.
  - intros a b Ha Hb. apply elem_of_cons in Hb as [->|Hb].
    + unfold level_lt. rewrite Hp. apply Hx; [done|by left].
    + apply Hx; [done|by right].
Qed.

Lemma side_wf_remove s pre pl suf :
  side_wf s (pre ++ pl :: suf) -> side_wf s (pre ++ suf).
Proof.
  intros Hw. apply side_wf_app in Hw as (Hpre & (_ & Hsuf & Hlt)%side_wf_cons_inv & Hx).
  apply side_wf_app. split; [done|]. split; [done|].
  intros a b Ha Hb. apply Hx; [done|by right].
Qed.

Lemma side_wf_insert s pre pl suf :
  side_wf s (pre ++ suf) -> level_wf s pl ->
  Forall (fun l => before s (lvl_price_ticks l) (lvl_price_ticks pl)) pre ->
  Forall (fun l => before s (lvl_price_ticks pl) (lvl_price_ticks l)) suf ->
  side_wf s (pre ++ pl :: suf).
Proof.
  intros Hw Hpl Hp Hs. apply side_wf_app in Hw as (Hpre & Hsuf & Hx).
  apply side_wf_app. split; [done|]. split; [by apply side_wf_cons|].
  intros a b Ha [->|Hb]%elem_of_cons; [|by apply Hx].
  by rewrite Forall_forall in Hp; apply Hp.
Qed.

(** ** addOrder on one side *)

(** The reference: behind every order of a price at least as good. *)
Fixpoint insert_prio (s : Side) (o : Order) (l : list Order) : list Order :=
  match l with
  | [] => [o]
  | x :: l' =>
      if beforeb s (o_price_ticks o) (o_price_ticks x) then o :: x :: l'
      else x :: insert_prio s o l'
  end.

Lemma insert_prio_app s o l k :
  Forall (fun x => ~ before s (o_price_ticks o) (o_price_ticks x)) l ->
  insert_prio s o (l ++ k) = l ++ insert_prio s o k.
Proof.
  induction 1 as [|x l Hx _ IH]; simpl; [done|].
  rewrite beforeb_false by done. by rewrite IH.
Qed.

Lemma insert_prio_front s o l :
  Forall (fun x => before s (o_price_ticks o) (o_price_ticks x)) l ->
  insert_prio s o l = o :: l.
Proof. destruct 1; simpl; [done|]. by rewrite beforeb_true. Qed.

Lemma insert_prio_perm s o l : insert_prio s o l ≡ₚ o :: l.
Proof.
  induction l as [|x l IH]; simpl; [done|].
  destruct (beforeb s _ _); [done|]. rewrite IH. apply Permutation_swap.
Qed.

(** The level past the insertion point has another price. *)
Lemma missing_lookup s p pre suf pl :
  Forall (fun l => before s p (lvl_price_ticks l)) suf ->
  (pre ++ suf) !! length pre = Some pl -> (lvl_price_ticks pl =? p) = false.
Proof.
  intros Hsuf. rewrite lookup_app_r, Nat.sub_diag by done.
  destruct suf as [|x suf]; [done|]. intros [= ->].
  apply Forall_cons in Hsuf as [Hb _]. apply Z.eqb_neq. intros <-.
  by eapply before_irrefl.
Qed.

Lemma add_to_side_found s o pre pl suf :
  find_level s (o_price_ticks o) (pre ++ pl :: suf) = length pre ->
  lvl_price_ticks pl = o_price_ticks o ->
  add_to_side s o (pre ++ pl :: suf) =
  pre ++ mkLevel (lvl_price_ticks pl) (u64 (total_qty pl + o_quantity o)) (orders pl ++ [o])
      :: suf.
Proof.
  intros Hf Hp. unfold add_to_side.
  by rewrite Hf, lookup_mid, Hp, Z.eqb_refl, insert_mid.
Qed.

Lemma add_to_side_missing s o pre suf :
  find_level s (o_price_ticks o) (pre ++ suf) = length pre ->
  Forall (fun l => before s (o_price_ticks o) (lvl_price_ticks l)) suf ->
  add_to_side s o (pre ++ suf) =
  pre ++ mkLevel (o_price_ticks o) (o_quantity o) [o] :: suf.
Proof.
  intros Hf Hsuf. unfold add_to_side. rewrite Hf, insert_at_app.
  destruct (_ !! _) as [pl|] eqn:Hl; [|done].
  by rewrite (missing_lookup _ _ _ _ _ Hsuf Hl).
Qed.

(** In priority order, what precedes, shares and follows a price. *)
Lemma flat_before s p ls :
  Forall (level_wf s) ls -> Forall (fun l => before s (lvl_price_ticks l) p) ls ->
  Forall (fun x => ~ before s p (o_price_ticks x)) (flat ls).
Proof.
  intros Hw Hb. eapply Forall_flat; [done..|]. intros l x Hl (-> & _) Hc.
  by eapply before_irrefl, before_trans.
Qed.

Lemma flat_after s p ls :
  Forall (level_wf s) ls -> Forall (fun l => before s p (lvl_price_ticks l)) ls ->
  Forall (fun x => before s p (o_price_ticks x)) (flat ls).
Proof. intros Hw Hb. eapply Forall_flat; [done..|]. by intros l x Hl (-> & _). Qed.

Lemma level_wf_new s o :
  o_side o = s -> o_type o = LIMIT -> is_u32 (o_quantity o) ->
  level_wf s (mkLevel (o_price_ticks o) (o_quantity o) [o]).
Proof.
  intros Hs Ht Hq. split; [done|]. simpl. split; [|by apply Forall_singleton].
  rewrite qsum_cons. unfold qsum. simpl. rewrite Z.add_0_r, u64_id; [done|]. zwlia.
Qed.

Lemma level_wf_push s o pl :
  level_wf s pl -> lvl_price_ticks pl = o_price_ticks o ->
  o_side o = s -> o_type o = LIMIT -> is_u32 (o_quantity o) ->
  level_wf s (mkLevel (lvl_price_ticks pl) (u64 (total_qty pl + o_quantity o))
                (orders pl ++ [o])).
Proof.
  intros (Hne & Htot & Hres) Hp Hs Ht Hq. split; [by destruct (orders pl)|]. simpl. split.
  - rewrite qsum_app, qsum_cons, Htot, u64_add_l. f_equal. unfold qsum. simpl. lia.
  - apply Forall_app. split; [done|]. by apply Forall_singleton.
Qed.

Lemma add_to_side_spec s o ls :
  side_wf s ls -> o_side o = s -> o_type o = LIMIT -> is_u32 (o_quantity o) ->
  side_wf s (add_to_side s o ls) /\ flat (add_to_side s o ls) = insert_prio s o (flat ls).
Proof.
  intros Hw Hs Ht Hq. pose proof Hw as [_ Hf].
  destruct (find_level_view s (o_price_ticks o) ls Hw)
    as [pre pl suf -> Hfind Hp Hpre Hsuf | pre suf -> Hfind Hpre Hsuf].
  - rewrite add_to_side_found by done.
    apply Forall_app in Hf as [Hfpre [Hpl Hfsuf]%Forall_cons]. split.
    + eapply side_wf_replace; [exact Hw|done|]. by apply level_wf_push.
    + rewrite !flat_app, !flat_cons. simpl.
      rewrite insert_prio_app, insert_prio_app, insert_prio_front;
        [by rewrite <- app_assoc|by apply flat_after| |by apply flat_before].
      destruct Hpl as (_ & _ & Hres). eapply Forall_impl; [exact Hres|].
      intros x (-> & _). rewrite Hp. apply before_irrefl.
  - rewrite add_to_side_missing by done.
    apply Forall_app in Hf as [Hfpre Hfsuf]. split.
    + apply side_wf_insert; [done| |done..]. by apply level_wf_new.
    + rewrite !flat_app, flat_cons.
      rewrite insert_prio_app, insert_prio_front; [done|by apply flat_after|by apply flat_before].
Qed.

(** ** Removal from one side *)

Lemma remove_id_some id os o dq :
  remove_id id os = Some (o, dq) ->
  exists l1 l2, os = l1 ++ o :: l2 /\ dq = l1 ++ l2 /\ o_id o = id.
Proof.
  revert dq. induction os as [|x os IH]; simpl; intros dq; [done|].
  destruct (Z.eqb_spec (o_id x) id) as [Hid|Hid].
  - intros [= -> ->]. by exists [], dq.
  - destruct (remove_id id os) as [[y dq']|]; [|done]. intros [= -> <-].
    destruct (IH dq' eq_refl) as (l1 & l2 & -> & -> & ?). by exists (x :: l1), l2.
Qed.

Lemma remove_id_none id os : remove_id id os = None -> Forall (fun o => o_id o <> id) os.
Proof.
  induction os as [|x os IH]; simpl; [constructor|].
  destruct (Z.eqb_spec (o_id x) id); [done|].
  destruct (remove_id id os) as [[y dq]|]; [done|]. constructor; auto.
Qed.

Lemma level_wf_drop s pl l1 o l2 :
  level_wf s pl -> orders pl = l1 ++ o :: l2 -> l1 ++ l2 <> [] ->
  level_wf s (mkLevel (lvl_price_ticks pl) (u64 (total_qty pl - o_quantity o)) (l1 ++ l2)).
Proof.
  intros (_ & Htot & Hres) Ho Hne. split; [done|]. simpl. rewrite Ho in *. split.
  - rewrite Htot, u64_sub_l, !qsum_app, qsum_cons. f_equal. lia.
  - apply Forall_app in Hres as [H1 [_ H2]%Forall_cons]. by apply Forall_app.
Qed.

Lemma erase_from_some s p id ls ls' :
  side_wf s ls -> erase_from s p id ls = Some ls' ->
  side_wf s ls' /\ exists l1 o l2,
    flat ls = l1 ++ o :: l2 /\ flat ls' = l1 ++ l2 /\ o_id o = id.
Proof.
  intros Hw. unfold erase_from. pose proof Hw as [_ Hf].
  destruct (find_level_view s p ls Hw)
    as [pre pl suf -> Hfind Hp Hpre Hsuf | pre suf -> Hfind Hpre Hsuf]; rewrite Hfind.
  2: { destruct (_ !! _) as [pl|] eqn:Hl; [|done].
       by rewrite (missing_lookup _ _ _ _ _ Hsuf Hl). }
  rewrite lookup_mid, Hp, Z.eqb_refl.
  destruct (remove_id id (orders pl)) as [[o dq]|] eqn:Hr; [|done].
  apply remove_id_some in Hr as (l1 & l2 & Ho & -> & Hid).
  apply Forall_app in Hf as [_ [Hpl _]%Forall_cons].
  assert (flat (pre ++ pl :: suf) = (flat pre ++ l1) ++ o :: (l2 ++ flat suf)) as Hflat.
  { rewrite flat_app, flat_cons, Ho, <- !app_assoc. done. }
  destruct (l1 ++ l2) as [|y dq] eqn:Hdq; intros [= <-].
  - rewrite delete_mid. split; [by eapply side_wf_remove|].
    apply app_eq_nil in Hdq as [-> ->].
    exists (flat pre ++ []), o, ([] ++ flat suf). rewrite Hflat, flat_app, app_nil_r. done.
  - rewrite insert_mid. split.
    + rewrite <- Hp, <- Hdq. eapply side_wf_replace; [exact Hw|done|].
      apply level_wf_drop; [done..|by rewrite Hdq].
    + exists (flat pre ++ l1), o, (l2 ++ flat suf). split; [done|]. split; [|done].
      rewrite flat_app, flat_cons. simpl. rewrite app_comm_cons, <- Hdq, <- !app_assoc. done.
Qed.

Lemma erase_from_none s p id ls :
  side_wf s ls -> erase_from s p id ls = None ->
  Forall (fun o => o_price_ticks o = p -> o_id o <> id) (flat ls).
Proof.
  intros Hw. unfold erase_from. pose proof Hw as [_ Hf].
  assert (forall ls', Forall (level_wf s) ls' ->
    Forall (fun l => lvl_price_ticks l <> p) ls' ->
    Forall (fun o => o_price_ticks o = p -> o_id o <> id) (flat ls')) as Hother.
  { intros ls' Hw' Hne. eapply Forall_flat; [done..|]. intros l o Hl (-> & _) Heq. by destruct Hl. }
  assert (forall q ls', Forall (fun l => before s q (lvl_price_ticks l)) ls' ->
    Forall (fun l => lvl_price_ticks l <> q) ls') as Haft.
  { intros q ls' H. eapply Forall_impl; [exact H|]. intros l Hl Heq. simpl in Hl.
    rewrite Heq in Hl. by eapply before_irrefl. }
  assert (forall q ls', Forall (fun l => before s (lvl_price_ticks l) q) ls' ->
    Forall (fun l => lvl_price_ticks l <> q) ls') as Hbef.
  { intros q ls' H. eapply Forall_impl; [exact H|]. intros l Hl Heq. simpl in Hl.
    rewrite Heq in Hl. by eapply before_irrefl. }
  destruct (find_level_view s p ls Hw)
    as [pre pl suf -> Hfind Hp Hpre Hsuf | pre suf -> Hfind Hpre Hsuf]; rewrite Hfind.
  - rewrite lookup_mid, Hp, Z.eqb_refl.
    destruct (remove_id id (orders pl)) as [[o [|y dq]]|] eqn:Hr; [done..|]. intros _.
    apply remove_id_none in Hr. apply Forall_app in Hf as [Hf1 [_ Hf2]%Forall_cons].
    rewrite flat_app, flat_cons, !Forall_app. split; [by auto|]. split; [|by auto].
    eapply Forall_impl; [exact Hr|]. done.
  - intros _. apply Forall_app in Hf as [Hf1 Hf2]. rewrite flat_app, Forall_app. auto.
Qed.

(** ** The front of a side *)

Lemma front_order_flat s ls : side_wf s ls -> front_order ls = head (flat ls).
Proof.
  intros [_ Hf]. destruct ls as [|pl ls]; [done|]. rewrite flat_cons.
  apply Forall_cons in Hf as [(Hne & _ & _) _].
  simpl. by destruct (orders pl).
Qed.

(** [qty] taken from the head order of a queue. *)
Definition consume (qty : Z) (os : list Order) : list Order :=
  match os with
  | [] => []
  | o :: os' =>
      if o_quantity o =? qty then os' else set_quantity o (o_quantity o - qty) :: os'
  end.

(** The order that leaves when [qty] is taken, if one does. *)
Definition consumed (qty : Z) (os : list Order) : option Z :=
  match os with
  | [] => None
  | o :: _ => if o_quantity o =? qty then Some (o_id o) else None
  end.

Lemma level_wf_fill s pl o dq q :
  level_wf s pl -> orders pl = o :: dq -> 0 <= q <= o_quantity o ->
  level_wf s (mkLevel (lvl_price_ticks pl) (u64 (total_qty pl - q))
                (set_quantity o (o_quantity o - q) :: dq)).
Proof.
  intros (_ & Htot & Hres) Ho Hq. rewrite Ho in *.
  apply Forall_cons in Hres as [(Hp & Hs & Ht & Hw) Hres]. split; [done|]. simpl. split.
  - rewrite Htot, u64_sub_l, !qsum_cons. f_equal. simpl. lia.
  - constructor; [|done]. repeat split; simpl; try done; zwlia.
Qed.

Lemma fill_front_spec s qty ls o :
  side_wf s ls -> front_order ls = Some o -> 0 <= qty <= o_quantity o ->
  side_wf s (fill_front qty ls).1 /\ flat (fill_front qty ls).1 = consume qty (flat ls) /\
  (fill_front qty ls).2 = consumed qty (flat ls).
Proof.
  intros Hw Hfr Hq. destruct ls as [|pl ls]; [done|]. rewrite flat_cons. simpl in Hfr |- *.
  destruct (orders pl) as [|x dq] eqn:Ho; [done|]. injection Hfr as ->.
  apply side_wf_cons_inv in Hw as Hw'. destruct Hw' as (Hpl & Hls & Hlt).
  assert (is_u32 (o_quantity o)) as Hoq.
  { destruct Hpl as (_ & _ & Hres). rewrite Ho in Hres.
    by apply Forall_cons in Hres as [(_ & _ & _ & ?) _]. }
  rewrite u32_id by zwlia. simpl.
  destruct (Z.eqb_spec (o_quantity o - qty) 0) as [Hz|Hz].
  - rewrite (proj2 (Z.eqb_eq _ _)) by lia.
    destruct dq as [|y dq]; simpl; [done|]. split; [|done].
    apply (side_wf_replace s [] pl); [done..|].
    replace qty with (o_quantity o) by lia.
    by apply (level_wf_drop s pl [] o (y :: dq)).
  - rewrite (proj2 (Z.eqb_neq _ _)) by lia. simpl. split; [|done].
    apply (side_wf_replace s [] pl); [done..|]. by apply level_wf_fill.
Qed.

(** ** LOBSTER edits on one side *)

(** [n] taken from the front of a queue, whole orders first. *)
Fixpoint take_qty (n : Z) (os : list Order) : list Order :=
  match os with
  | [] => []
  | o :: os' =>
      if 0 <? n then
        if o_quantity o <=? n then take_qty (n - o_quantity o) os'
        else set_quantity o (o_quantity o - n) :: os'
      else o :: os'
  end.

Definition delete_all (ids : list Z) (m : gmap Z (Side * Z)) : gmap Z (Side * Z) :=
  foldl (fun m i => delete i m) m ids.

Lemma reduce_loop_spec fuel n total os m :
  Forall (fun o => is_u32 (o_quantity o)) os ->
  (length os < fuel)%nat -> 0 <= n <= qsum os -> is_u32 n ->
  exists pre, key <$> os = (key <$> pre) ++ (key <$> take_qty n os) /\
    reduce_loop fuel n total os m =
      (true, (if 0 <? n then u64 (total - n) else total), take_qty n os,
       delete_all (o_id <$> pre) m).
Proof.
  revert n total os m. induction fuel as [|fuel IH]; intros n total os m Hos Hf Hn Hw; [lia|].
  cbn [reduce_loop]. destruct (Z.ltb_spec 0 n) as [Hpos|Hz].
  2: { exists []. destruct os as [|o os]; simpl; [done|].
       by rewrite (proj2 (Z.ltb_ge 0 n)) by lia. }
  destruct os as [|o os]; [unfold qsum in Hn; simpl in Hn; lia|].
  apply Forall_cons in Hos as [Ho Hos]. rewrite qsum_cons in Hn. simpl in Hf.
  cbn [take_qty]. rewrite (proj2 (Z.ltb_lt 0 n)) by lia.
  destruct (Z.leb_spec (o_quantity o) n) as [Hle|Hgt].
  - rewrite Z.min_r, Z.sub_diag by done. change (u32 0 =? 0) with true. cbn match.
    rewrite (u32_id (n - o_quantity o)) by zwlia.
    destruct (IH (n - o_quantity o) (u64 (total - o_quantity o)) os (delete (o_id o) m))
      as (pre & Hk & ->); [done|lia|lia|zwlia|].
    exists (o :: pre). split; [by rewrite !fmap_cons, Hk|]. do 3 f_equal.
    destruct (Z.ltb_spec 0 (n - o_quantity o)); [rewrite u64_sub_l; f_equal; lia|].
    f_equal; lia.
  - rewrite Z.min_l, Z.sub_diag by lia.
    rewrite (u32_id (o_quantity o - n)) by zwlia.
    rewrite (proj2 (Z.eqb_neq _ _)) by lia. change (u32 0) with 0.
    exists []. split; [done|]. destruct fuel as [|fuel]; [lia|]. done.
Qed.

Lemma touch_id_some id n os q os' :
  touch_id id n os = Some (q, os') ->
  exists l1 o l2, os = l1 ++ o :: l2 /\ os' = l1 ++ set_quantity o n :: l2 /\
    o_id o = id /\ q = o_quantity o.
Proof.
  revert os'. induction os as [|x os IH]; simpl; intros os'; [done|].
  destruct (Z.eqb_spec (o_id x) id) as [Hid|Hid].
  - intros [= <- <-]. by exists [], x, os.
  - destruct (touch_id id n os) as [[y dq']|]; [|done]. intros [= -> <-].
    destruct (IH dq' eq_refl) as (l1 & o & l2 & -> & -> & ? & ?). by exists (x :: l1), o, l2.
Qed.

Lemma level_wf_set s pl l1 o l2 n :
  level_wf s pl -> orders pl = l1 ++ o :: l2 -> is_u32 n ->
  level_wf s (mkLevel (lvl_price_ticks pl) (u64 (total_qty pl - o_quantity o + n))
                (l1 ++ set_quantity o n :: l2)).
Proof.
  intros (_ & Htot & Hres) Ho Hn. rewrite Ho in *. split; [by destruct l1|]. simpl. split.
  - rewrite Htot. replace (u64 (qsum (l1 ++ o :: l2)) - o_quantity o + n)
      with (u64 (qsum (l1 ++ o :: l2)) + (n - o_quantity o)) by lia.
    rewrite u64_add_l, !qsum_app, !qsum_cons. f_equal. simpl. lia.
  - apply Forall_app in Hres as [H1 [(Hp & Hs & Ht & Hw) H2]%Forall_cons].
    apply Forall_app. split; [done|]. constructor; [|done]. repeat split; simpl; try done; zwlia.
Qed.

(** ** The book: sides and location map together *)

Definition keys (b : OrderBook) : list (Z * (Side * Z)) := key <$> all_orders b.

Lemma key_fst os : (key <$> os).*1 = o_id <$> os.
Proof. rewrite <- list_fmap_compose. done. Qed.

Lemma levels_with_levels s ls b : levels s (with_levels s ls b) = ls.
Proof. by destruct s. Qed.
Lemma levels_with_levels_opp s ls b :
  levels (opposite s) (with_levels s ls b) = levels (opposite s) b.
Proof. by destruct s. Qed.
Lemma levels_with_loc s m b : levels s (with_loc m b) = levels s b.
Proof. by destruct s. Qed.
Lemma opposite_involutive s : opposite (opposite s) = s.
Proof. by destruct s. Qed.

Lemma all_orders_perm s b :
  all_orders b ≡ₚ flat (levels s b) ++ flat (levels (opposite s) b).
Proof. destruct s; [done|]. apply Permutation_app_comm. Qed.

Lemma book_wf_alt b :
  book_wf b <-> (forall s, side_wf s (levels s b)) /\ NoDup (keys b).*1 /\
                order_loc_ b = list_to_map (keys b).
Proof.
  unfold book_wf, keys. rewrite key_fst. split.
  - intros (Hb & Ha & Hn & Hl). split; [by intros []|done].
  - intros (Hs & Hn & Hl). split; [apply (Hs BID)|]. split; [apply (Hs ASK)|done].
Qed.

Lemma book_wf_side b s : book_wf b -> side_wf s (levels s b).
Proof. intros (H & _)%book_wf_alt. apply H. Qed.

Lemma book_wf_empty : book_wf empty_book.
Proof. repeat split; constructor. Qed.

Lemma delete_all_list_to_map (ks kn : list (Z * (Side * Z))) :
  NoDup (ks ++ kn).*1 ->
  delete_all ks.*1 (list_to_map (ks ++ kn)) = list_to_map (M := gmap Z (Side * Z)) kn.
Proof.
  unfold delete_all. induction ks as [|[i v] ks IH]; simpl; intros Hn; [done|].
  apply NoDup_cons in Hn as [Hi Hn].
  rewrite delete_insert_id; [by apply IH|]. by apply not_elem_of_list_to_map_1.
Qed.

Lemma keys_with_levels s ls b :
  keys (with_levels s ls b) ≡ₚ (key <$> flat ls) ++ (key <$> flat (levels (opposite s) b)).
Proof.
  unfold keys. rewrite (all_orders_perm s), levels_with_levels, levels_with_levels_opp.
  by rewrite fmap_app.
Qed.

(** The workhorse: a new vector for one side, some orders [ks] gone and their
    ids deleted from the location map. *)
Lemma book_wf_update s b ls ks m :
  book_wf b -> side_wf s ls ->
  (key <$> flat (levels s b)) ≡ₚ ks ++ (key <$> flat ls) ->
  m = delete_all ks.*1 (order_loc_ b) ->
  book_wf (with_loc m (with_levels s ls b)).
Proof.
  intros (Hs & Hn & Hl)%book_wf_alt Hls Hk ->. apply book_wf_alt.
  assert (keys b ≡ₚ ks ++ keys (with_levels s ls b)) as Hperm.
  { rewrite keys_with_levels, app_assoc, <- Hk. unfold keys.
    by rewrite (all_orders_perm s), fmap_app. }
  assert (NoDup (ks ++ keys (with_levels s ls b)).*1) as Hn' by by rewrite <- Hperm.
  assert (keys (with_loc (delete_all ks.*1 (order_loc_ b)) (with_levels s ls b))
          = keys (with_levels s ls b)) as Hkeys by by destruct s.
  split.
  - intros s'. rewrite levels_with_loc. destruct s, s'; simpl; (apply (Hs BID) || apply (Hs ASK) || done).
  - rewrite Hkeys. rewrite fmap_app in Hn'. split; [by apply NoDup_app in Hn' as (_ & _ & ?)|].
    simpl. rewrite Hl, (list_to_map_proper _ _ Hn Hperm).
    apply delete_all_list_to_map. by rewrite fmap_app.
Qed.

(** ** addOrder *)

Definition fresh (id : Z) (b : OrderBook) : Prop := id ∉ (o_id <$> all_orders b).

Lemma fresh_loc b id : book_wf b -> fresh id b -> order_loc_ b !! id = None.
Proof.
  intros (_ & _ & Hl)%book_wf_alt Hf. rewrite Hl.
  apply not_elem_of_list_to_map_1. unfold keys. by rewrite key_fst.
Qed.

Lemma addOrder_flat o b :
  book_wf b -> o_type o = LIMIT -> is_u32 (o_quantity o) ->
  flat (levels (o_side o) (addOrder o b))
    = insert_prio (o_side o) o (flat (levels (o_side o) b)) /\
  levels (opposite (o_side o)) (addOrder o b) = levels (opposite (o_side o)) b.
Proof.
  intros Hw Ht Hq. unfold addOrder. rewrite Ht, !levels_with_loc,
    levels_with_levels, levels_with_levels_opp. split; [|done].
  apply add_to_side_spec; [by apply book_wf_side|done..].
Qed.

Lemma addOrder_wf o b :
  book_wf b -> o_type o = LIMIT -> is_u32 (o_quantity o) -> fresh (o_id o) b ->
  book_wf (addOrder o b).
Proof.
  intros Hw Ht Hq Hfr. pose proof (addOrder_flat o b Hw Ht Hq) as [Hfl Hop].
  pose proof (fresh_loc b _ Hw Hfr) as Hloc.
  assert (keys (addOrder o b) ≡ₚ key o :: keys b) as Hk.
  { unfold keys. rewrite (all_orders_perm (o_side o)), Hfl, Hop, insert_prio_perm.
    by rewrite (all_orders_perm (o_side o) b). }
  apply book_wf_alt in Hw as (Hs & Hn & Hl). apply book_wf_alt. split; [|split].
  - intros s. destruct (decide (s = o_side o)) as [->|Hne].
    + unfold addOrder. rewrite Ht, levels_with_loc, levels_with_levels.
      by apply add_to_side_spec.
    + replace s with (opposite (o_side o)) by (by destruct s, (o_side o)).
      rewrite Hop. apply Hs.
  - rewrite Hk. simpl. apply NoDup_cons. split; [|done]. unfold keys. by rewrite key_fst.
  - rewrite <- (list_to_map_proper (key o :: keys b) (keys (addOrder o b))); [|..|done].
    + unfold addOrder. rewrite Ht. simpl. rewrite <- Hl. by destruct (o_side o).
    + simpl. apply NoDup_cons. split; [|done]. unfold keys. by rewrite key_fst.
Qed.

Lemma addOrder_all_orders o b :
  book_wf b -> o_type o = LIMIT -> is_u32 (o_quantity o) ->
  all_orders (addOrder o b) ≡ₚ o :: all_orders b.
Proof.
  intros Hw Ht Hq. pose proof (addOrder_flat o b Hw Ht Hq) as [Hfl Hop].
  rewrite (all_orders_perm (o_side o)), Hfl, Hop, insert_prio_perm.
  by rewrite (all_orders_perm (o_side o) b).
Qed.

(** ** cancelOrder *)

Lemma loc_elem b id s p :
  book_wf b -> order_loc_ b !! id = Some (s, p) ->
  exists o, o ∈ flat (levels s b) /\ o_id o = id /\ o_price_ticks o = p.
Proof.
  intros (Hs & Hn & Hl)%book_wf_alt Hlk. rewrite Hl in Hlk.
  apply elem_of_list_to_map in Hlk; [|done]. unfold keys in Hlk.
  apply list_elem_of_fmap in Hlk as (o & Hk & Ho). injection Hk as -> -> ->.
  exists o. split; [|done]. rewrite (all_orders_perm (o_side o)) in Ho.
  apply elem_of_app in Ho as [?|Ho]; [done|exfalso].
  assert (Forall (fun x => o_side x = opposite (o_side o))
    (flat (levels (opposite (o_side o)) b))) as Hf.
  { destruct (Hs (opposite (o_side o))) as [_ Hw].
    eapply (Forall_flat _ (fun _ => True)); [done|by apply Forall_true|].
    by intros pl x _ (_ & -> & _). }
  rewrite Forall_forall in Hf. specialize (Hf o Ho). by destruct (o_side o).
Qed.

Lemma cancelOrder_hit b id s p :
  book_wf b -> order_loc_ b !! id = Some (s, p) ->
  exists b' l1 o l2,
    cancelOrder id b = (true, b') /\ book_wf b' /\ o_id o = id /\
    flat (levels s b) = l1 ++ o :: l2 /\ flat (levels s b') = l1 ++ l2 /\
    levels (opposite s) b' = levels (opposite s) b.
Proof.
  intros Hw Hl. pose proof (loc_elem b id s p Hw Hl) as (x & Hx & Hid & Hp).
  unfold cancelOrder. rewrite Hl.
  pose proof (book_wf_side b s Hw) as Hsw.
  destruct (erase_from s p id (levels s b)) as [ls|] eqn:He.
  - destruct (erase_from_some _ _ _ _ _ Hsw He) as (Hls & l1 & o & l2 & Hf & Hf' & Ho).
    exists (with_loc (delete id (order_loc_ b)) (with_levels s ls b)), l1, o, l2.
    split; [done|]. rewrite !levels_with_loc, levels_with_levels, levels_with_levels_opp.
    split; [|done]. apply (book_wf_update s b ls [key o]); [done..| |by rewrite <- Ho].
    rewrite Hf, Hf', !fmap_app, fmap_cons. by rewrite <- Permutation_middle.
  - pose proof (erase_from_none _ _ _ _ Hsw He) as Hn.
    rewrite Forall_forall in Hn. by specialize (Hn x Hx Hp).
Qed.

Lemma cancelOrder_miss b id :
  order_loc_ b !! id = None -> cancelOrder id b = (false, b).
Proof. unfold cancelOrder. by intros ->. Qed.

Lemma cancelOrder_wf id b : book_wf b -> book_wf (cancelOrder id b).2.
Proof.
  intros Hw. destruct (order_loc_ b !! id) as [[s p]|] eqn:Hl.
  - by destruct (cancelOrder_hit b id s p Hw Hl) as (b' & ? & ? & ? & -> & ? & _).
  - by rewrite cancelOrder_miss.
Qed.

(** ** Crossing and market orders *)

Lemma flat_resting s ls : side_wf s ls ->
  Forall (fun o => o_side o = s /\ o_type o = LIMIT /\ is_u32 (o_quantity o)) (flat ls).
Proof.
  intros [_ Hw]. eapply (Forall_flat _ (fun _ => True)); [done|by apply Forall_true|].
  by intros pl x _ (_ & ? & ? & ?).
Qed.

Lemma flat_head_u32 s ls o os :
  side_wf s ls -> flat ls = o :: os -> is_u32 (o_quantity o).
Proof.
  intros Hw Hf. pose proof (flat_resting s ls Hw) as Hr. rewrite Hf in Hr.
  by apply Forall_cons in Hr as [(_ & _ & ?) _].
Qed.

(** Taking from the front order of side [s] keeps the book well formed. *)
Lemma fill_side_wf s b qty o :
  book_wf b -> front_order (levels s b) = Some o -> 0 <= qty <= o_quantity o ->
  book_wf (with_loc (loc_erase (fill_front qty (levels s b)).2 (order_loc_ b))
             (with_levels s (fill_front qty (levels s b)).1 b)).
Proof.
  intros Hw Hfr Hq. pose proof (book_wf_side b s Hw) as Hsw.
  destruct (fill_front_spec s qty _ o Hsw Hfr Hq) as (Hls & Hf & ->).
  rewrite (front_order_flat s) in Hfr by done.
  destruct (flat (levels s b)) as [|x os] eqn:Hfl; [done|]. injection Hfr as ->. simpl in *.
  destruct (o_quantity o =? qty).
  - apply (book_wf_update s b _ [key o]); [done..| |done]. by rewrite Hf, Hfl.
  - apply (book_wf_update s b _ []); [done..| |done]. by rewrite Hf, Hfl.
Qed.

Definition crossedq (bq aq : list Order) : bool :=
  match bq, aq with
  | b :: _, a :: _ => o_price_ticks a <=? o_price_ticks b
  | _, _ => false
  end.

Lemma flat_cons_inv s pl ls :
  side_wf s (pl :: ls) ->
  exists o os, flat (pl :: ls) = o :: os /\ o_price_ticks o = lvl_price_ticks pl.
Proof.
  intros ((Hne & _ & Hres) & _ & _)%side_wf_cons_inv. rewrite flat_cons.
  destruct (orders pl) as [|o os]; [done|]. exists o, (os ++ flat ls).
  by apply Forall_cons in Hres as [(? & _) _].
Qed.

Lemma is_crossed_flat b :
  book_wf b -> is_crossed b = crossedq (flat (bids_ b)) (flat (asks_ b)).
Proof.
  intros Hw. pose proof (book_wf_side b BID Hw) as Hb.
  pose proof (book_wf_side b ASK Hw) as Ha. simpl in *. unfold is_crossed.
  destruct (bids_ b) as [|bl bs]; [done|].
  destruct (flat_cons_inv _ _ _ Hb) as (x & xs & -> & Hx).
  destruct (asks_ b) as [|al als]; [done|].
  destruct (flat_cons_inv _ _ _ Ha) as (y & ys & -> & Hy). simpl. by rewrite Hx, Hy.
Qed.

(** The trade two crossing front orders make. *)
Definition cross_trade (bid ask : Order) : Trade :=
  mkTrade (o_id bid) (o_id ask) (o_price_ticks ask)
    (Z.min (o_quantity bid) (o_quantity ask)) (Z.max (o_timestamp bid) (o_timestamp ask)).

Lemma execute_top_cross_spec b bid bq ask aq :
  book_wf b -> flat (bids_ b) = bid :: bq -> flat (asks_ b) = ask :: aq ->
  o_price_ticks ask <= o_price_ticks bid ->
  let qty := Z.min (o_quantity bid) (o_quantity ask) in
  exists b', execute_top_cross b = Some (cross_trade bid ask, b') /\ book_wf b' /\
    flat (bids_ b') = consume qty (bid :: bq) /\ flat (asks_ b') = consume qty (ask :: aq).
Proof.
  intros Hw Hb Ha Hp qty. unfold execute_top_cross.
  pose proof (book_wf_side b BID Hw) as Hbw. pose proof (book_wf_side b ASK Hw) as Haw.
  rewrite is_crossed_flat, Hb, Ha by done. cbn [crossedq].
  rewrite (proj2 (Z.leb_le _ _)) by done.
  rewrite (front_order_flat BID), (front_order_flat ASK), Hb, Ha by done. cbn [head].
  pose proof (flat_head_u32 _ _ _ _ Hbw Hb). pose proof (flat_head_u32 _ _ _ _ Haw Ha).
  assert (0 <= qty <= o_quantity bid /\ 0 <= qty <= o_quantity ask) as [Hq1 Hq2]
    by (subst qty; widths; lia).
  assert (front_order (bids_ b) = Some bid) as Hfb by by rewrite (front_order_flat BID), Hb.
  pose proof (fill_side_wf BID b qty bid Hw Hfb Hq1) as Hw1.
  destruct (fill_front_spec BID qty _ bid Hbw Hfb Hq1) as (_ & Hf1 & _). simpl in *.
  set (b1 := with_loc _ _) in Hw1.
  assert (front_order (asks_ b1) = Some ask) as Hfa by by simpl; rewrite (front_order_flat ASK), Ha.
  pose proof (fill_side_wf ASK b1 qty ask Hw1 Hfa Hq2) as Hw2.
  destruct (fill_front_spec ASK qty _ ask Haw Hfa Hq2) as (_ & Hf2 & _). simpl in *.
  fold qty. destruct (fill_front qty (bids_ b)) as [bids bgone] eqn:E1.
  destruct (fill_front qty (asks_ b)) as [asks agone] eqn:E2.
  eexists. split; [reflexivity|]. simpl in *. split; [exact Hw2|].
  by rewrite Hf1, Hf2, Hb, Ha.
Qed.

(** The reference sweep of an aggressor of size [q] over a queue: what is
    left of it, the queue after it, and each (resting order, size) it hit. *)
Fixpoint sweep (q : Z) (os : list Order) : Z * list Order * list (Order * Z) :=
  match os with
  | [] => (q, [], [])
  | o :: os' =>
      if 0 <? q then
        if o_quantity o <=? q then
          let '(q', rest, fills) := sweep (q - o_quantity o) os' in
          (q', rest, (o, o_quantity o) :: fills)
        else (0, set_quantity o (o_quantity o - q) :: os', [(o, q)])
      else (q, o :: os', [])
  end.

Lemma match_loop_spec fuel id side ts q b trades :
  let s := opposite side in
  book_wf b -> is_u32 q -> (length (flat (levels s b)) < fuel)%nat ->
  let '(q', rest, fills) := sweep q (flat (levels s b)) in
  exists ls m, match_loop fuel id side ts q (levels s b) (order_loc_ b) trades
      = (q', ls, m, trades ++ ((fun f => market_trade id side f.2 ts f.1) <$> fills)) /\
    book_wf (with_loc m (with_levels s ls b)) /\ flat ls = rest.
Proof.
  intros s. revert q b trades. induction fuel as [|fuel IH]; intros q b trades Hw Hq Hf; [lia|].
  assert (book_wf (with_loc (order_loc_ b) (with_levels s (levels s b) b))) as Hsame
    by (destruct s, b; done).
  cbn [match_loop]. rewrite (front_order_flat s) by by apply book_wf_side.
  destruct (flat (levels s b)) as [|o os] eqn:Hfl.
  { simpl. exists (levels s b), (order_loc_ b). rewrite app_nil_r.
    by destruct (0 <? q). }
  cbn [sweep]. destruct (Z.ltb_spec 0 q) as [Hpos|Hz].
  2: { simpl. exists (levels s b), (order_loc_ b). by rewrite app_nil_r. }
  pose proof (flat_head_u32 s _ _ _ (book_wf_side b s Hw) Hfl) as Ho.
  assert (front_order (levels s b) = Some o) as Hfr
    by by rewrite (front_order_flat s), Hfl by by apply book_wf_side.
  set (take := Z.min q (o_quantity o)).
  assert (0 <= take <= o_quantity o) as Ht by (subst take; widths; lia).
  pose proof (fill_side_wf s b take o Hw Hfr Ht) as Hw'.
  destruct (fill_front_spec s take _ o (book_wf_side b s Hw) Hfr Ht) as (_ & Hf' & _).
  cbn [head]. fold take.
  destruct (fill_front take (levels s b)) as [ls' gone] eqn:Eff. cbn [fst snd] in *.
  set (b' := with_loc _ _) in Hw'.
  assert (levels s b' = ls') as Hl' by (subst b'; by rewrite levels_with_loc, levels_with_levels).
  rewrite u32_id by (subst take; widths; lia). rewrite Hfl in Hf'. cbn [consume] in Hf'.
  rewrite <- Hl' in Hf'.
  destruct (Z.leb_spec (o_quantity o) q) as [Hle|Hgt].
  - replace take with (o_quantity o) in * by lia. rewrite Z.eqb_refl in Hf'.
    specialize (IH (q - o_quantity o) b' (trades ++ [market_trade id side (o_quantity o) ts o]) Hw').
    rewrite Hf' in IH. destruct (sweep (q - o_quantity o) os) as [[q' rest] fills].
    destruct IH as (ls & m & Hm & Hwm & Hr); [zwlia|simpl in Hf; lia|].
    exists ls, m. rewrite <- Hl'. change (loc_erase gone (order_loc_ b)) with (order_loc_ b') in Hm |- *.
    subst b'. destruct s; simpl in *; rewrite Hm, <- app_assoc; done.
  - replace take with q in * by lia. rewrite (proj2 (Z.eqb_neq _ _)) in Hf' by lia.
    rewrite Z.sub_diag. exists ls', (loc_erase gone (order_loc_ b)).
    destruct fuel; simpl in Hf; [lia|]. split; [done|]. split; [done|]. by rewrite <- Hl'.
Qed.

Lemma match_market_spec id side q ts b trades :
  book_wf b -> is_u32 q ->
  let s := opposite side in
  let '(q', rest, fills) := sweep q (flat (levels s b)) in
  exists b', match_market id side q ts b trades
      = (q', b', trades ++ ((fun f => market_trade id side f.2 ts f.1) <$> fills)) /\
    book_wf b' /\ flat (levels s b') = rest /\ levels side b' = levels side b.
Proof.
  intros Hw Hq s. unfold match_market.
  pose proof (match_loop_spec (S (length (flat (levels s b)))) id side ts q b trades Hw Hq
    (Nat.lt_succ_diag_r _)) as Hm. fold s in Hm |- *.
  destruct (sweep q (flat (levels s b))) as [[q' rest] fills].
  destruct Hm as (ls & m & -> & Hwm & Hr). eexists. split; [reflexivity|].
  split; [done|]. rewrite !levels_with_loc, levels_with_levels. split; [done|].
  subst s. by destruct side.
Qed.

(** ** LOBSTER edits *)

Lemma qsum_nonneg os : Forall (fun o => is_u32 (o_quantity o)) os -> 0 <= qsum os.
Proof. induction 1 as [|o os Ho _ IH]; [done|]. rewrite qsum_cons. zwlia. Qed.

Lemma take_qty_resting s p n os :
  0 <= n -> Forall (resting s p) os -> Forall (resting s p) (take_qty n os).
Proof.
  intros Hn H. revert n Hn. induction H as [|o os Ho Hos IH]; intros n Hn; [constructor|].
  cbn [take_qty]. destruct (Z.ltb_spec 0 n); [|by constructor].
  destruct Ho as (Hp & Hs & Ht & Hq).
  destruct (Z.leb_spec (o_quantity o) n); [apply IH; lia|].
  constructor; [|done]. repeat split; simpl; try done; zwlia.
Qed.

Lemma qsum_take_qty n os :
  Forall (fun o => is_u32 (o_quantity o)) os -> 0 <= n <= qsum os ->
  qsum (take_qty n os) = qsum os - n.
Proof.
  intros H. revert n. induction H as [|o os Ho Hos IH]; intros n Hn.
  - unfold qsum in *. simpl in *. lia.
  - rewrite qsum_cons in *. cbn [take_qty]. destruct (Z.ltb_spec 0 n).
    + destruct (Z.leb_spec (o_quantity o) n); [rewrite IH by lia; lia|].
      rewrite qsum_cons. simpl. lia.
    + rewrite qsum_cons. lia.
Qed.

(** On a level holding enough, the reduction takes exactly [traded_size] from
    the front of the level's queue and nothing else. *)
Lemma reduce_level_hit s p n allow b pre pl suf :
  book_wf b -> levels s b = pre ++ pl :: suf -> lvl_price_ticks pl = p ->
  is_u32 n -> 0 < n <= qsum (orders pl) -> qsum (orders pl) < 2 ^ 64 ->
  exists b', reduce_level_after_lobster_execution s p n allow b = (true, b') /\ book_wf b' /\
    flat (levels s b') = flat pre ++ take_qty n (orders pl) ++ flat suf /\
    levels (opposite s) b' = levels (opposite s) b.
Proof.
  intros Hw Hls Hp Hn Hle Hbnd. pose proof (book_wf_side b s Hw) as Hsw. rewrite Hls in Hsw.
  unfold reduce_level_after_lobster_execution. rewrite Hls.
  rewrite (proj2 (Z.eqb_neq n 0)) by lia.
  apply side_wf_app in Hsw as Hsw'. destruct Hsw' as (_ & (Hpl & _ & Hlt)%side_wf_cons_inv & Hx).
  assert (find_level s p (pre ++ pl :: suf) = length pre) as ->.
  { unfold find_level. destruct Hsw as [Hs _]. rewrite lower_bound_spec by by apply sorted_partitioned.
    apply StronglySorted_app in Hs as (Hlt' & _ & _). clear -Hlt' Hp Hx.
    induction pre as [|x pre IH]; simpl.
    - rewrite level_before_eq, beforeb_false; [done|]. rewrite Hp. apply before_irrefl.
    - rewrite level_before_eq, beforeb_true.
      2: { rewrite <- Hp. apply (Hx x pl); by left. }
      f_equal. apply IH; [|intros a b Ha Hb; apply Hx; [by right|done]].
      intros a b Ha Hb. apply Hlt'; [by right|done]. }
  rewrite lookup_mid, Hp, Z.eqb_refl.
  destruct Hpl as (Hne & Htot & Hres).
  assert (Forall (fun o => is_u32 (o_quantity o)) (orders pl)) as Hu.
  { eapply Forall_impl; [exact Hres|]. by intros o (_ & _ & _ & ?). }
  rewrite sum_quantity_eq, u64_id by zwlia. rewrite (proj2 (Z.ltb_ge _ _)) by lia.
  destruct (reduce_loop_spec (S (length (orders pl))) n (total_qty pl) (orders pl) (order_loc_ b))
    as (gone & Hk & ->); [done|lia|lia|done|].
  rewrite (proj2 (Z.ltb_lt 0 n)) by lia.
  eexists. split; [reflexivity|].
  rewrite !levels_with_loc, levels_with_levels, levels_with_levels_opp.
  assert (forall os, os = take_qty n (orders pl) ->
    let ls := match os with
              | [] => delete (length pre) (pre ++ pl :: suf)
              | _ => <[length pre := mkLevel p (u64 (total_qty pl - n)) os]> (pre ++ pl :: suf)
              end in
    side_wf s ls /\ flat ls = flat pre ++ os ++ flat suf) as Hnew.
  { intros [|o os] Hos; simpl.
    - rewrite delete_mid, flat_app. split; [by eapply side_wf_remove|done].
    - rewrite insert_mid, flat_app, flat_cons. split; [|done].
      eapply side_wf_replace; [exact Hsw|by rewrite <- Hp|]. split; [done|]. split.
      + simpl. rewrite Htot, Hos, qsum_take_qty, u64_sub_l by (done || lia). done.
      + simpl. rewrite Hos, <- Hp. apply take_qty_resting; [lia|done]. }
  destruct (Hnew _ eq_refl) as [Hlw Hlf].
  split; [|split; [exact Hlf|done]].
  apply (book_wf_update s b _ (key <$> gone)); [done|exact Hlw| |by rewrite key_fst].
  rewrite Hls, Hlf, flat_app, flat_cons, !fmap_app, Hk.
  rewrite <- app_assoc. apply Permutation_app_swap_app.
Qed.

Lemma touch_some s p id n ls ls' :
  side_wf s ls -> is_u32 n -> touch s p id n ls = Some ls' ->
  side_wf s ls' /\ exists l1 o l2, flat ls = l1 ++ o :: l2 /\
    flat ls' = l1 ++ set_quantity o n :: l2 /\ o_id o = id.
Proof.
  intros Hw Hn. unfold touch. pose proof Hw as [_ Hf].
  destruct (find_level_view s p ls Hw)
    as [pre pl suf -> Hfind Hp Hpre Hsuf | pre suf -> Hfind Hpre Hsuf]; rewrite Hfind.
  2: { destruct (_ !! _) as [pl|] eqn:Hl; [|done].
       by rewrite (missing_lookup _ _ _ _ _ Hsuf Hl). }
  rewrite lookup_mid, Hp, Z.eqb_refl.
  destruct (touch_id id n (orders pl)) as [[q os]|] eqn:Ht; [|done]. intros [= <-].
  apply touch_id_some in Ht as (l1 & o & l2 & Ho & -> & Hid & ->).
  apply Forall_app in Hf as [_ [Hpl _]%Forall_cons]. rewrite insert_mid. split.
  - rewrite <- Hp. eapply side_wf_replace; [exact Hw|done|]. by apply level_wf_set.
  - exists (flat pre ++ l1), o, (l2 ++ flat suf).
    rewrite !flat_app, !flat_cons, Ho. simpl. rewrite <- !app_assoc. done.
Qed.

Lemma replace_remaining_quantity_wf id n b :
  book_wf b -> is_u32 n -> book_wf (replace_remaining_quantity id n b).2.
Proof.
  intros Hw Hn. unfold replace_remaining_quantity.
  destruct (n =? 0); [by apply cancelOrder_wf|].
  destruct (order_loc_ b !! id) as [[s p]|] eqn:Hl; [|done].
  destruct (touch s p id n (levels s b)) as [ls|] eqn:Ht; [|done]. simpl.
  destruct (touch_some _ _ _ _ _ _ (book_wf_side b s Hw) Hn Ht)
    as (Hls & l1 & o & l2 & Hf & Hf' & _).
  replace (with_levels s ls b) with (with_loc (order_loc_ b) (with_levels s ls b))
    by by destruct s.
  apply (book_wf_update s b ls []); [done..| |done].
  by rewrite Hf, Hf', !fmap_app, !fmap_cons.
Qed.

(** ** The levels are determined by the orders *)

Lemma app_partition_inj {A} (P : A -> Prop) (l1 l2 k1 k2 : list A) :
  Forall P l1 -> Forall P k1 -> Forall (fun x => ~ P x) l2 -> Forall (fun x => ~ P x) k2 ->
  l1 ++ l2 = k1 ++ k2 -> l1 = k1 /\ l2 = k2.
Proof.
  intros H1. revert k1. induction H1 as [|x l1 Hx Hl1 IH]; intros k1 Hk1 Hl2 Hk2 Heq.
  - destruct k1 as [|y k1]; [done|]. simpl in *. subst l2.
    apply Forall_cons in Hl2 as [Hn _]. by apply Forall_cons in Hk1 as [? _].
  - destruct k1 as [|y k1]; simpl in *.
    + subst k2. by apply Forall_cons in Hk2 as [Hn _].
    + injection Heq as -> Heq. apply Forall_cons in Hk1 as [_ Hk1].
      by destruct (IH k1 Hk1 Hl2 Hk2 Heq) as [-> ->].
Qed.

Lemma level_wf_eq s a c :
  level_wf s a -> level_wf s c -> lvl_price_ticks a = lvl_price_ticks c ->
  orders a = orders c -> a = c.
Proof.
  destruct a, c. intros (_ & Ha & _) (_ & Hc & _). simpl in *. by intros -> ->; subst.
Qed.

Lemma flat_inj s l k : side_wf s l -> side_wf s k -> flat l = flat k -> l = k.
Proof.
  revert k. induction l as [|a l IH]; intros k Hl Hk Heq.
  - destruct k as [|c k]; [done|]. by destruct (flat_cons_inv _ _ _ Hk) as (o & os & H & _);
      rewrite H in Heq.
  - destruct k as [|c k].
    { by destruct (flat_cons_inv _ _ _ Hl) as (o & os & H & _); rewrite H in Heq. }
    destruct (flat_cons_inv _ _ _ Hl) as (x & xs & Hfl & Hx).
    destruct (flat_cons_inv _ _ _ Hk) as (y & ys & Hfk & Hy).
    assert (lvl_price_ticks a = lvl_price_ticks c) as Hp by congruence.
    clear x xs Hfl Hx y ys Hfk Hy.
    apply side_wf_cons_inv in Hl as (Ha & Hl & Hlt).
    apply side_wf_cons_inv in Hk as (Hc & Hk & Hkt).
    assert (forall ls pl, side_wf s ls -> lvl_price_ticks pl = lvl_price_ticks a ->
      Forall (level_lt s pl) ls ->
      Forall (fun o => ~ o_price_ticks o = lvl_price_ticks a) (flat ls)) as Hafter.
    { intros ls pl [_ Hw] Hpl Hlt'. eapply Forall_flat; [done..|].
      unfold level_lt. intros q o Hq (-> & _) He. rewrite He, Hpl in Hq.
      by eapply before_irrefl. }
    assert (forall pl, level_wf s pl -> lvl_price_ticks pl = lvl_price_ticks a ->
      Forall (fun o => o_price_ticks o = lvl_price_ticks a) (orders pl)) as Hat.
    { intros pl (_ & _ & Hr) <-. eapply Forall_impl; [exact Hr|]. by intros o (? & _). }
    rewrite !flat_cons in Heq.
    apply (app_partition_inj (fun o => o_price_ticks o = lvl_price_ticks a)) in Heq
      as [Ho Hf]; eauto.
    f_equal; [by eapply level_wf_eq|by apply IH].
Qed.

(** ** Rebuilding *)

Definition add_orders (os : list Order) (b : OrderBook) : OrderBook :=
  foldl (fun b o => addOrder o b) b os.

(** A side's queue is in priority order. *)
Definition prio_le (s : Side) (x y : Order) : Prop :=
  ~ before s (o_price_ticks y) (o_price_ticks x).

Lemma flat_sorted s ls : side_wf s ls -> StronglySorted (prio_le s) (flat ls).
Proof.
  induction ls as [|pl ls IH]; [constructor|].
  intros ((_ & _ & Hres) & Hls & Hlt)%side_wf_cons_inv. rewrite flat_cons.
  assert (Forall (fun o => before s (lvl_price_ticks pl) (o_price_ticks o)) (flat ls)) as Haft.
  { destruct Hls as [_ Hw]. eapply Forall_flat; [done..|]. by intros l o Hl (-> & _). }
  specialize (IH Hls). clear Hls Hlt. induction Hres as [|o os (Hp & _) Hos IHos]; [done|].
  simpl. constructor; [done|]. apply Forall_app. split.
  - eapply Forall_impl; [exact Hos|]. intros x (Hx & _). unfold prio_le.
    rewrite Hp, Hx. apply before_irrefl.
  - eapply Forall_impl; [exact Haft|]. intros x Hx Hb. rewrite Hp in Hb.
    by eapply before_irrefl, before_trans.
Qed.

Lemma insert_prio_snoc s o os :
  StronglySorted (prio_le s) (os ++ [o]) -> insert_prio s o os = os ++ [o].
Proof.
  intros Hs. rewrite <- (app_nil_r os) at 1. rewrite insert_prio_app; [done|].
  apply Forall_forall. intros x Hx. apply StronglySorted_app in Hs as (Hs & _ & _).
  by apply Hs; [|left].
Qed.

Lemma add_orders_side s os b :
  book_wf b -> Forall (fun o => o_side o = s /\ o_type o = LIMIT /\ is_u32 (o_quantity o)) os ->
  NoDup (o_id <$> all_orders b ++ os) ->
  StronglySorted (prio_le s) (flat (levels s b) ++ os) ->
  book_wf (add_orders os b) /\
  flat (levels s (add_orders os b)) = flat (levels s b) ++ os /\
  levels (opposite s) (add_orders os b) = levels (opposite s) b /\
  all_orders (add_orders os b) ≡ₚ all_orders b ++ os.
Proof.
  intros Hw Hos. revert b Hw. induction Hos as [|o os (Hs & Ht & Hq) Hos IH]; intros b Hw Hn Hsort.
  - simpl. by rewrite !app_nil_r.
  - assert (fresh (o_id o) b) as Hfr.
    { unfold fresh. rewrite fmap_app, fmap_cons in Hn. apply NoDup_app in Hn as (_ & Hd & _).
      intros Hin. eapply Hd; [exact Hin|by left]. }
    pose proof (addOrder_wf o b Hw Ht Hq Hfr) as Hw'.
    pose proof (addOrder_flat o b Hw Ht Hq) as [Hfl Hop].
    pose proof (addOrder_all_orders o b Hw Ht Hq) as Hall. rewrite Hs in Hfl, Hop.
    rewrite insert_prio_snoc in Hfl.
    2: { rewrite cons_middle, app_assoc in Hsort.
         by apply StronglySorted_app in Hsort as (_ & ? & _). }
    assert (all_orders (addOrder o b) ++ os ≡ₚ all_orders b ++ o :: os) as Hp
      by by rewrite Hall, <- Permutation_middle.
    destruct (IH (addOrder o b) Hw') as (Hwf & Hfl' & Hop' & Hall').
    { by rewrite Hp. }
    { by rewrite Hfl, <- app_assoc. }
    split; [done|]. split; [by simpl; rewrite Hfl', Hfl, <- app_assoc|].
    split; [by simpl; rewrite Hop'|]. simpl. by rewrite Hall', Hp.
Qed.

Lemma book_wf_ext b b' :
  book_wf b -> book_wf b' -> bids_ b = bids_ b' -> asks_ b = asks_ b' -> b = b'.
Proof.
  destruct b, b'. intros (_ & _ & _ & H1) (_ & _ & _ & H2). simpl in *. intros -> ->.
  f_equal. rewrite H1, H2. done.
Qed.

Lemma add_orders_app l k b : add_orders (l ++ k) b = add_orders k (add_orders l b).
Proof. apply foldl_app. Qed.

Lemma add_orders_rebuild b : book_wf b -> add_orders (all_orders b) empty_book = b.
Proof.
  intros Hw. pose proof (book_wf_side b BID Hw) as Hb. pose proof (book_wf_side b ASK Hw) as Ha.
  assert (NoDup (o_id <$> all_orders b)) as Hn by by destruct Hw as (_ & _ & ? & _).
  unfold all_orders. rewrite add_orders_app.
  destruct (add_orders_side BID (flat (bids_ b)) empty_book) as (Hw1 & Hf1 & Ho1 & Hp1).
  { apply book_wf_empty. } { by apply flat_resting. }
  { unfold all_orders in Hn. rewrite fmap_app in Hn. by apply NoDup_app in Hn as (? & _ & _). }
  { by apply flat_sorted. }
  simpl in Hf1, Ho1, Hp1. set (b1 := add_orders _ empty_book) in *.
  destruct (add_orders_side ASK (flat (asks_ b)) b1) as (Hw2 & Hf2 & Ho2 & Hp2).
  { done. } { by apply flat_resting. }
  { rewrite Hp1. exact Hn. }
  { simpl. rewrite Ho1. by apply flat_sorted. }
  simpl in *. rewrite Ho1 in Hf2. simpl in Hf2.
  apply book_wf_ext; [done..| |].
  - rewrite Ho2. apply (flat_inj BID); [by destruct Hw1|done|done].
  - apply (flat_inj ASK); [by destruct Hw2 as (_ & ? & _)|done|done].
Qed.

(** ** The invariant is decidable *)

#[export] Instance before_dec s : RelDecision (before s).
Proof. intros a b. destruct s; simpl; apply _. Defined.
#[export] Instance resting_dec s p o : Decision (resting s p o).
Proof. unfold resting. apply _. Defined.
#[export] Instance level_wf_dec s pl : Decision (level_wf s pl).
Proof. unfold level_wf. apply _. Defined.
#[export] Instance level_lt_dec s : RelDecision (level_lt s).
Proof. intros a b. unfold level_lt. apply before_dec. Defined.
#[export] Instance book_wf_dec b : Decision (book_wf b).
Proof. unfold book_wf, side_wf. apply _. Defined.
#[export] Instance fresh_dec i b : Decision (fresh i b).
Proof. unfold fresh. apply _. Defined.
