(* ===== verification/Engine.v ===== *)
(** The matching engine (include/matching_engine/matching_engine.hpp,
    src/matching_engine.cpp): [processOrder], its cross loop, and the proof
    that resting an aggressive order first and crossing it afterwards is
    price-time priority matching. *)
From stdpp Require Import base list gmap sorting.
From Stdlib Require Import ZArith Lia.
From S2P Require Import Prelude Types OrderBook BookFacts.

Record ApplyResult := mkResult {
  accepted : bool;
  reason : RejectReason;
  filled_qty : Z;
  fully_filled : bool;
}.

Record MatchingEngine := mkEngine {
  book_ : OrderBook;
  trade_log_ : list Trade;
}.

Definition empty_engine : MatchingEngine := mkEngine empty_book [].

Definition clear_trade_log (e : MatchingEngine) : MatchingEngine := mkEngine (book_ e) [].

(** The while loop of the limit branch: remaining quantity, book, trade log. *)
Fixpoint cross_loop (fuel : nat) (incoming_id remaining : Z) (b : OrderBook) (log : list Trade)
    : Z * OrderBook * list Trade :=
  match fuel with
  | O => (remaining, b, log)
  | S fuel =>
      if (0 <? remaining) && is_crossed b then
        match execute_top_cross b with
        | None => (remaining, b, log)
        | Some (t, b') =>
            let remaining' :=
              if (t_buyer_id t =? incoming_id) || (t_seller_id t =? incoming_id)
              then u32 (remaining - t_quantity t) else remaining in
            cross_loop fuel incoming_id remaining' b' (log ++ [t])
        end
      else (remaining, b, log)
  end.

Definition processOrder (o : Order) (e : MatchingEngine) : ApplyResult * MatchingEngine :=
  match o_type o with
  | CANCEL =>
      let '(removed, b) := cancelOrder (o_id o) (book_ e) in
      (mkResult removed (if removed then NONE else UNKNOWN_ORDER) 0 false,
       mkEngine b (trade_log_ e))
  | MARKET =>
      let requested := o_quantity o in
      let '(remaining, b, log) :=
        match_market (o_id o) (o_side o) requested (o_timestamp o) (book_ e) (trade_log_ e) in
      (mkResult true NONE (u32 (requested - remaining)) true, mkEngine b log)
  | LIMIT =>
      let requested := o_quantity o in
      let b := addOrder o (book_ e) in
      let '(remaining, b, log) :=
        cross_loop (S (length (all_orders b))) (o_id o) requested b (trade_log_ e) in
      (mkResult true NONE (u32 (requested - remaining)) (remaining =? 0), mkEngine b log)
  end.

(** ** The reference: price-time priority matching on two queues *)

(** A taker on side [s] limited to price [p] trades against price [r]. *)
Definition crossesb (s : Side) (p r : Z) : bool :=
  match s with BID => r <=? p | ASK => p <=? r end.

(** As [sweep], stopping at the first resting order out of reach. *)
Fixpoint sweep_limit (s : Side) (p q : Z) (os : list Order) : Z * list Order * list (Order * Z) :=
  match os with
  | [] => (q, [], [])
  | o :: os' =>
      if (0 <? q) && crossesb s p (o_price_ticks o) then
        if o_quantity o <=? q then
          let '(q', rest, fills) := sweep_limit s p (q - o_quantity o) os' in
          (q', rest, (o, o_quantity o) :: fills)
        else (0, set_quantity o (o_quantity o - q) :: os', [(o, q)])
      else (q, o :: os', [])
  end.

(** What the taker [x] and the resting [o] print for [take]: the price is the
    seller's limit. *)
Definition limit_trade (x : Order) (f : Order * Z) : Trade :=
  match o_side x with
  | BID => mkTrade (o_id x) (o_id f.1) (o_price_ticks f.1) f.2
             (Z.max (o_timestamp x) (o_timestamp f.1))
  | ASK => mkTrade (o_id f.1) (o_id x) (o_price_ticks x) f.2
             (Z.max (o_timestamp f.1) (o_timestamp x))
  end.

Definition queue (s : Side) (b : OrderBook) : list Order := flat (levels s b).

Definition positive (os : list Order) : Prop := Forall (fun o => 0 < o_quantity o) os.

(** What holds of the engine's book between commands. *)
Definition engine_inv (b : OrderBook) : Prop :=
  book_wf b /\ is_crossed b = false /\ positive (all_orders b).

Lemma is_crossed_sym s b :
  book_wf b ->
  is_crossed b = match queue s b, queue (opposite s) b with
                 | x :: _, o :: _ => crossesb s (o_price_ticks x) (o_price_ticks o)
                 | _, _ => false
                 end.
Proof.
  intros Hw. rewrite is_crossed_flat by done. unfold queue.
  destruct s; simpl; [done|].
  destruct (flat (bids_ b)), (flat (asks_ b)); done.
Qed.

Lemma execute_top_cross_sym s b x own o opp :
  book_wf b -> queue s b = x :: own -> queue (opposite s) b = o :: opp ->
  o_side x = s ->
  crossesb s (o_price_ticks x) (o_price_ticks o) = true ->
  let qty := Z.min (o_quantity x) (o_quantity o) in
  exists b', execute_top_cross b = Some (limit_trade x (o, qty), b') /\ book_wf b' /\
    queue s b' = consume qty (x :: own) /\ queue (opposite s) b' = consume qty (o :: opp).
Proof.
  intros Hw Hx Ho Hs Hc qty. unfold queue in *. unfold limit_trade. rewrite Hs.
  destruct s; simpl in *; apply Z.leb_le in Hc.
  - destruct (execute_top_cross_spec b x own o opp Hw Hx Ho Hc) as (b' & He & ? & ? & ?).
    exists b'. done.
  - destruct (execute_top_cross_spec b o opp x own Hw Ho Hx Hc) as (b' & He & ? & Hb & Ha).
    rewrite Z.min_comm in Ha, Hb. exists b'. rewrite He. unfold cross_trade. simpl.
    rewrite (Z.min_comm (o_quantity o)). done.
Qed.

(** The queue [own] does not reach the queue [opp]. *)
Definition uncrossedq (s : Side) (own opp : list Order) : Prop :=
  match own, opp with
  | x :: _, o :: _ => crossesb s (o_price_ticks x) (o_price_ticks o) = false
  | _, _ => True
  end.

Lemma crossesb_worse s p r r' :
  crossesb s p r = false -> ~ before (opposite s) r' r -> crossesb s p r' = false.
Proof. destruct s; simpl; intros H1 H2; zcase; try done; lia. Qed.

Lemma crossesb_worse_own s p p' r :
  crossesb s p r = false -> ~ before s p' p -> crossesb s p' r = false.
Proof. destruct s; simpl; intros H1 H2; zcase; try done; lia. Qed.

Lemma uncrossedq_tail s own o opp :
  StronglySorted (prio_le (opposite s)) (o :: opp) ->
  uncrossedq s own (o :: opp) -> uncrossedq s own opp.
Proof.
  intros (_ & Hs)%StronglySorted_inv. destruct own as [|x own]; [done|].
  destruct opp as [|o' opp]; [done|]. simpl. intros Hc.
  apply Forall_cons in Hs as [Hs _]. by eapply crossesb_worse.
Qed.

Lemma set_quantity_set x a b : set_quantity (set_quantity x a) b = set_quantity x b.
Proof. done. Qed.
Lemma set_quantity_id x : set_quantity x (o_quantity x) = x.
Proof. by destruct x. Qed.

Lemma limit_trade_ids x o q id :
  o_id x = id ->
  (t_buyer_id (limit_trade x (o, q)) =? id) || (t_seller_id (limit_trade x (o, q)) =? id) = true.
Proof.
  intros <-. unfold limit_trade.
  destruct (o_side x); simpl; rewrite Z.eqb_refl; [done|apply orb_true_r].
Qed.

Lemma limit_trade_set x q f : limit_trade (set_quantity x q) f = limit_trade x f.
Proof. done. Qed.

Lemma t_quantity_limit x f : t_quantity (limit_trade x f) = f.2.
Proof. unfold limit_trade. by destruct (o_side x). Qed.

(** The taker [x] is at the front of its queue: the loop is [sweep_limit]. *)
Lemma cross_loop_front fuel s x own0 b log :
  let opp := queue (opposite s) b in
  book_wf b -> o_side x = s -> queue s b = x :: own0 ->
  uncrossedq s own0 opp -> positive opp -> 0 < o_quantity x ->
  (length opp < fuel)%nat ->
  let '(q', rest, fills) := sweep_limit s (o_price_ticks x) (o_quantity x) opp in
  exists b', cross_loop fuel (o_id x) (o_quantity x) b log
      = (q', b', log ++ (limit_trade x <$> fills)) /\
    book_wf b' /\ queue (opposite s) b' = rest /\
    queue s b' = (if 0 <? q' then [set_quantity x q'] else []) ++ own0 /\
    is_crossed b' = false /\ 0 <= q'.
Proof.
  revert x b log. induction fuel as [|fuel IH];
    intros x b log opp Hw Hs Hown Hun Hpos Hqx Hfuel; [lia|].
  cbn [cross_loop]. rewrite (proj2 (Z.ltb_lt 0 (o_quantity x))) by done.
  rewrite (is_crossed_sym s) by done. fold opp. rewrite Hown.
  assert (is_u32 (o_quantity x)) as Hu32.
  { eapply (flat_head_u32 s); [by apply book_wf_side|exact Hown]. }
  destruct opp as [|o opp'] eqn:Hopp.
  { exists b. simpl. rewrite app_nil_r, set_quantity_id.
    rewrite (proj2 (Z.ltb_lt 0 (o_quantity x))) by done.
    rewrite (is_crossed_sym s) by done. fold opp. rewrite Hopp, Hown. by auto with lia. }
  cbn [sweep_limit]. rewrite (proj2 (Z.ltb_lt 0 (o_quantity x))) by done. cbn [andb].
  destruct (crossesb s (o_price_ticks x) (o_price_ticks o)) eqn:Hc.
  2: { exists b. simpl. rewrite app_nil_r, set_quantity_id.
    rewrite (proj2 (Z.ltb_lt 0 (o_quantity x))) by done.
    rewrite (is_crossed_sym s) by done. fold opp. rewrite Hopp, Hown, Hc. by auto with lia. }
  destruct (execute_top_cross_sym s b x own0 o opp' Hw Hown Hopp Hs Hc)
    as (b1 & -> & Hw1 & Hown1 & Hopp1).
  rewrite limit_trade_ids, t_quantity_limit by done. cbn [snd].
  rewrite u32_id by (apply Forall_cons in Hpos as [Ho _]; widths; lia).
  apply Forall_cons in Hpos as [Hpo Hpos].
  assert (uncrossedq s own0 opp') as Hun'.
  { eapply uncrossedq_tail; [|exact Hun]. unfold opp in Hopp. rewrite <- Hopp.
    apply flat_sorted, book_wf_side; done. }
  destruct (Z.leb_spec (o_quantity o) (o_quantity x)) as [Hle|Hgt].
  - rewrite Z.min_r in * by done. cbn [consume] in Hown1, Hopp1.
    rewrite Z.eqb_refl in Hopp1.
    destruct (Z.eqb_spec (o_quantity x) (o_quantity o)) as [He|He].
    + rewrite <- He, Z.sub_diag.
      assert (sweep_limit s (o_price_ticks x) 0 opp' = (0, opp', [])) as ->
        by by destruct opp'.
      exists b1. simpl. rewrite Hown1, Hopp1, (is_crossed_sym s), Hown1, Hopp1 by done.
      split; [by destruct fuel|]. do 3 (split; [done|]). split; [|done].
      destruct own0, opp'; done.
    + specialize (IH (set_quantity x (o_quantity x - o_quantity o)) b1
        (log ++ [limit_trade x (o, o_quantity o)]) Hw1 Hs Hown1).
      rewrite Hopp1 in IH. cbn [o_quantity o_price_ticks set_quantity o_id] in IH.
      specialize (IH Hun' Hpos ltac:(lia) ltac:(simpl in Hfuel; lia)).
      destruct (sweep_limit _ _ _ opp') as [[q' rest] fills].
      destruct IH as (b' & Heq & Hw' & Hopp' & Hown' & Hcr & Hq').
      exists b'. rewrite Heq, <- app_assoc. done.
  - rewrite Z.min_l in * by lia. cbn [consume] in Hown1, Hopp1.
    rewrite Z.eqb_refl in Hown1. rewrite (proj2 (Z.eqb_neq _ _)) in Hopp1 by lia.
    rewrite Z.sub_diag. exists b1. simpl.
    rewrite Hown1, Hopp1, (is_crossed_sym s), Hown1, Hopp1 by done.
    split; [by destruct fuel|]. do 3 (split; [done|]). split; [|done].
    by destruct own0.
Qed.

(** ** Facts about the reference *)

Lemma sweep_limit_stop s p q os :
  uncrossedq s [mkOrder 0 p 0 s LIMIT 0] os -> sweep_limit s p q os = (q, os, []).
Proof.
  destruct os as [|o os]; [done|]. simpl. intros ->. by rewrite andb_false_r.
Qed.

Lemma sweep_limit_bounds s p q os :
  0 <= q -> positive os ->
  let '(q', rest, fills) := sweep_limit s p q os in
  0 <= q' <= q /\ positive rest /\
  q = q' + sumZ (fills.*2) /\ qsum os = qsum rest + sumZ (fills.*2) /\
  Forall (fun f => 0 < f.2 <= o_quantity f.1) fills.
Proof.
  intros Hq Hp. revert q Hq. induction Hp as [|o os Ho Hp IH]; intros q Hq.
  { simpl. unfold qsum. simpl. split; [lia|]. by repeat (split || constructor || lia). }
  cbn [sweep_limit]. destruct (Z.ltb_spec 0 q) as [Hpos|Hz]; cbn [andb].
  2: { split; [lia|]. simpl. split; [by constructor|]. repeat split; try lia. constructor. }
  destruct (crossesb s p (o_price_ticks o)).
  2: { split; [lia|]. simpl. split; [by constructor|]. repeat split; try lia. constructor. }
  destruct (Z.leb_spec (o_quantity o) q) as [Hle|Hgt].
  - specialize (IH (q - o_quantity o) ltac:(lia)).
    destruct (sweep_limit s p (q - o_quantity o) os) as [[q' rest] fills].
    destruct IH as (Hq' & Hr & Hsum & Hqs & Hf). rewrite qsum_cons, fmap_cons, sumZ_cons.
    cbn [snd]. repeat split; try lia; [done|]. constructor; [simpl; lia|done].
  - rewrite !qsum_cons. simpl. repeat split; try lia.
    + constructor; [simpl; lia|done].
    + constructor; [simpl; lia|constructor].
Qed.

(** [x] goes ahead of the whole queue. *)
Definition in_front (s : Side) (x : Order) (os : list Order) : Prop :=
  match os with [] => True | y :: _ => before s (o_price_ticks x) (o_price_ticks y) end.

Lemma insert_prio_in_front s x q os :
  in_front s x os -> insert_prio s (set_quantity x q) os = set_quantity x q :: os.
Proof. destruct os as [|y os]; [done|]. simpl. intros H. by rewrite beforeb_true. Qed.

Lemma insert_prio_head s x os :
  in_front s x os \/
  exists y os', os = y :: os' /\ ~ before s (o_price_ticks x) (o_price_ticks y) /\
    insert_prio s x os = y :: insert_prio s x os'.
Proof.
  destruct os as [|y os']; [by left|]. simpl.
  destruct (beforeb_spec s (o_price_ticks x) (o_price_ticks y)) as [H|H]; [by left|].
  right. by exists y, os'.
Qed.

Lemma engine_inv_uncrossed s b :
  engine_inv b -> uncrossedq s (queue s b) (queue (opposite s) b).
Proof.
  intros (Hw & Hc & _). rewrite (is_crossed_sym s) in Hc by done.
  unfold uncrossedq. by destruct (queue s b), (queue (opposite s) b).
Qed.

Lemma engine_inv_positive s b : engine_inv b -> positive (queue s b).
Proof.
  intros (_ & _ & Hp). unfold positive, queue in *. rewrite (all_orders_perm s) in Hp.
  by apply Forall_app in Hp as [? _].
Qed.

Lemma positive_sides s b :
  positive (queue s b) -> positive (queue (opposite s) b) -> positive (all_orders b).
Proof. intros H1 H2. unfold positive. rewrite (all_orders_perm s). by apply Forall_app. Qed.

Lemma uncrossed_intro s b :
  book_wf b -> uncrossedq s (queue s b) (queue (opposite s) b) -> is_crossed b = false.
Proof.
  intros Hw Hu. rewrite (is_crossed_sym s) by done. unfold uncrossedq in Hu.
  by destruct (queue s b), (queue (opposite s) b).
Qed.

Lemma insert_prio_positive s x os :
  0 < o_quantity x -> positive os -> positive (insert_prio s x os).
Proof. intros. unfold positive. rewrite insert_prio_perm. by constructor. Qed.

(** The loop on the book the new order has just been added to. *)
Lemma cross_loop_added o b log :
  engine_inv b -> o_type o = LIMIT -> is_u32 (o_quantity o) -> 0 < o_quantity o ->
  fresh (o_id o) b ->
  let s := o_side o in
  let b1 := addOrder o b in
  let '(q', rest, fills) :=
    sweep_limit s (o_price_ticks o) (o_quantity o) (queue (opposite s) b) in
  exists b', cross_loop (S (length (all_orders b1))) (o_id o) (o_quantity o) b1 log
      = (q', b', log ++ (limit_trade o <$> fills)) /\
    book_wf b' /\ is_crossed b' = false /\ queue (opposite s) b' = rest /\
    queue s b' = (if 0 <? q' then insert_prio s (set_quantity o q') (queue s b) else queue s b).
Proof.
  intros Hinv Ht Hu Hq Hfr s b1. pose proof Hinv as (Hw & _ & _).
  pose proof (addOrder_wf o b Hw Ht Hu Hfr) as Hw1.
  pose proof (addOrder_flat o b Hw Ht Hu) as [Hown1 Hopp1]. fold s b1 in Hw1, Hown1, Hopp1.
  change (flat (levels s b1)) with (queue s b1) in Hown1.
  change (flat (levels s b)) with (queue s b) in Hown1.
  assert (queue (opposite s) b1 = queue (opposite s) b) as Hopp1' by (unfold queue; by rewrite Hopp1).
  pose proof (engine_inv_uncrossed s b Hinv) as Hun.
  destruct (insert_prio_head s o (queue s b)) as [Hins|(y & own & Hy & Hnb & Hins)].
  - rewrite <- (set_quantity_id o) in Hown1 at 1.
    rewrite insert_prio_in_front, set_quantity_id in Hown1 by done.
    pose proof (cross_loop_front (S (length (all_orders b1))) s o (queue s b) b1 log) as Hl.
    cbv zeta in Hl. rewrite Hopp1' in Hl.
    specialize (Hl Hw1 eq_refl Hown1 Hun (engine_inv_positive _ b Hinv) Hq).
    destruct (sweep_limit _ _ _ _) as [[q' rest] fills].
    destruct Hl as (b' & Heq & Hw' & Hopp' & Hown' & Hcr & _).
    { rewrite (Permutation_length (all_orders_perm s b1)), length_app.
      unfold queue in Hopp1' |- *. rewrite <- Hopp1'. lia. }
    exists b'. rewrite Hown'. do 4 (split; [done|]).
    destruct (0 <? q'); [|done]. by rewrite insert_prio_in_front.
  - rewrite sweep_limit_stop.
    2: { rewrite Hy in Hun. destruct (queue (opposite s) b) as [|r os]; [done|]. simpl in *.
         by eapply crossesb_worse_own. }
    assert (is_crossed b1 = false) as Hc1.
    { apply (uncrossed_intro s); [done|]. rewrite Hown1, Hopp1', Hins.
      rewrite Hy in Hun. by destruct (queue (opposite s) b). }
    exists b1. cbn [cross_loop]. rewrite Hc1, andb_false_r, app_nil_r, set_quantity_id.
    rewrite (proj2 (Z.ltb_lt 0 _)) by done. done.
Qed.

Lemma processOrder_limit o b log :
  engine_inv b -> o_type o = LIMIT -> is_u32 (o_quantity o) -> 0 < o_quantity o ->
  fresh (o_id o) b ->
  let s := o_side o in
  let '(q', rest, fills) :=
    sweep_limit s (o_price_ticks o) (o_quantity o) (queue (opposite s) b) in
  exists b', processOrder o (mkEngine b log)
      = (mkResult true NONE (o_quantity o - q') (q' =? 0),
         mkEngine b' (log ++ (limit_trade o <$> fills))) /\
    engine_inv b' /\ queue (opposite s) b' = rest /\
    queue s b' = (if 0 <? q' then insert_prio s (set_quantity o q') (queue s b) else queue s b).
Proof.
  intros Hinv Ht Hu Hq Hfr s.
  pose proof (cross_loop_added o b log Hinv Ht Hu Hq Hfr) as Hl.
  pose proof (sweep_limit_bounds s (o_price_ticks o) (o_quantity o) (queue (opposite s) b)
    ltac:(lia) (engine_inv_positive _ b Hinv)) as Hb.
  cbv zeta in Hl. fold s in Hl. unfold processOrder. rewrite Ht. cbn [book_ trade_log_].
  destruct (sweep_limit s _ _ _) as [[q' rest] fills].
  destruct Hl as (b' & -> & Hw' & Hcr & Hopp & Hown). destruct Hb as (Hq' & Hr & _ & _ & _).
  exists b'. rewrite u32_id by zwlia. split; [done|]. split; [|done].
  split; [done|]. split; [done|]. apply (positive_sides s); [|by rewrite Hopp].
  rewrite Hown. destruct (Z.ltb_spec 0 q'); [apply insert_prio_positive; [done|]|];
    by apply engine_inv_positive.
Qed.

(** ** Market orders and cancels *)

Lemma sweep_bounds q os :
  0 <= q -> positive os ->
  let '(q', rest, fills) := sweep q os in
  0 <= q' <= q /\ positive rest /\
  q = q' + sumZ (fills.*2) /\ qsum os = qsum rest + sumZ (fills.*2).
Proof.
  intros Hq Hp. revert q Hq. induction Hp as [|o os Ho Hp IH]; intros q Hq.
  { simpl. unfold qsum. simpl. split_and!; (lia || constructor). }
  cbn [sweep]. destruct (Z.ltb_spec 0 q) as [Hpos|Hz].
  2: { simpl. split_and!; (lia || by constructor). }
  destruct (Z.leb_spec (o_quantity o) q) as [Hle|Hgt].
  - specialize (IH (q - o_quantity o) ltac:(lia)).
    destruct (sweep (q - o_quantity o) os) as [[q' rest] fills].
    destruct IH as (Hq' & Hr & Hsum & Hqs). rewrite qsum_cons, fmap_cons, sumZ_cons.
    cbn [snd]. split_and!; try lia; done.
  - rewrite !qsum_cons. simpl. split_and!; try lia. constructor; [simpl; lia|done].
Qed.

Lemma sweep_uncrossed s own q os :
  StronglySorted (prio_le (opposite s)) os -> uncrossedq s own os ->
  uncrossedq s own (sweep q os).1.2.
Proof.
  intros Hs. revert q. induction Hs as [|o os Hs IH Hall]; intros q Hu; [by destruct own|].
  cbn [sweep]. destruct (0 <? q); [|done].
  destruct (o_quantity o <=? q); [|by destruct own].
  assert (uncrossedq s own os) as Hu' by (eapply uncrossedq_tail; [by constructor|done]).
  specialize (IH (q - o_quantity o) Hu').
  by destruct (sweep (q - o_quantity o) os) as [[? ?] ?].
Qed.

Lemma uncrossedq_sym s own opp : uncrossedq s own opp <-> uncrossedq (opposite s) opp own.
Proof. destruct s, own as [|x own], opp as [|y opp]; done. Qed.

(** Dropping an order never brings a side closer to the other. *)
Lemma uncrossedq_drop s l1 o l2 opp :
  StronglySorted (prio_le s) (l1 ++ o :: l2) ->
  uncrossedq s (l1 ++ o :: l2) opp -> uncrossedq s (l1 ++ l2) opp.
Proof.
  intros Hs Hu. destruct l1 as [|x l1]; [|by destruct opp].
  apply uncrossedq_sym. apply uncrossedq_sym in Hu.
  eapply uncrossedq_tail; [|exact Hu]. by rewrite opposite_involutive.
Qed.

Lemma queue_sorted s b : book_wf b -> StronglySorted (prio_le s) (queue s b).
Proof. intros Hw. by apply flat_sorted, book_wf_side. Qed.

Lemma processOrder_market o b log :
  engine_inv b -> o_type o = MARKET -> is_u32 (o_quantity o) ->
  let s := o_side o in
  let '(q', rest, fills) := sweep (o_quantity o) (queue (opposite s) b) in
  exists b', processOrder o (mkEngine b log)
      = (mkResult true NONE (o_quantity o - q') true,
         mkEngine b' (log ++ ((fun f => market_trade (o_id o) s f.2 (o_timestamp o) f.1) <$> fills)))
    /\ engine_inv b' /\ queue (opposite s) b' = rest /\ queue s b' = queue s b.
Proof.
  intros Hinv Ht Hu s. pose proof Hinv as (Hw & _ & _).
  pose proof (match_market_spec (o_id o) s (o_quantity o) (o_timestamp o) b log Hw Hu) as Hm.
  pose proof (sweep_bounds (o_quantity o) (queue (opposite s) b) ltac:(apply Hu)
    (engine_inv_positive _ b Hinv)) as Hb.
  pose proof (sweep_uncrossed s (queue s b) (o_quantity o) (queue (opposite s) b)
    (queue_sorted _ b Hw) (engine_inv_uncrossed s b Hinv)) as Hc.
  cbv zeta in Hm. fold (queue (opposite s) b) in Hm. unfold processOrder. rewrite Ht.
  fold s. cbn [book_ trade_log_].
  destruct (sweep (o_quantity o) (queue (opposite s) b)) as [[q' rest] fills].
  destruct Hm as (b' & -> & Hw' & Hopp & Hown). destruct Hb as (Hq' & Hr & _). cbn in Hc.
  exists b'. rewrite u32_id by zwlia. split; [done|].
  assert (queue s b' = queue s b) as Hq by (unfold queue; by rewrite Hown).
  split; [|done]. split; [done|]. split.
  - apply (uncrossed_intro s); [done|]. rewrite Hq. unfold queue at 2. by rewrite Hopp.
  - apply (positive_sides s); [rewrite Hq; by apply engine_inv_positive|].
    unfold queue. by rewrite Hopp.
Qed.

Lemma remove_id_split id l1 o l2 :
  o_id o = id -> id ∉ (o_id <$> l1) -> remove_id id (l1 ++ o :: l2) = Some (o, l1 ++ l2).
Proof.
  intros Hid. induction l1 as [|x l1 IH]; simpl; intros Hn.
  - by rewrite (proj2 (Z.eqb_eq _ _)).
  - apply not_elem_of_cons in Hn as [Hx Hn].
    rewrite (proj2 (Z.eqb_neq _ _)) by done. by rewrite IH.
Qed.

Lemma remove_id_absent id os : id ∉ (o_id <$> os) -> remove_id id os = None.
Proof.
  induction os as [|x os IH]; simpl; intros Hn; [done|].
  apply not_elem_of_cons in Hn as [Hx Hn].
  rewrite (proj2 (Z.eqb_neq _ _)) by done. by rewrite IH.
Qed.

(** The cancel, by where the order rests. *)
Lemma processOrder_cancel o b log :
  engine_inv b -> o_type o = CANCEL ->
  match order_loc_ b !! o_id o with
  | Some (s, p) =>
      exists b' l1 x l2, processOrder o (mkEngine b log)
        = (mkResult true NONE 0 false, mkEngine b' log) /\ engine_inv b' /\ o_id x = o_id o /\
        queue s b = l1 ++ x :: l2 /\ queue s b' = l1 ++ l2 /\
        queue (opposite s) b' = queue (opposite s) b
  | None => processOrder o (mkEngine b log)
              = (mkResult false UNKNOWN_ORDER 0 false, mkEngine b log)
  end.
Proof.
  intros Hinv Ht. pose proof Hinv as (Hw & _ & _). unfold processOrder. rewrite Ht. cbn [book_ trade_log_].
  destruct (order_loc_ b !! o_id o) as [[s p]|] eqn:Hl; [|by rewrite cancelOrder_miss].
  destruct (cancelOrder_hit b _ s p Hw Hl) as (b' & l1 & x & l2 & -> & Hw' & Hid & Hq & Hq' & Hop).
  exists b', l1, x, l2. split; [done|].
  assert (queue (opposite s) b' = queue (opposite s) b) as Hop' by (unfold queue; by rewrite Hop).
  split; [|done]. split; [done|].
  change (flat (levels s b)) with (queue s b) in Hq.
  change (flat (levels s b')) with (queue s b') in Hq'. split.
  - apply (uncrossed_intro s); [done|]. rewrite Hq', Hop'. apply (uncrossedq_drop s l1 x l2).
    + rewrite <- Hq. by apply queue_sorted.
    + rewrite <- Hq. by apply engine_inv_uncrossed.
  - apply (positive_sides s); [|rewrite Hop'; by apply engine_inv_positive].
    pose proof (engine_inv_positive s b Hinv) as Hp. rewrite Hq in Hp.
    rewrite Hq'. apply Forall_app in Hp as [? [_ ?]%Forall_cons]. by apply Forall_app.
Qed.

(** ** The abstract matching engine *)

(** Two queues of resting orders in price-time priority. *)
Record QBook := mkQ { bidq : list Order; askq : list Order }.

Definition qside (s : Side) (q : QBook) : list Order :=
  match s with BID => bidq q | ASK => askq q end.

Definition mkSides (s : Side) (own opp : list Order) : QBook :=
  match s with BID => mkQ own opp | ASK => mkQ opp own end.

Definition abs (b : OrderBook) : QBook := mkQ (queue BID b) (queue ASK b).

(** The textbook algorithm: match first, rest what is left. *)
Definition spec_process (o : Order) (q : QBook) : ApplyResult * QBook * list Trade :=
  let s := o_side o in
  match o_type o with
  | LIMIT =>
      let '(rem, rest, fills) :=
        sweep_limit s (o_price_ticks o) (o_quantity o) (qside (opposite s) q) in
      let own := if 0 <? rem then insert_prio s (set_quantity o rem) (qside s q) else qside s q in
      (mkResult true NONE (o_quantity o - rem) (rem =? 0), mkSides s own rest,
       limit_trade o <$> fills)
  | MARKET =>
      let '(rem, rest, fills) := sweep (o_quantity o) (qside (opposite s) q) in
      (mkResult true NONE (o_quantity o - rem) true, mkSides s (qside s q) rest,
       (fun f => market_trade (o_id o) s f.2 (o_timestamp o) f.1) <$> fills)
  | CANCEL =>
      match remove_id (o_id o) (bidq q), remove_id (o_id o) (askq q) with
      | Some (_, bq), _ => (mkResult true NONE 0 false, mkQ bq (askq q), [])
      | None, Some (_, aq) => (mkResult true NONE 0 false, mkQ (bidq q) aq, [])
      | None, None => (mkResult false UNKNOWN_ORDER 0 false, q, [])
      end
  end.

(** The orders the gateway hands to the engine. *)
Definition acceptable (o : Order) (b : OrderBook) : Prop :=
  match o_type o with
  | LIMIT => is_u32 (o_quantity o) /\ 0 < o_quantity o /\ fresh (o_id o) b
  | MARKET => is_u32 (o_quantity o)
  | CANCEL => True
  end.

Lemma abs_sides s b : abs b = mkSides s (queue s b) (queue (opposite s) b).
Proof. by destruct s. Qed.
Lemma qside_abs s b : qside s (abs b) = queue s b.
Proof. by destruct s. Qed.

Lemma spec_cancel_hit s id l1 x l2 b :
  book_wf b -> queue s b = l1 ++ x :: l2 -> o_id x = id ->
  remove_id id (queue s b) = Some (x, l1 ++ l2) /\ remove_id id (queue (opposite s) b) = None.
Proof.
  intros (_ & _ & Hn & _) Hq Hid. rewrite (all_orders_perm s) in Hn.
  fold (queue s b) (queue (opposite s) b) in Hn. rewrite Hq, fmap_app, fmap_app, fmap_cons in Hn.
  apply NoDup_app in Hn as (Hn1 & Hd & _). split.
  - rewrite Hq. apply remove_id_split; [done|]. rewrite <- Hid.
    apply NoDup_app in Hn1 as (_ & Hd1 & _). intros Hin. eapply Hd1; [exact Hin|by left].
  - apply remove_id_absent, Hd. rewrite <- Hid. apply elem_of_app. right. by left.
Qed.

Lemma loc_none_absent s b id :
  book_wf b -> order_loc_ b !! id = None -> id ∉ (o_id <$> queue s b).
Proof.
  intros (_ & _ & Hl)%book_wf_alt Hn Hin. rewrite Hl in Hn.
  apply not_elem_of_list_to_map in Hn. apply Hn. unfold keys. rewrite key_fst.
  rewrite (all_orders_perm s), fmap_app. apply elem_of_app. by left.
Qed.

Lemma process_refines_lemma o b log :
  engine_inv b -> acceptable o b ->
  let '(r, q, ts) := spec_process o (abs b) in
  exists b', processOrder o (mkEngine b log) = (r, mkEngine b' (log ++ ts)) /\
    abs b' = q /\ engine_inv b'.
Proof.
  intros Hinv Hok. unfold spec_process, acceptable in *. rewrite !qside_abs.
  set (s := o_side o) in *. destruct (o_type o) eqn:Ht.
  - pose proof (processOrder_market o b log Hinv Ht Hok) as Hm. cbv zeta in Hm. fold s in Hm.
    destruct (sweep _ _) as [[rem rest] fills]. destruct Hm as (b' & Hp & Hi & Ho & Hs).
    exists b'. by rewrite (abs_sides s), Ho, Hs.
  - destruct Hok as (Hu & Hq & Hf).
    pose proof (processOrder_limit o b log Hinv Ht Hu Hq Hf) as Hm. cbv zeta in Hm. fold s in Hm.
    destruct (sweep_limit _ _ _ _) as [[rem rest] fills]. destruct Hm as (b' & Hp & Hi & Ho & Hs).
    exists b'. by rewrite (abs_sides s), Ho, Hs.
  - pose proof (processOrder_cancel o b log Hinv Ht) as Hm. pose proof Hinv as (Hw & _ & _).
    destruct (order_loc_ b !! o_id o) as [[s' p]|] eqn:Hl.
    + destruct Hm as (b' & l1 & x & l2 & Hp & Hi & Hid & Hq & Hq' & Hop).
      destruct (spec_cancel_hit s' _ l1 x l2 b Hw Hq Hid) as [H1 H2].
      destruct s'; simpl in *; unfold abs; simpl; rewrite H1, ?H2; exists b';
        rewrite Hq', Hop, app_nil_r; done.
    + unfold abs. simpl.
      rewrite (remove_id_absent _ (queue BID b)) by by apply loc_none_absent.
      rewrite (remove_id_absent _ (queue ASK b)) by by apply loc_none_absent.
      exists b. by rewrite app_nil_r.
Qed.

#[export] Instance engine_inv_dec b : Decision (engine_inv b).
Proof. unfold engine_inv, positive. apply _. Defined.
#[export] Instance acceptable_dec o b : Decision (acceptable o b).
Proof. unfold acceptable. destruct (o_type o); apply _. Defined.
