(* ===== verification/EngineProps.v ===== *)
(** What the order book and the matching engine guarantee: the properties of
    OrderBook.v and Engine.v, each with a concrete instance. *)
From stdpp Require Import base list gmap sorting.
From Stdlib Require Import ZArith Lia.
From S2P Require Import Prelude Types OrderBook BookFacts Engine.

(** A two-sided book for the instances: bids 100 (ids 1, 2) and 99 (id 3),
    asks 102 (id 4) and 103 (id 5). *)
Definition lim (id p q : Z) (s : Side) : Order := mkOrder id p q s LIMIT id.

Definition sample_book : OrderBook :=
  add_orders [lim 1 100 10 BID; lim 2 100 5 BID; lim 3 99 7 BID; lim 4 102 6 ASK; lim 5 103 8 ASK]
    empty_book.

(** C1: [process_refines]. processOrder implements price-time priority matching: on any
    well-formed, uncrossed book and any order the gateway may submit, resting
    the order first and crossing it afterwards gives the same result, the same
    trades and the same two queues as matching it against the opposite queue
    first and inserting what is left behind its price level. *)
Theorem process_refines (o : Order) (b : OrderBook) (log : list Trade) :
  engine_inv b -> acceptable o b ->
  let '(r, q, ts) := spec_process o (abs b) in
  exists b', processOrder o (mkEngine b log) = (r, mkEngine b' (log ++ ts)) /\
    abs b' = q /\ engine_inv b'.
Proof. apply process_refines_lemma. Qed.

Lemma process_refines_witness :
  let o := lim 6 103 9 BID in
  engine_inv sample_book /\ acceptable o sample_book /\
  let '(r, q, ts) := spec_process o (abs sample_book) in
  exists b', processOrder o (mkEngine sample_book []) = (r, mkEngine b' ts) /\
    abs b' = q /\ engine_inv b'.
Proof.
  split; [vm_decide|]. split; [vm_decide|].
  apply (process_refines (lim 6 103 9 BID) sample_book []); vm_decide.
Defined.

(** The engines commands can lead to: any stream in which a limit order has a
    positive 32-bit quantity and an id that is not resting. *)
Inductive engine_reach : MatchingEngine -> Prop :=
| reach_init : engine_reach empty_engine
| reach_process e o :
    engine_reach e -> acceptable o (book_ e) -> engine_reach (processOrder o e).2
| reach_clear e : engine_reach e -> engine_reach (clear_trade_log e).

Lemma process_inv o e :
  engine_inv (book_ e) -> acceptable o (book_ e) -> engine_inv (book_ (processOrder o e).2).
Proof.
  destruct e as [b log]. simpl. intros Hi Ho.
  pose proof (process_refines_lemma o b log Hi Ho) as H.
  destruct (spec_process o (abs b)) as [[r q] ts]. by destruct H as (b' & -> & _ & ?).
Qed.

Lemma engine_inv_empty : engine_inv empty_book.
Proof. vm_decide. Qed.

Lemma engine_reach_inv e : engine_reach e -> engine_inv (book_ e).
Proof.
  induction 1 as [|e o _ IH Ho|e _ IH]; [apply engine_inv_empty|by apply process_inv|done].
Qed.

Lemma forallb_level s ls : Forall (level_wf s) ls -> forallb level_consistent ls = true.
Proof.
  induction 1 as [|pl ls Hpl _ IH]; [done|]. simpl.
  by rewrite (level_wf_consistent s), IH.
Qed.

Lemma book_wf_consistent b : book_wf b -> levels_consistent b = true.
Proof.
  intros ([_ Hb] & [_ Ha] & _). unfold levels_consistent.
  by rewrite (forallb_level BID), (forallb_level ASK).
Qed.

(** C11: [reachable_book_sound]. in every reachable engine the book is uncrossed, holds no
    zero-quantity order, has strictly sorted non-empty levels, unique ids, a
    location map that records exactly the resting orders, and cached level
    totals equal to the orders' sums (levels_consistent returns true). *)
Theorem reachable_book_sound (e : MatchingEngine) :
  engine_reach e ->
  is_crossed (book_ e) = false /\ levels_consistent (book_ e) = true /\
  book_wf (book_ e) /\ positive (all_orders (book_ e)).
Proof.
  intros Hr. destruct (engine_reach_inv e Hr) as (Hw & Hc & Hp).
  split; [done|]. split; [by apply book_wf_consistent|done].
Qed.

Lemma reachable_book_sound_witness :
  let e := (processOrder (lim 2 99 4 ASK) (processOrder (lim 1 100 10 BID) empty_engine).2).2 in
  engine_reach e /\ is_crossed (book_ e) = false /\ levels_consistent (book_ e) = true.
Proof.
  set (e := (processOrder _ _).2).
  assert (engine_reach e) as Hr.
  { unfold e. apply reach_process; [apply reach_process; [apply reach_init|vm_decide]|vm_decide]. }
  split; [exact Hr|]. destruct (reachable_book_sound e Hr) as (H1 & H2 & _). done.
Defined.

(** ** Quantities *)

Lemma sum_limit_trades x (fs : list (Order * Z)) :
  sumZ (t_quantity <$> (limit_trade x <$> fs)) = sumZ (fs.*2).
Proof.
  induction fs as [|f fs IH]; [done|]. rewrite !fmap_cons, !sumZ_cons, IH.
  by rewrite t_quantity_limit.
Qed.

Lemma qsum_perm l k : l ≡ₚ k -> qsum l = qsum k.
Proof. induction 1; rewrite ?qsum_cons in *; lia. Qed.

Lemma qsum_sides s b : qsum (all_orders b) = qsum (queue s b) + qsum (queue (opposite s) b).
Proof. rewrite (qsum_perm _ _ (all_orders_perm s b)). apply qsum_app. Qed.

(** [limit_conserves_quantity]. no quantity is created or lost by a limit order: what it reports as
    filled is the sum of the trades it printed, the order is fully filled
    exactly when that is its whole size, and the book gains the order's size
    and loses the traded size once from each side. *)
Theorem limit_conserves_quantity (o : Order) (b : OrderBook) (log : list Trade) :
  engine_inv b -> o_type o = LIMIT -> acceptable o b ->
  exists ts, let '(r, e) := processOrder o (mkEngine b log) in
  trade_log_ e = log ++ ts /\
  filled_qty r = sumZ (t_quantity <$> ts) /\
  fully_filled r = (filled_qty r =? o_quantity o) /\
  0 <= filled_qty r <= o_quantity o /\
  qsum (all_orders (book_ e)) = qsum (all_orders b) + o_quantity o - 2 * filled_qty r.
Proof.
  intros Hinv Ht Hok. unfold acceptable in Hok. rewrite Ht in Hok. destruct Hok as (Hu & Hq & Hf).
  pose proof (processOrder_limit o b log Hinv Ht Hu Hq Hf) as Hm. cbv zeta in Hm.
  set (s := o_side o) in *.
  pose proof (sweep_limit_bounds s (o_price_ticks o) (o_quantity o) (queue (opposite s) b)
    ltac:(lia) (engine_inv_positive _ b Hinv)) as Hb.
  destruct (sweep_limit s _ _ _) as [[q' rest] fills].
  destruct Hm as (b' & -> & Hi & Hopp & Hown). destruct Hb as (Hq' & _ & Hs1 & Hs2 & _).
  exists (limit_trade o <$> fills). cbn [trade_log_ filled_qty fully_filled book_].
  rewrite sum_limit_trades, !(qsum_sides s), Hopp, Hown, Hs2.
  split; [done|]. split; [lia|]. split; [zcase; zcase; (done || lia)|]. split; [lia|].
  destruct (Z.ltb_spec 0 q'); [|lia].
  rewrite (qsum_perm _ _ (insert_prio_perm _ _ _)), qsum_cons. simpl. lia.
Qed.

Lemma limit_conserves_quantity_witness :
  let o := lim 6 103 9 BID in
  engine_inv sample_book /\ acceptable o sample_book /\
  exists ts, let '(r, e) := processOrder o (mkEngine sample_book []) in
  trade_log_ e = [] ++ ts /\ filled_qty r = sumZ (t_quantity <$> ts) /\
  fully_filled r = (filled_qty r =? 9) /\ 0 <= filled_qty r <= 9 /\
  qsum (all_orders (book_ e)) = qsum (all_orders sample_book) + 9 - 2 * filled_qty r.
Proof.
  split; [vm_decide|]. split; [vm_decide|].
  apply (limit_conserves_quantity (lim 6 103 9 BID) sample_book []); vm_decide.
Defined.

(** ** Priority and prices *)

(** Every hit but the last takes the whole resting order. *)
Fixpoint whole_but_last (fs : list (Order * Z)) : Prop :=
  match fs with
  | [] => True
  | [_] => True
  | f :: fs => f.2 = o_quantity f.1 /\ whole_but_last fs
  end.

Lemma sweep_limit_prefix s p q os :
  0 <= q -> positive os ->
  let '(q', rest, fills) := sweep_limit s p q os in
  (fills.*1) `prefix_of` os /\ whole_but_last fills /\
  Forall (fun f => crossesb s p (o_price_ticks f.1) = true) fills /\
  (0 < q' -> uncrossedq s [mkOrder 0 p 0 s LIMIT 0] rest).
Proof.
  intros Hq Hp. revert q Hq. induction Hp as [|o os Ho Hp IH]; intros q Hq.
  { simpl. split_and!; (constructor || done || apply prefix_nil). }
  cbn [sweep_limit]. destruct (Z.ltb_spec 0 q) as [Hpos|Hz]; cbn [andb].
  2: { simpl. split_and!; [apply prefix_nil|done|constructor|lia]. }
  destruct (crossesb s p (o_price_ticks o)) eqn:Hc.
  2: { simpl. split_and!; [apply prefix_nil|done|constructor|done]. }
  destruct (Z.leb_spec (o_quantity o) q) as [Hle|Hgt].
  - specialize (IH (q - o_quantity o) ltac:(lia)).
    destruct (sweep_limit s p (q - o_quantity o) os) as [[q' rest] fills].
    destruct IH as (Hpre & Hw & Hf & Hr). rewrite fmap_cons. split_and!.
    + by apply prefix_cons.
    + simpl. by destruct fills.
    + by constructor.
    + done.
  - simpl. split_and!; [apply prefix_cons, prefix_nil|done| |lia].
    by apply Forall_singleton.
Qed.

(** C13: [limit_price_time_priority]. price-time priority. The resting orders a limit order hits are a
    prefix of the opposite queue (best price first, oldest first within a
    price), each of them but the last is taken whole, all of them are within
    the limit, and if anything of the order is left then nothing that remains
    on the other side is within its limit. *)
Theorem limit_price_time_priority (o : Order) (b : OrderBook) (log : list Trade) :
  engine_inv b -> o_type o = LIMIT -> acceptable o b ->
  let s := o_side o in
  exists fills, let '(r, e) := processOrder o (mkEngine b log) in
  trade_log_ e = log ++ (limit_trade o <$> fills) /\
  (fills.*1) `prefix_of` queue (opposite s) b /\ whole_but_last fills /\
  Forall (fun f => crossesb s (o_price_ticks o) (o_price_ticks f.1) = true) fills /\
  (fully_filled r = false ->
   uncrossedq s [mkOrder 0 (o_price_ticks o) 0 s LIMIT 0] (queue (opposite s) (book_ e))).
Proof.
  intros Hinv Ht Hok s. unfold acceptable in Hok. rewrite Ht in Hok. destruct Hok as (Hu & Hq & Hf).
  pose proof (processOrder_limit o b log Hinv Ht Hu Hq Hf) as Hm. cbv zeta in Hm. fold s in Hm.
  pose proof (sweep_limit_bounds s (o_price_ticks o) (o_quantity o) (queue (opposite s) b)
    ltac:(lia) (engine_inv_positive _ b Hinv)) as Hb.
  pose proof (sweep_limit_prefix s (o_price_ticks o) (o_quantity o) (queue (opposite s) b)
    ltac:(lia) (engine_inv_positive _ b Hinv)) as Hp.
  destruct (sweep_limit s _ _ _) as [[q' rest] fills].
  destruct Hm as (b' & -> & Hi & Hopp & Hown). destruct Hb as (Hq' & _).
  destruct Hp as (Hpre & Hw & Hc & Hr). exists fills. cbn [trade_log_ fully_filled book_].
  rewrite Hopp. split_and!; [done..|]. intros Hz%Z.eqb_neq. apply Hr. lia.
Qed.

Lemma limit_price_time_priority_witness :
  let o := lim 6 103 9 BID in
  engine_inv sample_book /\ acceptable o sample_book /\
  exists fills, let '(r, e) := processOrder o (mkEngine sample_book []) in
  trade_log_ e = [] ++ (limit_trade o <$> fills) /\
  (fills.*1) `prefix_of` queue ASK sample_book /\ whole_but_last fills /\
  Forall (fun f => crossesb BID 103 (o_price_ticks f.1) = true) fills /\
  (fully_filled r = false -> uncrossedq BID [mkOrder 0 103 0 BID LIMIT 0] (queue ASK (book_ e))).
Proof.
  split; [vm_decide|]. split; [vm_decide|].
  apply (limit_price_time_priority (lim 6 103 9 BID) sample_book []); vm_decide.
Defined.

(** [execute_top_cross_correct]. execute_top_cross does nothing and returns false exactly on an
    uncrossed book; on a crossed one it trades the two front orders, for the
    smaller of their quantities, at the ask's price (which is within both
    limits), takes that quantity from both and drops what reached zero. *)
Theorem execute_top_cross_correct (b : OrderBook) :
  book_wf b ->
  match execute_top_cross b with
  | None => is_crossed b = false
  | Some (t, b') =>
      is_crossed b = true /\ book_wf b' /\
      exists bid bq ask aq,
        queue BID b = bid :: bq /\ queue ASK b = ask :: aq /\ t = cross_trade bid ask /\
        o_price_ticks ask <= t_price_ticks t <= o_price_ticks bid /\
        queue BID b' = consume (t_quantity t) (bid :: bq) /\
        queue ASK b' = consume (t_quantity t) (ask :: aq)
  end.
Proof.
  intros Hw. destruct (is_crossed b) eqn:Hc.
  - pose proof Hc as Hc'. rewrite is_crossed_flat in Hc' by done.
    destruct (flat (bids_ b)) as [|bid bq] eqn:Hb; [done|].
    destruct (flat (asks_ b)) as [|ask aq] eqn:Ha; [done|]. apply Z.leb_le in Hc'.
    destruct (execute_top_cross_spec b bid bq ask aq Hw Hb Ha Hc') as (b' & -> & Hw' & Hb' & Ha').
    split; [done|]. split; [done|]. exists bid, bq, ask, aq. simpl. by split_and!; try lia.
  - unfold execute_top_cross. by rewrite Hc.
Qed.

Lemma execute_top_cross_correct_witness :
  let b := addOrder (lim 6 102 4 BID) sample_book in
  book_wf b /\
  match execute_top_cross b with
  | None => is_crossed b = false
  | Some (t, b') =>
      is_crossed b = true /\ book_wf b' /\
      exists bid bq ask aq,
        queue BID b = bid :: bq /\ queue ASK b = ask :: aq /\ t = cross_trade bid ask /\
        o_price_ticks ask <= t_price_ticks t <= o_price_ticks bid /\
        queue BID b' = consume (t_quantity t) (bid :: bq) /\
        queue ASK b' = consume (t_quantity t) (ask :: aq)
  end.
Proof.
  split; [vm_decide|].
  apply (execute_top_cross_correct (addOrder (lim 6 102 4 BID) sample_book)). vm_decide.
Defined.

(** ** Round trips *)

Lemma insert_prio_split s o os :
  exists k1 k2, insert_prio s o os = k1 ++ o :: k2 /\ os = k1 ++ k2.
Proof.
  induction os as [|x os (k1 & k2 & IH & ->)]; [by exists [], []|]. simpl.
  destruct (beforeb s _ _); [by exists [], (x :: k1 ++ k2)|].
  exists (x :: k1), k2. by rewrite IH.
Qed.

Lemma NoDup_split_unique (l1 l2 k1 k2 : list Order) x y :
  NoDup (o_id <$> l1 ++ x :: l2) -> l1 ++ x :: l2 = k1 ++ y :: k2 -> o_id x = o_id y ->
  l1 ++ l2 = k1 ++ k2.
Proof.
  revert k1. induction l1 as [|a l1 IH]; intros [|c k1] Hn Heq Hid; simplify_eq/=; [done|..].
  - apply NoDup_cons in Hn as [Hx _]. destruct Hx. rewrite Hid, fmap_app.
    apply elem_of_app. right. by left.
  - apply NoDup_cons in Hn as [Hy _]. destruct Hy. rewrite <- Hid, fmap_app.
    apply elem_of_app. right. by left.
  - apply NoDup_cons in Hn as [_ Hn]. f_equal. by apply IH.
Qed.

Lemma queue_ext s b b' :
  book_wf b -> book_wf b' -> queue s b = queue s b' ->
  queue (opposite s) b = queue (opposite s) b' -> b = b'.
Proof.
  intros Hw Hw' H1 H2.
  assert (forall s, queue s b = queue s b' -> levels s b = levels s b') as Hl.
  { intros s' H. by apply (flat_inj s'); [apply book_wf_side..|]. }
  destruct s; apply book_wf_ext; try done; (apply (Hl BID) || apply (Hl ASK)); done.
Qed.

(** [add_cancel_roundtrip]. cancelling an order that was just added finds it, through the
    location map and the level search, and gives back exactly the book before
    the add: levels, queues, totals and location map. *)
Theorem add_cancel_roundtrip (o : Order) (b : OrderBook) :
  book_wf b -> o_type o = LIMIT -> is_u32 (o_quantity o) -> fresh (o_id o) b ->
  cancelOrder (o_id o) (addOrder o b) = (true, b).
Proof.
  intros Hw Ht Hu Hf. pose proof (addOrder_wf o b Hw Ht Hu Hf) as Hw1.
  pose proof (addOrder_flat o b Hw Ht Hu) as [Hfl Hop]. set (s := o_side o) in *.
  assert (order_loc_ (addOrder o b) !! o_id o = Some (s, o_price_ticks o)) as Hl.
  { unfold addOrder. rewrite Ht. simpl. apply lookup_insert_eq. }
  destruct (cancelOrder_hit _ _ _ _ Hw1 Hl)
    as (b' & l1 & x & l2 & -> & Hw' & Hid & Hq & Hq' & Hop').
  f_equal. apply (queue_ext s); [done..| |unfold queue; by rewrite Hop', Hop].
  unfold queue. rewrite Hq'.
  destruct (insert_prio_split s o (flat (levels s b))) as (k1 & k2 & Hi & ->).
  apply (NoDup_split_unique l1 l2 k1 k2 x o); [|congruence|done]. rewrite <- Hq.
  destruct Hw1 as (_ & _ & Hn & _). rewrite (all_orders_perm s), fmap_app in Hn.
  by apply NoDup_app in Hn as (? & _).
Qed.

Lemma add_cancel_roundtrip_witness :
  book_wf sample_book /\ fresh 6 sample_book /\
  cancelOrder 6 (addOrder (lim 6 99 3 BID) sample_book) = (true, sample_book).
Proof.
  split; [vm_decide|]. split; [vm_decide|].
  apply (add_cancel_roundtrip (lim 6 99 3 BID) sample_book); vm_decide.
Defined.

(** [all_orders_rebuild]. adding the orders of all_orders(), in that order, to an empty book
    rebuilds the identical book, location map and cached totals included. *)
Theorem all_orders_rebuild (b : OrderBook) :
  book_wf b -> add_orders (all_orders b) empty_book = b.
Proof. apply add_orders_rebuild. Qed.

Lemma all_orders_rebuild_witness :
  book_wf sample_book /\ add_orders (all_orders sample_book) empty_book = sample_book.
Proof. split; [vm_decide|]. apply (all_orders_rebuild sample_book). vm_decide. Defined.

(** ** Widths and LOBSTER edits *)

Lemma qsum_bound os :
  Forall (fun o => is_u32 (o_quantity o)) os ->
  0 <= qsum os <= Z.of_nat (length os) * (2 ^ 32 - 1).
Proof.
  induction 1 as [|o os Ho _ IH]; [done|]. rewrite qsum_cons. simpl length.
  rewrite Nat2Z.inj_succ. widths. lia.
Qed.

(** [level_total_exact]. the cached 64-bit total of a level is the true sum of its orders'
    quantities, without wrap-around, as long as a level holds at most 2^32
    orders. *)
Theorem level_total_exact (s : Side) (b : OrderBook) (pl : PriceLevel) :
  book_wf b -> pl ∈ levels s b -> Z.of_nat (length (orders pl)) <= 2 ^ 32 ->
  total_qty pl = qsum (orders pl).
Proof.
  intros Hw Hpl Hlen. destruct (book_wf_side b s Hw) as [_ Hf].
  rewrite Forall_forall in Hf. destruct (Hf pl Hpl) as (_ & -> & Hr).
  apply u64_id. unfold is_u64.
  assert (Forall (fun o => is_u32 (o_quantity o)) (orders pl)) as Hu.
  { eapply Forall_impl; [exact Hr|]. by intros o (_ & _ & _ & ?). }
  pose proof (qsum_bound _ Hu). widths. lia.
Qed.

Lemma level_total_exact_witness :
  exists pl, pl ∈ levels BID sample_book /\ total_qty pl = qsum (orders pl).
Proof.
  exists (mkLevel 100 15 [lim 1 100 10 BID; lim 2 100 5 BID]).
  split; [vm_compute; left|]. apply (level_total_exact BID sample_book); [vm_decide|vm_compute; left|].
  vm_compute. discriminate.
Defined.

(** [reduce_level_correct]. reduce_level_after_lobster_execution. Nothing happens for size zero;
    a missing level answers allow_missing_level and a level holding less than
    the size answers false, both leaving the book alone; otherwise exactly
    the traded size leaves the front of that level's queue, oldest orders
    first, and nothing else changes. *)
Theorem reduce_level_correct (s : Side) (p n : Z) (allow : bool) (b : OrderBook) :
  book_wf b -> is_u32 n ->
  (forall pl, pl ∈ levels s b -> qsum (orders pl) < 2 ^ 64) ->
  let r := reduce_level_after_lobster_execution s p n allow b in
  if n =? 0 then r = (true, b) else
  match list_find (fun pl => lvl_price_ticks pl = p) (levels s b) with
  | None => r = (allow, b)
  | Some (i, pl) =>
      if qsum (orders pl) <? n then r = (false, b)
      else exists b', r = (true, b') /\ book_wf b' /\
        queue s b' = flat (take i (levels s b)) ++ take_qty n (orders pl)
                       ++ flat (drop (S i) (levels s b)) /\
        levels (opposite s) b' = levels (opposite s) b
  end.
Proof.
  intros Hw Hn Hb. simpl. destruct (Z.eqb_spec n 0) as [->|Hz]; [done|].
  pose proof (book_wf_side b s Hw) as Hsw. pose proof (find_level_view s p _ Hsw) as Hv.
  assert (forall ls, Forall (fun l => before s (lvl_price_ticks l) p) ls \/
    Forall (fun l => before s p (lvl_price_ticks l)) ls ->
    Forall (fun l => lvl_price_ticks l <> p) ls) as Hne.
  { intros ls [H|H]; (eapply Forall_impl; [exact H|]); intros l Hl Heq; simpl in Hl;
      rewrite Heq in Hl; by eapply before_irrefl. }
  destruct Hv as [pre pl suf Hls Hfind Hp Hpre Hsuf|pre suf Hls Hfind Hpre Hsuf].
  - assert (list_find (fun pl => lvl_price_ticks pl = p) (levels s b) = Some (length pre, pl)) as ->.
    { apply list_find_Some. rewrite Hls, lookup_mid. split; [done|]. split; [done|].
      intros j y Hj Hlt. rewrite lookup_app_l in Hj by done.
      pose proof (Hne pre (or_introl Hpre)) as H. rewrite Forall_lookup in H. by apply (H j). }
    assert (pl ∈ levels s b) as Hin by (rewrite Hls; apply elem_of_app; right; by left).
    assert (level_wf s pl) as (_ & _ & Hr) by (destruct Hsw as [_ Hf]; rewrite Forall_forall in Hf; auto).
    assert (Forall (fun o => is_u32 (o_quantity o)) (orders pl)) as Hu
      by (eapply Forall_impl; [exact Hr|]; by intros o (_ & _ & _ & ?)).
    pose proof (qsum_nonneg _ Hu) as H0. specialize (Hb pl Hin).
    destruct (Z.ltb_spec (qsum (orders pl)) n) as [Hlt|Hge].
    + unfold reduce_level_after_lobster_execution. rewrite (proj2 (Z.eqb_neq n 0)) by done.
      rewrite Hfind, Hls, lookup_mid, Hp, Z.eqb_refl.
      rewrite sum_quantity_eq, u64_id by (unfold is_u64; lia). by rewrite (proj2 (Z.ltb_lt _ _)).
    + destruct (reduce_level_hit s p n allow b pre pl suf) as (b' & -> & Hw' & Hq & Ho);
        [done..|zwlia|done|].
      exists b'. split; [done|]. split; [done|]. split; [|done]. unfold queue. rewrite Hq, Hls.
      rewrite take_app_length. f_equal. f_equal. rewrite cons_middle, app_assoc.
      rewrite drop_app_length'; [done|]. rewrite length_app. simpl. lia.
  - assert (list_find (fun pl => lvl_price_ticks pl = p) (levels s b) = None) as ->.
    { apply list_find_None. rewrite Hls. apply Forall_app. auto. }
    unfold reduce_level_after_lobster_execution. rewrite (proj2 (Z.eqb_neq n 0)) by done.
    rewrite Hfind, Hls. destruct (_ !! _) as [pl|] eqn:Hl; [|done].
    by rewrite (missing_lookup _ _ _ _ _ Hsuf Hl).
Qed.

Lemma reduce_level_correct_witness :
  book_wf sample_book /\
  exists b', reduce_level_after_lobster_execution BID 100 12 true sample_book = (true, b') /\
    book_wf b' /\
    queue BID b' = flat [] ++ take_qty 12 [lim 1 100 10 BID; lim 2 100 5 BID]
                   ++ flat (drop 1 (levels BID sample_book)) /\
    levels ASK b' = levels ASK sample_book.
Proof.
  split; [vm_decide|].
  refine (reduce_level_correct BID 100 12 true sample_book _ _ _); [vm_decide..|].
  apply Forall_forall. vm_decide.
Defined.

(** ** Termination *)

Lemma consume_length qty os : (length (consume qty os) <= length os)%nat.
Proof. destruct os as [|o os]; cbn; [lia|]. destruct (_ =? _); cbn; lia. Qed.

(** A cross always removes an order. *)
Lemma cross_shrinks b t b' :
  book_wf b -> is_crossed b = true -> execute_top_cross b = Some (t, b') ->
  book_wf b' /\ (length (all_orders b') < length (all_orders b))%nat.
Proof.
  intros Hw Hc He. rewrite is_crossed_flat in Hc by done. unfold crossedq in Hc.
  destruct (flat (bids_ b)) as [|bid bq] eqn:Eb; [done|]. destruct (flat (asks_ b)) as [|ask aq] eqn:Ea; [done|].
  destruct (execute_top_cross_spec b bid bq ask aq Hw Eb Ea) as (b1 & He1 & Hw1 & Hb1 & Ha1); [lia|].
  rewrite He1 in He. injection He as <- <-. split; [done|].
  unfold all_orders. rewrite Hb1, Ha1, Eb, Ea, !length_app.
  pose proof (consume_length (Z.min (o_quantity bid) (o_quantity ask)) (bid :: bq)).
  pose proof (consume_length (Z.min (o_quantity bid) (o_quantity ask)) (ask :: aq)).
  cbn [consume] in *. destruct (Z.eqb_spec (o_quantity bid) (Z.min (o_quantity bid) (o_quantity ask))),
    (Z.eqb_spec (o_quantity ask) (Z.min (o_quantity bid) (o_quantity ask))); cbn [length] in *; lia.
Qed.

Lemma crossed_trades b : book_wf b -> is_crossed b = true -> is_Some (execute_top_cross b).
Proof.
  intros Hw Hc. rewrite is_crossed_flat in Hc by done. unfold crossedq in Hc.
  destruct (flat (bids_ b)) as [|bid bq] eqn:Eb; [done|]. destruct (flat (asks_ b)) as [|ask aq] eqn:Ea; [done|].
  destruct (execute_top_cross_spec b bid bq ask aq Hw Eb Ea) as (b1 & He1 & _); [lia|]. by eexists.
Qed.

Lemma cross_loop_ends fuel fuel' id q b log :
  book_wf b -> (length (all_orders b) < fuel)%nat -> (length (all_orders b) < fuel')%nat ->
  exists rem b' log', cross_loop fuel id q b log = (rem, b', log') /\ cross_loop fuel' id q b log = (rem, b', log') /\
    (0 <? rem) && is_crossed b' = false /\ book_wf b' /\
    (length log' <= length log + length (all_orders b))%nat.
Proof.
  revert fuel' q b log. induction fuel as [|fuel IH]; intros fuel' q b log Hw Hf Hf'; [lia|].
  destruct fuel' as [|fuel']; [lia|]. cbn [cross_loop].
  destruct ((0 <? q) && is_crossed b) eqn:Eg; [|exists q, b, log; split_and!; try done; lia].
  apply andb_true_iff in Eg as [_ Hc]. destruct (crossed_trades b Hw Hc) as [[t b1] He]. rewrite He.
  destruct (cross_shrinks b t b1 Hw Hc He) as [Hw1 Hl].
  destruct (IH fuel' (if (t_buyer_id t =? id) || (t_seller_id t =? id) then u32 (q - t_quantity t) else q) b1 (log ++ [t]) Hw1)
    as (rem & b' & log' & H1 & H2 & H3 & H4 & H5); [lia|lia|].
  exists rem, b', log'. split_and!; try done. rewrite length_app in H5. cbn in H5. lia.
Qed.

(** C22: [matching_terminates]. Crossing ends by itself: on every well-formed
    book, however often the loop is allowed to run beyond one turn more than
    there are resting orders, it stops at the same result because the book is no
    longer crossed or nothing of the new order remains; it has printed at most
    one trade per resting order. *)
Theorem matching_terminates (b : OrderBook) (id q : Z) (log : list Trade) (fuel : nat) :
  book_wf b -> (length (all_orders b) < fuel)%nat ->
  exists rem b' log',
    cross_loop fuel id q b log = (rem, b', log') /\
    cross_loop (S (length (all_orders b))) id q b log = (rem, b', log') /\
    (0 <? rem) && is_crossed b' = false /\ book_wf b' /\
    (length log' <= length log + length (all_orders b))%nat.
Proof. intros Hw Hf. apply cross_loop_ends; [done|done|lia]. Qed.

Lemma matching_terminates_witness :
  exists rem b' log',
    cross_loop 100 6 20 (addOrder (lim 6 103 20 BID) sample_book) [] = (rem, b', log') /\
    cross_loop (S (length (all_orders (addOrder (lim 6 103 20 BID) sample_book)))) 6 20
      (addOrder (lim 6 103 20 BID) sample_book) [] = (rem, b', log') /\
    (0 <? rem) && is_crossed b' = false /\ book_wf b' /\
    (length log' <= length (@nil Trade) + length (all_orders (addOrder (lim 6 103 20 BID) sample_book)))%nat.
Proof.
  apply (matching_terminates (addOrder (lim 6 103 20 BID) sample_book) 6 20 [] 100); [vm_decide|vm_compute; lia].
Defined.
