(* ===== verification/Bytes.v ===== *)
(** The primitive encoding of the wire protocol, the log and the snapshots:
    [namespace detail] of include/ome/protocol.hpp. Little-endian field
    writers, and the bounds-checked [Reader] cursor with its failure flag. A
    byte is a [Z] in [0, 256). *)
From stdpp Require Import base numbers list.
From Stdlib Require Import ZArith Lia.
From S2P Require Import Prelude.

Definition bytes (l : list Z) : Prop := Forall is_u8 l.

(** ** Writers: each appends to [out] *)

(** [for i in 0..n-1: push (v >> (8 * i)) & 0xFF]. *)
Definition le_bytes (n : nat) (v : Z) : list Z :=
  (fun i => Z.land (Z.shiftr v (8 * Z.of_nat i)) 255) <$> seq 0 n.

Definition put_u8 (out : list Z) (v : Z) : list Z := out ++ [v].
Definition put_u16 (out : list Z) (v : Z) : list Z :=
  out ++ [Z.land v 255] ++ [Z.land (Z.shiftr v 8) 255].
Definition put_u32 (out : list Z) (v : Z) : list Z := out ++ le_bytes 4 v.
Definition put_u64 (out : list Z) (v : Z) : list Z := out ++ le_bytes 8 v.
(** The [memcpy] to [uint64_t] is the two's complement bit pattern. *)
Definition put_i64 (out : list Z) (v : Z) : list Z := put_u64 out (u64 v).

(** ** Reader *)

Record Reader := mkReader {
  data_ : list Z;
  pos_ : nat;
  ok_ : bool;
}.

Definition reader (data : list Z) : Reader := mkReader data 0 true.

Definition remaining (r : Reader) : nat :=
  if ok_ r then (length (data_ r) - pos_ r)%nat else 0%nat.

(** [need]: the new flag is its result. *)
Definition need (n : nat) (r : Reader) : bool :=
  ok_ r && (n <=? length (data_ r) - pos_ r)%nat.

Definition fail (r : Reader) : Reader := mkReader (data_ r) (pos_ r) false.
Definition advance (n : nat) (r : Reader) : Reader := mkReader (data_ r) (pos_ r + n) (ok_ r).

Definition rd_u8 (r : Reader) : Z * Reader :=
  if need 1 r then (data_ r !!! pos_ r, advance 1 r) else (0, fail r).

Definition rd_u16 (r : Reader) : Z * Reader :=
  if need 2 r
  then (u16 (Z.lor (data_ r !!! pos_ r) (u16 (Z.shiftl (data_ r !!! (pos_ r + 1)%nat) 8))),
        advance 2 r)
  else (0, fail r).

(** The [v |= data_[pos_ + i] << (8 * i)] loop. *)
Definition le_loop (n : nat) (r : Reader) : Z :=
  foldl (fun v i => Z.lor v (Z.shiftl (data_ r !!! (pos_ r + i)%nat) (8 * Z.of_nat i)))
    0 (seq 0 n).

Definition rd_u32 (r : Reader) : Z * Reader :=
  if need 4 r then (u32 (le_loop 4 r), advance 4 r) else (0, fail r).

Definition rd_u64 (r : Reader) : Z * Reader :=
  if need 8 r then (u64 (le_loop 8 r), advance 8 r) else (0, fail r).

Definition rd_i64 (r : Reader) : Z * Reader :=
  let '(bits, r) := rd_u64 r in (i64 bits, r).

#[global] Arguments le_bytes : simpl never.
#[global] Arguments rd_u8 : simpl never.
#[global] Arguments rd_u16 : simpl never.
#[global] Arguments rd_u32 : simpl never.
#[global] Arguments rd_u64 : simpl never.
#[global] Arguments rd_i64 : simpl never.

(** ** Little-endian values *)

Fixpoint le_decode (bs : list Z) : Z :=
  match bs with
  | [] => 0
  | b :: bs => b + 256 * le_decode bs
  end.

Lemma land_255 z : Z.land z 255 = z mod 256.
Proof. change 255 with (Z.ones 8). by rewrite Z.land_ones. Qed.

Lemma le_bytes_S n v :
  le_bytes (S n) v = v mod 256 :: le_bytes n (v / 256).
Proof.
  unfold le_bytes. cbn [seq fmap list_fmap]. f_equal.
  - by rewrite Z.shiftr_0_r, land_255.
  - rewrite <- fmap_S_seq, <- list_fmap_compose. apply list_fmap_ext. intros i x _. simpl.
    replace (8 * Z.of_nat (S x)) with (8 + 8 * Z.of_nat x) by lia.
    rewrite <- Z.shiftr_shiftr by lia. by rewrite (Z.shiftr_div_pow2 v 8).
Qed.

Lemma length_le_bytes n v : length (le_bytes n v) = n.
Proof. unfold le_bytes. by rewrite length_fmap, length_seq. Qed.

Lemma le_bytes_bytes n v : bytes (le_bytes n v).
Proof.
  revert v. induction n as [|n IH]; intros v; [constructor|].
  rewrite le_bytes_S. constructor; [|apply IH]. unfold is_u8. apply Z.mod_pos_bound. lia.
Qed.

Lemma le_decode_bytes n v : le_decode (le_bytes n v) = v mod 256 ^ Z.of_nat n.
Proof.
  revert v. induction n as [|n IH]; intros v.
  { simpl. by rewrite Z.mod_1_r. }
  rewrite le_bytes_S. cbn [le_decode]. rewrite IH.
  rewrite Nat2Z.inj_succ, Z.pow_succ_r by lia. rewrite Z.rem_mul_r by lia. lia.
Qed.

Lemma le_decode_bound bs : bytes bs -> 0 <= le_decode bs < 256 ^ Z.of_nat (length bs).
Proof.
  induction 1 as [|b bs Hb _ IH]; [done|]. cbn [le_decode length].
  rewrite Nat2Z.inj_succ, Z.pow_succ_r by lia. widths. lia.
Qed.

Lemma le_bytes_decode bs : bytes bs -> le_bytes (length bs) (le_decode bs) = bs.
Proof.
  induction 1 as [|b bs Hb Hbs IH]; [done|]. cbn [le_decode length]. rewrite le_bytes_S.
  replace ((b + 256 * le_decode bs) mod 256) with b.
  2: { rewrite (Z.mul_comm 256), Z.mod_add by lia. symmetry. by apply Z.mod_small. }
  replace ((b + 256 * le_decode bs) / 256) with (le_decode bs); [by rewrite IH|].
  rewrite (Z.mul_comm 256), Z.div_add by lia. rewrite Z.div_small by (apply Hb). lia.
Qed.

Lemma le_decode_snoc bs b :
  le_decode (bs ++ [b]) = le_decode bs + b * 256 ^ Z.of_nat (length bs).
Proof.
  induction bs as [|x bs IH]; [simpl; lia|]. cbn [le_decode length app]. rewrite IH.
  rewrite Nat2Z.inj_succ, Z.pow_succ_r by lia. lia.
Qed.

(** Or-ing a byte in above the bits already there is adding it. *)
Lemma lor_shiftl a b k :
  0 <= k -> 0 <= a < 2 ^ k -> 0 <= b -> Z.lor a (Z.shiftl b k) = a + b * 2 ^ k.
Proof.
  intros Hk Ha Hb. rewrite <- Z.shiftl_mul_pow2 by lia.
  symmetry. rewrite Z.add_nocarry_lxor, Z.lxor_lor; [done|..].
  all: apply Z.bits_inj'; intros i Hi; rewrite Z.land_spec, Z.bits_0, Z.shiftl_spec by lia.
  all: destruct (Z.ltb_spec i k) as [Hlt|Hge];
    [rewrite (Z.testbit_neg_r b (i - k)) by lia; apply andb_false_r|].
  all: rewrite <- (Z.mod_small a (2 ^ k)), Z.mod_pow2_bits_high by lia; done.
Qed.

Lemma pow256 n : 256 ^ Z.of_nat n = 2 ^ (8 * Z.of_nat n).
Proof. change 256 with (2 ^ 8). rewrite <- Z.pow_mul_r by lia. done. Qed.

(** ** The suffix a reader still has *)

Definition view (r : Reader) : option (list Z) :=
  if ok_ r then Some (drop (pos_ r) (data_ r)) else None.

Definition reader_wf (r : Reader) : Prop := bytes (data_ r) /\ (pos_ r <= length (data_ r))%nat.

(** Reading [n] bytes off a suffix. *)
Definition sread (n : nat) (o : option (list Z)) : Z * option (list Z) :=
  match o with
  | Some bs =>
      if (n <=? length bs)%nat then (le_decode (take n bs), Some (drop n bs)) else (0, None)
  | None => (0, None)
  end.

Lemma need_view n r :
  need n r = match view r with Some bs => (n <=? length bs)%nat | None => false end.
Proof. unfold need, view. destruct (ok_ r); simpl; [|done]. by rewrite length_drop. Qed.

Lemma le_loop_spec n r :
  reader_wf r -> (n <= length (drop (pos_ r) (data_ r)))%nat ->
  le_loop n r = le_decode (take n (drop (pos_ r) (data_ r))).
Proof.
  intros [Hb Hp]. unfold le_loop. induction n as [|n IH]; intros Hn; [done|].
  rewrite seq_S, foldl_app, IH by lia. simpl. set (sf := drop (pos_ r) (data_ r)) in *.
  assert (bytes sf) as Hsf by by apply Forall_drop.
  destruct (lookup_lt_is_Some_2 sf n Hn) as [b Hl].
  rewrite (take_S_r _ _ _ Hl), le_decode_snoc, length_take_le by lia.
  assert (data_ r !!! (pos_ r + n)%nat = b) as ->.
  { apply list_lookup_total_correct. by rewrite <- lookup_drop. }
  rewrite pow256. apply lor_shiftl; [lia| |by apply (Forall_lookup_1 _ _ _ _ Hsf) in Hl as []].
  rewrite <- pow256. pose proof (le_decode_bound (take n sf) (Forall_take _ _ _ Hsf)) as Hd.
  by rewrite length_take_le in Hd by lia.
Qed.

Lemma view_advance n r bs :
  view r = Some bs -> view (advance n r) = Some (drop n bs).
Proof.
  unfold view, advance. simpl. destruct (ok_ r); [|done]. intros [= <-]. by rewrite drop_drop.
Qed.

Lemma view_fail r : view (fail r) = None.
Proof. done. Qed.

Lemma reader_wf_advance n r bs :
  reader_wf r -> view r = Some bs -> (n <= length bs)%nat -> reader_wf (advance n r).
Proof.
  intros [Hb Hp]. unfold view. destruct (ok_ r); [|done]. intros [= <-].
  rewrite length_drop. split; simpl; [done|lia].
Qed.

(** What every field reader does to the view. *)
Definition reads (n : nat) (f : Reader -> Z * Reader) : Prop :=
  forall r, reader_wf r ->
    (f r).1 = (sread n (view r)).1 /\ view (f r).2 = (sread n (view r)).2 /\ reader_wf (f r).2.

Lemma le_take_bound n bs :
  bytes bs -> 0 <= le_decode (take n bs) < 256 ^ Z.of_nat n.
Proof.
  intros Hb. pose proof (le_decode_bound (take n bs) (Forall_take _ _ _ Hb)) as H.
  rewrite length_take in H. split; [lia|]. eapply Z.lt_le_trans; [apply H|].
  apply Z.pow_le_mono_r; lia.
Qed.

Lemma reads_loop n w :
  w = 8 * Z.of_nat n ->
  reads n (fun r => if need n r then (le_loop n r mod 2 ^ w, advance n r) else (0, fail r)).
Proof.
  intros -> r Hr. rewrite need_view. unfold sread.
  destruct (view r) as [bs|] eqn:Hv; [|done].
  destruct (Nat.leb_spec n (length bs)) as [Hle|Hgt]; [|done]. cbn [fst snd].
  split; [|split; [by apply view_advance|by eapply reader_wf_advance]].
  unfold view in Hv. destruct (ok_ r); [|done]. injection Hv as <-.
  rewrite le_loop_spec by done. apply Z.mod_small. rewrite <- pow256.
  apply le_take_bound, Forall_drop. apply Hr.
Qed.

Lemma reads_u32 : reads 4 rd_u32.
Proof. by apply (reads_loop 4 32). Qed.
Lemma reads_u64 : reads 8 rd_u64.
Proof. by apply (reads_loop 8 64). Qed.

Lemma drop_lookup_total (l : list Z) p bs i :
  bs = drop p l -> (i < length bs)%nat -> l !!! (p + i)%nat = bs !!! i.
Proof. intros -> _. by rewrite lookup_total_drop. Qed.

Lemma reads_u8 : reads 1 rd_u8.
Proof.
  intros r Hr. unfold rd_u8. rewrite need_view. unfold sread.
  destruct (view r) as [bs|] eqn:Hv; [|done].
  destruct (Nat.leb_spec 1 (length bs)) as [Hle|Hgt]; [|done]. cbn [fst snd].
  split; [|split; [by apply view_advance|by eapply reader_wf_advance]].
  unfold view in Hv. destruct (ok_ r); [|done]. injection Hv as Hv.
  rewrite <- (Nat.add_0_r (pos_ r)), (drop_lookup_total _ _ bs 0) by (done || lia).
  destruct bs as [|b bs]; simpl in *; lia.
Qed.

Lemma reads_u16 : reads 2 rd_u16.
Proof.
  intros r Hr. unfold rd_u16. rewrite need_view. unfold sread.
  destruct (view r) as [bs|] eqn:Hv; [|done].
  destruct (Nat.leb_spec 2 (length bs)) as [Hle|Hgt]; [|done]. cbn [fst snd].
  split; [|split; [by apply view_advance|by eapply reader_wf_advance]].
  unfold view in Hv. destruct (ok_ r); [|done]. injection Hv as Hv.
  assert (bytes bs) as Hb by (rewrite <- Hv; apply Forall_drop, Hr).
  rewrite <- (Nat.add_0_r (pos_ r)) at 1. rewrite !(drop_lookup_total _ _ bs) by (done || lia).
  destruct bs as [|b [|c bs]]; simpl in Hle; try lia.
  apply Forall_cons in Hb as [Hb [Hc _]%Forall_cons]. simpl.
  assert (Z.shiftl c 8 = c * 256) as Hs by by rewrite Z.shiftl_mul_pow2.
  rewrite (u16_id (Z.shiftl c 8)) by (rewrite Hs; zwlia).
  rewrite lor_shiftl by (widths; lia). change (2 ^ 8) with 256.
  rewrite u16_id by zwlia. lia.
Qed.
