(* ===== verification/Protocol.v ===== *)
(** The wire protocol (include/ome/protocol.hpp): message structs, header,
    payload codecs and frames. [encode] and [decode<T>] are overloaded on the
    message type in the source; here they are the operations of a class
    [Message], and [MessageLaws] is what a codec promises: it round-trips and
    accepts nothing but its own encodings. *)
From stdpp Require Import base numbers list.
From Stdlib Require Import ZArith Lia.
From S2P Require Import Prelude Types Bytes.

Class Message (A : Type) := {
  encode : list Z -> A -> list Z;
  decode : list Z -> option A;
}.

Class MessageLaws (A : Type) `{Message A} := {
  msg_ok : A -> Prop;
  encode_app out m : encode out m = out ++ encode [] m;
  encode_bytes m : msg_ok m -> bytes (encode [] m);
  decode_encode m : msg_ok m -> decode (encode [] m) = Some m;
  encode_decode bs m : bytes bs -> decode bs = Some m -> msg_ok m /\ encode [] m = bs;
}.

(** ** Reasoning about field readers *)

(** The reader [r] is well formed and has [o] left. *)
Definition at_suffix (r : Reader) (o : option (list Z)) : Prop := reader_wf r /\ view r = o.

Lemma at_suffix_init bs : bytes bs -> at_suffix (reader bs) (Some bs).
Proof. intros Hb. split; [split; [done|simpl; lia]|done]. Qed.

Lemma reads_at n f r o :
  reads n f -> at_suffix r o ->
  exists r', f r = ((sread n o).1, r') /\ at_suffix r' (sread n o).2.
Proof.
  intros Hf [Hw <-]. destruct (Hf r Hw) as (H1 & H2 & H3).
  exists (f r).2. rewrite <- H1. by destruct (f r).
Qed.

Lemma rd_i64_at r o :
  at_suffix r o -> exists r', rd_i64 r = (i64 (sread 8 o).1, r') /\ at_suffix r' (sread 8 o).2.
Proof.
  intros H. unfold rd_i64. destruct (reads_at 8 rd_u64 r o reads_u64 H) as (r' & -> & ?). eauto.
Qed.

(** [!r.ok() || r.remaining() != 0]. *)
Definition bad_end (r : Reader) : bool := negb (ok_ r) || negb (remaining r =? 0)%nat.

Lemma bad_end_at r o :
  at_suffix r o -> bad_end r = match o with Some [] => false | _ => true end.
Proof.
  intros [_ <-]. unfold bad_end, remaining, view. destruct (ok_ r); simpl; [|done].
  rewrite <- length_drop. by destruct (drop (pos_ r) (data_ r)).
Qed.

Lemma ok_at r o : at_suffix r o -> ok_ r = match o with Some _ => true | None => false end.
Proof. intros [_ <-]. unfold view. by destruct (ok_ r). Qed.

(** Run the next field reader of the goal on the suffix it is at. *)
Ltac rd_step :=
  match goal with
  | H : at_suffix ?r ?o |- context [rd_u8 ?r] =>
      destruct (reads_at 1 rd_u8 r o reads_u8 H) as (? & -> & ?); clear H
  | H : at_suffix ?r ?o |- context [rd_u16 ?r] =>
      destruct (reads_at 2 rd_u16 r o reads_u16 H) as (? & -> & ?); clear H
  | H : at_suffix ?r ?o |- context [rd_u32 ?r] =>
      destruct (reads_at 4 rd_u32 r o reads_u32 H) as (? & -> & ?); clear H
  | H : at_suffix ?r ?o |- context [rd_u64 ?r] =>
      destruct (reads_at 8 rd_u64 r o reads_u64 H) as (? & -> & ?); clear H
  | H : at_suffix ?r ?o |- context [rd_i64 ?r] =>
      destruct (rd_i64_at r o H) as (? & -> & ?); clear H
  | H : at_suffix ?r ?o |- context [bad_end ?r] => rewrite (bad_end_at r o H)
  | H : at_suffix ?r ?o |- context [ok_ ?r] => rewrite (ok_at r o H)
  end.

Lemma sread_le n v bs :
  sread n (Some (le_bytes n v ++ bs)) = (v mod 2 ^ (8 * Z.of_nat n), Some bs).
Proof.
  unfold sread. rewrite length_app, length_le_bytes.
  rewrite (proj2 (Nat.leb_le _ _)) by lia.
  rewrite take_app_length', drop_app_length' by (by rewrite length_le_bytes).
  by rewrite le_decode_bytes, pow256.
Qed.

Lemma sread_u64 v bs : is_u64 v -> sread 8 (Some (le_bytes 8 v ++ bs)) = (v, Some bs).
Proof. intros H. rewrite sread_le. f_equal. apply Z.mod_small, H. Qed.
Lemma sread_u32 v bs : is_u32 v -> sread 4 (Some (le_bytes 4 v ++ bs)) = (v, Some bs).
Proof. intros H. rewrite sread_le. f_equal. apply Z.mod_small, H. Qed.
Lemma sread_u16 v bs : is_u16 v -> sread 2 (Some (le_bytes 2 v ++ bs)) = (v, Some bs).
Proof. intros H. rewrite sread_le. f_equal. apply Z.mod_small, H. Qed.
Lemma sread_u64_end v : is_u64 v -> sread 8 (Some (le_bytes 8 v)) = (v, Some []).
Proof. rewrite <- (app_nil_r (le_bytes 8 v)). apply sread_u64. Qed.
Lemma sread_u32_end v : is_u32 v -> sread 4 (Some (le_bytes 4 v)) = (v, Some []).
Proof. rewrite <- (app_nil_r (le_bytes 4 v)). apply sread_u32. Qed.
Lemma sread_u16_end v : is_u16 v -> sread 2 (Some (le_bytes 2 v)) = (v, Some []).
Proof. rewrite <- (app_nil_r (le_bytes 2 v)). apply sread_u16. Qed.
Lemma sread_u8 v bs : sread 1 (Some (v :: bs)) = (v, Some bs).
Proof. unfold sread. simpl. rewrite Z.add_0_r. by rewrite drop_0. Qed.

(** A read that ends with bytes left consumed exactly [n] of them. *)
Inductive sread_view (n : nat) : option (list Z) -> Z * option (list Z) -> Prop :=
| SvOk h t : length h = n -> sread_view n (Some (h ++ t)) (le_decode h, Some t)
| SvFail o : sread_view n o (0, None).

Lemma sread_cases n o : sread_view n o (sread n o).
Proof.
  destruct o as [bs|]; [|constructor]. unfold sread.
  destruct (Nat.leb_spec n (length bs)); [|constructor].
  rewrite <- (take_drop n bs) at 1. constructor. rewrite length_take. lia.
Qed.

Lemma put_u16_le out v : put_u16 out v = out ++ le_bytes 2 v.
Proof. unfold put_u16, le_bytes. simpl. by rewrite Z.shiftr_0_r. Qed.

Lemma put_i64_le out v : put_i64 out v = out ++ le_bytes 8 (u64 v).
Proof. done. Qed.

Ltac puts := unfold put_u8, put_u32, put_u64; rewrite ?put_u16_le, ?put_i64_le;
             unfold put_u64; rewrite ?app_nil_l, <- ?app_assoc; cbn [app].

(** A fixed-width field of [n] bytes read back and written again. *)
Lemma le_bytes_of h n : bytes h -> length h = n -> le_bytes n (le_decode h) = h.
Proof. intros Hb <-. by apply le_bytes_decode. Qed.

Lemma le_decode_width h n : bytes h -> length h = n -> 0 <= le_decode h < 2 ^ (8 * Z.of_nat n).
Proof. intros Hb <-. rewrite <- pow256. by apply le_decode_bound. Qed.

Lemma le_decode_u64 h : bytes h -> length h = 8%nat -> is_u64 (le_decode h).
Proof. intros Hb Hl. apply (le_decode_width h 8 Hb Hl). Qed.
Lemma le_decode_u32 h : bytes h -> length h = 4%nat -> is_u32 (le_decode h).
Proof. intros Hb Hl. apply (le_decode_width h 4 Hb Hl). Qed.
Lemma le_decode_u16 h : bytes h -> length h = 2%nat -> is_u16 (le_decode h).
Proof. intros Hb Hl. apply (le_decode_width h 2 Hb Hl). Qed.
Lemma le_bytes_i64 h : bytes h -> length h = 8%nat -> le_bytes 8 (u64 (i64 (le_decode h))) = h.
Proof. intros Hb Hl. rewrite u64_i64 by by apply le_decode_u64. by apply le_bytes_of. Qed.

Lemma le_decode_one h : bytes h -> length h = 1%nat -> exists b, h = [b] /\ is_u8 b /\ le_decode h = b.
Proof.
  destruct h as [|b [|]]; try done. intros [Hb _]%Forall_cons _.
  exists b. split; [done|]. split; [done|]. simpl. lia.
Qed.

(** Split a decoded buffer into its fields, following the readers. *)
Ltac sread_split :=
  match goal with
  | |- context [sread ?n (Some ?bs)] =>
      let H := fresh in
      pose proof (sread_cases n (Some bs)) as H; revert H;
      let p := fresh in
      generalize (sread n (Some bs)); intros p H; inversion H; subst; clear H; cbn [fst snd]
  | |- context [sread ?n None] => change (sread n None) with (0, @None (list Z)); cbn [fst snd]
  end.

Lemma bytes_app l k : bytes (l ++ k) -> bytes l /\ bytes k.
Proof. apply Forall_app. Qed.

Ltac split_bytes :=
  repeat match goal with
  | H : bytes (_ ++ _) |- _ => apply bytes_app in H as [? ?]
  | H : bytes ?h, L : length ?h = 1%nat |- _ =>
      destruct (le_decode_one h H L) as (? & -> & ? & ->); clear H L
  end.

Create HintDb codec.
#[export] Hint Resolve le_bytes_bytes le_decode_u64 le_decode_u32 le_decode_u16 i64_range : codec.

Module protocol.

Definition kVersion : Z := 1.
Definition kMaxPayloadSize : Z := 64 * 1024.
Definition kHeaderSize : nat := 8.
Definition kMaxBookDepth : nat := 10.

(** ** Message types, with their wire values *)

Inductive MessageType :=
  | TNewOrder | TCancel | TModify | TSubscribe
  | TAck | TReject | TFill | TBookUpdate | THeartbeat.

Definition mtype_code (t : MessageType) : Z :=
  match t with
  | TNewOrder => 1 | TCancel => 2 | TModify => 3 | TSubscribe => 4
  | TAck => 10 | TReject => 11 | TFill => 12 | TBookUpdate => 13 | THeartbeat => 14
  end.

(** [static_cast<MessageType>(v)] as far as a [switch] can tell: [None] is
    the default branch. *)
Definition mtype_of (v : Z) : option MessageType :=
  match v with
  | 1 => Some TNewOrder | 2 => Some TCancel | 3 => Some TModify | 4 => Some TSubscribe
  | 10 => Some TAck | 11 => Some TReject | 12 => Some TFill | 13 => Some TBookUpdate
  | 14 => Some THeartbeat | _ => None
  end.

Inductive Side := Bid | Ask.
Inductive OrderType := Market | Limit.

Definition side_code (s : Side) : Z := match s with Bid => 0 | Ask => 1 end.
Definition side_of (v : Z) : Side := if v =? 0 then Bid else Ask.
Definition otype_code (t : OrderType) : Z := match t with Market => 0 | Limit => 1 end.
Definition otype_of (v : Z) : OrderType := if v =? 0 then Market else Limit.

#[export] Instance Side_eq_dec : EqDecision Side.
Proof. solve_decision. Defined.
#[export] Instance OrderType_eq_dec : EqDecision OrderType.
Proof. solve_decision. Defined.

(** ** Message structs *)

Record MessageHeader := mkHeader { h_length : Z; h_type : Z; h_version : Z }.

Record NewOrder := mkNewOrder {
  no_client_order_id : Z; no_price_ticks : Z; no_quantity : Z;
  no_side : Side; no_order_type : OrderType }.
Record Cancel := mkCancel { ca_client_order_id : Z }.
Record Modify := mkModify {
  mo_client_order_id : Z; mo_new_price_ticks : Z; mo_new_quantity : Z }.
Record Subscribe := mkSubscribe { su_depth : Z }.
Record Ack := mkAck { ak_client_order_id : Z; ak_exchange_order_id : Z }.
Record Reject := mkReject { re_client_order_id : Z; re_reason : RejectReason }.
Record Fill := mkFill {
  fi_exchange_order_id : Z; fi_price_ticks : Z; fi_quantity : Z; fi_remaining_quantity : Z }.
Record BookLevel := mkBookLevel { bl_price_ticks : Z; bl_quantity : Z }.
Record BookUpdate := mkBookUpdate {
  bu_seq : Z; bu_bids : list BookLevel; bu_asks : list BookLevel }.
Record Heartbeat := mkHeartbeat { hb_timestamp_ns : Z }.

(** ** Header *)

Definition encode_header (out : list Z) (h : MessageHeader) : list Z :=
  put_u16 (put_u16 (put_u32 out (h_length h)) (h_type h)) (h_version h).

Definition decode_header (data : list Z) : option MessageHeader :=
  if (length data <? kHeaderSize)%nat then None else
  let r := reader data in
  let '(len, r) := rd_u32 r in
  let '(type, r) := rd_u16 r in
  let '(version, r) := rd_u16 r in
  if negb (ok_ r) || (kMaxPayloadSize <? len) then None
  else Some (mkHeader len type version).

(** ** Payloads *)

Definition encode_NewOrder (out : list Z) (m : NewOrder) : list Z :=
  let out := put_u64 out (no_client_order_id m) in
  let out := put_i64 out (no_price_ticks m) in
  let out := put_u32 out (no_quantity m) in
  let out := put_u8 out (side_code (no_side m)) in
  put_u8 out (otype_code (no_order_type m)).

Definition decode_NewOrder (data : list Z) : option NewOrder :=
  let r := reader data in
  let '(coid, r) := rd_u64 r in
  let '(price, r) := rd_i64 r in
  let '(qty, r) := rd_u32 r in
  let '(side, r) := rd_u8 r in
  let '(type, r) := rd_u8 r in
  if bad_end r then None else
  if (1 <? side) || (1 <? type) then None else
  Some (mkNewOrder coid price qty (side_of side) (otype_of type)).

Definition encode_Cancel (out : list Z) (m : Cancel) : list Z :=
  put_u64 out (ca_client_order_id m).

Definition decode_Cancel (data : list Z) : option Cancel :=
  let '(coid, r) := rd_u64 (reader data) in
  if bad_end r then None else Some (mkCancel coid).

Definition encode_Modify (out : list Z) (m : Modify) : list Z :=
  put_u32 (put_i64 (put_u64 out (mo_client_order_id m)) (mo_new_price_ticks m))
    (mo_new_quantity m).

Definition decode_Modify (data : list Z) : option Modify :=
  let '(coid, r) := rd_u64 (reader data) in
  let '(price, r) := rd_i64 r in
  let '(qty, r) := rd_u32 r in
  if bad_end r then None else Some (mkModify coid price qty).

Definition encode_Subscribe (out : list Z) (m : Subscribe) : list Z := put_u8 out (su_depth m).

Definition decode_Subscribe (data : list Z) : option Subscribe :=
  let '(depth, r) := rd_u8 (reader data) in
  if bad_end r then None else Some (mkSubscribe depth).

Definition encode_Ack (out : list Z) (m : Ack) : list Z :=
  put_u64 (put_u64 out (ak_client_order_id m)) (ak_exchange_order_id m).

Definition decode_Ack (data : list Z) : option Ack :=
  let '(coid, r) := rd_u64 (reader data) in
  let '(xoid, r) := rd_u64 r in
  if bad_end r then None else Some (mkAck coid xoid).

Definition encode_Reject (out : list Z) (m : Reject) : list Z :=
  put_u16 (put_u64 out (re_client_order_id m)) (reason_code (re_reason m)).

Definition decode_Reject (data : list Z) : option Reject :=
  let '(coid, r) := rd_u64 (reader data) in
  let '(reason, r) := rd_u16 r in
  if bad_end r then None else Some (mkReject coid (reason_of_code reason)).

Definition encode_Fill (out : list Z) (m : Fill) : list Z :=
  put_u32 (put_u32 (put_i64 (put_u64 out (fi_exchange_order_id m)) (fi_price_ticks m))
    (fi_quantity m)) (fi_remaining_quantity m).

Definition decode_Fill (data : list Z) : option Fill :=
  let '(xoid, r) := rd_u64 (reader data) in
  let '(price, r) := rd_i64 r in
  let '(qty, r) := rd_u32 r in
  let '(rem, r) := rd_u32 r in
  if bad_end r then None else Some (mkFill xoid price qty rem).

(** The depth cap is enforced by the encoder. *)
Definition encode_level (out : list Z) (l : BookLevel) : list Z :=
  put_u64 (put_i64 out (bl_price_ticks l)) (bl_quantity l).

Definition encode_BookUpdate (out : list Z) (m : BookUpdate) : list Z :=
  let nb := Nat.min (length (bu_bids m)) kMaxBookDepth in
  let na := Nat.min (length (bu_asks m)) kMaxBookDepth in
  let out := put_u64 out (bu_seq m) in
  let out := put_u8 out (u8 (Z.of_nat nb)) in
  let out := put_u8 out (u8 (Z.of_nat na)) in
  let out := foldl encode_level out (take nb (bu_bids m)) in
  foldl encode_level out (take na (bu_asks m)).

(** One of the two [for] loops of the decoder. *)
Fixpoint rd_levels (n : nat) (r : Reader) (acc : list BookLevel) : list BookLevel * Reader :=
  match n with
  | O => (acc, r)
  | S n =>
      let '(price, r) := rd_i64 r in
      let '(qty, r) := rd_u64 r in
      rd_levels n r (acc ++ [mkBookLevel price qty])
  end.

Definition decode_BookUpdate (data : list Z) : option BookUpdate :=
  let '(seq, r) := rd_u64 (reader data) in
  let '(nb, r) := rd_u8 r in
  let '(na, r) := rd_u8 r in
  if negb (ok_ r) then None else
  if (Z.of_nat kMaxBookDepth <? nb) || (Z.of_nat kMaxBookDepth <? na) then None else
  let '(bids, r) := rd_levels (Z.to_nat nb) r [] in
  let '(asks, r) := rd_levels (Z.to_nat na) r [] in
  if bad_end r then None else Some (mkBookUpdate seq bids asks).

Definition encode_Heartbeat (out : list Z) (m : Heartbeat) : list Z :=
  put_u64 out (hb_timestamp_ns m).

Definition decode_Heartbeat (data : list Z) : option Heartbeat :=
  let '(ts, r) := rd_u64 (reader data) in
  if bad_end r then None else Some (mkHeartbeat ts).

#[export] Instance NewOrder_msg : Message NewOrder := {| encode := encode_NewOrder; decode := decode_NewOrder |}.
#[export] Instance Cancel_msg : Message Cancel := {| encode := encode_Cancel; decode := decode_Cancel |}.
#[export] Instance Modify_msg : Message Modify := {| encode := encode_Modify; decode := decode_Modify |}.
#[export] Instance Subscribe_msg : Message Subscribe := {| encode := encode_Subscribe; decode := decode_Subscribe |}.
#[export] Instance Ack_msg : Message Ack := {| encode := encode_Ack; decode := decode_Ack |}.
#[export] Instance Reject_msg : Message Reject := {| encode := encode_Reject; decode := decode_Reject |}.
#[export] Instance Fill_msg : Message Fill := {| encode := encode_Fill; decode := decode_Fill |}.
#[export] Instance BookUpdate_msg : Message BookUpdate := {| encode := encode_BookUpdate; decode := decode_BookUpdate |}.
#[export] Instance Heartbeat_msg : Message Heartbeat := {| encode := encode_Heartbeat; decode := decode_Heartbeat |}.

Definition encode_frame {A} `{Message A} (type : MessageType) (msg : A) : list Z :=
  let payload := encode [] msg in
  encode_header [] (mkHeader (u32 (Z.of_nat (length payload))) (mtype_code type) kVersion)
    ++ payload.

(** ** The laws *)

Definition NewOrder_ok (m : NewOrder) : Prop :=
  is_u64 (no_client_order_id m) /\ is_i64 (no_price_ticks m) /\ is_u32 (no_quantity m).

Lemma side_byte s : is_u8 (side_code s).
Proof. by destruct s. Qed.
Lemma otype_byte t : is_u8 (otype_code t).
Proof. by destruct t. Qed.
#[local] Hint Resolve side_byte otype_byte : codec.

Ltac enc_app := intros; puts; rewrite <- ?app_assoc; reflexivity.

Ltac enc_bytes :=
  intros; puts;
  repeat first [apply le_bytes_bytes | apply Forall_app; split | apply Forall_cons; split | apply Forall_nil];
  auto with codec.

(** Decode an encoding, field by field. *)
Ltac sread_eval :=
  first [rewrite sread_u64 in * by (assumption || apply u64_range)
        |rewrite sread_u32 in * by assumption
        |rewrite sread_u16 in * by assumption
        |rewrite sread_u64_end in * by (assumption || apply u64_range)
        |rewrite sread_u32_end in * by assumption
        |rewrite sread_u16_end in * by assumption
        |rewrite sread_u8 in * | idtac].

Ltac dec_enc :=
  match goal with
  | |- context [reader ?l] =>
      let Hb := fresh in
      assert (bytes l) as Hb by enc_bytes; pose proof (at_suffix_init _ Hb); clear Hb
  end;
  repeat (rd_step; sread_eval; cbn [fst snd] in *).

(** From a successful decode back to the fields of the buffer. *)
Ltac sread_open :=
  match goal with
  | H : context [sread ?n (Some ?bs)] |- _ =>
      let H' := fresh in let p := fresh in
      pose proof (sread_cases n (Some bs)) as H'; revert H' H;
      generalize (sread n (Some bs)); intros p H' H; inversion H'; subst; clear H';
      cbn [fst snd] in *
  | H : context [sread ?n None] |- _ =>
      change (sread n None) with (0, @None (list Z)) in H; cbn [fst snd] in *
  end.

Ltac enc_dec :=
  match goal with
  | Hb : bytes ?l |- context [reader ?l] => pose proof (at_suffix_init _ Hb)
  end;
  repeat (rd_step; repeat sread_open; cbn [fst snd] in * );
  try discriminate.

(** A successful decode leaves nothing behind. *)
Ltac end_of_buffer :=
  match goal with
  | |- (if match ?t with _ => _ end then _ else _) = _ -> _ => destruct t; [|discriminate]
  end.

Lemma NewOrder_roundtrip m : NewOrder_ok m -> decode_NewOrder (encode_NewOrder [] m) = Some m.
Proof.
  intros (H1 & H2 & H3). unfold encode_NewOrder. puts. unfold decode_NewOrder. dec_enc.
  destruct m as [i p q [] []]; simpl in *; rewrite i64_u64; done.
Qed.

Lemma side_code_of b : is_u8 b -> (1 <? b) = false -> side_code (side_of b) = b.
Proof. intros Hb Hl%Z.ltb_ge. unfold side_of. zcase; simpl; zwlia. Qed.
Lemma otype_code_of b : is_u8 b -> (1 <? b) = false -> otype_code (otype_of b) = b.
Proof. intros Hb Hl%Z.ltb_ge. unfold otype_of. zcase; simpl; zwlia. Qed.

(** Close a soundness goal whose buffer has been split into fields. *)
Ltac enc_fields :=
  split_bytes; rewrite ?app_nil_r in *;
  repeat match goal with
  | H : bytes ?h, L : length ?h = 8%nat |- context [le_bytes 8 (u64 (i64 (le_decode ?h)))] =>
      rewrite (le_bytes_i64 h H L)
  | H : bytes ?h, L : length ?h = ?n |- context [le_bytes ?n (le_decode ?h)] =>
      rewrite (le_bytes_of h n H L)
  end.

(** The range tests on one-byte enumerators, passed. *)
Ltac small_bytes :=
  repeat match goal with
  | |- context [1 <? ?b] => destruct (1 <? b) eqn:?; [discriminate|]
  end; cbn [orb].

Lemma NewOrder_sound bs m :
  bytes bs -> decode_NewOrder bs = Some m -> NewOrder_ok m /\ encode_NewOrder [] m = bs.
Proof.
  intros Hb. unfold decode_NewOrder. enc_dec. end_of_buffer.
  split_bytes. small_bytes.
  intros [= <-]. unfold NewOrder_ok, encode_NewOrder. simpl.
  split; [by auto with codec|]. puts. rewrite side_code_of, otype_code_of by done.
  enc_fields. done.
Qed.

#[export] Instance NewOrder_laws : MessageLaws NewOrder.
Proof.
  refine {| msg_ok := NewOrder_ok |}; unfold encode, decode; simpl.
  - unfold encode_NewOrder. enc_app.
  - unfold encode_NewOrder. enc_bytes.
  - apply NewOrder_roundtrip.
  - apply NewOrder_sound.
Defined.

(** The messages made of plain integer fields only: round trip and
    soundness, given the encoder and the decoder. *)
Ltac plain_roundtrip enc dec :=
  unfold encode, decode; simpl; intros m Hm; destruct_and?; unfold enc; puts; unfold dec;
  dec_enc; rewrite ?i64_u64 by assumption; by destruct m.

Ltac plain_sound enc dec :=
  unfold encode, decode; simpl; intros bs m Hb; unfold dec; enc_dec;
  end_of_buffer;
  intros [= <-]; unfold enc; simpl; split_bytes;
  split; [split_and?; auto with codec|puts; enc_fields; reflexivity].

Ltac enc_app_of enc := unfold encode; simpl; unfold enc; enc_app.
Ltac enc_bytes_of enc := unfold encode; simpl; unfold enc; enc_bytes.

#[export] Instance Cancel_laws : MessageLaws Cancel.
Proof.
  refine {| msg_ok := fun m => is_u64 (ca_client_order_id m) |};
    [enc_app_of encode_Cancel|enc_bytes_of encode_Cancel
    |plain_roundtrip encode_Cancel decode_Cancel|plain_sound encode_Cancel decode_Cancel].
Defined.

#[export] Instance Modify_laws : MessageLaws Modify.
Proof.
  refine {| msg_ok := fun m => is_u64 (mo_client_order_id m) /\
              is_i64 (mo_new_price_ticks m) /\ is_u32 (mo_new_quantity m) |};
    [enc_app_of encode_Modify|enc_bytes_of encode_Modify
    |plain_roundtrip encode_Modify decode_Modify|plain_sound encode_Modify decode_Modify].
Defined.

#[export] Instance Subscribe_laws : MessageLaws Subscribe.
Proof.
  refine {| msg_ok := fun m => is_u8 (su_depth m) |};
    [enc_app_of encode_Subscribe|enc_bytes_of encode_Subscribe
    |plain_roundtrip encode_Subscribe decode_Subscribe
    |plain_sound encode_Subscribe decode_Subscribe].
Defined.

#[export] Instance Ack_laws : MessageLaws Ack.
Proof.
  refine {| msg_ok := fun m => is_u64 (ak_client_order_id m) /\ is_u64 (ak_exchange_order_id m) |};
    [enc_app_of encode_Ack|enc_bytes_of encode_Ack
    |plain_roundtrip encode_Ack decode_Ack|plain_sound encode_Ack decode_Ack].
Defined.

#[export] Instance Fill_laws : MessageLaws Fill.
Proof.
  refine {| msg_ok := fun m => is_u64 (fi_exchange_order_id m) /\ is_i64 (fi_price_ticks m) /\
              is_u32 (fi_quantity m) /\ is_u32 (fi_remaining_quantity m) |};
    [enc_app_of encode_Fill|enc_bytes_of encode_Fill
    |plain_roundtrip encode_Fill decode_Fill|plain_sound encode_Fill decode_Fill].
Defined.

#[export] Instance Heartbeat_laws : MessageLaws Heartbeat.
Proof.
  refine {| msg_ok := fun m => is_u64 (hb_timestamp_ns m) |};
    [enc_app_of encode_Heartbeat|enc_bytes_of encode_Heartbeat
    |plain_roundtrip encode_Heartbeat decode_Heartbeat
    |plain_sound encode_Heartbeat decode_Heartbeat].
Defined.

Lemma Reject_roundtrip m :
  is_u64 (re_client_order_id m) /\ reason_ok (re_reason m) ->
  decode_Reject (encode_Reject [] m) = Some m.
Proof.
  intros (H1 & H2 & H3). unfold encode_Reject. puts. unfold decode_Reject. dec_enc.
  rewrite H3. by destruct m.
Qed.

Lemma Reject_sound bs m :
  bytes bs -> decode_Reject bs = Some m ->
  (is_u64 (re_client_order_id m) /\ reason_ok (re_reason m)) /\ encode_Reject [] m = bs.
Proof.
  intros Hb. unfold decode_Reject. enc_dec. end_of_buffer. intros [= <-]. split_bytes.
  unfold encode_Reject. simpl. split; [split; [by auto with codec|]|].
  - by apply reason_of_code_ok, le_decode_u16.
  - rewrite reason_of_code_code. puts. enc_fields. done.
Qed.

#[export] Instance Reject_laws : MessageLaws Reject.
Proof.
  refine {| msg_ok := fun m => is_u64 (re_client_order_id m) /\ reason_ok (re_reason m) |};
    [enc_app_of encode_Reject|enc_bytes_of encode_Reject|apply Reject_roundtrip|apply Reject_sound].
Defined.

(** ** BookUpdate *)

Definition level_ok (l : BookLevel) : Prop := is_i64 (bl_price_ticks l) /\ is_u64 (bl_quantity l).

Definition level_bytes (ls : list BookLevel) : list Z :=
  ls ≫= fun l => le_bytes 8 (u64 (bl_price_ticks l)) ++ le_bytes 8 (bl_quantity l).

Definition BookUpdate_ok (m : BookUpdate) : Prop :=
  is_u64 (bu_seq m) /\ (length (bu_bids m) <= kMaxBookDepth)%nat /\
  (length (bu_asks m) <= kMaxBookDepth)%nat /\
  Forall level_ok (bu_bids m) /\ Forall level_ok (bu_asks m).

Lemma encode_levels_eq ls out : foldl encode_level out ls = out ++ level_bytes ls.
Proof.
  revert out. induction ls as [|l ls IH]; intros out; [by rewrite app_nil_r|].
  cbn [foldl]. rewrite IH. unfold encode_level. puts. done.
Qed.

Lemma level_bytes_bytes ls : bytes (level_bytes ls).
Proof.
  induction ls as [|l ls IH]; [constructor|]. unfold level_bytes. rewrite bind_cons.
  apply Forall_app. split; [|done]. apply Forall_app. split; apply le_bytes_bytes.
Qed.

Lemma encode_BookUpdate_eq out m :
  encode_BookUpdate out m =
  out ++ le_bytes 8 (bu_seq m) ++
  u8 (Z.of_nat (Nat.min (length (bu_bids m)) kMaxBookDepth)) ::
  u8 (Z.of_nat (Nat.min (length (bu_asks m)) kMaxBookDepth)) ::
  level_bytes (take (Nat.min (length (bu_bids m)) kMaxBookDepth) (bu_bids m)) ++
  level_bytes (take (Nat.min (length (bu_asks m)) kMaxBookDepth) (bu_asks m)).
Proof. unfold encode_BookUpdate. rewrite !encode_levels_eq. puts. done. Qed.

Lemma rd_levels_roundtrip ls r acc tl :
  Forall level_ok ls -> at_suffix r (Some (level_bytes ls ++ tl)) ->
  exists r', rd_levels (length ls) r acc = (acc ++ ls, r') /\ at_suffix r' (Some tl).
Proof.
  intros Hls. revert r acc. induction Hls as [|l ls [Hp Hq] Hls IH]; intros r acc Hr.
  - exists r. by rewrite app_nil_r.
  - unfold level_bytes in Hr. rewrite bind_cons, <- !app_assoc in Hr. cbn [length rd_levels].
    rd_step. sread_eval. cbn [fst snd] in *. rd_step. sread_eval. cbn [fst snd] in *.
    rewrite i64_u64 by done. destruct (IH x0 (acc ++ [mkBookLevel (bl_price_ticks l) (bl_quantity l)]))
      as (r' & -> & ?); [done|]. exists r'. rewrite <- app_assoc. by destruct l.
Qed.

Lemma rd_levels_fail n r acc :
  at_suffix r None -> at_suffix (rd_levels n r acc).2 None.
Proof.
  revert r acc. induction n as [|n IH]; intros r acc Hr; [done|]. cbn [rd_levels].
  rd_step. cbn [sread fst snd] in *. rd_step. cbn [sread fst snd] in *. by apply IH.
Qed.

(** Reading levels fails for good or consumed exactly their bytes. *)
Lemma rd_levels_sound n r acc bs :
  at_suffix r (Some bs) -> bytes bs ->
  at_suffix (rd_levels n r acc).2 None \/
  exists ls tl, (rd_levels n r acc).1 = acc ++ ls /\ at_suffix (rd_levels n r acc).2 (Some tl) /\
    length ls = n /\ Forall level_ok ls /\ bs = level_bytes ls ++ tl.
Proof.
  revert r acc bs. induction n as [|n IH]; intros r acc bs Hr Hb.
  { right. exists [], bs. rewrite app_nil_r. auto. }
  cbn [rd_levels]. rd_step. repeat sread_open.
  2: { left. rd_step. cbn [sread fst snd] in *. by apply rd_levels_fail. }
  rd_step. repeat sread_open; [|left; by apply rd_levels_fail].
  split_bytes.
  destruct (IH x0 (acc ++ [mkBookLevel (i64 (le_decode h)) (le_decode h0)]) _ H0 H2)
    as [?|(ls & tl & Hls & Hr' & Hlen & Hok & ->)]; [by left|right].
  exists (mkBookLevel (i64 (le_decode h)) (le_decode h0) :: ls), tl.
  split; [by rewrite Hls, <- app_assoc|]. split; [done|]. split; [by rewrite <- Hlen|].
  split; [constructor; [|done]; split; simpl; auto with codec|].
  unfold level_bytes. rewrite bind_cons, <- !app_assoc.
  cbn [bl_price_ticks bl_quantity]. by rewrite le_bytes_i64, le_bytes_of.
Qed.

Lemma BookUpdate_roundtrip m :
  BookUpdate_ok m -> decode_BookUpdate (encode_BookUpdate [] m) = Some m.
Proof.
  intros (Hs & Hnb & Hna & Hb & Ha). rewrite encode_BookUpdate_eq, !Nat.min_l, !firstn_all by done.
  rewrite app_nil_l. unfold decode_BookUpdate.
  assert (forall n, (n <= kMaxBookDepth)%nat -> u8 (Z.of_nat n) = Z.of_nat n) as Hu8.
  { intros n Hn. apply u8_id. unfold kMaxBookDepth in Hn. zwlia. }
  rewrite !Hu8 by done. unfold kMaxBookDepth in *.
  match goal with |- context [reader ?l] => assert (bytes l) as Hbs end.
  { apply Forall_app. split; [apply le_bytes_bytes|]. do 2 (apply Forall_cons; split; [zwlia|]).
    apply Forall_app. split; apply level_bytes_bytes. }
  pose proof (at_suffix_init _ Hbs). repeat (rd_step; sread_eval; cbn [fst snd] in * ). cbn [negb].
  rewrite (proj2 (Z.ltb_ge _ _)), (proj2 (Z.ltb_ge _ _)) by lia. cbn [orb]. rewrite !Nat2Z.id.
  destruct (rd_levels_roundtrip _ _ [] _ Hb H0) as (r1 & -> & H1).
  rewrite <- (app_nil_r (level_bytes _)) in H1.
  destruct (rd_levels_roundtrip _ _ [] _ Ha H1) as (r2 & -> & H2).
  rd_step. by destruct m.
Qed.

Lemma BookUpdate_sound bs m :
  bytes bs -> decode_BookUpdate bs = Some m -> BookUpdate_ok m /\ encode_BookUpdate [] m = bs.
Proof.
  intros Hb. unfold decode_BookUpdate. enc_dec. cbn [negb]. split_bytes.
  rename x3 into nb, x2 into na, x1 into r1, H7 into Hna, H2 into Hnb, H6 into Ht, H into Hh.
  destruct (Z.ltb_spec (Z.of_nat kMaxBookDepth) nb) as [|Hlb]; [done|].
  destruct (Z.ltb_spec (Z.of_nat kMaxBookDepth) na) as [|Hla]; [done|]. cbn [orb].
  pose proof (rd_levels_sound (Z.to_nat nb) r1 [] t H0 Ht) as Hs1.
  destruct (rd_levels (Z.to_nat nb) r1 []) as [bids r2]. cbn [fst snd] in Hs1.
  destruct Hs1 as [Hf|(bids' & tl & -> & Hr2 & Hlen1 & Hok1 & ->)].
  { pose proof (rd_levels_fail (Z.to_nat na) r2 [] Hf) as Hf2.
    destruct (rd_levels (Z.to_nat na) r2 []) as [asks r3].
    by rewrite (bad_end_at r3 None). }
  apply bytes_app in Ht as [_ Htl].
  pose proof (rd_levels_sound (Z.to_nat na) r2 [] tl Hr2 Htl) as Hs2.
  destruct (rd_levels (Z.to_nat na) r2 []) as [asks r3]. cbn [fst snd] in Hs2.
  destruct Hs2 as [Hf|(asks' & tl' & -> & Hr3 & Hlen2 & Hok2 & ->)].
  { by rewrite (bad_end_at r3 None). }
  rewrite (bad_end_at r3 _ Hr3). end_of_buffer. intros [= <-].
  unfold kMaxBookDepth in *. split.
  - split; [by apply le_decode_u64|]. cbn [bu_bids bu_asks]. unfold kMaxBookDepth.
    split_and!; [lia|lia|done|done].
  - rewrite encode_BookUpdate_eq. cbn [bu_bids bu_asks bu_seq]. unfold kMaxBookDepth.
    rewrite !Nat.min_l, !firstn_all by lia. rewrite Hlen1, Hlen2.
    rewrite !Z2Nat.id by (widths; lia). rewrite !u8_id by done.
    rewrite (le_bytes_of h 8) by done. by rewrite app_nil_r.
Qed.

#[export] Instance BookUpdate_laws : MessageLaws BookUpdate.
Proof.
  refine {| msg_ok := BookUpdate_ok |}; unfold encode, decode; cbn.
  - intros out m. rewrite !(encode_BookUpdate_eq _ m). by rewrite app_nil_l.
  - intros m _. rewrite encode_BookUpdate_eq, app_nil_l.
    apply Forall_app. split; [apply le_bytes_bytes|].
    do 2 (apply Forall_cons; split; [apply u8_range|]).
    apply Forall_app. split; apply level_bytes_bytes.
  - apply BookUpdate_roundtrip.
  - apply BookUpdate_sound.
Defined.

(** An over-deep update is sent as its best ten levels a side. *)
Definition truncate (m : BookUpdate) : BookUpdate :=
  mkBookUpdate (bu_seq m) (take kMaxBookDepth (bu_bids m)) (take kMaxBookDepth (bu_asks m)).

Lemma encode_truncate out m : encode_BookUpdate out m = encode_BookUpdate out (truncate m).
Proof.
  rewrite !encode_BookUpdate_eq. unfold truncate. cbn [bu_seq bu_bids bu_asks].
  assert (forall l : list BookLevel, Nat.min (length (take kMaxBookDepth l)) kMaxBookDepth
    = Nat.min (length l) kMaxBookDepth) as Hm.
  { intros l. rewrite length_take. lia. }
  rewrite !Hm, !take_take.
  assert (forall n, Nat.min (Nat.min n kMaxBookDepth) kMaxBookDepth = Nat.min n kMaxBookDepth) as ->.
  { lia. }
  assert (forall n, Nat.min (Nat.min n kMaxBookDepth) kMaxBookDepth = Nat.min n kMaxBookDepth) as ->.
  { lia. }
  done.
Qed.

(** ** Header and frames *)

Definition header_ok (h : MessageHeader) : Prop :=
  0 <= h_length h <= kMaxPayloadSize /\ is_u16 (h_type h) /\ is_u16 (h_version h).

Lemma encode_header_eq out h :
  encode_header out h =
  out ++ le_bytes 4 (h_length h) ++ le_bytes 2 (h_type h) ++ le_bytes 2 (h_version h).
Proof. unfold encode_header. by puts. Qed.

Lemma length_header h : length (encode_header [] h) = kHeaderSize.
Proof. rewrite encode_header_eq, !length_app, !length_le_bytes. done. Qed.

Lemma header_bytes h : bytes (encode_header [] h).
Proof. rewrite encode_header_eq. enc_bytes. Qed.

(** A header followed by anything decodes to itself. *)
Lemma decode_encode_header h tl :
  header_ok h -> bytes tl -> decode_header (encode_header [] h ++ tl) = Some h.
Proof.
  intros (Hl & Ht & Hv) Htl. unfold decode_header.
  rewrite length_app, length_header, (proj2 (Nat.ltb_ge _ _)) by lia.
  rewrite encode_header_eq, app_nil_l, <- !app_assoc.
  assert (is_u32 (h_length h)) as Hl32 by (unfold kMaxPayloadSize in Hl; zwlia).
  match goal with |- context [reader ?l] => assert (bytes l) as Hb end.
  { repeat (apply Forall_app; split; [apply le_bytes_bytes|]). done. }
  pose proof (at_suffix_init _ Hb). repeat (rd_step; sread_eval; cbn [fst snd] in * ). cbn [negb orb].
  rewrite (proj2 (Z.ltb_ge _ _)) by lia. by destruct h.
Qed.

(** Whatever follows, a decodable prefix of eight bytes is an encoding. *)
Lemma decode_header_sound bs h :
  bytes bs -> decode_header bs = Some h ->
  header_ok h /\ exists tl, bs = encode_header [] h ++ tl.
Proof.
  intros Hb. unfold decode_header. destruct (_ <? _)%nat; [done|].
  enc_dec. cbn [negb orb]. split_bytes.
  destruct (Z.ltb_spec kMaxPayloadSize (le_decode h0)); [done|]. intros [= <-].
  pose proof (le_decode_u32 h0 ltac:(done) ltac:(done)) as Hu.
  split; [split; [simpl; zwlia|split; simpl; by auto with codec]|].
  eexists. rewrite encode_header_eq. cbn [h_length h_type h_version].
  rewrite !le_bytes_of by done. by rewrite app_nil_l, <- !app_assoc.
Qed.

Lemma encode_frame_eq {A} `{Message A} type (m : A) :
  encode_frame type m =
  encode_header [] (mkHeader (u32 (Z.of_nat (length (encode [] m)))) (mtype_code type) kVersion)
    ++ encode [] m.
Proof. done. Qed.

Lemma mtype_of_code t : mtype_of (mtype_code t) = Some t.
Proof. by destruct t. Qed.
Lemma mtype_code_u16 t : is_u16 (mtype_code t).
Proof. by destruct t. Qed.

End protocol.
