(* ===== verification/FrameReader.v ===== *)
(** Reassembly of protocol frames from a TCP byte stream
    (include/ome/frame_reader.hpp), and the bounded outbound buffer
    (include/ome/write_buffer.hpp). *)
From stdpp Require Import base numbers list.
From Stdlib Require Import ZArith Lia.
From S2P Require Import Prelude Types Bytes Protocol.
Import protocol.

Record Frame := mkFrame { f_header : MessageHeader; f_payload : list Z }.

Record FrameReader := mkFrameReader {
  buf_ : list Z;
  fr_pos_ : nat;
  failed_ : bool;
}.

Definition frame_reader0 : FrameReader := mkFrameReader [] 0 false.

(** Compared with byte counts, so a [Z]. *)
Definition kCompactThreshold : Z := 64 * 1024.

Definition fr_append (data : list Z) (r : FrameReader) : FrameReader :=
  if failed_ r || (length data =? 0)%nat then r
  else mkFrameReader (buf_ r ++ data) (fr_pos_ r) (failed_ r).

Definition compact_if_needed (r : FrameReader) : FrameReader :=
  if (fr_pos_ r =? length (buf_ r))%nat then mkFrameReader [] 0 (failed_ r)
  else if kCompactThreshold <=? Z.of_nat (fr_pos_ r)
  then mkFrameReader (drop (fr_pos_ r) (buf_ r)) 0 (failed_ r)
  else r.

Definition next_frame (r : FrameReader) : option Frame * FrameReader :=
  if failed_ r then (None, r) else
  let available := (length (buf_ r) - fr_pos_ r)%nat in
  if (available <? kHeaderSize)%nat then (None, r) else
  match decode_header (drop (fr_pos_ r) (buf_ r)) with
  | None => (None, mkFrameReader (buf_ r) (fr_pos_ r) true)
  | Some header =>
      let len := Z.to_nat (h_length header) in
      let need := (kHeaderSize + len)%nat in
      if (available <? need)%nat then (None, r) else
      let payload := take len (drop (fr_pos_ r + kHeaderSize) (buf_ r)) in
      (Some (mkFrame header payload),
       compact_if_needed (mkFrameReader (buf_ r) (fr_pos_ r + need) (failed_ r)))
  end.

Definition buffered (r : FrameReader) : nat := (length (buf_ r) - fr_pos_ r)%nat.

(** [while (auto frame = reader.next_frame())]: the loop of
    TcpServer::handle_readable. Every frame takes at least its header. *)
Fixpoint drain_frames (fuel : nat) (r : FrameReader) : list Frame * FrameReader :=
  match fuel with
  | O => ([], r)
  | S fuel =>
      match next_frame r with
      | (Some f, r') => let '(fs, r'') := drain_frames fuel r' in (f :: fs, r'')
      | (None, r') => ([], r')
      end
  end.

(** One [recv]: append, then drain every complete frame. *)
Definition feed (r : FrameReader) (chunk : list Z) : list Frame * FrameReader :=
  let r := fr_append chunk r in drain_frames (S (buffered r)) r.

Fixpoint feed_all (r : FrameReader) (chunks : list (list Z)) : list Frame * FrameReader :=
  match chunks with
  | [] => ([], r)
  | c :: cs =>
      let '(fs, r) := feed r c in
      let '(gs, r) := feed_all r cs in (fs ++ gs, r)
  end.

(** ** The reference: parsing a whole byte string *)

Inductive Step := NeedMore | Bad | Got (f : Frame) (rest : list Z).

Definition step (bs : list Z) : Step :=
  if (length bs <? kHeaderSize)%nat then NeedMore else
  match decode_header bs with
  | None => Bad
  | Some h =>
      let len := Z.to_nat (h_length h) in
      if (length bs <? kHeaderSize + len)%nat then NeedMore
      else Got (mkFrame h (take len (drop kHeaderSize bs))) (drop (kHeaderSize + len) bs)
  end.

(** The frames of [bs], and the unfinished tail ([None]: framing is lost). *)
Inductive parses : list Z -> list Frame -> option (list Z) -> Prop :=
| P_more bs : step bs = NeedMore -> parses bs [] (Some bs)
| P_bad bs : step bs = Bad -> parses bs [] None
| P_got bs f rest fs l : step bs = Got f rest -> parses rest fs l -> parses bs (f :: fs) l.

Lemma decode_header_take bs tl :
  bytes (bs ++ tl) -> (kHeaderSize <= length bs)%nat ->
  decode_header (bs ++ tl) = decode_header bs.
Proof.
  intros Hb Hl. apply bytes_app in Hb as Hb'. destruct Hb' as [Hb1 Hb2].
  assert (exists h0 h1 h2 bs', bs = h0 ++ h1 ++ h2 ++ bs' /\
    length h0 = 4%nat /\ length h1 = 2%nat /\ length h2 = 2%nat)
    as (h0 & h1 & h2 & bs' & -> & L0 & L1 & L2).
  { exists (take 4 bs), (take 2 (drop 4 bs)), (take 2 (drop 6 bs)), (drop 8 bs).
    unfold kHeaderSize in Hl. rewrite !length_take, !length_drop. split; [|lia].
    change 8%nat with (6 + 2)%nat. rewrite <- drop_drop, (take_drop 2 (drop 6 bs)).
    change 6%nat with (4 + 2)%nat. rewrite <- drop_drop, (take_drop 2 (drop 4 bs)).
    by rewrite take_drop. }
  unfold decode_header. rewrite length_app.
  rewrite (proj2 (Nat.ltb_ge _ _)), (proj2 (Nat.ltb_ge _ _)) by lia.
  pose proof (at_suffix_init _ Hb). pose proof (at_suffix_init _ Hb1).
  rewrite <- !app_assoc in H.
  assert (forall n (h t : list Z), length h = n -> sread n (Some (h ++ t)) = (le_decode h, Some t)) as Hs.
  { intros n h t <-. unfold sread. rewrite length_app, (proj2 (Nat.leb_le _ _)) by lia.
    by rewrite take_app_length, drop_app_length. }
  repeat (rd_step; rewrite ?Hs in * by done; cbn [fst snd] in * ). rewrite <- !app_assoc in *.
  repeat (rd_step; rewrite ?Hs in * by done; cbn [fst snd] in * ). done.
Qed.

(** A decision taken on a prefix stands whatever arrives after it. *)
Lemma step_app bs tl :
  bytes (bs ++ tl) ->
  match step bs with
  | NeedMore => True
  | Bad => step (bs ++ tl) = Bad
  | Got f rest => step (bs ++ tl) = Got f (rest ++ tl)
  end.
Proof.
  intros Hb. unfold step. rewrite length_app.
  destruct (Nat.ltb_spec (length bs) kHeaderSize) as [|Hh]; [done|].
  rewrite (proj2 (Nat.ltb_ge _ _)), decode_header_take by (done || lia).
  destruct (decode_header bs) as [h|]; [|done].
  destruct (Nat.ltb_spec (length bs) (kHeaderSize + Z.to_nat (h_length h))) as [|Hl]; [done|].
  rewrite (proj2 (Nat.ltb_ge _ _)) by lia. rewrite !drop_app_le by lia.
  rewrite take_app_le; [done|]. rewrite length_drop. lia.
Qed.

Lemma step_got_shorter bs f rest :
  step bs = Got f rest -> (length rest < length bs)%nat /\ exists h, bs = h ++ rest.
Proof.
  unfold step. destruct (Nat.ltb_spec (length bs) kHeaderSize) as [|Hh]; [done|].
  destruct (decode_header bs) as [h|]; [|done]. destruct (_ <? _)%nat eqn:E; [done|].
  intros [= <- <-]. unfold kHeaderSize in *. rewrite length_drop. split; [lia|].
  exists (take (8 + Z.to_nat (h_length h)) bs). by rewrite take_drop.
Qed.

(** ** The parse is a function of the bytes and composes over chunks *)

Lemma parses_total n bs : (length bs < n)%nat -> exists fs l, parses bs fs l.
Proof.
  revert bs. induction n as [|n IH]; intros bs Hn; [lia|].
  destruct (step bs) as [| |f rest] eqn:E.
  - exists [], (Some bs). by constructor.
  - exists [], None. by constructor.
  - pose proof (step_got_shorter _ _ _ E) as [Hl _].
    destruct (IH rest) as (fs & l & Hp); [lia|].
    exists (f :: fs), l. by eapply P_got.
Qed.

Lemma parses_det bs fs gs l k : parses bs fs l -> parses bs gs k -> fs = gs /\ l = k.
Proof.
  intros H. revert gs k. induction H as [bs E|bs E|bs f rest fs l E _ IH];
    intros gs k H'; inversion H'; subst; try (split; congruence).
  assert (f0 = f /\ rest0 = rest) as [-> ->] by (split; congruence).
  edestruct IH as [-> ->]; done.
Qed.

Lemma parses_extend bs fs l tl :
  bytes (bs ++ tl) -> parses bs fs l ->
  match l with
  | None => parses (bs ++ tl) fs None
  | Some rest => forall gs k, parses (rest ++ tl) gs k -> parses (bs ++ tl) (fs ++ gs) k
  end.
Proof.
  intros Hb H. induction H as [bs E|bs E|bs f rest fs l E _ IH].
  - done.
  - constructor. pose proof (step_app bs tl Hb) as Hs. by rewrite E in Hs.
  - pose proof (step_app bs tl Hb) as Hs. rewrite E in Hs.
    destruct (step_got_shorter _ _ _ E) as [_ [h ->]].
    assert (bytes (rest ++ tl)) as Hb' by (rewrite <- app_assoc in Hb; by apply bytes_app in Hb as [_ ?]).
    specialize (IH Hb'). destruct l as [l|].
    + intros gs k Hp. simpl. eapply P_got; [done|]. by apply IH.
    + by eapply P_got.
Qed.

(** ** The reader implements the parse *)

Definition unread (r : FrameReader) : list Z := drop (fr_pos_ r) (buf_ r).
Definition reader_abs (r : FrameReader) : option (list Z) :=
  if failed_ r then None else Some (unread r).
Definition fr_wf (r : FrameReader) : Prop := (fr_pos_ r <= length (buf_ r))%nat.

Lemma length_unread r : length (unread r) = buffered r.
Proof. apply length_drop. Qed.

Lemma compact_abs r :
  fr_wf r -> fr_wf (compact_if_needed r) /\ reader_abs (compact_if_needed r) = reader_abs r.
Proof.
  unfold compact_if_needed, fr_wf, reader_abs, unread. intros Hw.
  destruct (Nat.eqb_spec (fr_pos_ r) (length (buf_ r))) as [He|].
  { simpl. rewrite He, drop_all. done. }
  destruct (_ <=? _); simpl; [|done]. split; [apply Nat.le_0_l|done].
Qed.

Lemma next_frame_step r :
  fr_wf r -> failed_ r = false ->
  fr_wf (next_frame r).2 /\
  match step (unread r) with
  | NeedMore => next_frame r = (None, r)
  | Bad => (next_frame r).1 = None /\ reader_abs (next_frame r).2 = None
  | Got f rest => (next_frame r).1 = Some f /\ reader_abs (next_frame r).2 = Some rest
  end.
Proof.
  intros Hw Hf. unfold next_frame, step. rewrite Hf, length_unread. fold (unread r) (buffered r).
  destruct (_ <? _)%nat; [done|].
  destruct (decode_header (unread r)) as [h|]; [|done].
  destruct (Nat.ltb_spec (buffered r) (kHeaderSize + Z.to_nat (h_length h))) as [|Hl]; [done|].
  cbn [fst snd]. unfold buffered in Hl.
  destruct (compact_abs (mkFrameReader (buf_ r) (fr_pos_ r + (kHeaderSize + Z.to_nat (h_length h))) false))
    as [Hw' ->]; [unfold fr_wf in *; cbn [fr_pos_ buf_]; lia|].
  split; [done|]. unfold unread, reader_abs. simpl. by rewrite !drop_drop.
Qed.

Lemma drain_frames_parses fuel r :
  fr_wf r -> failed_ r = false -> (buffered r < fuel)%nat ->
  fr_wf (drain_frames fuel r).2 /\
  parses (unread r) (drain_frames fuel r).1 (reader_abs (drain_frames fuel r).2).
Proof.
  revert r. induction fuel as [|fuel IH]; intros r Hw Hf Hn; [lia|]. cbn [drain_frames].
  destruct (next_frame_step r Hw Hf) as [Hw' Hs].
  destruct (step (unread r)) as [| |f rest] eqn:E.
  - rewrite Hs. cbn [fst snd]. split; [done|]. unfold reader_abs. rewrite Hf. by constructor.
  - destruct (next_frame r) as [o r']. cbn [fst snd] in *. destruct Hs as [-> Hr]. cbn [fst snd].
    rewrite Hr. split; [done|by constructor].
  - destruct (next_frame r) as [o r']. cbn [fst snd] in *. destruct Hs as [-> Hr].
    pose proof (step_got_shorter _ _ _ E) as [Hl _]. rewrite length_unread in Hl.
    unfold reader_abs in Hr. destruct (failed_ r') eqn:Hf'; [done|]. injection Hr as Hr.
    destruct (IH r' Hw' Hf') as [Hw'' Hp]; [rewrite <- length_unread, Hr; lia|].
    destruct (drain_frames fuel r') as [fs r'']. cbn [fst snd] in *.
    split; [done|]. eapply P_got; [done|]. by rewrite <- Hr.
Qed.

Lemma feed_failed r c : failed_ r = true -> feed r c = ([], r).
Proof. intros Hf. unfold feed, fr_append. rewrite Hf. simpl. unfold next_frame. by rewrite Hf. Qed.

Lemma fr_append_unread r c :
  fr_wf r -> failed_ r = false ->
  fr_wf (fr_append c r) /\ failed_ (fr_append c r) = false /\
  unread (fr_append c r) = unread r ++ c.
Proof.
  intros Hw Hf. unfold fr_append. rewrite Hf. simpl.
  destruct (Nat.eqb_spec (length c) 0) as [->%nil_length_inv|]; [by rewrite app_nil_r|].
  unfold fr_wf, unread in *. simpl. rewrite length_app, drop_app_le by lia. split_and!; [lia|done..].
Qed.

Lemma feed_all_failed r cs : failed_ r = true -> feed_all r cs = ([], r).
Proof.
  intros Hf. induction cs as [|c cs IH]; [done|]. cbn [feed_all]. by rewrite feed_failed, IH.
Qed.

(** From any live reader, the frames a list of chunks yields are those of
    the unread bytes followed by all the chunks. *)
Lemma feed_all_from r cs :
  fr_wf r -> failed_ r = false -> step (unread r) = NeedMore -> bytes (unread r ++ mjoin cs) ->
  parses (unread r ++ mjoin cs) (feed_all r cs).1 (reader_abs (feed_all r cs).2).
Proof.
  revert r. induction cs as [|c cs IH]; intros r Hw Hf Hs Hb.
  { simpl. unfold reader_abs. rewrite Hf, app_nil_r. by constructor. }
  change (mjoin (c :: cs)) with (c ++ mjoin cs) in *. cbn [feed_all].
  rewrite app_assoc in Hb |- *. destruct (fr_append_unread r c Hw Hf) as (Hw1 & Hf1 & Hu).
  rewrite <- Hu in Hb |- *. unfold feed.
  destruct (drain_frames_parses (S (buffered (fr_append c r))) _ Hw1 Hf1) as [Hw2 Hp]; [lia|].
  destruct (drain_frames _ _) as [fs r2]. cbn [fst snd] in *.
  pose proof (parses_extend _ _ _ (mjoin cs) Hb Hp) as He.
  unfold reader_abs in Hp, He. destruct (failed_ r2) eqn:Hf2.
  - rewrite feed_all_failed by done. cbn [fst snd]. unfold reader_abs. by rewrite Hf2, app_nil_r.
  - assert (step (unread r2) = NeedMore /\ exists p, unread (fr_append c r) = p ++ unread r2)
      as [Hs2 [p Hpre]].
    { clear -Hp. remember (Some (unread r2)) as l eqn:El.
      induction Hp as [bs E|bs E|bs f rest fs l E _ IHp]; simplify_eq.
      - split; [done|]. by exists [].
      - destruct (IHp eq_refl) as [? [p ->]]. split; [done|].
        destruct (step_got_shorter _ _ _ E) as [_ [h ->]]. exists (h ++ p). by rewrite app_assoc. }
    assert (bytes (unread r2 ++ mjoin cs)) as Hb2.
    { rewrite Hpre, <- app_assoc in Hb. by apply bytes_app in Hb as [_ ?]. }
    specialize (IH r2 Hw2 Hf2 Hs2 Hb2). destruct (feed_all r2 cs) as [gs r3]. cbn [fst snd] in *.
    by apply He.
Qed.

Lemma feed_all_parses cs :
  bytes (mjoin cs) ->
  parses (mjoin cs) (feed_all frame_reader0 cs).1 (reader_abs (feed_all frame_reader0 cs).2).
Proof. intros Hb. apply (feed_all_from frame_reader0); [unfold fr_wf; simpl; lia|done..]. Qed.

(** ** Frames as [encode_frame] writes them *)

(** The bytes a sender puts on the wire for one frame. *)
Definition frame_bytes (f : Frame) : list Z := encode_header [] (f_header f) ++ f_payload f.

Definition frame_ok (f : Frame) : Prop :=
  header_ok (f_header f) /\ bytes (f_payload f) /\
  h_length (f_header f) = Z.of_nat (length (f_payload f)).

Lemma step_frame f tl :
  frame_ok f -> bytes tl -> step (frame_bytes f ++ tl) = Got f tl.
Proof.
  intros (Hh & Hb & Hl) Htl. unfold step, frame_bytes. rewrite <- app_assoc.
  rewrite decode_encode_header by (done || by apply Forall_app).
  rewrite !length_app, length_header, Hl, Nat2Z.id.
  rewrite (proj2 (Nat.ltb_ge _ _)), (proj2 (Nat.ltb_ge _ _)) by lia.
  rewrite drop_app_length' by (symmetry; apply length_header). rewrite take_app_length.
  rewrite app_assoc, drop_app_length' by (rewrite length_app, length_header; done).
  by destruct f.
Qed.

Lemma frame_bytes_bytes f : frame_ok f -> bytes (frame_bytes f).
Proof. intros (_ & Hb & _). apply Forall_app. split; [apply header_bytes|done]. Qed.

Lemma frames_bytes fs : Forall frame_ok fs -> bytes (fs ≫= frame_bytes).
Proof.
  induction 1; [constructor|]. rewrite bind_cons. apply Forall_app.
  split; [by apply frame_bytes_bytes|done].
Qed.

Lemma parses_frames fs tl :
  Forall frame_ok fs -> bytes tl -> step tl = NeedMore ->
  parses ((fs ≫= frame_bytes) ++ tl) fs (Some tl).
Proof.
  intros Hfs Htl Hs. induction Hfs as [|f fs Hf Hfs IH]; [by constructor|].
  rewrite bind_cons, <- app_assoc. eapply P_got; [|done].
  apply step_frame; [done|]. apply Forall_app. split; [by apply frames_bytes|done].
Qed.
