(* ===== verification/WriteBuffer.v ===== *)
(** The bounded outbound buffer of a connection (include/ome/write_buffer.hpp).
    Byte counts are [nat] and thresholds [Z]: [64 * 1024] and the default
    capacity of 1 MiB are never built in unary. *)
From stdpp Require Import base numbers list.
From Stdlib Require Import ZArith Lia.
From S2P Require Import Prelude.

Module write_buffer.

Record WriteBuffer := mkWriteBuffer {
  buf_ : list Z;
  pos_ : nat;
  capacity_ : Z;
}.

Definition kDefaultCapacity : Z := 1024 * 1024.
Definition kCompactThreshold : Z := 64 * 1024.

Definition write_buffer (capacity : Z) : WriteBuffer := mkWriteBuffer [] 0 capacity.

Definition pending (b : WriteBuffer) : nat := (length (buf_ b) - pos_ b)%nat.
Definition empty (b : WriteBuffer) : bool := (pending b =? 0)%nat.
(** The contiguous unsent region handed to [send]. *)
Definition data (b : WriteBuffer) : list Z := drop (pos_ b) (buf_ b).

Definition append (bs : list Z) (b : WriteBuffer) : bool * WriteBuffer :=
  if (length bs =? 0)%nat then (true, b) else
  if capacity_ b <? Z.of_nat (pending b + length bs) then (false, b) else
  let b :=
    if (capacity_ b <? Z.of_nat (length (buf_ b) + length bs)) && (0 <? pos_ b)%nat
    then mkWriteBuffer (drop (pos_ b) (buf_ b)) 0 (capacity_ b) else b in
  (true, mkWriteBuffer (buf_ b ++ bs) (pos_ b) (capacity_ b)).

Definition consume (n : nat) (b : WriteBuffer) : WriteBuffer :=
  let pos := (pos_ b + Nat.min n (pending b))%nat in
  if (pos =? length (buf_ b))%nat then mkWriteBuffer [] 0 (capacity_ b)
  else if kCompactThreshold <=? Z.of_nat pos
  then mkWriteBuffer (drop pos (buf_ b)) 0 (capacity_ b)
  else mkWriteBuffer (buf_ b) pos (capacity_ b).

(** ** A connection's history of writes *)

(** [WSend n]: [send] took [n] of the pending bytes. *)
Inductive WOp := WAppend (bs : list Z) | WSend (n : nat).

(** The buffer, with the bytes accepted and the bytes sent so far. *)
Record WTrace := mkWTrace { wt_buf : WriteBuffer; wt_in : list Z; wt_out : list Z }.

Definition wstep (t : WTrace) (op : WOp) : WTrace :=
  match op with
  | WAppend bs =>
      let '(ok, b) := append bs (wt_buf t) in
      mkWTrace b (if ok then wt_in t ++ bs else wt_in t) (wt_out t)
  | WSend n =>
      mkWTrace (consume n (wt_buf t)) (wt_in t) (wt_out t ++ take n (data (wt_buf t)))
  end.

Definition wrun (capacity : Z) (ops : list WOp) : WTrace :=
  foldl wstep (mkWTrace (write_buffer capacity) [] []) ops.

Definition wb_wf (b : WriteBuffer) : Prop :=
  (pos_ b <= length (buf_ b))%nat /\ Z.of_nat (length (buf_ b)) <= Z.max 0 (capacity_ b).

Lemma length_data b : length (data b) = pending b.
Proof. apply length_drop. Qed.

Lemma append_spec bs b :
  wb_wf b ->
  let '(ok, b') := append bs b in
  wb_wf b' /\ capacity_ b' = capacity_ b /\
  ok = ((length bs =? 0)%nat || (Z.of_nat (pending b + length bs) <=? capacity_ b)) /\
  data b' = (if ok then data b ++ bs else data b) /\ (ok = false -> b' = b).
Proof.
  intros [Hp Hm]. unfold append. destruct (Nat.eqb_spec (length bs) 0) as [->%nil_length_inv|Hn].
  { rewrite app_nil_r. done. }
  rewrite Z.leb_antisym. destruct (Z.ltb_spec (capacity_ b) (Z.of_nat (pending b + length bs))); [done|].
  unfold pending, data, wb_wf in *.
  destruct (Z.ltb_spec (capacity_ b) (Z.of_nat (length (buf_ b) + length bs)));
    destruct (Nat.ltb_spec 0 (pos_ b)); cbn [andb buf_ pos_ capacity_];
    rewrite length_app, ?length_drop, ?drop_0, ?drop_app_le by lia; split_and?; (done || lia).
Qed.

Lemma consume_spec n b :
  wb_wf b ->
  wb_wf (consume n b) /\ capacity_ (consume n b) = capacity_ b /\
  data (consume n b) = drop n (data b).
Proof.
  intros [Hp Hm]. unfold consume, data, wb_wf, pending in *.
  assert (drop (pos_ b + Nat.min n (length (buf_ b) - pos_ b)) (buf_ b) =
    drop n (drop (pos_ b) (buf_ b))) as Hd.
  { rewrite drop_drop. destruct (Nat.le_ge_cases n (length (buf_ b) - pos_ b)).
    - by rewrite Nat.min_l by lia.
    - rewrite !drop_ge by lia. done. }
  destruct (Nat.eqb_spec (pos_ b + Nat.min n (length (buf_ b) - pos_ b)) (length (buf_ b))) as [He|].
  { rewrite <- Hd, He, drop_all. simpl. split_and!; (done || lia). }
  destruct (_ <=? _); cbn [buf_ pos_ capacity_]; rewrite ?length_drop, ?drop_0;
    split_and!; (done || lia).
Qed.

Lemma wstep_inv t op :
  wb_wf (wt_buf t) -> wt_in t = wt_out t ++ data (wt_buf t) ->
  wb_wf (wt_buf (wstep t op)) /\ capacity_ (wt_buf (wstep t op)) = capacity_ (wt_buf t) /\
  wt_in (wstep t op) = wt_out (wstep t op) ++ data (wt_buf (wstep t op)).
Proof.
  intros Hw Hd. destruct op as [bs|n]; cbn [wstep].
  - pose proof (append_spec bs (wt_buf t) Hw) as Ha. destruct (append bs (wt_buf t)) as [ok b'].
    destruct Ha as (Hw' & Hc & _ & Hd' & _). cbn [wt_buf wt_in wt_out].
    rewrite Hd', Hd. destruct ok; by rewrite ?app_assoc.
  - destruct (consume_spec n (wt_buf t) Hw) as (Hw' & Hc & Hd'). cbn [wt_buf wt_in wt_out].
    by rewrite Hd', Hd, <- app_assoc, take_drop.
Qed.

Lemma wrun_inv capacity ops :
  wb_wf (wt_buf (wrun capacity ops)) /\ capacity_ (wt_buf (wrun capacity ops)) = capacity /\
  wt_in (wrun capacity ops) = wt_out (wrun capacity ops) ++ data (wt_buf (wrun capacity ops)).
Proof.
  unfold wrun. rewrite <- (reverse_involutive ops). induction (reverse ops) as [|op l IH].
  { simpl. unfold wb_wf. simpl. split_and!; (done || lia). }
  rewrite reverse_cons, foldl_app. destruct IH as (Hw & Hc & Hd).
  destruct (wstep_inv _ op Hw Hd) as (? & Hc' & ?). cbn [foldl]. by rewrite Hc', Hc.
Qed.

End write_buffer.
