(* ===== verification/Crc32.v ===== *)
(** CRC-32 (include/ome/crc32.hpp): the generated table, the table-driven
    loop, its equivalence with bit-at-a-time polynomial division, and the
    errors it is guaranteed to detect. *)
From stdpp Require Import base numbers list.
From Stdlib Require Import ZArith Lia.
From S2P Require Import Prelude Bytes.

(** ** The code *)

Definition kPoly : Z := 0xEDB88320.

(** [(c & 1u) ? (0xEDB88320u ^ (c >> 1)) : (c >> 1)]. *)
Definition crc_bit (c : Z) : Z :=
  if Z.testbit c 0 then Z.lxor kPoly (Z.shiftr c 1) else Z.shiftr c 1.

Definition make_crc32_table : list Z :=
  (fun i => Nat.iter 8 crc_bit (Z.of_nat i)) <$> seq 0 256.

Definition crc32_table : list Z := Eval vm_compute in make_crc32_table.

(** Complement of a 32-bit unsigned value. *)
Definition not32 (c : Z) : Z := Z.lxor c (Z.ones 32).

Definition crc32_loop (data : list Z) (c : Z) : Z :=
  foldl (fun c b => Z.lxor (crc32_table !!! Z.to_nat (Z.land (Z.lxor c b) 255)) (Z.shiftr c 8))
    c data.

Definition crc32_from (data : list Z) (crc : Z) : Z := not32 (crc32_loop data (not32 crc)).

(** The default argument. *)
Definition crc32 (data : list Z) : Z := crc32_from data 0.

#[global] Arguments crc32_table : simpl never.

(** ** Reference: division of the message, as one integer, bit by bit *)

Definition crc_bits (n : nat) (c : Z) : Z := Nat.iter n crc_bit c.

(** ** Linearity *)

Lemma crc_bit_lxor a b : crc_bit (Z.lxor a b) = Z.lxor (crc_bit a) (crc_bit b).
Proof.
  unfold crc_bit. rewrite Z.lxor_spec, Z.shiftr_lxor.
  destruct (Z.testbit a 0), (Z.testbit b 0); simpl;
    apply Z.bits_inj'; intros i Hi; rewrite !Z.lxor_spec;
    repeat destruct (Z.testbit _ _); done.
Qed.

Lemma crc_bits_lxor n a b : crc_bits n (Z.lxor a b) = Z.lxor (crc_bits n a) (crc_bits n b).
Proof. unfold crc_bits. induction n as [|n IH]; simpl; [done|]. by rewrite IH, crc_bit_lxor. Qed.

Lemma crc_bits_add n m c : crc_bits (n + m) c = crc_bits n (crc_bits m c).
Proof. unfold crc_bits. induction n as [|n IH]; simpl; [done|]. by rewrite IH. Qed.

(** Bits that are not there yet are only shifted. *)
Lemma crc_bits_shiftl n c : crc_bits n (Z.shiftl c (Z.of_nat n)) = c.
Proof.
  unfold crc_bits. revert c. induction n as [|n IH]; intros c; [apply Z.shiftl_0_r|].
  rewrite Nat.iter_succ_r. rewrite <- (IH c) at 2. f_equal. unfold crc_bit.
  rewrite Z.shiftl_spec, Z.testbit_neg_r by lia.
  rewrite Z.shiftr_shiftl_l by lia. f_equal. lia.
Qed.

Lemma lxor_range n a b :
  0 <= n -> 0 <= a < 2 ^ n -> 0 <= b < 2 ^ n -> 0 <= Z.lxor a b < 2 ^ n.
Proof.
  intros Hn [Ha0 Ha] [Hb0 Hb]. assert (0 <= Z.lxor a b) by by apply Z.lxor_nonneg.
  split; [done|]. apply (Z.bounded_iff_bits_nonneg n); [lia|done|].
  intros i Hi. rewrite Z.lxor_spec.
  by rewrite (proj1 (Z.bounded_iff_bits_nonneg n a ltac:(lia) Ha0) Ha i),
    (proj1 (Z.bounded_iff_bits_nonneg n b ltac:(lia) Hb0) Hb i).
Qed.

Lemma shiftr1 c : c = 2 * Z.shiftr c 1 + (if Z.testbit c 0 then 1 else 0).
Proof.
  rewrite Z.shiftr_div_pow2, Z.bit0_odd by lia. change (2 ^ 1) with 2.
  rewrite (Z.div_mod c 2) at 1 by lia. by rewrite Zmod_odd.
Qed.

Lemma crc_bit_range c : is_u32 c -> is_u32 (crc_bit c).
Proof.
  intros Hc. unfold crc_bit. assert (is_u32 (Z.shiftr c 1)) as Hs.
  { pose proof (shiftr1 c). destruct (Z.testbit c 0); zwlia. }
  destruct (Z.testbit c 0); [|done]. by apply (lxor_range 32).
Qed.

(** Bit 31 of the polynomial is set, so no non-zero remainder is lost. *)
Lemma crc_bit_nonzero c : is_u32 c -> c <> 0 -> crc_bit c <> 0.
Proof.
  intros Hc Hz. unfold crc_bit. pose proof (shiftr1 c) as Hs. destruct (Z.testbit c 0).
  - intros H%Z.lxor_eq. unfold kPoly in H. zwlia.
  - zwlia.
Qed.

Lemma crc_bits_range n c : is_u32 c -> is_u32 (crc_bits n c).
Proof. intros Hc. unfold crc_bits. induction n; simpl; [done|]. by apply crc_bit_range. Qed.

Lemma crc_bits_nonzero n c : is_u32 c -> c <> 0 -> crc_bits n c <> 0.
Proof.
  intros Hc Hz. unfold crc_bits. induction n as [|n IH]; simpl; [done|].
  apply crc_bit_nonzero; [|done]. by apply (crc_bits_range n c Hc).
Qed.

(** ** The table-driven loop is the bit-by-bit division *)

Lemma crc32_table_ok : crc32_table = make_crc32_table.
Proof. vm_compute. reflexivity. Qed.

Lemma crc32_table_lookup i : is_u8 i -> crc32_table !!! Z.to_nat i = crc_bits 8 i.
Proof.
  intros Hi. apply list_lookup_total_correct. rewrite crc32_table_ok. unfold make_crc32_table.
  rewrite list_lookup_fmap, lookup_seq_lt by zwlia. cbn [fmap option_fmap option_map].
  f_equal. unfold crc_bits. f_equal. rewrite Nat.add_0_l, Z2Nat.id; [done|apply Hi].
Qed.

(** One table step is eight bit steps. *)
Lemma crc_byte c : crc_bits 8 c = Z.lxor (crc_bits 8 (Z.land c 255)) (Z.shiftr c 8).
Proof.
  assert (c = Z.lxor (Z.land c 255) (Z.shiftl (Z.shiftr c 8) 8)) as Hsplit.
  { apply Z.bits_inj'. intros i Hi. change 255 with (Z.ones 8).
    rewrite Z.lxor_spec, Z.land_spec, Z.shiftl_spec by lia.
    destruct (Z.ltb_spec i 8).
    - rewrite Z.ones_spec_low, andb_true_r, (Z.testbit_neg_r _ (i - 8)) by lia. by rewrite xorb_false_r.
    - rewrite Z.ones_spec_high, andb_false_r, Z.shiftr_spec by lia. rewrite xorb_false_l. f_equal. lia. }
  rewrite Hsplit at 1. rewrite crc_bits_lxor. f_equal. apply (crc_bits_shiftl 8).
Qed.

Lemma crc_table_step c b :
  is_u8 b ->
  Z.lxor (crc32_table !!! Z.to_nat (Z.land (Z.lxor c b) 255)) (Z.shiftr c 8) =
  crc_bits 8 (Z.lxor c b).
Proof.
  intros Hb. rewrite crc32_table_lookup.
  2: { rewrite land_255. unfold is_u8. apply Z.mod_pos_bound. lia. }
  rewrite (crc_byte (Z.lxor c b)). f_equal. rewrite Z.shiftr_lxor.
  rewrite (Z.shiftr_div_pow2 b) by lia. rewrite (Z.div_small b) by apply Hb. by rewrite Z.lxor_0_r.
Qed.

Lemma le_decode_lxor b x : is_u8 b -> le_decode (b :: x) = Z.lxor b (Z.shiftl (le_decode x) 8).
Proof.
  intros Hb. cbn [le_decode].
  assert (Z.land b (Z.shiftl (le_decode x) 8) = 0) as Hl.
  { apply Z.bits_inj'. intros i Hi. rewrite Z.land_spec, Z.shiftl_spec, Z.bits_0 by lia.
    destruct (Z.ltb_spec i 8); [by rewrite (Z.testbit_neg_r _ (i - 8)), andb_false_r by lia|].
    rewrite <- (Z.mod_small b (2 ^ 8)) by apply Hb. by rewrite Z.mod_pow2_bits_high by lia. }
  rewrite <- Z.add_nocarry_lxor by done. rewrite Z.shiftl_mul_pow2 by lia. lia.
Qed.

(** The loop divides the message, read as one little-endian integer. *)
Lemma crc32_loop_bits data c :
  bytes data -> crc32_loop data c = crc_bits (8 * length data) (Z.lxor c (le_decode data)).
Proof.
  intros Hb. revert c. induction Hb as [|b x Hb _ IH]; intros c.
  { simpl. by rewrite Z.lxor_0_r. }
  unfold crc32_loop in *. cbn [foldl length]. rewrite crc_table_step, IH by done.
  rewrite le_decode_lxor by done. rewrite <- Z.lxor_assoc.
  replace (8 * S (length x))%nat with (8 * length x + 8)%nat by lia.
  rewrite crc_bits_add. f_equal. rewrite (crc_bits_lxor 8 (Z.lxor c b)). f_equal. symmetry.
  apply (crc_bits_shiftl 8).
Qed.

Lemma not32_involutive c : not32 (not32 c) = c.
Proof. unfold not32. by rewrite Z.lxor_assoc, Z.lxor_nilpotent, Z.lxor_0_r. Qed.

Lemma crc32_loop_range data c : bytes data -> is_u32 c -> is_u32 (crc32_loop data c).
Proof.
  intros Hb. revert c. induction Hb as [|b x Hb _ IH]; intros c Hc; [done|].
  unfold crc32_loop in *. cbn [foldl]. apply IH. rewrite crc_table_step by done.
  apply crc_bits_range, (lxor_range 32); [done|done|zwlia].
Qed.

Lemma crc32_range data : bytes data -> is_u32 (crc32 data).
Proof.
  intros Hb. unfold crc32, crc32_from, not32. apply (lxor_range 32); [done| |done].
  by apply crc32_loop_range.
Qed.

Lemma crc32_burst (x y : list Z) (k w : Z) :
  bytes x -> bytes y -> length x = length y ->
  0 <= k -> 0 < w < 2 ^ 32 ->
  Z.lxor (le_decode x) (le_decode y) = Z.shiftl w k ->
  crc32 x <> crc32 y.
Proof.
  intros Hx Hy Hl Hk Hw Hd Heq. unfold crc32, crc32_from in Heq.
  apply (f_equal not32) in Heq. rewrite !not32_involutive, !crc32_loop_bits, Hl in Heq by done.
  apply Z.lxor_eq_0_iff in Heq. rewrite <- crc_bits_lxor in Heq.
  assert (forall s a b, Z.lxor (Z.lxor s a) (Z.lxor s b) = Z.lxor a b) as Hc.
  { intros s a b. rewrite (Z.lxor_comm s a), Z.lxor_assoc, <- (Z.lxor_assoc s s b),
      Z.lxor_nilpotent, Z.lxor_0_l. done. }
  rewrite Hc, Hd in Heq.
  assert (k <= 8 * Z.of_nat (length y)) as Hkb.
  { assert (0 <= Z.lxor (le_decode x) (le_decode y) < 2 ^ (8 * Z.of_nat (length y))) as [_ Hlt].
    { pose proof (le_decode_bound x Hx) as Hx1. pose proof (le_decode_bound y Hy) as Hy1.
      rewrite Hl, pow256 in Hx1. rewrite pow256 in Hy1. apply lxor_range; [lia|done|done]. }
    rewrite Hd, Z.shiftl_mul_pow2 in Hlt by lia.
    assert (2 ^ k < 2 ^ (8 * Z.of_nat (length y))) as Hp by nia.
    apply Z.pow_lt_mono_r_iff in Hp; lia. }
  replace (8 * length y)%nat with ((8 * length y - Z.to_nat k) + Z.to_nat k)%nat in Heq by lia.
  pose proof (crc_bits_shiftl (Z.to_nat k) w) as Hs. rewrite Z2Nat.id in Hs by done.
  rewrite crc_bits_add, Hs in Heq. revert Heq. apply crc_bits_nonzero; [zwlia|lia].
Qed.

(** ** Claims *)

(** [crc32_streaming]. Feeding the result back in as the seed continues
    the checksum: the checksum of a concatenation is the checksum of its second
    part seeded with that of the first. *)
Theorem crc32_streaming (a b : list Z) (crc : Z) :
  crc32_from (a ++ b) crc = crc32_from b (crc32_from a crc).
Proof. unfold crc32_from, crc32_loop. by rewrite not32_involutive, foldl_app. Qed.

(** [crc32_table_driven]. The table-driven loop computes the bit-by-bit
    polynomial division of the message, taken as one little-endian integer,
    with the standard inversions before and after. *)
Theorem crc32_table_driven (data : list Z) :
  bytes data ->
  crc32 data = not32 (crc_bits (8 * length data) (Z.lxor (Z.ones 32) (le_decode data))).
Proof. intros Hb. unfold crc32, crc32_from. by rewrite crc32_loop_bits. Qed.

(** The check value of CRC-32/ISO-HDLC: the ASCII digits 1 to 9. *)
Definition check_input : list Z := [49; 50; 51; 52; 53; 54; 55; 56; 57].

Lemma crc32_table_driven_witness :
  crc32 check_input = 0xCBF43926 /\
  crc32 check_input = not32 (crc_bits 72 (Z.lxor (Z.ones 32) (le_decode check_input))).
Proof.
  split; [vm_compute; reflexivity|]. apply (crc32_table_driven check_input).
  unfold bytes. vm_decide.
Defined.

(** C38: [crc32_detects_bursts]. Two messages of the same length that differ
    only inside a window of 32 consecutive bits, anywhere in the message and
    not only at byte boundaries, have different checksums; a single flipped bit
    is the case of a one-bit window. *)
Theorem crc32_detects_bursts (x y : list Z) (k w : Z) :
  bytes x -> bytes y -> length x = length y ->
  0 <= k -> 0 < w < 2 ^ 32 ->
  Z.lxor (le_decode x) (le_decode y) = Z.shiftl w k ->
  crc32 x <> crc32 y.
Proof. apply crc32_burst. Qed.

Lemma crc32_detects_bursts_witness : crc32 [1; 2; 3; 4; 5; 6] <> crc32 [1; 2; 0xF3; 0xAB; 0xCD; 0x06].
Proof.
  apply (crc32_detects_bursts [1; 2; 3; 4; 5; 6] [1; 2; 0xF3; 0xAB; 0xCD; 0x06] 20 0xC8AFF).
  - unfold bytes. vm_decide.
  - unfold bytes. vm_decide.
  - reflexivity.
  - lia.
  - lia.
  - vm_compute. reflexivity.
Defined.
