(* ===== verification/Spsc.v ===== *)
(** The single-producer single-consumer ring (include/spsc_queue.h): its
    operations as each thread runs them alone, the bounded FIFO it promises to
    its users (Egress.v, MatchingThread.v), and the two threads interleaved
    step by step. The interleaving model is sequentially consistent; the
    release/acquire pairs of the source are what makes that a fair model of
    the index hand-off. *)
From stdpp Require Import base numbers list.
From Stdlib Require Import ZArith Lia.
From S2P Require Import Prelude.

(** ** The interface: a FIFO of at most [cap] elements *)

Definition fifo_push {A} (cap : nat) (x : A) (q : list A) : bool * list A :=
  if (length q <? cap)%nat then (true, q ++ [x]) else (false, q).

Definition fifo_pop {A} (q : list A) : option A * list A :=
  match q with [] => (None, []) | x :: q => (Some x, q) end.

(** What a queue implementation [Q] promises: an abstraction to a FIFO that
    its operations commute with. *)
Class BoundedQueue (A Q : Type) := {
  bq_push : A -> Q -> bool * Q;
  bq_pop : Q -> option A * Q;
  bq_empty : Q -> bool;
}.

Class BoundedQueueLaws (A Q : Type) `{BoundedQueue A Q} (cap : nat) := {
  bq_rep : Q -> list A -> Prop;
  bq_rep_le q l : bq_rep q l -> (length l <= cap)%nat;
  bq_push_rep x q l : bq_rep q l ->
    (bq_push x q).1 = (fifo_push cap x l).1 /\ bq_rep (bq_push x q).2 (fifo_push cap x l).2;
  bq_pop_rep q l : bq_rep q l ->
    (bq_pop q).1 = (fifo_pop l).1 /\ bq_rep (bq_pop q).2 (fifo_pop l).2;
  bq_empty_rep q l : bq_rep q l -> bq_empty q = bool_decide (l = []);
}.

(** ** Positions modulo the number of slots *)

Lemma mod_window_ne (s i j : nat) : (i < j)%nat -> (j - i < s)%nat -> (i mod s <> j mod s)%nat.
Proof.
  intros Hij Hs He. pose proof (Nat.div_mod_eq i s). pose proof (Nat.div_mod_eq j s).
  assert (j - i = s * (j / s - i / s))%nat as Hd by nia.
  destruct (j / s - i / s)%nat; nia.
Qed.

Lemma mod_window_eq (s i j : nat) :
  (i <= j)%nat -> (j - i < s)%nat -> (i mod s = j mod s)%nat -> i = j.
Proof.
  intros Hij Hs He. destruct (Nat.eq_dec i j) as [|Hne]; [done|].
  exfalso. by apply (mod_window_ne s i j); [lia|lia|].
Qed.

Lemma mod_succ (s i : nat) : ((i mod s + 1) mod s = (i + 1) mod s)%nat.
Proof. by rewrite Nat.Div0.add_mod_idemp_l. Qed.

Module spsc.
Section spsc.
Context {T : Type} `{Inhabited T} (N : nat).

Definition kSlots : nat := S N.

Record SpscQueue := mkSpsc {
  buffer_ : list T;
  head_ : nat;
  tail_ : nat;
}.

(** [std::array<T, kSlots> buffer_{}]. *)
Definition spsc_queue : SpscQueue := mkSpsc (replicate kSlots inhabitant) 0 0.

Definition push (o : T) (q : SpscQueue) : bool * SpscQueue :=
  let h := head_ q in
  let t := tail_ q in
  let next := ((h + 1) mod kSlots)%nat in
  if (next =? t)%nat then (false, q)
  else (true, mkSpsc (<[h := o]> (buffer_ q)) next t).

Definition empty (q : SpscQueue) : bool := (tail_ q =? head_ q)%nat.

(** Moving a trivially copyable element out leaves the slot as it was. *)
Definition pop (q : SpscQueue) : option T * SpscQueue :=
  let t := tail_ q in
  let h := head_ q in
  if (t =? h)%nat then (None, q)
  else (Some (buffer_ q !!! t), mkSpsc (buffer_ q) h ((t + 1) mod kSlots)).

#[export] Instance spsc_bounded : BoundedQueue T SpscQueue :=
  {| bq_push := push; bq_pop := pop; bq_empty := empty |}.

(** The ring holds [l], [k] elements having been popped before. *)
Definition rep_at (k : nat) (q : SpscQueue) (l : list T) : Prop :=
  length (buffer_ q) = kSlots /\ (length l <= N)%nat /\
  tail_ q = (k mod kSlots)%nat /\ head_ q = ((k + length l) mod kSlots)%nat /\
  forall i x, l !! i = Some x -> buffer_ q !! ((k + i) mod kSlots)%nat = Some x.

Definition rep (q : SpscQueue) (l : list T) : Prop := exists k, rep_at k q l.

Lemma slot_lt k : (k mod kSlots < kSlots)%nat.
Proof. apply Nat.mod_upper_bound. done. Qed.

Lemma rep_init : rep spsc_queue [].
Proof.
  exists 0%nat. unfold rep_at, spsc_queue. cbn [buffer_ head_ tail_ length].
  rewrite length_replicate, Nat.Div0.mod_0_l. split_and!; [done|lia|done|by rewrite Nat.Div0.mod_0_l|done].
Qed.

Lemma push_rep x q l :
  rep q l -> (push x q).1 = (fifo_push N x l).1 /\ rep (push x q).2 (fifo_push N x l).2.
Proof.
  intros (k & Hb & Hl & Ht & Hh & Hc). unfold push, fifo_push. rewrite Hh, Ht, mod_succ.
  destruct (Nat.ltb_spec (length l) N) as [Hlt|Hge].
  - destruct (Nat.eqb_spec ((k + length l + 1) mod kSlots) (k mod kSlots)) as [He|_].
    { symmetry in He. apply mod_window_eq in He; unfold kSlots; lia. }
    split; [done|]. exists k. unfold rep_at. cbn [buffer_ head_ tail_ snd].
    rewrite length_insert, length_app. cbn [length].
    split_and!; [done|lia|done|f_equal; lia|]. intros i y [[_ Hi]|[-> <-]]%lookup_snoc_Some.
    + rewrite list_lookup_insert_ne; [by apply Hc|]. apply lookup_lt_Some in Hi.
      intros He. symmetry in He. apply mod_window_eq in He; unfold kSlots; lia.
    + rewrite list_lookup_insert_eq; [done|]. rewrite Hb. apply slot_lt.
  - replace (k + length l + 1)%nat with (k + 1 * kSlots)%nat by (unfold kSlots; lia).
    rewrite Nat.Div0.mod_add, Nat.eqb_refl. split; [done|]. by exists k.
Qed.

Lemma pop_rep q l :
  rep q l -> (pop q).1 = (fifo_pop l).1 /\ rep (pop q).2 (fifo_pop l).2.
Proof.
  intros (k & Hb & Hl & Ht & Hh & Hc). unfold pop. rewrite Hh, Ht.
  destruct l as [|x l].
  - cbn [length]. rewrite Nat.add_0_r, Nat.eqb_refl. split; [done|]. by exists k.
  - destruct (Nat.eqb_spec (k mod kSlots) ((k + length (x :: l)) mod kSlots)) as [He|_].
    { apply mod_window_eq in He; unfold kSlots in *; cbn [length] in *; lia. }
    cbn [fst snd fifo_pop]. split.
    + f_equal. apply list_lookup_total_correct. specialize (Hc 0%nat x eq_refl).
      by rewrite Nat.add_0_r in Hc.
    + exists (k + 1)%nat. unfold rep_at. cbn [buffer_ head_ tail_ length] in *.
      rewrite mod_succ. split_and!; [done|lia|done|f_equal; lia|].
      intros i y Hi. rewrite <- (Hc (S i) y Hi). f_equal. f_equal. lia.
Qed.

Lemma empty_rep q l : rep q l -> empty q = bool_decide (l = []).
Proof.
  intros (k & Hb & Hl & Ht & Hh & Hc). unfold empty. rewrite Hh, Ht. destruct l as [|x l].
  - cbn [length]. by rewrite Nat.add_0_r, Nat.eqb_refl.
  - rewrite bool_decide_eq_false_2 by done. apply Nat.eqb_neq.
    intros He%mod_window_eq; unfold kSlots in *; cbn [length] in *; lia.
Qed.

Lemma rep_length q l : rep q l -> (length l <= N)%nat.
Proof. by intros (k & _ & ? & _). Qed.

#[export] Instance spsc_laws : BoundedQueueLaws T SpscQueue N := {|
  bq_rep := rep; bq_rep_le := rep_length; bq_push_rep := push_rep;
  bq_pop_rep := pop_rep; bq_empty_rep := empty_rep |}.

(** ** Two threads, interleaved at every shared access *)

(** Where the producer is inside [push(o)]. *)
Inductive ProdPc :=
  | PIdle
  | PLoadedHead (o : T) (h : nat)
  | PLoadedTail (o : T) (h t : nat)
  | PWritten (o : T) (next : nat).

(** Where the consumer is inside [pop()]. *)
Inductive ConsPc :=
  | CIdle
  | CLoadedTail (t : nat)
  | CLoadedHead (t h : nat)
  | CRead (t : nat) (out : T).

(** The shared ring, the two program counters, and what the pushes that
    returned true and the pops that returned an element did so far. *)
Record Conc := mkConc {
  ring : SpscQueue;
  ppc : ProdPc;
  cpc : ConsPc;
  pushed : list T;
  popped : list T;
}.

Inductive cstep : Conc -> Conc -> Prop :=
| S_push_head o q c ps cs :
    cstep (mkConc q PIdle c ps cs) (mkConc q (PLoadedHead o (head_ q)) c ps cs)
| S_push_tail o h q c ps cs :
    cstep (mkConc q (PLoadedHead o h) c ps cs) (mkConc q (PLoadedTail o h (tail_ q)) c ps cs)
| S_push_full o h t q c ps cs :
    ((h + 1) mod kSlots = t)%nat ->
    cstep (mkConc q (PLoadedTail o h t) c ps cs) (mkConc q PIdle c ps cs)
| S_push_write o h t q c ps cs :
    ((h + 1) mod kSlots <> t)%nat ->
    cstep (mkConc q (PLoadedTail o h t) c ps cs)
      (mkConc (mkSpsc (<[h := o]> (buffer_ q)) (head_ q) (tail_ q))
         (PWritten o ((h + 1) mod kSlots)) c ps cs)
| S_push_store o next q c ps cs :
    cstep (mkConc q (PWritten o next) c ps cs)
      (mkConc (mkSpsc (buffer_ q) next (tail_ q)) PIdle c (ps ++ [o]) cs)
| S_pop_tail q p ps cs :
    cstep (mkConc q p CIdle ps cs) (mkConc q p (CLoadedTail (tail_ q)) ps cs)
| S_pop_head t q p ps cs :
    cstep (mkConc q p (CLoadedTail t) ps cs) (mkConc q p (CLoadedHead t (head_ q)) ps cs)
| S_pop_none t h q p ps cs :
    t = h ->
    cstep (mkConc q p (CLoadedHead t h) ps cs) (mkConc q p CIdle ps cs)
| S_pop_read t h q p ps cs :
    t <> h ->
    cstep (mkConc q p (CLoadedHead t h) ps cs) (mkConc q p (CRead t (buffer_ q !!! t)) ps cs)
| S_pop_store t out q p ps cs :
    cstep (mkConc q p (CRead t out) ps cs)
      (mkConc (mkSpsc (buffer_ q) (head_ q) ((t + 1) mod kSlots)) p CIdle ps (cs ++ [out])).

Inductive creach : Conc -> Prop :=
| CR_init : creach (mkConc spsc_queue PIdle CIdle [] [])
| CR_step s s' : creach s -> cstep s s' -> creach s'.

(** The producer's stale copy of [tail_] was the tail after [t0] pops. *)
Definition stale_tail (s : Conc) (t : nat) : Prop :=
  exists t0, (t0 <= length (popped s))%nat /\ t = (t0 mod kSlots)%nat /\
    (length (pushed s) <= t0 + N)%nat.

(** The consumer's stale copy of [head_] was the head after [h0] pushes. *)
Definition stale_head (s : Conc) (h : nat) : Prop :=
  exists h0, (length (popped s) <= h0 <= length (pushed s))%nat /\ h = (h0 mod kSlots)%nat.

Definition prod_inv (s : Conc) : Prop :=
  match ppc s with
  | PIdle => True
  | PLoadedHead _ h => h = head_ (ring s)
  | PLoadedTail _ h t => h = head_ (ring s) /\ stale_tail s t
  | PWritten o next =>
      next = ((head_ (ring s) + 1) mod kSlots)%nat /\
      (length (pushed s) < length (popped s) + N)%nat /\
      buffer_ (ring s) !! head_ (ring s) = Some o
  end.

Definition cons_inv (s : Conc) : Prop :=
  match cpc s with
  | CIdle => True
  | CLoadedTail t => t = tail_ (ring s)
  | CLoadedHead t h => t = tail_ (ring s) /\ stale_head s h
  | CRead t out => t = tail_ (ring s) /\ pushed s !! length (popped s) = Some out
  end.

Definition conc_inv (s : Conc) : Prop :=
  length (buffer_ (ring s)) = kSlots /\
  head_ (ring s) = (length (pushed s) mod kSlots)%nat /\
  tail_ (ring s) = (length (popped s) mod kSlots)%nat /\
  (length (popped s) <= length (pushed s) <= length (popped s) + N)%nat /\
  popped s = take (length (popped s)) (pushed s) /\
  (forall i x, (length (popped s) <= i)%nat -> pushed s !! i = Some x ->
     buffer_ (ring s) !! (i mod kSlots)%nat = Some x) /\
  prod_inv s /\ cons_inv s.

Ltac conc_fields := cbn [ring ppc cpc pushed popped buffer_ head_ tail_] in *.

Lemma prod_inv_room s o h t :
  conc_inv s -> ppc s = PLoadedTail o h t -> ((h + 1) mod kSlots <> t)%nat ->
  (length (pushed s) < length (popped s) + N)%nat.
Proof.
  intros (_ & Hh & _ & _ & _ & _ & Hp & _) Hpc Hne. unfold prod_inv in Hp. rewrite Hpc in Hp.
  destruct Hp as (-> & t0 & Ht0 & -> & Hle). rewrite Hh, mod_succ in Hne.
  destruct (Nat.eq_dec (length (pushed s)) (t0 + N)) as [He|]; [|lia].
  exfalso. apply Hne. rewrite He. replace (t0 + N + 1)%nat with (t0 + 1 * kSlots)%nat
    by (unfold kSlots; lia). by rewrite Nat.Div0.mod_add.
Qed.

Lemma cons_inv_some s t h :
  conc_inv s -> cpc s = CLoadedHead t h -> t <> h -> (length (popped s) < length (pushed s))%nat.
Proof.
  intros (_ & _ & Ht & _ & _ & _ & _ & Hc) Hpc Hne. unfold cons_inv in Hc. rewrite Hpc in Hc.
  destruct Hc as (-> & h0 & Hh0 & ->). destruct (Nat.eq_dec h0 (length (popped s))) as [->|]; [done|lia].
Qed.

(** The slot the producer writes is not one that still holds an element. *)
Lemma write_fresh s o h t i :
  conc_inv s -> ppc s = PLoadedTail o h t -> ((h + 1) mod kSlots <> t)%nat ->
  (length (popped s) <= i < length (pushed s))%nat -> (i mod kSlots <> h)%nat.
Proof.
  intros Hi Hpc Hne Hr. pose proof (prod_inv_room s o h t Hi Hpc Hne) as Hroom.
  destruct Hi as (_ & Hh & _ & _ & _ & _ & Hp & _). unfold prod_inv in Hp. rewrite Hpc in Hp.
  destruct Hp as [-> _]. rewrite Hh. apply mod_window_ne; unfold kSlots; lia.
Qed.

Lemma conc_inv_init : conc_inv (mkConc spsc_queue PIdle CIdle [] []).
Proof.
  unfold conc_inv, prod_inv, cons_inv, spsc_queue. conc_fields. cbn [length].
  rewrite length_replicate, Nat.Div0.mod_0_l. split_and!; done || lia.
Qed.

(** A step of the producer, and one of the consumer, keep the invariant. *)
Lemma conc_inv_push s s' :
  conc_inv s -> cstep s s' -> cpc s' = cpc s -> popped s' = popped s -> conc_inv s'.
Proof.
  intros Hi Hs Hcpc Hpop. pose proof Hi as (Hb & Hh & Ht & Hl & Hpre & Hc & Hp & Hcons).
  unfold conc_inv. destruct Hs; conc_fields; try congruence.
  - split_and!; done || lia.
  - split_and!; try (done || lia). unfold prod_inv in *. conc_fields. split; [done|].
    exists (length cs). conc_fields. split_and!; [lia|done|lia].
  - split_and!; done || lia.
  - pose proof (prod_inv_room _ o h t Hi eq_refl ltac:(done)) as Hroom. conc_fields.
    pose proof (fun i => write_fresh _ o h t i Hi eq_refl ltac:(done)) as Hfresh. conc_fields.
    destruct Hp as [Heq _]. conc_fields. subst h.
    split_and!; try (done || lia); [by rewrite length_insert| |].
    + intros i x Hle Hx. rewrite list_lookup_insert_ne; [by apply Hc|].
      intros He. symmetry in He. revert He. apply Hfresh. split; [done|]. by apply lookup_lt_Some in Hx.
    + unfold prod_inv. conc_fields. split_and!; [done|lia|]. apply list_lookup_insert_eq.
      rewrite Hb, Hh. apply slot_lt.
  - destruct Hp as (Heq & Hroom & Hslot). conc_fields. subst next. rewrite Hh in Hslot.
    rewrite length_app. cbn [length]. rewrite Hh, mod_succ.
    split_and!; try (done || lia).
    + rewrite take_app_le by lia. done.
    + intros i x Hle [[_ Hx]|[-> <-]]%lookup_snoc_Some; [by apply Hc|done].
    + unfold cons_inv, stale_head in *. conc_fields. destruct c as [|t'|t' h'|t' out]; try done.
      * destruct Hcons as [? (h0 & ? & ?)]. split; [done|]. exists h0. rewrite length_app. lia.
      * destruct Hcons as [? Hx]. split; [done|]. by apply lookup_app_l_Some.
Qed.

Lemma conc_inv_pop s s' :
  conc_inv s -> cstep s s' -> ppc s' = ppc s -> pushed s' = pushed s -> conc_inv s'.
Proof.
  intros Hi Hs Hppc Hpush. pose proof Hi as (Hb & Hh & Ht & Hl & Hpre & Hc & Hp & Hcons).
  unfold conc_inv. destruct Hs; conc_fields; try congruence;
    try (apply (f_equal length) in Hpush; rewrite length_app in Hpush; simpl in Hpush; lia).
  - split_and!; done || lia.
  - split_and!; try (done || lia). unfold cons_inv in *. conc_fields. split; [done|].
    exists (length ps). conc_fields. split_and!; [lia|lia|done].
  - split_and!; done || lia.
  - pose proof (cons_inv_some _ t h Hi eq_refl ltac:(done)) as Hlt. conc_fields.
    split_and!; try (done || lia). unfold cons_inv in *. conc_fields.
    destruct Hcons as [Heq _]. subst t. split; [done|].
    destruct (lookup_lt_is_Some_2 ps (length cs) Hlt) as [x Hx]. rewrite Hx. f_equal. symmetry.
    apply list_lookup_total_correct. rewrite Ht. by apply Hc.
  - destruct Hcons as [Heq Hx]. conc_fields. subst t. pose proof (lookup_lt_Some _ _ _ Hx) as Hlt.
    rewrite length_app. cbn [length]. rewrite Ht, mod_succ. split_and!; try (done || lia).
    + replace (length cs + 1)%nat with (S (length cs)) by lia.
      rewrite (take_S_r _ _ _ Hx). by rewrite <- Hpre.
    + intros i y Hle Hy. apply Hc; [lia|done].
    + unfold prod_inv, stale_tail in *. conc_fields. destruct p as [|o' h'|o' h' t'|o' n']; try done.
      * destruct Hp as [? (t0 & ? & ? & ?)]. split; [done|]. exists t0. rewrite length_app. lia.
      * destruct Hp as (? & ? & ?). rewrite length_app. split_and!; [done|lia|done].
Qed.

Lemma conc_inv_step s s' : conc_inv s -> cstep s s' -> conc_inv s'.
Proof.
  intros Hi Hs. destruct Hs;
    match goal with
    | |- conc_inv (mkConc _ _ ?c _ ?cs) => first
        [eapply (conc_inv_push _ _ Hi); [by econstructor|done|done]
        |eapply (conc_inv_pop _ _ Hi); [by econstructor|done|done]]
    end.
Qed.

Lemma creach_inv s : creach s -> conc_inv s.
Proof. induction 1; [apply conc_inv_init|by eapply conc_inv_step]. Qed.

End spsc.
End spsc.

#[global] Arguments spsc.SpscQueue T : clear implicits.
#[global] Arguments spsc.Conc T : clear implicits.

(** ** Claims *)

Section history.
Context {A Q : Type} `{BoundedQueue A Q}.

Inductive QOp := QPush (x : A) | QPop | QEmpty.
Inductive QRes := RPush (ok : bool) | RPop (o : option A) | REmpty (b : bool).

Definition q_step (q : Q) (op : QOp) : QRes * Q :=
  match op with
  | QPush x => let '(ok, q) := bq_push x q in (RPush ok, q)
  | QPop => let '(o, q) := bq_pop q in (RPop o, q)
  | QEmpty => (REmpty (bq_empty q), q)
  end.

(** The results of a sequence of calls. *)
Fixpoint q_run (q : Q) (ops : list QOp) : list QRes :=
  match ops with
  | [] => []
  | op :: ops => let '(r, q) := q_step q op in r :: q_run q ops
  end.

End history.
#[global] Arguments QOp A : clear implicits.
#[global] Arguments QRes A : clear implicits.

(** The specification as a queue: a list that refuses its [cap + 1]st element. *)
Definition fifo_queue (A : Type) (cap : nat) : BoundedQueue A (list A) :=
  {| bq_push := fifo_push cap; bq_pop := fifo_pop; bq_empty := fun q => bool_decide (length q = 0%nat) |}.

(** Two queues that obey the laws give the same results: every client of the
    interface may reason with the list. *)
Lemma q_run_laws {A Q} `{BoundedQueueLaws A Q cap} q l ops :
  bq_rep q l -> q_run q ops = q_run (H := fifo_queue A cap) l ops.
Proof.
  revert q l. induction ops as [|op ops IH]; intros q l Hr; [done|].
  destruct op as [x| |]; cbn [q_run q_step bq_push bq_pop bq_empty fifo_queue].
  - destruct (bq_push_rep x q l Hr) as [H1 H2].
    destruct (bq_push x q) as [ok q'], (fifo_push cap x l) as [ok' l']. cbn [fst snd] in *.
    subst ok'. f_equal. by apply IH.
  - destruct (bq_pop_rep q l Hr) as [H1 H2].
    destruct (bq_pop q) as [o q'], (fifo_pop l) as [o' l']. cbn [fst snd] in *.
    subst o'. f_equal. by apply IH.
  - f_equal; [|by apply IH]. f_equal. rewrite (bq_empty_rep q l Hr).
    apply bool_decide_ext. symmetry. apply length_zero_iff_nil.
Qed.

(** [spsc_ring_is_fifo]. The ring of N+1 slots, with its two indices
    wrapping around, gives for every sequence of push, pop and empty calls
    exactly the results of a FIFO list that holds at most N elements: nothing
    is lost, duplicated or reordered across wrap-around, push fails exactly
    when N elements are held, pop exactly when none is. *)
Theorem spsc_ring_is_fifo {T} `{Inhabited T} (N : nat) (ops : list (QOp T)) :
  q_run (H := spsc.spsc_bounded N) (spsc.spsc_queue N) ops =
  q_run (H := fifo_queue T N) [] ops.
Proof. apply (q_run_laws (H0 := spsc.spsc_laws N)). apply spsc.rep_init. Qed.

(** C19: [spsc_concurrent_fifo]. However the producer's push and the consumer's
    pop interleave, one shared access at a time: what the consumer received is
    a prefix, in order, of what the producer's successful pushes sent; at most
    N elements are in flight; and a producer about to write a slot never writes
    the slot the consumer is about to read. *)
Theorem spsc_concurrent_fifo {T} `{Inhabited T} (N : nat) (s : spsc.Conc T) :
  spsc.creach N s ->
  (exists rest, spsc.pushed s = spsc.popped s ++ rest /\ (length rest <= N)%nat) /\
  (forall o h t t' h',
     spsc.ppc s = spsc.PLoadedTail o h t -> ((h + 1) mod spsc.kSlots N <> t)%nat ->
     spsc.cpc s = spsc.CLoadedHead t' h' -> t' <> h' -> h <> t').
Proof.
  intros Hi%spsc.creach_inv. split.
  - pose proof Hi as (_ & _ & _ & Hl & Hpre & _).
    exists (drop (length (spsc.popped s)) (spsc.pushed s)). split.
    + rewrite Hpre at 1. by rewrite take_drop.
    + rewrite length_drop. lia.
  - intros o h t t' h' Hp Hne Hc Hne' ->.
    pose proof (spsc.cons_inv_some N s _ _ Hi Hc Hne') as Hlt.
    apply (spsc.write_fresh N s o t' t (length (spsc.popped s)) Hi Hp Hne); [lia|].
    destruct Hi as (_ & _ & Ht & _ & _ & _ & _ & Hcons). unfold spsc.cons_inv in Hcons.
    rewrite Hc in Hcons. destruct Hcons as [-> _]. by rewrite Ht.
Qed.

(** The producer has loaded both indices, then the consumer too, and the
    queue holds one element. *)
Lemma spsc_concurrent_fifo_witness :
  exists s : spsc.Conc nat,
    spsc.creach 2 s /\ spsc.pushed s = [7%nat] /\
    exists rest, spsc.pushed s = spsc.popped s ++ rest /\ (length rest <= 2)%nat.
Proof.
  pose proof (spsc.CR_step 2 _ _ (spsc.CR_init 2) (spsc.S_push_head 2 7%nat _ _ _ _)) as H1.
  pose proof (spsc.CR_step 2 _ _ H1 (spsc.S_push_tail 2 _ _ _ _ _ _)) as H2.
  assert ((0 + 1) mod spsc.kSlots 2 <> 0)%nat as Hroom by (simpl; lia).
  pose proof (spsc.CR_step 2 _ _ H2 (spsc.S_push_write 2 7%nat 0 0 _ _ _ _ Hroom)) as H3.
  pose proof (spsc.CR_step 2 _ _ H3 (spsc.S_push_store 2 _ _ _ _ _ _)) as H4.
  pose proof (spsc.CR_step 2 _ _ H4 (spsc.S_pop_tail 2 _ _ _ _)) as H5.
  pose proof (spsc.CR_step 2 _ _ H5 (spsc.S_pop_head 2 _ _ _ _ _)) as H6.
  eexists. split; [exact H6|]. split; [reflexivity|]. apply (spsc_concurrent_fifo 2 _ H6).
Defined.

(** [spsc_failure_exact]. A refusal is never spurious: the tail a push
    loads makes it fail exactly when N elements are held at that moment, and
    the head a pop loads makes it return nothing exactly when none is. *)
Theorem spsc_failure_exact {T} `{Inhabited T} (N : nat) (s : spsc.Conc T) :
  spsc.creach N s ->
  (forall o h, spsc.ppc s = spsc.PLoadedHead o h ->
     ((h + 1) mod spsc.kSlots N = spsc.tail_ (spsc.ring s))%nat <->
     length (spsc.pushed s) = (length (spsc.popped s) + N)%nat) /\
  (forall t, spsc.cpc s = spsc.CLoadedTail t ->
     t = spsc.head_ (spsc.ring s) <-> length (spsc.pushed s) = length (spsc.popped s)).
Proof.
  intros (_ & Hh & Ht & Hl & _ & _ & Hp & Hc)%spsc.creach_inv. split.
  - intros o h Hpc. unfold spsc.prod_inv in Hp. rewrite Hpc in Hp. rewrite Hp, Hh, Ht, mod_succ.
    split; intros He.
    + destruct (Nat.eq_dec (length (spsc.pushed s)) (length (spsc.popped s) + N)) as [|Hn]; [done|].
      symmetry in He. apply mod_window_eq in He; unfold spsc.kSlots; lia.
    + rewrite He. replace (length (spsc.popped s) + N + 1)%nat
        with (length (spsc.popped s) + 1 * spsc.kSlots N)%nat by (unfold spsc.kSlots; lia).
      by rewrite Nat.Div0.mod_add.
  - intros t Hpc. unfold spsc.cons_inv in Hc. rewrite Hpc in Hc. rewrite Hc, Hh, Ht.
    split; intros He; [|by rewrite He].
    apply mod_window_eq in He; unfold spsc.kSlots; lia.
Qed.

Lemma spsc_failure_exact_witness :
  spsc.creach 1 (spsc.mkConc (T := nat) (spsc.spsc_queue 1) spsc.PIdle spsc.CIdle [] []) /\
  (forall t, spsc.CIdle = spsc.CLoadedTail (T := nat) t -> t = 0%nat <-> 0%nat = 0%nat).
Proof.
  split; [apply spsc.CR_init|].
  apply (spsc_failure_exact 1 _ (spsc.CR_init 1)).
Defined.
