(* ===== verification/Wakeup.v ===== *)
(** The wake-up channels between the two threads: [Waiter]
    (include/ome/waiter.hpp), which parks the matching thread until commands
    arrive, and [Notifier] (include/ome/notifier.hpp), which wakes the network
    thread when events were produced. Both are step relations over the shared
    atomics and the pipe, one step per shared access.

    The producer's stores (the publication of a command, the clearing of
    [running_]) are release or relaxed stores, its read of [parked_] is a
    seq_cst load, and the consumer's writes of [parked_] are seq_cst stores.
    [SC] makes every store visible at once. [TSO] is the x86 model: the
    producer's plain stores wait in its store buffer, and its loads do not. *)
From stdpp Require Import base list.
From Stdlib Require Import Lia.
From S2P Require Import Prelude.

Module waiter.
Section waiter.
Context (spin_iterations pipe_capacity : nat).

Inductive MemoryModel := SC | TSO.

(** The stores of the producer that need not be visible at once. *)
Inductive Store := StPush | StStop.

(** The producer (the network thread): inside [submit] after the push (or in
    [stop] after the store), before [parked_.load]; or about to [write]. *)
Inductive Prod := PIdle | PPublished | PWrite.

(** The consumer (the matching thread), inside [run], [wait] and [drain]. *)
Inductive Cons :=
  | CTop
  | CSpin (left : nat)
  | CPark
  | CCheck
  | CUnpark
  | CBlock
  | CClear
  | CDrainPipe
  | CDrainQueue
  | CFinal
  | CDone.

Record State := mkState {
  inbound : nat;
  running : bool;
  buffered : list Store;
  parked : bool;
  pipe : nat;
  prod : Prod;
  cons : Cons;
}.

Definition init : State := mkState 0 true [] false 0 PIdle CTop.

Definition has_work (s : State) : bool := negb (inbound s =? 0)%nat || negb (running s).

Definition perform (st : Store) (s : State) : State :=
  match st with
  | StPush => mkState (S (inbound s)) (running s) (buffered s) (parked s) (pipe s) (prod s) (cons s)
  | StStop => mkState (inbound s) false (buffered s) (parked s) (pipe s) (prod s) (cons s)
  end.

Definition issue (mm : MemoryModel) (st : Store) (s : State) : State :=
  match mm with
  | SC => perform st s
  | TSO => mkState (inbound s) (running s) (buffered s ++ [st]) (parked s) (pipe s) (prod s) (cons s)
  end.

Definition set_prod (p : Prod) (s : State) : State :=
  mkState (inbound s) (running s) (buffered s) (parked s) (pipe s) p (cons s).
Definition set_cons (c : Cons) (s : State) : State :=
  mkState (inbound s) (running s) (buffered s) (parked s) (pipe s) (prod s) c.
Definition set_parked (b : bool) (s : State) : State :=
  mkState (inbound s) (running s) (buffered s) b (pipe s) (prod s) (cons s).
Definition set_pipe (n : nat) (s : State) : State :=
  mkState (inbound s) (running s) (buffered s) (parked s) n (prod s) (cons s).
Definition set_inbound (n : nat) (s : State) : State :=
  mkState n (running s) (buffered s) (parked s) (pipe s) (prod s) (cons s).
Definition set_buffered (l : list Store) (s : State) : State :=
  mkState (inbound s) (running s) l (parked s) (pipe s) (prod s) (cons s).

(** [write] of one byte on a non-blocking pipe: a full pipe drops it. *)
Definition pipe_write (n : nat) : nat := Nat.min pipe_capacity (S n).

(** What the consumer does next; [block] returns when the pipe is readable. *)
Definition cons_step (s : State) : option State :=
  match cons s with
  | CTop => Some (set_cons (if running s then CSpin spin_iterations else CFinal) s)
  | CSpin O => Some (set_cons CPark s)
  | CSpin (S n) => Some (set_cons (if has_work s then CDrainQueue else CSpin n) s)
  | CPark => Some (set_cons CCheck (set_parked true s))
  | CCheck => Some (set_cons (if has_work s then CUnpark else CBlock) s)
  | CUnpark => Some (set_cons CDrainQueue (set_parked false s))
  | CBlock => if (pipe s =? 0)%nat then None else Some (set_cons CClear s)
  | CClear => Some (set_cons CDrainPipe (set_parked false s))
  | CDrainPipe =>
      Some (set_cons (if (pipe s <? 256)%nat then CDrainQueue else CDrainPipe)
              (set_pipe (pipe s - 256) s))
  | CDrainQueue =>
      match inbound s with
      | O => Some (set_cons CTop s)
      | S n => Some (set_inbound n s)
      end
  | CFinal =>
      match inbound s with
      | O => Some (set_cons CDone s)
      | S n => Some (set_inbound n s)
      end
  | CDone => None
  end.

(** [signal]: the load of [parked_], and the write. *)
Definition signal_step (s : State) : option State :=
  match prod s with
  | PIdle => None
  | PPublished => Some (set_prod (if parked s then PWrite else PIdle) s)
  | PWrite => Some (set_prod PIdle (set_pipe (pipe_write (pipe s)) s))
  end.

Inductive Label := LPublish | LSignal | LFlush | LCons | LTimeout.

Inductive step (mm : MemoryModel) : Label -> State -> State -> Prop :=
| S_push s : prod s = PIdle -> step mm LPublish s (set_prod PPublished (issue mm StPush s))
| S_stop s : prod s = PIdle -> step mm LPublish s (set_prod PPublished (issue mm StStop s))
| S_signal s s' : signal_step s = Some s' -> step mm LSignal s s'
| S_flush st l s : buffered s = st :: l -> step mm LFlush s (perform st (set_buffered l s))
| S_cons s s' : cons_step s = Some s' -> step mm LCons s s'
| S_timeout s : cons s = CBlock -> step mm LTimeout s (set_cons CClear s).

Inductive reach (mm : MemoryModel) : State -> Prop :=
| R_init : reach mm init
| R_step l s s' : reach mm s -> step mm l s s' -> reach mm s'.

(** ** Every store visible at once *)

(** What holds in every state: parked exactly from [CCheck] to [CClear]; while
    blocked with an empty pipe, work implies a signal under way. *)
Definition wait_inv (s : State) : Prop :=
  buffered s = [] /\
  parked s = match cons s with CCheck | CUnpark | CBlock | CClear => true | _ => false end /\
  (cons s = CBlock -> pipe s = 0%nat -> has_work s = true -> prod s = PPublished \/ prod s = PWrite).

Lemma wait_inv_step l s s' : (0 < pipe_capacity)%nat -> wait_inv s -> step SC l s s' -> wait_inv s'.
Proof.
  intros Hcap (Hb & Hp & Hw) Hs. destruct s as [ib run buf pk pi pr co].
  inversion Hs as [? Hpr|? Hpr|? ? Hsig|? ? ? Hbuf|? ? Hc|? Hc]; simplify_eq; cbn in *; simplify_eq.
  - split_and!; try done. by left.
  - split_and!; try done. by left.
  - destruct pr; cbn in *; simplify_eq; split_and!; cbn; try done.
    + intros -> H1 H2. cbn in *. by right.
    + intros _ H1. unfold pipe_write in H1. lia.
  - destruct co as [|[|n]| | | | | | | | |]; cbn in *; unfold wait_inv, has_work in *; cbn in *;
      repeat case_match; simplify_eq; cbn in *; split_and!; try done; try congruence.
  - split_and!; cbn; done.
Qed.

Lemma wait_inv_reach s : (0 < pipe_capacity)%nat -> reach SC s -> wait_inv s.
Proof. intros Hcap. induction 1 as [|l s s' _ IH Hs]; [done|]. by eapply wait_inv_step. Qed.

(** What the threads can do without the timeout of [block]. *)
Inductive runs (mm : MemoryModel) : State -> State -> Prop :=
| Runs_refl s : runs mm s s
| Runs_step l s s' s'' : l <> LTimeout -> l <> LPublish -> step mm l s s' -> runs mm s' s'' -> runs mm s s''.

(** A blocked consumer with a byte to read goes on to drain the queue. *)
Lemma wake_runs mm s :
  cons s = CBlock -> (0 < pipe s)%nat ->
  exists s', runs mm s s' /\ cons s' = CDrainQueue /\ inbound s' = inbound s.
Proof.
  intros Hc Hp.
  assert (forall n s1, (pipe s1 <= n)%nat -> cons s1 = CDrainPipe ->
    exists s', runs mm s1 s' /\ cons s' = CDrainQueue /\ inbound s' = inbound s1) as Hdrain.
  { induction n as [|n IH]; intros s1 Hn Hc1.
    all: destruct (Nat.ltb_spec (pipe s1) 256) as [Hlt|Hge]; try lia.
    1, 2: exists (set_cons CDrainQueue (set_pipe (pipe s1 - 256) s1)); split; [|done];
          eapply (Runs_step _ LCons); [done|done| |constructor];
          constructor; unfold cons_step; rewrite Hc1; by rewrite (proj2 (Nat.ltb_lt _ _) Hlt).
    destruct (IH (set_cons CDrainPipe (set_pipe (pipe s1 - 256) s1))) as (s' & Hr & Hq & Hi);
      [cbn; lia|done|]. exists s'. split; [|done].
    eapply (Runs_step _ LCons); [done|done| |exact Hr]. constructor. unfold cons_step. rewrite Hc1.
    by rewrite (proj2 (Nat.ltb_ge _ _) Hge). }
  destruct (Hdrain (pipe s) (set_cons CDrainPipe (set_parked false (set_cons CClear s))))
    as (s' & Hr & Hq & Hi); [done|done|].
  exists s'. split; [|done].
  eapply (Runs_step _ LCons); [done|done| |].
  { constructor. unfold cons_step. rewrite Hc. by destruct (pipe s) eqn:E; [lia|]. }
  eapply (Runs_step _ LCons); [done|done| |exact Hr]. by constructor.
Qed.

(** From the load of [parked_] on, a signal to a parked consumer ends with a
    byte in the pipe. *)
Lemma signal_runs mm s :
  (0 < pipe_capacity)%nat -> parked s = true -> prod s = PPublished \/ prod s = PWrite ->
  exists s', runs mm s s' /\ (0 < pipe s')%nat /\ cons s' = cons s /\ inbound s' = inbound s.
Proof.
  intros Hcap Hpk Hpr.
  assert (forall s1, prod s1 = PWrite -> exists s', runs mm s1 s' /\ (0 < pipe s')%nat /\
    cons s' = cons s1 /\ inbound s' = inbound s1) as Hwrite.
  { intros s1 Hw. exists (set_prod PIdle (set_pipe (pipe_write (pipe s1)) s1)).
    split; [|split; [cbn; unfold pipe_write; lia|done]].
    eapply (Runs_step _ LSignal); [done|done| |constructor]. constructor. unfold signal_step. by rewrite Hw. }
  destruct Hpr as [Hp|Hp]; [|by apply Hwrite].
  destruct (Hwrite (set_prod PWrite s)) as (s' & Hr & H); [done|]. exists s'. split; [|done].
  eapply (Runs_step _ LSignal); [done|done| |exact Hr]. constructor. unfold signal_step. by rewrite Hp, Hpk.
Qed.

Lemma runs_trans mm s1 s2 s3 : runs mm s1 s2 -> runs mm s2 s3 -> runs mm s1 s3.
Proof. induction 1; [done|]. intros. econstructor; eauto. Qed.

(** The consumer spins its budget on an empty queue and is about to park. *)
Lemma spin_to_park mm n s :
  reach mm s -> cons s = CSpin n -> has_work s = false -> reach mm (set_cons CPark s).
Proof.
  revert s. induction n as [|n IH]; intros s Hs Hc Hw.
  - apply (R_step mm LCons s); [done|]. constructor. unfold cons_step. by rewrite Hc.
  - change (set_cons CPark s) with (set_cons CPark (set_cons (CSpin n) s)). apply IH; [|done..].
    apply (R_step mm LCons s); [done|]. constructor. unfold cons_step. by rewrite Hc, Hw.
Qed.

Lemma reach_park mm : reach mm (set_cons CPark init).
Proof.
  change (set_cons CPark init) with (set_cons CPark (set_cons (CSpin spin_iterations) init)).
  eapply spin_to_park; [|done..]. apply (R_step mm LCons init); [constructor|]. by constructor.
Qed.

End waiter.
End waiter.

(** C26: [no_missed_wakeup]. With every store visible at once, a matching thread
    that blocked although there is work (a command, or a request to stop) is
    woken without the timeout: the steps under way lead it to drain the queue,
    with the command still there. *)
Theorem no_missed_wakeup (spin pipe_capacity : nat) (s : waiter.State) :
  (0 < pipe_capacity)%nat -> waiter.reach spin pipe_capacity waiter.SC s ->
  waiter.cons s = waiter.CBlock -> waiter.has_work s = true ->
  exists s', waiter.runs spin pipe_capacity waiter.SC s s' /\
    waiter.cons s' = waiter.CDrainQueue /\ waiter.inbound s' = waiter.inbound s.
Proof.
  intros Hcap Hr Hc Hw.
  destruct (waiter.wait_inv_reach _ _ s Hcap Hr) as (_ & Hpk & Hsig). rewrite Hc in Hpk.
  destruct (Nat.eq_dec (waiter.pipe s) 0%nat) as [Hp|Hp].
  - destruct (waiter.signal_runs spin pipe_capacity waiter.SC s) as (s1 & H1 & Hp1 & Hc1 & Hi1);
      [done|done|by apply Hsig|].
    rewrite Hc in Hc1.
    destruct (waiter.wake_runs spin pipe_capacity waiter.SC s1) as (s2 & H2 & Hc2 & Hi2); [done|done|].
    exists s2. split; [by eapply waiter.runs_trans|]. split; [done|congruence].
  - apply waiter.wake_runs; [done|lia].
Qed.

(** The consumer has just blocked; the producer has pushed, and not yet read
    [parked_]. *)
Definition blocked_with_work : waiter.State :=
  waiter.mkState 1 true [] true 0 waiter.PPublished waiter.CBlock.

Lemma blocked_with_work_reach : waiter.reach 2000 16 waiter.SC blocked_with_work.
Proof.
  apply (waiter.R_step _ _ _ waiter.LPublish (waiter.mkState 0 true [] true 0 waiter.PIdle waiter.CBlock)).
  2: { exact (waiter.S_push 2000 16 waiter.SC
         (waiter.mkState 0 true [] true 0 waiter.PIdle waiter.CBlock) eq_refl). }
  apply (waiter.R_step _ _ _ waiter.LCons (waiter.mkState 0 true [] true 0 waiter.PIdle waiter.CCheck)).
  2: { by constructor. }
  apply (waiter.R_step _ _ _ waiter.LCons (waiter.set_cons waiter.CPark waiter.init)).
  - apply waiter.reach_park.
  - by constructor.
Qed.

Lemma no_missed_wakeup_witness :
  exists s', waiter.runs 2000 16 waiter.SC blocked_with_work s' /\
    waiter.cons s' = waiter.CDrainQueue /\ waiter.inbound s' = 1%nat.
Proof.
  apply (no_missed_wakeup 2000 16 blocked_with_work).
  - apply Nat.lt_0_succ.
  - apply blocked_with_work_reach.
  - reflexivity.
  - reflexivity.
Defined.

(** [tso_missed_wakeup]. On x86 the orderings the code asks for are not
    enough: the seq_cst load of [parked_] may be done while the release store
    that published the command is still in the store buffer. A state is then
    reachable in which the command is visible, the producer's signal is over,
    the pipe is empty and the matching thread is blocked: nothing but a new
    command or the timeout moves it. *)
Theorem tso_missed_wakeup (spin pipe_capacity : nat) :
  let s := waiter.mkState 1 true [] true 0 waiter.PIdle waiter.CBlock in
  waiter.reach spin pipe_capacity waiter.TSO s /\
  forall l s', waiter.step spin pipe_capacity waiter.TSO l s s' ->
    l = waiter.LPublish \/ l = waiter.LTimeout.
Proof.
  intros s. split.
  - apply (waiter.R_step _ _ _ waiter.LFlush
      (waiter.mkState 0 true [waiter.StPush] true 0 waiter.PIdle waiter.CBlock)).
    2: { exact (waiter.S_flush _ _ waiter.TSO waiter.StPush []
      (waiter.mkState 0 true [waiter.StPush] true 0 waiter.PIdle waiter.CBlock) eq_refl). }
    apply (waiter.R_step _ _ _ waiter.LCons
      (waiter.mkState 0 true [waiter.StPush] true 0 waiter.PIdle waiter.CCheck)).
    2: { by constructor. }
    apply (waiter.R_step _ _ _ waiter.LCons
      (waiter.mkState 0 true [waiter.StPush] false 0 waiter.PIdle waiter.CPark)).
    2: { by constructor. }
    apply (waiter.R_step _ _ _ waiter.LSignal
      (waiter.mkState 0 true [waiter.StPush] false 0 waiter.PPublished waiter.CPark)).
    2: { by constructor. }
    apply (waiter.R_step _ _ _ waiter.LPublish (waiter.set_cons waiter.CPark waiter.init)).
    { apply waiter.reach_park. }
    exact (waiter.S_push _ _ waiter.TSO (waiter.set_cons waiter.CPark waiter.init) eq_refl).
  - intros l s' Hs. inversion Hs; simplify_eq; auto.
Qed.

(** ** The notifier *)

Module notifier.
Section notifier.
Context (pipe_capacity : nat).

(** The matching thread inside [notify]: the exchange returned false, the
    write is next. *)
Inductive Prod := NIdle | NWrite.

(** The network thread inside [drain]: reading, or about to clear. *)
Inductive Cons := DIdle | DRead | DClear.

Record State := mkState { pending : bool; pipe : nat; prod : Prod; cons : Cons }.

Definition init : State := mkState false 0 NIdle DIdle.

Definition notify_step (s : State) : State :=
  match prod s with
  | NIdle => mkState true (pipe s) (if pending s then NIdle else NWrite) (cons s)
  | NWrite => mkState (pending s) (Nat.min pipe_capacity (S (pipe s))) NIdle (cons s)
  end.

(** [drain] is called when poll reported the pipe readable; each read takes up
    to 64 bytes, the first to find nothing ends the loop. *)
Definition drain_step (s : State) : option State :=
  match cons s with
  | DIdle => if (pipe s =? 0)%nat then None else Some (mkState (pending s) (pipe s) (prod s) DRead)
  | DRead => Some (mkState (pending s) (pipe s - 64) (prod s)
                     (if (pipe s =? 0)%nat then DClear else DRead))
  | DClear => Some (mkState false (pipe s) (prod s) DIdle)
  end.

Inductive step : State -> State -> Prop :=
| S_notify s : step s (notify_step s)
| S_drain s s' : drain_step s = Some s' -> step s s'.

Inductive reach : State -> Prop :=
| R_init : reach init
| R_step s s' : reach s -> step s s' -> reach s'.

(** One byte at most is outstanding, and [pending] stays up from the exchange
    to the end of the drain that consumed the byte. *)
Definition channel_inv (s : State) : Prop :=
  match prod s, cons s with
  | NIdle, DIdle => if pending s then pipe s = 1%nat else pipe s = 0%nat
  | NIdle, DRead => pending s = true /\ (pipe s <= 1)%nat
  | NIdle, DClear => pending s = true /\ pipe s = 0%nat
  | NWrite, DIdle => pending s = true /\ pipe s = 0%nat
  | NWrite, _ => False
  end.

Lemma channel_inv_reach s : (0 < pipe_capacity)%nat -> reach s -> channel_inv s.
Proof.
  intros Hcap. induction 1 as [|s s' _ IH Hs]; [done|]. unfold channel_inv in *.
  destruct s as [pe pi pr co].
  inversion Hs as [|? ? Hd]; simplify_eq; [|unfold drain_step in Hd]; cbn in *;
    destruct pr, co; cbn in *; repeat case_match; simplify_eq; cbn in *; try done; try lia;
    rewrite ?Nat.eqb_neq, ?Nat.eqb_eq in *; try lia; split_and!; try lia; intuition lia.
Qed.

End notifier.
End notifier.

(** [notifier_never_dead]. The wake-up channel to the network thread never
    dies and never fills: at most one byte is outstanding, and between calls
    the flag that suppresses further writes is up exactly when that byte is in
    the pipe, so a [notify] on a quiet channel always leaves the descriptor
    readable. *)
Theorem notifier_never_dead (pipe_capacity : nat) (s : notifier.State) :
  (0 < pipe_capacity)%nat -> notifier.reach pipe_capacity s ->
  (notifier.pipe s <= 1)%nat /\
  (notifier.prod s = notifier.NIdle -> notifier.cons s = notifier.DIdle ->
   (notifier.pending s = true <-> notifier.pipe s = 1%nat) /\
   let s1 := notifier.notify_step pipe_capacity s in
   let s2 := notifier.notify_step pipe_capacity s1 in
   notifier.pipe (if notifier.pending s then s1 else s2) = 1%nat).
Proof.
  intros Hcap Hr. pose proof (notifier.channel_inv_reach _ s Hcap Hr) as Hi.
  destruct s as [pe pi pr co]. unfold notifier.channel_inv in Hi. cbn in *.
  split; [destruct pr, co, pe; try done; lia|].
  intros -> ->. destruct pe; cbn; subst; (split; [split; done|]); cbn; lia.
Qed.

Lemma notifier_never_dead_witness :
  (notifier.pipe (notifier.mkState true 1 notifier.NIdle notifier.DIdle) <= 1)%nat.
Proof.
  apply (notifier_never_dead 16).
  - apply Nat.lt_0_succ.
  - apply (notifier.R_step _ (notifier.mkState true 0 notifier.NWrite notifier.DIdle)).
    + apply (notifier.R_step _ notifier.init); [constructor|]. apply notifier.S_notify.
    + apply notifier.S_notify.
Defined.
