(* ===== verification/Commands.v ===== *)
(** The two types that cross the thread boundary (include/ome/commands.hpp). *)
From stdpp Require Import base numbers list.
From Stdlib Require Import ZArith Lia.
From S2P Require Import Prelude Types Bytes Protocol.
#[local] Existing Instances protocol.Side_eq_dec protocol.OrderType_eq_dec.

(** The source's enumerators, prefixed: [NewOrder] and the like are message
    structs too. *)
Inductive CommandType :=
  | CmdSessionOpened | CmdNewOrder | CmdCancel | CmdModify | CmdSubscribe
  | CmdCancelAllForSession.

#[export] Instance CommandType_eq_dec : EqDecision CommandType.
Proof. solve_decision. Defined.

(** [static_cast<std::uint8_t>(type)]: declaration order. *)
Definition ctype_code (t : CommandType) : Z :=
  match t with
  | CmdSessionOpened => 0 | CmdNewOrder => 1 | CmdCancel => 2 | CmdModify => 3
  | CmdSubscribe => 4 | CmdCancelAllForSession => 5
  end.

(** A queue pointer is the identity of the connection that owns the queue;
    [None] is [nullptr]. *)
Record OrderCommand := mkCommand {
  c_type : CommandType;
  c_session : Z;
  c_client_order_id : Z;
  c_price_ticks : Z;
  c_quantity : Z;
  c_side : protocol.Side;
  c_order_type : protocol.OrderType;
  c_egress : option Z;
  c_md_queue : option Z;
}.

#[export] Instance OrderCommand_eq_dec : EqDecision OrderCommand.
Proof. solve_decision. Defined.

(** [OrderCommand c{}]. *)
Definition command0 : OrderCommand :=
  mkCommand CmdNewOrder 0 0 0 0 protocol.Bid protocol.Limit None None.

Definition session_opened (s : Z) (q md : option Z) : OrderCommand :=
  mkCommand CmdSessionOpened s 0 0 0 protocol.Bid protocol.Limit q md.

(** The depth rides in the quantity field. *)
Definition subscribe (s depth : Z) : OrderCommand :=
  mkCommand CmdSubscribe s 0 0 depth protocol.Bid protocol.Limit None None.

Definition new_order (s : Z) (m : protocol.NewOrder) : OrderCommand :=
  mkCommand CmdNewOrder s (protocol.no_client_order_id m) (protocol.no_price_ticks m)
    (protocol.no_quantity m) (protocol.no_side m) (protocol.no_order_type m) None None.

Definition cancel (s coid : Z) : OrderCommand :=
  mkCommand CmdCancel s coid 0 0 protocol.Bid protocol.Limit None None.

Definition modify (s : Z) (m : protocol.Modify) : OrderCommand :=
  mkCommand CmdModify s (protocol.mo_client_order_id m) (protocol.mo_new_price_ticks m)
    (protocol.mo_new_quantity m) protocol.Bid protocol.Limit None None.

Definition cancel_all (s : Z) : OrderCommand :=
  mkCommand CmdCancelAllForSession s 0 0 0 protocol.Bid protocol.Limit None None.

(** ** Events *)

Inductive EventType := EvAck | EvReject | EvFill | EvSessionRetired.

#[export] Instance EventType_eq_dec : EqDecision EventType.
Proof. solve_decision. Defined.

Record OrderEvent := mkEvent {
  e_type : EventType;
  e_session : Z;
  e_client_order_id : Z;
  e_exchange_order_id : Z;
  e_price_ticks : Z;
  e_quantity : Z;
  e_remaining_quantity : Z;
  e_reason : RejectReason;
  e_closes_order : bool;
}.

#[export] Instance OrderEvent_eq_dec : EqDecision OrderEvent.
Proof. solve_decision. Defined.

Definition ev_ack (s coid xoid : Z) (closes : bool) : OrderEvent :=
  mkEvent EvAck s coid xoid 0 0 0 NONE closes.

Definition ev_reject (s coid : Z) (r : RejectReason) : OrderEvent :=
  mkEvent EvReject s coid 0 0 0 0 r true.

Definition ev_fill (s coid xoid px qty remaining : Z) : OrderEvent :=
  mkEvent EvFill s coid xoid px qty remaining NONE (remaining =? 0).

Definition ev_session_retired (s : Z) : OrderEvent :=
  mkEvent EvSessionRetired s 0 0 0 0 0 NONE false.

(** Every field in the range of its C++ type. *)
Definition command_ok (c : OrderCommand) : Prop :=
  is_u64 (c_session c) /\ is_u64 (c_client_order_id c) /\ is_i64 (c_price_ticks c) /\
  is_u32 (c_quantity c).

#[export] Instance command_ok_dec c : Decision (command_ok c).
Proof. unfold command_ok. apply _. Defined.

(** What of a command reaches the disk: everything but the pointers. *)
Definition without_pointers (c : OrderCommand) : OrderCommand :=
  mkCommand (c_type c) (c_session c) (c_client_order_id c) (c_price_ticks c) (c_quantity c)
    (c_side c) (c_order_type c) None None.
