(* ===== verification/Wal.v ===== *)
(** The write-ahead log (include/ome/wal.hpp): the payload codec, the record
    format, the writer with its group commit, the reader and the truncation
    behind a snapshot.

    The file is the list of its bytes. A system call that can fail is an
    argument that says how it went: how many bytes [write] accepted before it
    failed, how much [read] delivered, which step of the rewrite failed. The
    result of [fdatasync] is discarded by the code, so it is no argument: what
    is recorded is how much of the file had been handed to it. *)
From stdpp Require Import base numbers list.
From Stdlib Require Import ZArith Lia.
From S2P Require Import Prelude Types Bytes Protocol Crc32 Commands.

Definition kWalHeaderSize : nat := 16.
Definition kWalMaxPayload : Z := 64 * 1024.

Record WalConfig := mkWalConfig { sync_interval_ns : Z; sync_every_n : Z; full_sync : bool }.
Definition wal_config0 : WalConfig := mkWalConfig (10 * 1000 * 1000) 100 true.

(** ** Command payloads *)

(** The [switch]: the enumerator a byte stands for, if any. *)
Definition command_type_of (t : Z) : option CommandType :=
  match t with
  | 0 => Some CmdSessionOpened | 1 => Some CmdNewOrder | 2 => Some CmdCancel
  | 3 => Some CmdModify | 4 => Some CmdSubscribe | 5 => Some CmdCancelAllForSession
  | _ => None
  end.

Definition is_known_command_type (t : Z) : bool :=
  match command_type_of t with Some _ => true | None => false end.

Definition encode_command (out : list Z) (c : OrderCommand) : list Z :=
  let out := put_u8 out (ctype_code (c_type c)) in
  let out := put_u64 out (c_session c) in
  let out := put_u64 out (c_client_order_id c) in
  let out := put_i64 out (c_price_ticks c) in
  let out := put_u32 out (c_quantity c) in
  let out := put_u8 out (protocol.side_code (c_side c)) in
  put_u8 out (protocol.otype_code (c_order_type c)).

(** [None] is the [false] of the source. *)
Definition decode_command (data : list Z) : option OrderCommand :=
  let r := reader data in
  let '(type, r) := rd_u8 r in
  let '(session, r) := rd_u64 r in
  let '(coid, r) := rd_u64 r in
  let '(price, r) := rd_i64 r in
  let '(qty, r) := rd_u32 r in
  let '(side, r) := rd_u8 r in
  let '(otype, r) := rd_u8 r in
  if bad_end r then None else
  match command_type_of type with
  | None => None
  | Some t =>
      if (1 <? side) || (1 <? otype) then None else
      Some (mkCommand t session coid price qty (protocol.side_of side)
              (protocol.otype_of otype) None None)
  end.

Definition is_loggable (t : CommandType) : bool :=
  match t with
  | CmdNewOrder | CmdCancel | CmdModify | CmdCancelAllForSession => true
  | CmdSessionOpened | CmdSubscribe => false
  end.

(** ** Records *)

(** The record [append] and [truncate_before] build. *)
Definition wal_record (seq : Z) (c : OrderCommand) : list Z :=
  let payload := encode_command [] c in
  let out := put_u32 [] (u32 (Z.of_nat (length payload))) in
  let out := put_u32 out (crc32 payload) in
  put_u64 out seq ++ payload.

(** ** Reader *)

Record WalReadResult := mkRead {
  wr_commands : list OrderCommand;
  wr_first_seq : Z;
  wr_last_seq : Z;
  wr_truncated_bytes : nat;
  wr_sequence_gap : bool;
  wr_gap_after : Z;
  (** the [open] failed *)
  wr_error : bool;
}.

Definition wal_read0 : WalReadResult := mkRead [] 0 0 0 false 0 false.

(** The [while (pos + kWalHeaderSize <= buf.size())] loop, [sf] being what is
    left of [buf] at [pos]; every record read takes at least its header. *)
Fixpoint read_loop (fuel : nat) (sf : list Z) (r : WalReadResult) : WalReadResult * list Z :=
  match fuel with
  | O => (r, sf)
  | S fuel =>
      if (length sf <? kWalHeaderSize)%nat then (r, sf) else
      let hr := reader (take kWalHeaderSize sf) in
      let '(len, hr) := rd_u32 hr in
      let '(want_crc, hr) := rd_u32 hr in
      let '(seq, _) := rd_u64 hr in
      if kWalMaxPayload <? len then (r, sf) else
      if (length sf <? kWalHeaderSize + Z.to_nat len)%nat then (r, sf) else
      let payload := take (Z.to_nat len) (drop kWalHeaderSize sf) in
      if negb (crc32 payload =? want_crc) then (r, sf) else
      match decode_command payload with
      | None => (r, sf)
      | Some c =>
          if negb (wr_last_seq r =? 0) && negb (seq =? u64 (wr_last_seq r + 1))
          then (mkRead (wr_commands r) (wr_first_seq r) (wr_last_seq r) (wr_truncated_bytes r)
                  true (wr_last_seq r) (wr_error r), sf)
          else
            let first := match wr_commands r with [] => seq | _ => wr_first_seq r end in
            read_loop fuel (drop (kWalHeaderSize + Z.to_nat len) sf)
              (mkRead (wr_commands r ++ [c]) first seq (wr_truncated_bytes r)
                 (wr_sequence_gap r) (wr_gap_after r) (wr_error r))
      end
  end.

(** [None]: the file cannot be opened. Otherwise the argument is what [read]
    delivered before it returned 0 or failed: the loop stops at either, and
    nothing in the result tells them apart. It is the whole file when no [read]
    fails, and a prefix of it when one does. *)
Definition read_wal (file : option (list Z)) : WalReadResult :=
  match file with
  | None => mkRead [] 0 0 0 false 0 true
  | Some buf =>
      let '(r, sf) := read_loop (S (length buf)) buf wal_read0 in
      mkRead (wr_commands r) (wr_first_seq r) (wr_last_seq r) (length sf)
        (wr_sequence_gap r) (wr_gap_after r) (wr_error r)
  end.

(** ** Writer *)

(** [w_file] is the file at [path_]; [w_synced] how many of its bytes were
    there at the last [fdatasync] (or [fsync], of a rewritten file). They are
    what a machine failure cannot take if that call succeeded; the code does
    not look. *)
Record Wal := mkWal {
  w_open : bool;
  w_file : list Z;
  w_synced : nat;
  w_cfg : WalConfig;
  w_seq : Z;
  w_since_sync : Z;
  w_last_sync_ns : Z;
  w_syncs : Z;
  w_truncated : Z;
}.

Definition wal_sync (w : Wal) : Wal :=
  if negb (w_open w) || (w_since_sync w =? 0) then w else
  mkWal (w_open w) (w_file w) (length (w_file w)) (w_cfg w) (w_seq w) 0 (w_last_sync_ns w)
    (u64 (w_syncs w + 1)) (w_truncated w).

(** On a file that holds [file]; a fresh writer, so [close()] has nothing to do. *)
Definition wal_open (file : list Z) (now_ns start_seq : Z) (cfg : WalConfig) : Wal :=
  mkWal true file 0 cfg start_seq 0 now_ns 0 0.

Definition wal_close (w : Wal) : Wal :=
  if w_open w then
    let w := wal_sync w in
    mkWal false (w_file w) (w_synced w) (w_cfg w) (w_seq w) (w_since_sync w) (w_last_sync_ns w)
      (w_syncs w) (w_truncated w)
  else w.

Definition maybe_sync (now_ns : Z) (w : Wal) : Wal :=
  if (sync_every_n (w_cfg w) <=? w_since_sync w) ||
     ((w_last_sync_ns w <? now_ns) && (sync_interval_ns (w_cfg w) <=? now_ns - w_last_sync_ns w))
  then
    let w := wal_sync w in
    mkWal (w_open w) (w_file w) (w_synced w) (w_cfg w) (w_seq w) (w_since_sync w) now_ns
      (w_syncs w) (w_truncated w)
  else w.

Definition poll_sync (now_ns : Z) (w : Wal) : Wal := maybe_sync now_ns w.

(** [write_all]: [io] is [None] when every byte is accepted, [Some n] when
    [write] fails for good after [n] bytes. *)
Definition write_all (data : list Z) (io : option nat) (file : list Z) : bool * list Z :=
  match io with
  | None => (true, file ++ data)
  | Some n => (false, file ++ take n data)
  end.

(** The sequence number is taken before the write is attempted. *)
Definition wal_append (c : OrderCommand) (now_ns : Z) (io : option nat) (w : Wal) : bool * Wal :=
  if negb (w_open w) then (false, w) else
  let seq := u64 (w_seq w + 1) in
  let '(ok, file) := write_all (wal_record seq c) io (w_file w) in
  let w := mkWal (w_open w) file (w_synced w) (w_cfg w) seq (w_since_sync w) (w_last_sync_ns w)
             (w_syncs w) (w_truncated w) in
  if negb ok then (false, w) else
  (true, maybe_sync now_ns
           (mkWal (w_open w) (w_file w) (w_synced w) (w_cfg w) (w_seq w)
              (u64 (w_since_sync w + 1)) (w_last_sync_ns w) (w_syncs w) (w_truncated w))).

(** How the rewrite went. [TruncShortRead n reopened]: [read] failed after [n]
    bytes of the log, which [read_wal] takes for its end, and the rest went
    well, up to the [open] at the end. *)
Inductive TruncateIo :=
  | TruncOk | TruncReadFails | TruncRewriteFails | TruncReopenFails
  | TruncShortRead (n : nat) (reopened : bool).

(** What reading the log back gives. *)
Definition truncate_read (io : TruncateIo) (file : list Z) : WalReadResult :=
  match io with
  | TruncReadFails => read_wal None
  | TruncShortRead n _ => read_wal (Some (take n file))
  | TruncOk | TruncRewriteFails | TruncReopenFails => read_wal (Some file)
  end.

(** The rewritten file: the records above [keep_after], the first one
    read having the number [seq]. *)
Fixpoint rewrite_records (keep_after seq : Z) (cs : list OrderCommand) : list Z * nat :=
  match cs with
  | [] => ([], 0%nat)
  | c :: cs =>
      let '(out, kept) := rewrite_records keep_after (u64 (seq + 1)) cs in
      if seq <=? keep_after then (out, kept) else (wal_record seq c ++ out, S kept)
  end.

Definition truncate_before (keep_after : Z) (io : TruncateIo) (w : Wal) : bool * Wal :=
  if negb (w_open w) then (false, w) else
  let w := wal_sync w in
  let closed (w : Wal) (file : list Z) (n : nat) :=
    mkWal false file n (w_cfg w) (w_seq w) (w_since_sync w) (w_last_sync_ns w)
      (w_syncs w) (w_truncated w) in
  let rd := truncate_read io (w_file w) in
  if wr_error rd then (false, closed w (w_file w) (w_synced w)) else
  let '(out, kept) := rewrite_records keep_after (wr_first_seq rd) (wr_commands rd) in
  match io with
  | TruncReadFails | TruncRewriteFails => (false, closed w (w_file w) (w_synced w))
  | TruncReopenFails | TruncShortRead _ false => (false, closed w out (length out))
  | TruncOk | TruncShortRead _ true =>
      (true, mkWal true out (length out) (w_cfg w) (w_seq w) (w_since_sync w) (w_last_sync_ns w)
               (w_syncs w) (u64 (w_truncated w + Z.of_nat (length (wr_commands rd) - kept))))
  end.
