(* ===== verification/WalProps.v ===== *)
(** Properties of the write-ahead log: what a reader recovers from a log that
    was cut, corrupted, truncated behind a snapshot or lost a record. *)
From stdpp Require Import base numbers list.
From Stdlib Require Import ZArith Lia.
From S2P Require Import Prelude Types Bytes Protocol Crc32 Commands Wal.

(** ** The payload codec *)

Lemma encode_command_eq c :
  encode_command [] c =
  ctype_code (c_type c) :: le_bytes 8 (c_session c) ++ le_bytes 8 (c_client_order_id c) ++
  le_bytes 8 (u64 (c_price_ticks c)) ++ le_bytes 4 (c_quantity c) ++
  [protocol.side_code (c_side c); protocol.otype_code (c_order_type c)].
Proof. unfold encode_command. puts. done. Qed.

Lemma ctype_byte t : is_u8 (ctype_code t).
Proof. by destruct t. Qed.

#[local] Hint Resolve ctype_byte protocol.side_byte protocol.otype_byte : codec.

Lemma encode_command_bytes c : bytes (encode_command [] c).
Proof. rewrite encode_command_eq. protocol.enc_bytes. Qed.

Lemma length_encode_command c : length (encode_command [] c) = 31%nat.
Proof. rewrite encode_command_eq. cbn [length]. rewrite !length_app, !length_le_bytes. done. Qed.

Lemma command_type_of_code t : command_type_of (ctype_code t) = Some t.
Proof. by destruct t. Qed.

Lemma command_type_of_some v t : command_type_of v = Some t -> ctype_code t = v.
Proof.
  unfold command_type_of. repeat case_match; intros; simplify_eq; done.
Qed.

Lemma decode_encode_command c :
  command_ok c -> decode_command (encode_command [] c) = Some (without_pointers c).
Proof.
  intros (H1 & H2 & H3 & H4). unfold decode_command. rewrite encode_command_eq.
  protocol.dec_enc. rewrite i64_u64 by done. rewrite command_type_of_code.
  destruct c as [ty ? ? ? ? [] []]; done.
Qed.

Lemma encode_decode_command bs c :
  bytes bs -> decode_command bs = Some c ->
  command_ok c /\ encode_command [] c = bs /\ without_pointers c = c.
Proof.
  intros Hb. unfold decode_command. protocol.enc_dec. protocol.end_of_buffer.
  split_bytes. destruct (command_type_of _) as [t|] eqn:Et; [|done].
  apply command_type_of_some in Et. subst.
  protocol.small_bytes. intros [= <-]. split_and!; [|..|done].
  - unfold command_ok. cbn. split_and!; by auto with codec.
  - rewrite encode_command_eq. cbn [c_type c_session c_client_order_id c_price_ticks c_quantity
      c_side c_order_type].
    rewrite protocol.side_code_of, protocol.otype_code_of by done. protocol.enc_fields. done.
Qed.

(** ** Records and whole logs *)

Lemma wal_record_eq seq c :
  wal_record seq c =
  le_bytes 4 31 ++ le_bytes 4 (crc32 (encode_command [] c)) ++ le_bytes 8 seq ++ encode_command [] c.
Proof. unfold wal_record. rewrite length_encode_command. puts. done. Qed.

Lemma length_wal_record seq c : length (wal_record seq c) = 47%nat.
Proof. rewrite wal_record_eq, !length_app, !length_le_bytes, length_encode_command. done. Qed.

Lemma wal_record_bytes seq c : bytes (wal_record seq c).
Proof.
  rewrite wal_record_eq. repeat (apply Forall_app; split; [apply le_bytes_bytes|]).
  apply encode_command_bytes.
Qed.

(** The intact log of [cs], its first record numbered [first]. *)
Fixpoint log_bytes (first : Z) (cs : list OrderCommand) : list Z :=
  match cs with
  | [] => []
  | c :: cs => wal_record first c ++ log_bytes (first + 1) cs
  end.

(** The numbers of [n] records from [first] on are 64-bit and not zero. *)
Definition numbered (first : Z) (n : nat) : Prop := 0 < first /\ first + Z.of_nat n < 2 ^ 64.

Definition intact (first : Z) (cs : list OrderCommand) : Prop :=
  numbered first (length cs) /\ Forall command_ok cs.

Lemma log_bytes_app first cs ds :
  log_bytes first (cs ++ ds) = log_bytes first cs ++ log_bytes (first + Z.of_nat (length cs)) ds.
Proof.
  revert first. induction cs as [|c cs IH]; intros first; cbn [log_bytes app length].
  { by rewrite Z.add_0_r. }
  rewrite IH, <- app_assoc. do 3 f_equal. lia.
Qed.

Lemma length_log_bytes first cs : length (log_bytes first cs) = (47 * length cs)%nat.
Proof.
  revert first. induction cs as [|c cs IH]; intros first; [done|].
  cbn [log_bytes length]. rewrite length_app, length_wal_record, IH. lia.
Qed.

Lemma log_bytes_bytes first cs : bytes (log_bytes first cs).
Proof.
  revert first. induction cs as [|c cs IH]; intros first; [constructor|].
  apply Forall_app. split; [apply wal_record_bytes|apply IH].
Qed.

(** ** One turn of the reader's loop *)

Lemma take_header seq c tl :
  take kWalHeaderSize (wal_record seq c ++ tl) =
  le_bytes 4 31 ++ le_bytes 4 (crc32 (encode_command [] c)) ++ le_bytes 8 seq.
Proof.
  rewrite wal_record_eq, !app_assoc. rewrite <- (app_assoc _ (encode_command [] c) tl).
  rewrite take_app_length'; [done|]. by rewrite !length_app, !length_le_bytes.
Qed.

Lemma drop_header seq c tl :
  drop kWalHeaderSize (wal_record seq c ++ tl) = encode_command [] c ++ tl.
Proof.
  rewrite wal_record_eq, !app_assoc. rewrite <- (app_assoc _ (encode_command [] c) tl).
  rewrite drop_app_length'; [done|]. by rewrite !length_app, !length_le_bytes.
Qed.

(** The header of a record reads back as its three fields. *)
Lemma read_header len crc seq (k : Z -> Z -> Z -> WalReadResult * list Z) :
  is_u32 len -> is_u32 crc -> is_u64 seq ->
  (let '(l, hr) := rd_u32 (reader (le_bytes 4 len ++ le_bytes 4 crc ++ le_bytes 8 seq)) in
   let '(w, hr) := rd_u32 hr in
   let '(s, _) := rd_u64 hr in k l w s) = k len crc seq.
Proof. intros Hl Hc Hs. protocol.dec_enc. done. Qed.

Definition read_next (r : WalReadResult) (seq : Z) (c : OrderCommand) : WalReadResult :=
  mkRead (wr_commands r ++ [c]) (match wr_commands r with [] => seq | _ => wr_first_seq r end) seq
    (wr_truncated_bytes r) (wr_sequence_gap r) (wr_gap_after r) (wr_error r).

Definition read_gap (r : WalReadResult) : WalReadResult :=
  mkRead (wr_commands r) (wr_first_seq r) (wr_last_seq r) (wr_truncated_bytes r)
    true (wr_last_seq r) (wr_error r).

Definition follows (r : WalReadResult) (seq : Z) : bool :=
  (wr_last_seq r =? 0) || (seq =? u64 (wr_last_seq r + 1)).

Lemma read_loop_record fuel seq c tl r :
  is_u64 seq -> command_ok c ->
  read_loop (S fuel) (wal_record seq c ++ tl) r =
  if follows r seq then read_loop fuel tl (read_next r seq (without_pointers c))
  else (read_gap r, wal_record seq c ++ tl).
Proof.
  intros Hs Hc. cbn [read_loop]. rewrite take_header.
  rewrite length_app, length_wal_record, (proj2 (Nat.ltb_ge _ _)) by (unfold kWalHeaderSize; lia).
  rewrite (read_header 31 (crc32 (encode_command [] c)) seq
    (fun len want_crc seq => _)) by (done || apply crc32_range, encode_command_bytes).
  change (kWalMaxPayload <? 31) with false. change (Z.to_nat 31) with 31%nat. cbv iota.
  rewrite (proj2 (Nat.ltb_ge _ _)) by (unfold kWalHeaderSize; lia).
  rewrite drop_header, take_app_length' by (by rewrite length_encode_command).
  rewrite Z.eqb_refl. cbn [negb]. rewrite decode_encode_command by done.
  unfold follows. rewrite <- negb_orb.
  destruct (_ || _); cbn [negb]; [|done].
  rewrite drop_app_length'; [done|]. by rewrite length_wal_record.
Qed.

(** A record cut short is not read. *)
Lemma read_loop_cut fuel seq c k r :
  (k < 47)%nat -> read_loop fuel (take k (wal_record seq c)) r = (r, take k (wal_record seq c)).
Proof.
  intros Hk. destruct fuel as [|fuel]; [done|]. cbn [read_loop].
  rewrite length_take, length_wal_record.
  destruct (Nat.ltb_spec (Nat.min k 47) kWalHeaderSize) as [|Hh]; [done|].
  rewrite take_take, Nat.min_l by lia.
  pose proof (take_header seq c []) as Ht. rewrite app_nil_r in Ht. rewrite Ht.
  assert (is_u32 (crc32 (encode_command [] c))) by apply crc32_range, encode_command_bytes.
  assert (exists s, is_u64 s /\ le_bytes 8 seq = le_bytes 8 s) as (s & Hs & ->).
  { exists (le_decode (le_bytes 8 seq)). split.
    - apply le_decode_u64; [apply le_bytes_bytes|apply length_le_bytes].
    - by rewrite le_bytes_of by (apply le_bytes_bytes || apply length_le_bytes). }
  rewrite (read_header 31 (crc32 (encode_command [] c)) s (fun len want_crc seq => _)) by done.
  change (kWalMaxPayload <? 31) with false. change (Z.to_nat 31) with 31%nat. cbv iota.
  by rewrite (proj2 (Nat.ltb_lt _ _)) by (unfold kWalHeaderSize; lia).
Qed.

(** ** Reading a whole log *)

Definition read_all (r : WalReadResult) (first : Z) (cs : list OrderCommand) : WalReadResult :=
  match cs with
  | [] => r
  | _ => mkRead (wr_commands r ++ (without_pointers <$> cs))
           (match wr_commands r with [] => first | _ => wr_first_seq r end)
           (first + Z.of_nat (length cs) - 1)
           (wr_truncated_bytes r) (wr_sequence_gap r) (wr_gap_after r) (wr_error r)
  end.

Lemma read_loop_log fuel first cs tl r :
  intact first cs -> follows r first = true ->
  read_loop (length cs + fuel) (log_bytes first cs ++ tl) r =
  read_loop fuel tl (read_all r first cs).
Proof.
  intros [Hn Hok]. revert first r Hn. induction Hok as [|c cs Hc Hok IH]; intros first r Hn Hf; [done|].
  unfold numbered in *. cbn [length log_bytes Nat.add] in *. rewrite <- app_assoc.
  rewrite read_loop_record by (done || (unfold is_u64; lia)). rewrite Hf.
  rewrite IH; [|lia|].
  - f_equal. unfold read_all, read_next. rewrite fmap_cons. destruct cs as [|c' cs].
    + cbn [length]. f_equal. lia.
    + cbn [wr_commands wr_first_seq wr_last_seq wr_truncated_bytes wr_sequence_gap wr_gap_after wr_error].
      f_equal; [by rewrite <- app_assoc| |cbn [length]; lia].
      destruct (wr_commands r); done.
  - unfold follows, read_next. cbn [wr_last_seq]. rewrite u64_id by (unfold is_u64; cbn [length] in *; lia).
    rewrite Z.eqb_refl. apply orb_true_r.
Qed.

(** The result of reading an intact log with [n] bytes of torn tail. *)
Definition clean_read (first : Z) (cs : list OrderCommand) (n : nat) : WalReadResult :=
  match cs with
  | [] => mkRead [] 0 0 n false 0 false
  | _ => mkRead (without_pointers <$> cs) first (first + Z.of_nat (length cs) - 1) n false 0 false
  end.

Lemma read_wal_log first cs tl :
  intact first cs ->
  (forall fuel r, read_loop fuel tl r = (r, tl)) ->
  read_wal (Some (log_bytes first cs ++ tl)) = clean_read first cs (length tl).
Proof.
  intros Hi Htl. unfold read_wal. rewrite length_app, length_log_bytes.
  replace (S (47 * length cs + length tl)) with (length cs + S (46 * length cs + length tl))%nat by lia.
  rewrite read_loop_log by done. rewrite Htl. by destruct cs.
Qed.

Lemma read_loop_nil fuel r : read_loop fuel [] r = (r, []).
Proof. by destruct fuel. Qed.

(** ** Appending *)

(** Calls of [append], each with its clock reading, every write complete. *)
Definition wal_appends (w : Wal) (cs : list (OrderCommand * Z)) : Wal :=
  foldl (fun w p => (wal_append p.1 p.2 None w).2) w cs.

(** The writer is open on the intact log of [cs]. *)
Definition wal_holds (w : Wal) (first : Z) (cs : list OrderCommand) : Prop :=
  w_open w = true /\ w_file w = log_bytes first cs /\
  w_seq w = first + Z.of_nat (length cs) - 1.

Lemma maybe_sync_frame now w :
  w_open (maybe_sync now w) = w_open w /\ w_file (maybe_sync now w) = w_file w /\
  w_seq (maybe_sync now w) = w_seq w /\ w_cfg (maybe_sync now w) = w_cfg w.
Proof. unfold maybe_sync, wal_sync. repeat case_match; done. Qed.

Lemma wal_append_holds c now w first cs :
  wal_holds w first cs -> numbered first (length cs) ->
  (wal_append c now None w).1 = true /\ wal_holds (wal_append c now None w).2 first (cs ++ [c]).
Proof.
  intros (Ho & Hf & Hs) Hn. unfold wal_append. rewrite Ho. cbn [negb write_all].
  unfold numbered in Hn. split; [done|]. cbn [snd]. unfold wal_holds.
  match goal with |- context [maybe_sync now ?w'] =>
    destruct (maybe_sync_frame now w') as (-> & -> & -> & _) end.
  cbn [w_open w_file w_seq]. rewrite Hs, u64_id by (unfold is_u64; lia).
  rewrite length_app. cbn [length]. split_and!; [done| |lia].
  rewrite Hf, log_bytes_app. cbn [log_bytes]. rewrite app_nil_r. do 2 f_equal. lia.
Qed.

Lemma wal_appends_holds w first cs ds :
  wal_holds w first cs -> numbered first (length cs + length ds) ->
  wal_holds (wal_appends w ds) first (cs ++ (fst <$> ds)).
Proof.
  revert w cs. induction ds as [|d ds IH]; intros w cs Hw Hn; cbn [wal_appends foldl fmap list_fmap].
  { by rewrite app_nil_r. }
  unfold numbered in *. cbn [length] in Hn.
  destruct (wal_append_holds d.1 d.2 w first cs Hw) as [_ Hw']; [unfold numbered; lia|].
  replace (cs ++ d.1 :: (fst <$> ds)) with ((cs ++ [d.1]) ++ (fst <$> ds)) by by rewrite <- app_assoc.
  apply IH; [done|]. rewrite length_app. cbn [length]. lia.
Qed.

(** Unsynced bytes are the records since the last sync, fewer than
    [sync_every_n] of them. *)
Definition group_commit (w : Wal) : Prop :=
  length (w_file w) = (w_synced w + 47 * Z.to_nat (w_since_sync w))%nat /\
  0 <= w_since_sync w < Z.max 1 (sync_every_n (w_cfg w)).

Lemma wal_append_group c now w :
  w_open w = true -> sync_every_n (w_cfg w) < 2 ^ 64 -> group_commit w ->
  group_commit (wal_append c now None w).2 /\ w_cfg (wal_append c now None w).2 = w_cfg w.
Proof.
  intros Ho Hbig [Hl Hs]. unfold wal_append. rewrite Ho. cbn [negb write_all snd].
  unfold maybe_sync, wal_sync, group_commit. cbn [w_open w_file w_synced w_cfg w_since_sync w_last_sync_ns].
  rewrite (u64_id (w_since_sync w + 1)) by (unfold is_u64; lia).
  cbn [negb orb].
  destruct (Z.leb_spec (sync_every_n (w_cfg w)) (w_since_sync w + 1)); cbn [orb].
  - rewrite (proj2 (Z.eqb_neq _ _)) by lia. cbn. split; [|done]. split; [lia|lia].
  - destruct (_ && _).
    + rewrite (proj2 (Z.eqb_neq _ _)) by lia. cbn. split; [|done]. split; [lia|lia].
    + cbn [w_file w_synced w_since_sync w_cfg]. rewrite length_app, length_wal_record.
      split; [|done]. split; [|lia]. rewrite Z2Nat.inj_add by lia. change (Z.to_nat 1) with 1%nat. lia.
Qed.

Lemma wal_appends_group w ds :
  w_open w = true -> sync_every_n (w_cfg w) < 2 ^ 64 -> group_commit w ->
  group_commit (wal_appends w ds) /\ w_cfg (wal_appends w ds) = w_cfg w.
Proof.
  revert w. induction ds as [|d ds IH]; intros w Ho Hbig Hg; [done|].
  destruct (wal_append_group d.1 d.2 w Ho Hbig Hg) as [Hg' Hc'].
  cbn [wal_appends foldl]. rewrite <- Hc'. apply IH; [|by rewrite Hc'|done].
  unfold wal_append. rewrite Ho. cbn [negb write_all snd].
  match goal with |- context [maybe_sync ?n ?w'] =>
    destruct (maybe_sync_frame n w') as (-> & _) end. done.
Qed.

(** A log cut after [k] bytes. *)
Lemma take_log_bytes first cs k :
  (k <= 47 * length cs)%nat ->
  exists tl, take k (log_bytes first cs) = log_bytes first (take (k / 47) cs) ++ tl /\
    length tl = (k mod 47)%nat /\ (forall fuel r, read_loop fuel tl r = (r, tl)).
Proof.
  intros Hk. pose proof (Nat.div_mod_eq k 47) as Hd. pose proof (Nat.mod_upper_bound k 47 ltac:(done)) as Hm.
  set (j := (k / 47)%nat) in *. set (m := (k mod 47)%nat) in *.
  assert (length (take j cs) = j) as Hj by (rewrite length_take; lia).
  assert (log_bytes first cs = log_bytes first (take j cs) ++ log_bytes (first + Z.of_nat j) (drop j cs))
    as -> by (rewrite <- Hj at 2; by rewrite <- log_bytes_app, take_drop).
  rewrite take_app, length_log_bytes, Hj. rewrite take_ge by (rewrite length_log_bytes; lia).
  replace (k - 47 * j)%nat with m by lia.
  destruct (drop j cs) as [|c ds] eqn:Ed.
  - exists []. assert (m = 0%nat) as ->.
    { apply (f_equal length) in Ed. rewrite length_drop in Ed. simpl in Ed. lia. }
    split_and!; [done|done|apply read_loop_nil].
  - cbn [log_bytes]. rewrite take_app_le by (rewrite length_wal_record; lia).
    eexists. split; [done|]. split; [rewrite length_take, length_wal_record; lia|].
    intros. by apply read_loop_cut.
Qed.

Lemma intact_take first cs n : intact first cs -> intact first (take n cs).
Proof.
  intros [Hn Hok]. split; [|by apply Forall_take]. unfold numbered in *. rewrite length_take. lia.
Qed.

Lemma read_cut_log first cs k :
  intact first cs -> (k <= 47 * length cs)%nat ->
  read_wal (Some (take k (log_bytes first cs))) = clean_read first (take (k / 47) cs) (k mod 47).
Proof.
  intros Hi Hk. destruct (take_log_bytes first cs k Hk) as (tl & -> & <- & Htl).
  apply read_wal_log; [by apply intact_take|done].
Qed.

Lemma read_intact_log first cs :
  intact first cs -> read_wal (Some (log_bytes first cs)) = clean_read first cs 0.
Proof.
  intros Hi. rewrite <- (app_nil_r (log_bytes first cs)).
  rewrite (read_wal_log first cs []); [done|done|]. intros. apply read_loop_nil.
Qed.

(** ** Truncation *)

Lemma rewrite_records_spec keep seq cs :
  intact seq cs ->
  rewrite_records keep seq (without_pointers <$> cs) =
  (let n := Nat.min (Z.to_nat (keep + 1 - seq)) (length cs) in
   (log_bytes (seq + Z.of_nat n) (drop n cs), length cs - n)%nat).
Proof.
  intros [Hn Hok]. revert seq Hn. induction Hok as [|c cs Hc Hok IH]; intros seq Hn.
  { cbn [fmap list_fmap rewrite_records length]. by rewrite Nat.min_0_r. }
  unfold numbered in *. cbn [length] in Hn. cbn [fmap list_fmap rewrite_records].
  rewrite u64_id by (unfold is_u64; lia). rewrite IH by lia. cbv zeta. cbn [length].
  destruct (Z.leb_spec seq keep).
  - replace (Z.to_nat (keep + 1 - seq)) with (S (Z.to_nat (keep + 1 - (seq + 1)))) by lia.
    cbn [Nat.min]. rewrite skipn_cons. f_equal. f_equal. lia.
  - replace (Z.to_nat (keep + 1 - seq)) with 0%nat by lia.
    replace (Z.to_nat (keep + 1 - (seq + 1))) with 0%nat by lia. cbn [Nat.min drop log_bytes].
    rewrite !Z.add_0_r, !Nat.sub_0_r. f_equal.
Qed.

(** ** Claims *)

Definition cmd1 : OrderCommand := new_order 1 (protocol.mkNewOrder 7 100 5 protocol.Bid protocol.Limit).
Definition cmd2 : OrderCommand := cancel 1 7.
Definition cmd3 : OrderCommand := cancel_all 2.

Ltac intact_tac :=
  split; [unfold numbered; simpl; lia|repeat constructor; vm_compute; done].

(** C21: [wal_crash_recovery]. Cut an intact log anywhere, at any byte: the
    reader recovers exactly the commands whose records are complete, in order
    and with their numbers, reports the rest as a torn tail and never reports a
    gap. So a crash in the middle of a write costs only the record being
    written. *)
Theorem wal_crash_recovery (first : Z) (cs : list OrderCommand) (k : nat) :
  intact first cs -> (k <= 47 * length cs)%nat ->
  read_wal (Some (take k (log_bytes first cs))) = clean_read first (take (k / 47) cs) (k mod 47).
Proof. apply read_cut_log. Qed.

Lemma wal_crash_recovery_witness :
  read_wal (Some (take 100 (log_bytes 5 [cmd1; cmd2; cmd3]))) = clean_read 5 [cmd1; cmd2] 6.
Proof. apply (wal_crash_recovery 5 [cmd1; cmd2; cmd3] 100); [intact_tac|simpl; lia]. Defined.

(** [wal_append_then_read]. A writer that continues an intact log (a new
    one, or one already truncated behind a snapshot) accepts every command, and
    reading the file back gives the old commands followed by the new ones, less
    their queue pointers, numbered without a gap. *)
Theorem wal_append_then_read (w : Wal) (first : Z) (cs : list OrderCommand)
    (ds : list (OrderCommand * Z)) :
  wal_holds w first cs -> intact first (cs ++ (fst <$> ds)) ->
  wal_holds (wal_appends w ds) first (cs ++ (fst <$> ds)) /\
  read_wal (Some (w_file (wal_appends w ds))) = clean_read first (cs ++ (fst <$> ds)) 0.
Proof.
  intros Hw Hi. assert (wal_holds (wal_appends w ds) first (cs ++ (fst <$> ds))) as Hh.
  { apply wal_appends_holds; [done|]. destruct Hi as [Hn _].
    by rewrite length_app, length_fmap in Hn. }
  split; [done|]. destruct Hh as (_ & -> & _). by apply read_intact_log.
Qed.

Lemma wal_append_then_read_witness :
  read_wal (Some (w_file (wal_appends (wal_open (log_bytes 4 [cmd1]) 0 4 wal_config0)
                            [(cmd2, 10); (cmd3, 20)]))) = clean_read 4 [cmd1; cmd2; cmd3] 0.
Proof.
  apply (wal_append_then_read (wal_open (log_bytes 4 [cmd1]) 0 4 wal_config0) 4 [cmd1]
    [(cmd2, 10); (cmd3, 20)]); [done|intact_tac].
Defined.

(** C31: [wal_detects_corruption]. A record whose payload was altered within
    32 consecutive bits is not replayed: reading stops in front of it, with
    every earlier command recovered and everything from it on counted as torn. *)
Theorem wal_detects_corruption (first : Z) (cs : list OrderCommand) (c : OrderCommand)
    (payload tl : list Z) (k w : Z) :
  intact first (cs ++ [c]) -> bytes payload -> length payload = 31%nat ->
  0 <= k -> 0 < w < 2 ^ 32 ->
  Z.lxor (le_decode (encode_command [] c)) (le_decode payload) = Z.shiftl w k ->
  let bad := take 16 (wal_record (first + Z.of_nat (length cs)) c) ++ payload ++ tl in
  read_wal (Some (log_bytes first cs ++ bad)) = clean_read first cs (length bad).
Proof.
  intros [Hn Hok] Hb Hl Hk Hw Hx bad. unfold numbered in Hn. rewrite length_app in Hn. simpl in Hn.
  apply Forall_app in Hok as [Hcs Hc].
  apply read_wal_log; [split; [unfold numbered; lia|done]|]. intros fuel r.
  destruct fuel as [|fuel]; [done|]. subst bad.
  pose proof (take_header (first + Z.of_nat (length cs)) c []) as Ht.
  rewrite app_nil_r in Ht. change kWalHeaderSize with 16%nat in Ht. rewrite Ht. clear Ht.
  set (h := _ ++ _ ++ le_bytes 8 _). assert (length h = kWalHeaderSize) as Hh.
  { unfold h. by rewrite !length_app, !length_le_bytes. }
  cbn [read_loop]. rewrite !length_app, Hh, Hl. rewrite (proj2 (Nat.ltb_ge _ _)) by lia.
  rewrite take_app_length' by done. rewrite drop_app_length' by done. unfold h.
  rewrite (read_header 31 (crc32 (encode_command [] c)) _ (fun len want_crc seq => _))
    by (done || (apply crc32_range, encode_command_bytes) || (unfold is_u64; lia)).
  change (kWalMaxPayload <? 31) with false. change (Z.to_nat 31) with 31%nat. cbv iota.
  rewrite (proj2 (Nat.ltb_ge _ _)) by (unfold kWalHeaderSize; lia).
  rewrite take_app_length' by done.
  rewrite (proj2 (Z.eqb_neq _ _)); [done|].
  intros He. symmetry in He. revert He.
  apply (crc32_burst _ _ k w); [apply encode_command_bytes|done| |done..].
  by rewrite length_encode_command.
Qed.

(** The low byte of the price of [cmd1] rewritten. *)
Lemma wal_detects_corruption_witness :
  wr_commands (read_wal (Some (log_bytes 1 [cmd2] ++
    (take 16 (wal_record 2 cmd1) ++ <[17%nat := 255]> (encode_command [] cmd1) ++ [1; 2; 3]))))
  = [cmd2].
Proof.
  refine (eq_trans (f_equal wr_commands (wal_detects_corruption 1 [cmd2] cmd1
    (<[17%nat := 255]> (encode_command [] cmd1)) [1; 2; 3] 136 155 _ _ _ _ _ _)) eq_refl).
  - intact_tac.
  - unfold bytes. vm_decide.
  - reflexivity.
  - lia.
  - lia.
  - vm_compute. reflexivity.
Defined.

(** [wal_detects_gap]. When a record in the middle of a log is missing (the
    numbers jump), the reader stops there, says so, and names the last number
    before the hole. *)
Theorem wal_detects_gap (first next : Z) (cs ds : list OrderCommand) :
  intact first cs -> intact next ds -> cs <> [] -> ds <> [] ->
  next <> first + Z.of_nat (length cs) ->
  let r := read_wal (Some (log_bytes first cs ++ log_bytes next ds)) in
  wr_sequence_gap r = true /\ wr_gap_after r = first + Z.of_nat (length cs) - 1 /\
  wr_commands r = without_pointers <$> cs.
Proof.
  intros Hc [Hn Hd] Hcs Hds Hne r. subst r. destruct ds as [|d ds]; [done|].
  apply Forall_cons in Hd as [Hd _]. unfold read_wal. cbn [log_bytes].
  rewrite !length_app, length_log_bytes, length_wal_record.
  replace (S (47 * length cs + (47 + length (log_bytes (next + 1) ds))))
    with (length cs + S (46 * length cs + 47 + length (log_bytes (next + 1) ds)))%nat by lia.
  rewrite read_loop_log by done.
  rewrite read_loop_record; [|unfold numbered in Hn; unfold is_u64; simpl in Hn; lia|done].
  pose proof Hc as [Hnc _]. unfold numbered in Hnc.
  assert (follows (read_all wal_read0 first cs) next = false) as ->.
  { unfold follows, read_all. destruct cs as [|c cs]; [done|]. cbn [wr_last_seq].
    cbn [length] in *. rewrite u64_id by (unfold is_u64; lia).
    rewrite (proj2 (Z.eqb_neq _ _)), (proj2 (Z.eqb_neq _ _)) by lia. done. }
  cbn. destruct cs as [|c cs]; [done|]. cbn [read_all wr_commands wr_last_seq wal_read0]. done.
Qed.

Lemma wal_detects_gap_witness :
  wr_gap_after (read_wal (Some (log_bytes 1 [cmd1; cmd2] ++ log_bytes 4 [cmd3]))) = 2.
Proof.
  apply (wal_detects_gap 1 4 [cmd1; cmd2] [cmd3]); [intact_tac|intact_tac|done|done|simpl; lia].
Defined.

(** What truncation does to a log, whichever way it goes. *)
Lemma truncate_holds (w : Wal) (first keep : Z) (cs : list OrderCommand) :
  wal_holds w first cs -> intact first cs -> cs <> [] ->
  let n := Nat.min (Z.to_nat (keep + 1 - first)) (length cs) in
  (truncate_before keep TruncOk w).1 = true /\
  wal_holds (truncate_before keep TruncOk w).2 (first + Z.of_nat n) (drop n cs) /\
  (forall io, io = TruncReadFails \/ io = TruncRewriteFails ->
     (truncate_before keep io w).1 = false /\
     w_file (truncate_before keep io w).2 = w_file w /\
     forall c now wr, (wal_append c now wr (truncate_before keep io w).2).1 = false).
Proof.
  intros (Ho & Hf & Hs) Hi Hne n.
  assert (w_open (wal_sync w) = true /\ w_file (wal_sync w) = w_file w /\ w_seq (wal_sync w) = w_seq w)
    as (Ho' & Hf' & Hs').
  { unfold wal_sync. destruct (_ || _); done. }
  assert (read_wal (Some (w_file (wal_sync w))) = clean_read first cs 0) as Hr.
  { rewrite Hf', Hf. by apply read_intact_log. }
  assert (wr_error (clean_read first cs 0) = false /\ wr_first_seq (clean_read first cs 0) = first /\
    wr_commands (clean_read first cs 0) = without_pointers <$> cs) as (He & H1 & Hcs).
  { by destruct cs. }
  assert (rewrite_records keep first (without_pointers <$> cs) =
    (log_bytes (first + Z.of_nat n) (drop n cs), length cs - n)%nat) as Hrw.
  { by apply rewrite_records_spec. }
  split_and!.
  1,2: unfold truncate_before, truncate_read; rewrite Ho, Hr; cbn [negb]; rewrite He, H1, Hcs, Hrw; cbn [fst snd].
  - done.
  - unfold wal_holds. cbn [w_open w_file w_seq]. split_and!; [done|done|].
    rewrite Hs', Hs, length_drop. lia.
  - intros io [-> | ->]; unfold truncate_before, truncate_read; rewrite Ho; cbn [negb].
    + cbn. by rewrite Hf'.
    + rewrite Hr, He, H1, Hcs, Hrw. cbn. by rewrite Hf'.
Qed.

Definition whole_read (io : TruncateIo) : bool :=
  match io with TruncShortRead _ _ => false | _ => true end.

(** However truncation goes, unless a failed read is taken for the end of the
    log, the file is the old one or the shortened one. *)
Lemma truncate_file w first keep cs io :
  whole_read io = true -> wal_holds w first cs -> intact first cs -> cs <> [] ->
  let n := Nat.min (Z.to_nat (keep + 1 - first)) (length cs) in
  w_file (truncate_before keep io w).2 = log_bytes first cs \/
  w_file (truncate_before keep io w).2 = log_bytes (first + Z.of_nat n) (drop n cs).
Proof.
  intros Hio Hh Hi Hne n. pose proof Hh as (Ho & Hf & _).
  destruct (truncate_holds w first keep cs Hh Hi Hne) as (_ & (_ & Hok & _) & Hfail). fold n in Hok.
  destruct io; [by right|left..|right|done].
  1,2: destruct (Hfail TruncReadFails) as (_ & H1 & _); [by left|];
    destruct (Hfail TruncRewriteFails) as (_ & H2 & _); [by right|]; congruence.
  rewrite <- Hok. unfold truncate_before. rewrite Ho. cbn [negb]. destruct (wr_error _).
  - done.
  - by destruct (rewrite_records _ _ _).
Qed.

(** [wal_truncate_preserves]. Truncating an open log behind a snapshot at
    [keep] drops exactly the records numbered [keep] and below and keeps the
    others with their numbers, so the writer goes on with the next number and
    repeated truncations compose. If the rewrite fails the old file is intact,
    but the writer is left closed and refuses every later command. *)
Theorem wal_truncate_preserves (w : Wal) (first keep : Z) (cs : list OrderCommand) :
  wal_holds w first cs -> intact first cs -> cs <> [] ->
  let n := Nat.min (Z.to_nat (keep + 1 - first)) (length cs) in
  (truncate_before keep TruncOk w).1 = true /\
  wal_holds (truncate_before keep TruncOk w).2 (first + Z.of_nat n) (drop n cs) /\
  (forall io, io = TruncReadFails \/ io = TruncRewriteFails ->
     (truncate_before keep io w).1 = false /\
     w_file (truncate_before keep io w).2 = w_file w /\
     forall c now wr, (wal_append c now wr (truncate_before keep io w).2).1 = false).
Proof. apply truncate_holds. Qed.

Lemma wal_truncate_preserves_witness :
  wal_holds (truncate_before 5 TruncOk (wal_open (log_bytes 4 [cmd1; cmd2; cmd3]) 0 6 wal_config0)).2
    6 [cmd3].
Proof.
  destruct (wal_truncate_preserves (wal_open (log_bytes 4 [cmd1; cmd2; cmd3]) 0 6 wal_config0) 4 5
    [cmd1; cmd2; cmd3]) as (_ & H & _); [done|intact_tac|done|].
  match type of H with wal_holds _ ?f ?d =>
    change f with 6 in H; change d with [cmd3] in H end.
  exact H.
Defined.

(** [wal_group_commit_bound]. The loss window of group commit: after any
    number of commands appended to a new log, whatever a machine failure keeps
    of the file beyond the bytes already synced, reading it back recovers all
    but fewer than [sync_every_n] of the commands, as a prefix. *)
Theorem wal_group_commit_bound (cfg : WalConfig) (now : Z) (ds : list (OrderCommand * Z)) (k : nat) :
  0 < sync_every_n cfg < 2 ^ 64 -> intact 1 (fst <$> ds) ->
  let w := wal_appends (wal_open [] now 0 cfg) ds in
  (w_synced w <= k <= length (w_file w))%nat ->
  exists kept lost, fst <$> ds = kept ++ lost /\ Z.of_nat (length lost) < sync_every_n cfg /\
    read_wal (Some (take k (w_file w))) = clean_read 1 kept (k mod 47).
Proof.
  intros Hcfg Hi w Hk. assert (wal_holds w 1 (fst <$> ds)) as (_ & Hf & _).
  { apply (wal_appends_holds _ 1 []); [done|]. destruct Hi as [Hn _].
    by rewrite length_fmap in Hn. }
  destruct (wal_appends_group (wal_open [] now 0 cfg) ds) as [[Hl Hs] Hc];
    [done|simpl; lia|unfold group_commit; simpl; lia|].
  fold w in Hl, Hs, Hc. rewrite Hc in Hs. cbn [w_cfg wal_open] in Hs.
  exists (take (k / 47) (fst <$> ds)), (drop (k / 47) (fst <$> ds)). rewrite take_drop.
  rewrite Hf in Hl, Hk |- *. rewrite length_log_bytes in Hl, Hk.
  split; [done|]. split; [|apply read_cut_log; [done|lia]].
  rewrite length_drop. pose proof (Nat.div_mod_eq k 47). pose proof (Nat.mod_upper_bound k 47 ltac:(done)).
  nia.
Qed.

Lemma wal_group_commit_bound_witness :
  exists kept lost, [cmd1; cmd2; cmd3] = kept ++ lost /\ Z.of_nat (length lost) < 2 /\
    read_wal (Some (take 95 (w_file (wal_appends (wal_open [] 0 0 (mkWalConfig 1000 2 true))
      [(cmd1, 1); (cmd2, 2); (cmd3, 3)])))) = clean_read 1 kept (95 mod 47).
Proof.
  apply (wal_group_commit_bound (mkWalConfig 1000 2 true) 0 [(cmd1, 1); (cmd2, 2); (cmd3, 3)] 95);
    [simpl; lia|intact_tac|vm_compute; lia].
Defined.

(** What a restart does with a log: read it, report the torn tail, and open the
    same file for append, numbering from the last record read. *)
Definition reopen (file : list Z) (now : Z) (cfg : WalConfig) : Wal :=
  wal_open file now (wr_last_seq (read_wal (Some file))) cfg.

(** A log of one record with [k] bytes of a second one, reopened, and one
    command appended to it. *)
Definition append_after_tear (k : nat) : bool * Wal :=
  wal_append cmd3 10 None (reopen (log_bytes 1 [cmd1] ++ take k (wal_record 2 cmd2)) 0 wal_config0).

(** [torn_tail_hides_appends]. Opening for append does not remove the torn
    tail: after a crash that tears a record at any of its 46 inner bytes, the
    restarted writer accepts a command, and the next recovery does not find it.
    The command was acknowledged and is lost, silently: no gap is reported. *)
Theorem torn_tail_hides_appends :
  Forall (fun k : nat =>
    (append_after_tear k).1 = true /\
    wr_commands (read_wal (Some (w_file (append_after_tear k).2))) = [cmd1] /\
    wr_sequence_gap (read_wal (Some (w_file (append_after_tear k).2))) = false)
  (seq 1 46).
Proof. vm_decide. Qed.
