(* ===== verification/Snapshot.v ===== *)
(** Book snapshots (include/ome/snapshot.hpp): the file image [write_snapshot]
    builds and installs by temp file and rename, and [read_snapshot], which
    fills its output argument as it goes, also when it ends up refusing the
    file. *)
From stdpp Require Import base numbers list.
From Stdlib Require Import ZArith Lia.
From S2P Require Import Prelude Types Bytes Protocol Crc32.

Definition kSnapshotMagic : Z := 0x53454D4F.
Definition kSnapshotVersion : Z := 1.
Definition kSnapshotHeaderSize : nat := 44.
Definition kOrderSize : nat := 45.

Record SnapshotOrder := mkSnapOrder {
  so_exchange_id : Z;
  so_session : Z;
  so_client_order_id : Z;
  so_price_ticks : Z;
  so_quantity : Z;
  so_side : Z;
  so_timestamp : Z;
}.

Record SnapshotData := mkSnapshot {
  sd_last_seq : Z;
  sd_last_trade_ticks : Z;
  sd_next_exchange_id : Z;
  sd_orders : list SnapshotOrder;
}.

Definition snapshot0 : SnapshotData := mkSnapshot 0 0 1 [].

#[export] Instance SnapshotOrder_eq_dec : EqDecision SnapshotOrder.
Proof. solve_decision. Defined.
#[export] Instance SnapshotData_eq_dec : EqDecision SnapshotData.
Proof. solve_decision. Defined.

(** ** Writing *)

Definition put_snapshot_order (body : list Z) (o : SnapshotOrder) : list Z :=
  let body := put_u64 body (so_exchange_id o) in
  let body := put_u64 body (so_session o) in
  let body := put_u64 body (so_client_order_id o) in
  let body := put_i64 body (so_price_ticks o) in
  let body := put_u32 body (so_quantity o) in
  let body := put_u8 body (so_side o) in
  put_u64 body (so_timestamp o).

Definition snapshot_bytes (d : SnapshotData) : list Z :=
  let body := foldl put_snapshot_order [] (sd_orders d) in
  let out := put_u32 [] kSnapshotMagic in
  let out := put_u32 out kSnapshotVersion in
  let out := put_u64 out (sd_last_seq d) in
  let out := put_u64 out (u64 (Z.of_nat (length (sd_orders d)))) in
  let out := put_i64 out (sd_last_trade_ticks d) in
  let out := put_u64 out (sd_next_exchange_id d) in
  let out := put_u32 out (crc32 body) in
  out ++ body.

(** [io_ok]: every system call succeeded. Otherwise the temp file is removed,
    and the target is what it was: [rename] is atomic. *)
Definition write_snapshot (io_ok : bool) (d : SnapshotData) (target : option (list Z))
    : bool * option (list Z) :=
  if io_ok then (true, Some (snapshot_bytes d)) else (false, target).

(** ** Reading *)

Inductive SnapError :=
  | SnapCannotOpen | SnapTooShort | SnapNotASnapshot | SnapBadVersion | SnapHeaderMalformed
  | SnapCountTooLarge | SnapChecksum | SnapOrderMalformed.

#[export] Instance SnapError_eq_dec : EqDecision SnapError.
Proof. solve_decision. Defined.

Fixpoint read_snapshot_orders (count : nat) (br : Reader) (orders : list SnapshotOrder)
    : option SnapError * list SnapshotOrder :=
  match count with
  | O => (None, orders)
  | S count =>
      let '(xid, br) := rd_u64 br in
      let '(session, br) := rd_u64 br in
      let '(coid, br) := rd_u64 br in
      let '(price, br) := rd_i64 br in
      let '(qty, br) := rd_u32 br in
      let '(side, br) := rd_u8 br in
      let '(ts, br) := rd_u64 br in
      if negb (ok_ br) || (1 <? side) then (Some SnapOrderMalformed, orders)
      else read_snapshot_orders count br (orders ++ [mkSnapOrder xid session coid price qty side ts])
  end.

(** [None] first is the [true] of the source; the second component is the
    output argument, [out] being its value before the call. *)
Definition read_snapshot (file : option (list Z)) (out : SnapshotData)
    : option SnapError * SnapshotData :=
  match file with
  | None => (Some SnapCannotOpen, out)
  | Some buf =>
      if (length buf <? kSnapshotHeaderSize)%nat then (Some SnapTooShort, out) else
      let r := reader (take kSnapshotHeaderSize buf) in
      let '(magic, r) := rd_u32 r in
      if negb (magic =? kSnapshotMagic) then (Some SnapNotASnapshot, out) else
      let '(version, r) := rd_u32 r in
      if negb (version =? kSnapshotVersion) then (Some SnapBadVersion, out) else
      let '(last_seq, r) := rd_u64 r in
      let '(count, r) := rd_u64 r in
      let '(last_trade, r) := rd_i64 r in
      let '(next_id, r) := rd_u64 r in
      let '(want_crc, r) := rd_u32 r in
      let out := mkSnapshot last_seq last_trade next_id (sd_orders out) in
      if negb (ok_ r) then (Some SnapHeaderMalformed, out) else
      let body := drop kSnapshotHeaderSize buf in
      if Z.of_nat (length body / kOrderSize) <? count then (Some SnapCountTooLarge, out) else
      if negb (crc32 body =? want_crc) then (Some SnapChecksum, out) else
      let '(err, orders) := read_snapshot_orders (Z.to_nat count) (reader body) [] in
      (err, mkSnapshot last_seq last_trade next_id orders)
  end.

(** ** The format *)

Definition snap_order_ok (o : SnapshotOrder) : Prop :=
  is_u64 (so_exchange_id o) /\ is_u64 (so_session o) /\ is_u64 (so_client_order_id o) /\
  is_i64 (so_price_ticks o) /\ is_u32 (so_quantity o) /\ 0 <= so_side o <= 1 /\
  is_u64 (so_timestamp o).

Definition snapshot_ok (d : SnapshotData) : Prop :=
  is_u64 (sd_last_seq d) /\ is_i64 (sd_last_trade_ticks d) /\ is_u64 (sd_next_exchange_id d) /\
  Z.of_nat (length (sd_orders d)) < 2 ^ 64 /\ Forall snap_order_ok (sd_orders d).

#[export] Instance snap_order_ok_dec o : Decision (snap_order_ok o).
Proof. unfold snap_order_ok. apply _. Defined.
#[export] Instance snapshot_ok_dec d : Decision (snapshot_ok d).
Proof. unfold snapshot_ok. apply _. Defined.

Definition snap_order_bytes (o : SnapshotOrder) : list Z :=
  le_bytes 8 (so_exchange_id o) ++ le_bytes 8 (so_session o) ++ le_bytes 8 (so_client_order_id o) ++
  le_bytes 8 (u64 (so_price_ticks o)) ++ le_bytes 4 (so_quantity o) ++
  so_side o :: le_bytes 8 (so_timestamp o).

Definition snap_body (os : list SnapshotOrder) : list Z := os ≫= snap_order_bytes.

Definition snap_header (last_seq count last_trade next_id crc : Z) : list Z :=
  le_bytes 4 kSnapshotMagic ++ le_bytes 4 kSnapshotVersion ++ le_bytes 8 last_seq ++
  le_bytes 8 count ++ le_bytes 8 (u64 last_trade) ++ le_bytes 8 next_id ++ le_bytes 4 crc.

Lemma put_snapshot_orders_eq os body : foldl put_snapshot_order body os = body ++ snap_body os.
Proof.
  revert body. induction os as [|o os IH]; intros body; [by rewrite app_nil_r|].
  cbn [foldl]. rewrite IH. unfold snap_body. rewrite bind_cons. unfold put_snapshot_order, snap_order_bytes.
  puts. rewrite <- ?app_assoc. done.
Qed.

Lemma snapshot_bytes_eq d :
  snapshot_bytes d =
  snap_header (sd_last_seq d) (u64 (Z.of_nat (length (sd_orders d)))) (sd_last_trade_ticks d)
    (sd_next_exchange_id d) (crc32 (snap_body (sd_orders d))) ++ snap_body (sd_orders d).
Proof.
  unfold snapshot_bytes, snap_header. rewrite put_snapshot_orders_eq. puts.
  rewrite <- ?app_assoc. done.
Qed.

Lemma length_snap_header a b c d e : length (snap_header a b c d e) = kSnapshotHeaderSize.
Proof. unfold snap_header. by rewrite !length_app, !length_le_bytes. Qed.

Lemma length_snap_order o : length (snap_order_bytes o) = kOrderSize.
Proof. unfold snap_order_bytes. rewrite !length_app. cbn [length]. by rewrite !length_le_bytes. Qed.

Lemma length_snap_body os : length (snap_body os) = (kOrderSize * length os)%nat.
Proof.
  induction os as [|o os IH]; [done|]. unfold snap_body in *.
  rewrite bind_cons, length_app, length_snap_order, IH. cbn [length]. lia.
Qed.

Lemma snap_body_bytes os : Forall snap_order_ok os -> bytes (snap_body os).
Proof.
  induction 1 as [|o os Ho Hos IH]; [constructor|]. unfold snap_body. rewrite bind_cons.
  apply Forall_app. split; [|done]. unfold snap_order_bytes.
  repeat (apply Forall_app; split; [apply le_bytes_bytes|]).
  apply Forall_cons. split; [|apply le_bytes_bytes].
  destruct Ho as (_ & _ & _ & _ & _ & Hs & _). unfold is_u8. lia.
Qed.

Lemma read_snapshot_orders_ok os br acc tl :
  Forall snap_order_ok os -> at_suffix br (Some (snap_body os ++ tl)) ->
  read_snapshot_orders (length os) br acc = (None, acc ++ os).
Proof.
  intros Hos. revert br acc. induction Hos as [|o os Ho Hos IH]; intros br acc Hbr.
  { by rewrite app_nil_r. }
  destruct Ho as (H1 & H2 & H3 & H4 & H5 & H6 & H7).
  unfold snap_body in Hbr. rewrite bind_cons in Hbr. unfold snap_order_bytes in Hbr.
  rewrite <- !app_assoc in Hbr. cbn [length read_snapshot_orders].
  rewrite <- ?app_comm_cons, <- ?app_assoc in Hbr.
  repeat (rd_step; protocol.sread_eval; cbn [fst snd] in * ).
  rewrite (proj2 (Z.ltb_ge _ _)) by lia. cbn [negb orb]. rewrite i64_u64 by done.
  erewrite IH by done. rewrite <- app_assoc. by destruct o.
Qed.

(** What reading does once the header is known to be well formed. *)
Lemma read_snapshot_header last_seq count last_trade next_id crc body out :
  is_u64 last_seq -> is_u64 count -> is_i64 last_trade -> is_u64 next_id -> is_u32 crc ->
  read_snapshot (Some (snap_header last_seq count last_trade next_id crc ++ body)) out =
  let out := mkSnapshot last_seq last_trade next_id (sd_orders out) in
  if Z.of_nat (length body / kOrderSize) <? count then (Some SnapCountTooLarge, out) else
  if negb (crc32 body =? crc) then (Some SnapChecksum, out) else
  let '(err, orders) := read_snapshot_orders (Z.to_nat count) (reader body) [] in
  (err, mkSnapshot last_seq last_trade next_id orders).
Proof.
  intros H1 H2 H3 H4 H5. unfold read_snapshot. rewrite length_app, length_snap_header.
  rewrite (proj2 (Nat.ltb_ge _ _)) by lia.
  rewrite take_app_length', drop_app_length' by (by rewrite length_snap_header).
  unfold snap_header.
  assert (is_u32 kSnapshotMagic) as Hm by done. assert (is_u32 kSnapshotVersion) as Hv by done.
  match goal with |- context [reader (?a ++ ?b)] => assert (bytes (a ++ b)) as Hb end.
  { repeat (apply Forall_app; split; [apply le_bytes_bytes|]). apply le_bytes_bytes. }
  pose proof (at_suffix_init _ Hb). clear Hb. rd_step. protocol.sread_eval. cbn [fst snd] in *.
  rewrite Z.eqb_refl. cbn [negb]. rd_step. protocol.sread_eval. cbn [fst snd] in *.
  rewrite Z.eqb_refl. cbn [negb].
  repeat (rd_step; protocol.sread_eval; cbn [fst snd] in * ). cbn [negb].
  by rewrite i64_u64 by done.
Qed.

Lemma read_written d out :
  snapshot_ok d ->
  read_snapshot (Some (snapshot_bytes d)) out = (None, d).
Proof.
  intros (H1 & H2 & H3 & H4 & H5). rewrite snapshot_bytes_eq.
  rewrite (u64_id (Z.of_nat _)) by (unfold is_u64; lia).
  rewrite read_snapshot_header; [|done|unfold is_u64; lia|done|done|by apply crc32_range, snap_body_bytes].
  rewrite length_snap_body, Nat.mul_comm, Nat.div_mul by done.
  cbv zeta. rewrite Z.ltb_irrefl, Z.eqb_refl. cbn [negb]. rewrite Nat2Z.id.
  rewrite (read_snapshot_orders_ok _ _ [] []); [by destruct d|done|].
  rewrite app_nil_r. by apply at_suffix_init, snap_body_bytes.
Qed.

(** ** Claims *)

(** C32: [snapshot_roundtrip]. A snapshot that was written whole reads back as
    the data it was written from, whatever the output argument held before. *)
Theorem snapshot_roundtrip (d out : SnapshotData) (old : option (list Z)) :
  snapshot_ok d ->
  read_snapshot (write_snapshot true d old).2 out = (None, d).
Proof. apply read_written. Qed.

Definition sample_snapshot : SnapshotData :=
  mkSnapshot 12 100 4 [mkSnapOrder 2 1 7 100 5 0 2; mkSnapOrder 3 2 7 101 9 1 3].

Lemma snapshot_roundtrip_witness :
  read_snapshot (write_snapshot true sample_snapshot None).2 snapshot0 = (None, sample_snapshot).
Proof. apply (snapshot_roundtrip sample_snapshot snapshot0 None). vm_decide. Defined.

(** [snapshot_body_protected]. An order record altered within 32
    consecutive bits makes the whole snapshot unusable: the checksum refuses it
    and not one order of it is taken. *)
Theorem snapshot_body_protected (d out : SnapshotData) (body : list Z) (k w : Z) :
  snapshot_ok d -> bytes body -> length body = length (snap_body (sd_orders d)) ->
  0 <= k -> 0 < w < 2 ^ 32 ->
  Z.lxor (le_decode (snap_body (sd_orders d))) (le_decode body) = Z.shiftl w k ->
  exists out', read_snapshot (Some (take kSnapshotHeaderSize (snapshot_bytes d) ++ body)) out =
    (Some SnapChecksum, out') /\ sd_orders out' = sd_orders out.
Proof.
  intros (H1 & H2 & H3 & H4 & H5) Hb Hl Hk Hw Hx. rewrite snapshot_bytes_eq.
  rewrite take_app_length' by (by rewrite length_snap_header).
  rewrite (u64_id (Z.of_nat _)) by (unfold is_u64; lia).
  rewrite read_snapshot_header; [|done|unfold is_u64; lia|done|done|by apply crc32_range, snap_body_bytes].
  rewrite Hl, length_snap_body, Nat.mul_comm, Nat.div_mul by done.
  cbv zeta. rewrite Z.ltb_irrefl. rewrite (proj2 (Z.eqb_neq _ _)).
  - cbn [negb]. by eexists.
  - intros He. symmetry in He. revert He. by apply (crc32_burst _ _ k w); [apply snap_body_bytes|..].
Qed.

Lemma snapshot_body_protected_witness :
  exists out', read_snapshot (Some (take 44 (snapshot_bytes sample_snapshot) ++
      <[0%nat := 9]> (snap_body (sd_orders sample_snapshot)))) snapshot0 =
    (Some SnapChecksum, out') /\ sd_orders out' = [].
Proof.
  apply (snapshot_body_protected sample_snapshot snapshot0
    (<[0%nat := 9]> (snap_body (sd_orders sample_snapshot))) 0 11).
  - vm_decide.
  - unfold bytes. vm_decide.
  - reflexivity.
  - lia.
  - lia.
  - vm_compute. reflexivity.
Defined.

(** [snapshot_header_unprotected]. The checksum does not cover the header:
    overwriting the sequence number a snapshot claims to reflect yields a file
    that is read without complaint as the same orders at the other number, so
    recovery then skips or repeats log records. *)
Theorem snapshot_header_unprotected (d out : SnapshotData) (seq : Z) :
  snapshot_ok d -> is_u64 seq ->
  read_snapshot (Some (take 8 (snapshot_bytes d) ++ le_bytes 8 seq ++ drop 16 (snapshot_bytes d))) out =
  (None, mkSnapshot seq (sd_last_trade_ticks d) (sd_next_exchange_id d) (sd_orders d)).
Proof.
  intros (H1 & H2 & H3 & H4 & H5) Hs. rewrite snapshot_bytes_eq. unfold snap_header.
  assert (forall a b c rest : list Z, length a = 4%nat -> length b = 4%nat -> length c = 8%nat ->
    take 8 ((a ++ b ++ c ++ rest)) = a ++ b /\ drop 16 (a ++ b ++ c ++ rest) = rest) as Hcut.
  { intros a b c rest Ha Hb Hc. split.
    - rewrite app_assoc, take_app_length'; [done|]. rewrite length_app. lia.
    - rewrite !app_assoc, drop_app_length'; [done|]. rewrite !length_app. lia. }
  rewrite <- !app_assoc.
  match goal with |- context [take 8 (?a ++ ?b ++ ?c ++ ?rest)] =>
    destruct (Hcut a b c rest) as [-> ->]; [apply length_le_bytes..|] end.
  rewrite !app_assoc. rewrite <- (app_assoc _ _ (snap_body _)).
  pose proof (read_written (mkSnapshot seq (sd_last_trade_ticks d) (sd_next_exchange_id d)
    (sd_orders d)) out) as Hr.
  rewrite snapshot_bytes_eq in Hr. unfold snap_header in Hr.
  rewrite <- !app_assoc in Hr |- *. by apply Hr.
Qed.

Lemma snapshot_header_unprotected_witness :
  read_snapshot (Some (take 8 (snapshot_bytes sample_snapshot) ++ le_bytes 8 99 ++
    drop 16 (snapshot_bytes sample_snapshot))) snapshot0 =
  (None, mkSnapshot 99 100 4 (sd_orders sample_snapshot)).
Proof. apply (snapshot_header_unprotected sample_snapshot snapshot0 99); vm_decide. Defined.
