(* ===== verification/Egress.v ===== *)
(** The queues from the matching thread to a connection: order events
    (include/ome/egress.hpp) and market data (include/ome/book_snapshot.hpp).
    Both are SPSC rings in the source; here they are the bounded FIFOs the ring
    was shown to implement (Spsc.v). *)
From stdpp Require Import base numbers list.
From Stdlib Require Import ZArith Lia.
From S2P Require Import Prelude Types Bytes Protocol Commands Spsc.

(** A [Z]: the capacity is compared with a length, never built in unary. *)
Definition kEgressCapacity : Z := 4096.
Definition kMarketDataCapacity : Z := 64.

(** [fifo_push] at a capacity given as a [Z]. *)
Definition bounded_push {A} (cap : Z) (x : A) (q : list A) : bool * list A :=
  if Z.of_nat (length q) <? cap then (true, q ++ [x]) else (false, q).

Lemma bounded_push_fifo {A} cap (x : A) q :
  0 <= cap -> bounded_push cap x q = fifo_push (Z.to_nat cap) x q.
Proof.
  intros Hc. unfold bounded_push, fifo_push.
  destruct (Z.ltb_spec (Z.of_nat (length q)) cap), (Nat.ltb_spec (length q) (Z.to_nat cap));
    (done || lia).
Qed.

Record EgressQueue := mkEgress {
  q_items : list OrderEvent;
  overflowed_ : bool;
}.

Definition egress_queue0 : EgressQueue := mkEgress [] false.

Definition egress_push (e : OrderEvent) (q : EgressQueue) : bool * EgressQueue :=
  let '(ok, items) := bounded_push kEgressCapacity e (q_items q) in
  (ok, mkEgress items (overflowed_ q)).

Definition egress_pop (q : EgressQueue) : option OrderEvent * EgressQueue :=
  let '(o, items) := fifo_pop (q_items q) in (o, mkEgress items (overflowed_ q)).

Definition egress_empty (q : EgressQueue) : bool := bool_decide (q_items q = []).

Definition mark_overflowed (q : EgressQueue) : EgressQueue := mkEgress (q_items q) true.

(** ** Market data *)

(** The parallel arrays of ten entries are lists. *)
Record BookSnapshot := mkBookSnapshot {
  bs_seq : Z;
  bs_n_bids : Z;
  bs_n_asks : Z;
  bs_bid_ticks : list Z;
  bs_bid_qty : list Z;
  bs_ask_ticks : list Z;
  bs_ask_qty : list Z;
}.

(** An array of ten zeros with the entries of [vs] stored from the front. *)
Definition fill_array (vs : list Z) : list Z :=
  take protocol.kMaxBookDepth (vs ++ replicate protocol.kMaxBookDepth 0).

Definition MarketDataQueue : Type := list BookSnapshot.

Definition md_push (s : BookSnapshot) (q : MarketDataQueue) : bool * MarketDataQueue :=
  bounded_push kMarketDataCapacity s q.
