(* ===== verification/Text.v ===== *)
(** Text as the programs read and write it: characters are their byte values.
    What the sources use of the C++ library is written out here: [isspace],
    [std::getline], the [sto*] conversions, [operator<<] on integers, and the
    decimal and hexadecimal reading of floating-point numbers. *)
From Stdlib Require Import ZArith Lia SpecFloat Ascii String.
From stdpp Require Import base numbers list.
From S2P Require Import Prelude.

Notation text := (list Z).

(** The characters of a literal. *)
Definition lit (s : string) : text := (fun a => Z.of_nat (nat_of_ascii a)) <$> list_ascii_of_string s.

(** The same, with ['] standing for the double quote. *)
Definition qlit (s : string) : text := (fun c => if c =? 39 then 34 else c) <$> lit s.

Definition ch_tab : Z := 9.
Definition ch_newline : Z := 10.
Definition ch_return : Z := 13.
Definition ch_space : Z := 32.
Definition ch_hash : Z := 35.
Definition ch_plus : Z := 43.
Definition ch_comma : Z := 44.
Definition ch_minus : Z := 45.
Definition ch_dot : Z := 46.
Definition ch_zero : Z := 48.
Definition ch_equals : Z := 61.

Definition is_digit (c : Z) : bool := (48 <=? c) && (c <=? 57).

(** [std::isspace] in the C locale. *)
Definition isspace (c : Z) : bool := (c =? 32) || ((9 <=? c) && (c <=? 13)).

(** ** Trimming and splitting *)

Fixpoint drop_while (p : Z -> bool) (s : text) : text :=
  match s with
  | [] => []
  | c :: r => if p c then drop_while p r else s
  end.

(** Characters satisfying [p] removed from both ends. *)
Definition trim_by (p : Z -> bool) (s : text) : text :=
  reverse (drop_while p (reverse (drop_while p s))).

(** The pieces [std::getline] delivers, one call after the other: a delimiter
    at the very end does not start a further piece. *)
Fixpoint getlines (d : Z) (s : text) : list text :=
  match s with
  | [] => []
  | c :: r =>
      if c =? d then [] :: getlines d r
      else match getlines d r with
           | [] => [[c]]
           | l :: ls => (c :: l) :: ls
           end
  end.

(** [find] with [substr] around the position found: what precedes the first
    [d], and what follows it. *)
Fixpoint cut_at (d : Z) (s : text) : text * option text :=
  match s with
  | [] => ([], None)
  | c :: r => if c =? d then ([], Some r) else let '(a, b) := cut_at d r in (c :: a, b)
  end.

(** ** Integers *)

Fixpoint read_digits (acc : Z) (s : text) : Z * text :=
  match s with
  | c :: r => if is_digit c then read_digits (10 * acc + (c - 48)) r else (acc, s)
  | [] => (acc, [])
  end.

Definition read_sign (s : text) : bool * text :=
  match s with
  | c :: r => if c =? ch_minus then (true, r) else if c =? ch_plus then (false, r) else (false, s)
  | [] => (false, [])
  end.

(** White space, a sign, digits: the sign, the magnitude and what follows.
    [None]: no conversion. *)
Definition read_int (s : text) : option (bool * Z * text) :=
  let '(neg, s) := read_sign (drop_while isspace s) in
  match s with
  | c :: _ => if is_digit c then let '(v, rest) := read_digits 0 s in Some (neg, v, rest) else None
  | [] => None
  end.

(** [std::stoull], [std::stoll], [std::stoi]: [None] where they throw. A minus
    sign is accepted by the first and negates modulo [2 ^ 64]. *)
Definition stoull (s : text) : option Z :=
  match read_int s with
  | Some (neg, v, _) => if v <? 2 ^ 64 then Some (if neg then u64 (- v) else v) else None
  | None => None
  end.

Definition sto_signed (w : Z) (s : text) : option Z :=
  match read_int s with
  | Some (neg, v, _) =>
      let z := if neg then - v else v in
      if (- 2 ^ (w - 1) <=? z) && (z <? 2 ^ (w - 1)) then Some z else None
  | None => None
  end.
Definition stoll : text -> option Z := sto_signed 64.
Definition stoi : text -> option Z := sto_signed 32.

(** [operator<<] and [std::to_string]. *)
Fixpoint digits (fuel : nat) (z : Z) : text :=
  match fuel with
  | O => []
  | S fuel => (if z <? 10 then [] else digits fuel (z / 10)) ++ [48 + z mod 10]
  end.
Definition dec (z : Z) : text :=
  let n := Z.abs z in
  (if z <? 0 then [ch_minus] else []) ++ digits (S (Z.to_nat (Z.log2 n))) n.

(** ** Floating-point numbers *)

(** [m * 10 ^ e], correctly rounded. *)
Definition decimal_float (prec emax : Z) (neg : bool) (m e : Z) : spec_float :=
  match m with
  | Zpos p =>
      if 0 <=? e then
        let v := binary_normalize prec emax (Zpos p * 10 ^ e) 0 false in
        if neg then SFopp v else v
      else
        let '(q, ex, l) := SFdiv_core_binary prec emax (Zpos p) 0 (10 ^ (- e)) 0 in
        binary_round_aux prec emax neg q ex l
  | _ => S754_zero neg
  end.

(** Digits around an optional point: mantissa, number of digits after the
    point, number of digits in all, rest. *)
Fixpoint read_frac (acc : Z) (n : nat) (s : text) : Z * nat * text :=
  match s with
  | c :: r => if is_digit c then read_frac (10 * acc + (c - 48)) (S n) r else (acc, n, s)
  | [] => (acc, n, [])
  end.

Definition read_mantissa (s : text) : Z * nat * nat * text :=
  let '(m, n, s) := read_frac 0 0 s in
  match s with
  | c :: r =>
      if c =? ch_dot then let '(m', k, r) := read_frac m 0 r in (m', k, (n + k)%nat, r) else (m, 0%nat, n, s)
  | [] => (m, 0%nat, n, [])
  end.

(** The exponent after [e] or [E]; without digits nothing is read. *)
Definition read_exponent (s : text) : Z * text :=
  match s with
  | c :: r =>
      if (c =? 101) || (c =? 69) then
        let '(neg, r) := read_sign r in
        match r with
        | d :: _ => if is_digit d then let '(v, r) := read_digits 0 r in ((if neg then - v else v), r) else (0, s)
        | [] => (0, s)
        end
      else (0, s)
  | [] => (0, [])
  end.

(** ** Lemmas *)

Definition starts_digit (s : text) : bool := match s with c :: _ => is_digit c | [] => false end.

Lemma is_digit_spec c : is_digit c = true <-> 48 <= c <= 57.
Proof. unfold is_digit. lia. Qed.

Lemma digit_char z : is_digit (48 + z mod 10) = true.
Proof. apply is_digit_spec. pose proof (Z.mod_pos_bound z 10). lia. Qed.

Lemma read_digits_stop a s : starts_digit s = false -> read_digits a s = (a, s).
Proof. destruct s as [|c s]; [done|]. cbn. by intros ->. Qed.

Lemma read_digits_digits fuel z :
  0 <= z < 10 ^ Z.of_nat fuel ->
  exists k : nat, forall a rest, read_digits a (digits fuel z ++ rest) = read_digits (a * 10 ^ Z.of_nat k + z) rest.
Proof.
  revert z. induction fuel as [|fuel IH]; intros z Hz.
  - exists 0%nat. intros a rest. cbn [digits app]. f_equal. change (10 ^ Z.of_nat 0) with 1 in *. lia.
  - cbn [digits]. destruct (Z.ltb_spec z 10) as [Hlt|Hge].
    + exists 1%nat. intros a rest. cbn [app read_digits]. rewrite digit_char. f_equal.
      rewrite Z.mod_small by lia. change (10 ^ Z.of_nat 1) with 10. lia.
    + rewrite Nat2Z.inj_succ, Z.pow_succ_r in Hz by lia.
      destruct (IH (z / 10)) as [k Hk].
      { split; [apply Z.div_pos; lia|apply Z.div_lt_upper_bound; lia]. }
      exists (S k). intros a rest. rewrite <- app_assoc, Hk.
      cbn [app read_digits]. rewrite digit_char. f_equal. pose proof (Z.div_mod z 10 ltac:(lia)) as Hd.
      rewrite Nat2Z.inj_succ, Z.pow_succ_r by lia. lia.
Qed.

(** The fuel of [dec] is enough for every number. *)
Lemma dec_fuel n : 0 <= n -> 0 <= n < 10 ^ Z.of_nat (S (Z.to_nat (Z.log2 n))).
Proof.
  intros Hn. split; [done|]. pose proof (Z.log2_nonneg n).
  destruct (decide (n = 0)) as [->|Hne]; [done|].
  pose proof (proj2 (Z.log2_spec n ltac:(lia))) as Hl.
  rewrite Nat2Z.inj_succ, Z2Nat.id by done. eapply Z.lt_le_trans; [exact Hl|].
  apply Z.pow_le_mono_l. lia.
Qed.

Lemma digits_shape fuel z : Forall (fun c => is_digit c = true) (digits fuel z).
Proof.
  revert z. induction fuel as [|fuel IH]; intros z; [constructor|]. cbn [digits]. apply Forall_app. split.
  - destruct (z <? 10); [constructor|apply IH].
  - constructor; [apply digit_char|constructor].
Qed.

Lemma digits_cons fuel z : exists c s, digits (S fuel) z = c :: s /\ is_digit c = true.
Proof.
  pose proof (digits_shape (S fuel) z) as H. destruct (digits (S fuel) z) as [|c s] eqn:E.
  - cbn [digits] in E. by apply app_eq_nil in E as [_ ?].
  - exists c, s. split; [done|]. by apply Forall_cons in H as [? _].
Qed.

(** Characters of printed integers. *)
Definition is_dec (c : Z) : bool := is_digit c || (c =? ch_minus).

Lemma dec_shape z : Forall (fun c => is_dec c = true) (dec z).
Proof.
  unfold dec. apply Forall_app. split.
  - destruct (z <? 0); repeat constructor.
  - eapply Forall_impl; [apply digits_shape|]. intros c Hc. unfold is_dec. by rewrite Hc.
Qed.

Lemma dec_not_in z c : is_dec c = false -> c ∉ dec z.
Proof. intros Hc Hin. pose proof (dec_shape z) as H. rewrite Forall_forall in H. apply H in Hin. congruence. Qed.

Lemma dec_cons z : exists c s, dec z = c :: s /\ is_dec c = true.
Proof.
  pose proof (dec_shape z) as H. destruct (dec z) as [|c s] eqn:E.
  - unfold dec in E. apply app_eq_nil in E as [_ E].
    destruct (digits_cons (Z.to_nat (Z.log2 (Z.abs z))) (Z.abs z)) as (c & s & Hd & _). by rewrite Hd in E.
  - exists c, s. split; [done|]. by apply Forall_cons in H as [? _].
Qed.

Lemma is_dec_not_space c : is_dec c = true -> isspace c = false.
Proof. unfold is_dec, is_digit, isspace, ch_minus. lia. Qed.

Lemma drop_while_stop p s : (forall c r, s = c :: r -> p c = false) -> drop_while p s = s.
Proof. destruct s as [|c r]; intros H; [done|]. cbn. by rewrite (H c r eq_refl). Qed.

(** A printed number is read back, and nothing more. *)
Lemma read_int_dec z rest :
  starts_digit rest = false -> read_int (dec z ++ rest) = Some (z <? 0, Z.abs z, rest).
Proof.
  intros Hr. unfold read_int. rewrite drop_while_stop.
  2: { intros c r E. destruct (dec_cons z) as (c' & s & Hz & Hc). rewrite Hz in E. simplify_eq/=.
       by apply is_dec_not_space. }
  unfold dec. set (n := Z.abs z). set (f := Z.to_nat (Z.log2 n)).
  destruct (read_digits_digits (S f) n (dec_fuel n (Z.abs_nonneg z))) as [k Hk].
  destruct (digits_cons f n) as (c & s & Hd & Hc). pose proof Hc as Hc'. apply is_digit_spec in Hc'.
  assert (forall neg : bool, (let '(v, rest) := read_digits 0 (digits (S f) n ++ rest) in Some (neg, v, rest)) =
    Some (neg, n, rest)) as Hv.
  { intros neg. rewrite Hk, (read_digits_stop _ _ Hr). by rewrite Z.mul_0_l. }
  destruct (z <? 0); cbn [app read_sign]; rewrite Hd in *; cbn [app] in *.
  - rewrite Z.eqb_refl. by rewrite Hc, Hv.
  - cbn [read_sign]. unfold ch_minus, ch_plus. rewrite (proj2 (Z.eqb_neq c 45)), (proj2 (Z.eqb_neq c 43)) by lia.
    by rewrite Hc, Hv.
Qed.

Lemma stoull_dec z rest : is_u64 z -> starts_digit rest = false -> stoull (dec z ++ rest) = Some z.
Proof.
  intros Hz Hr. unfold stoull, is_u64 in *. rewrite read_int_dec by done.
  rewrite Z.abs_eq, (proj2 (Z.ltb_ge z 0)), (proj2 (Z.ltb_lt _ _)) by lia. done.
Qed.

Lemma sto_signed_dec w z rest :
  - 2 ^ (w - 1) <= z < 2 ^ (w - 1) -> starts_digit rest = false -> sto_signed w (dec z ++ rest) = Some z.
Proof.
  intros Hz Hr. unfold sto_signed. rewrite read_int_dec by done.
  assert ((if z <? 0 then - Z.abs z else Z.abs z) = z) as -> by (destruct (Z.ltb_spec z 0); lia).
  destruct (andb_true_iff (- 2 ^ (w - 1) <=? z) (z <? 2 ^ (w - 1))) as [_ ->]; [done|]. lia.
Qed.

Lemma stoull_range s z : stoull s = Some z -> is_u64 z.
Proof.
  unfold stoull. destruct (read_int s) as [[[neg v] r]|] eqn:E; [|done]. destruct (Z.ltb_spec v (2 ^ 64)); [|done].
  intros [= <-]. destruct neg; [apply u64_range|]. split; [|done].
  unfold read_int in E. destruct (read_sign _) as [n [|c t]]; [done|]. destruct (is_digit c); [|done].
  destruct (read_digits 0 (c :: t)) as [v' r'] eqn:Er. simplify_eq.
  assert (forall s a, 0 <= a -> 0 <= (read_digits a s).1) as Hp.
  { intros s0. induction s0 as [|d s0 IH]; intros a Ha; [exact Ha|]. cbn [read_digits]. destruct (is_digit d) eqn:Ed; [|exact Ha].
    apply IH. apply is_digit_spec in Ed. lia. }
  specialize (Hp (c :: t) 0 ltac:(lia)). by rewrite Er in Hp.
Qed.

Lemma sto_signed_range w s z : sto_signed w s = Some z -> - 2 ^ (w - 1) <= z < 2 ^ (w - 1).
Proof.
  unfold sto_signed. destruct (read_int s) as [[[neg v] r]|]; [|done].
  destruct (_ && _) eqn:E; [|done]. intros [= <-]. lia.
Qed.

(** ** Splitting *)

Lemma getlines_cons d l r : d ∉ l -> getlines d (l ++ d :: r) = l :: getlines d r.
Proof.
  induction l as [|c l IH]; intros Hd.
  - cbn. by rewrite Z.eqb_refl.
  - apply not_elem_of_cons in Hd as [Hc Hd]. cbn [app getlines]. rewrite (proj2 (Z.eqb_neq c d)) by congruence.
    by rewrite IH.
Qed.

Lemma getlines_last d l : d ∉ l -> l <> [] -> getlines d l = [l].
Proof.
  induction l as [|c l IH]; intros Hd Hne; [done|]. apply not_elem_of_cons in Hd as [Hc Hd].
  cbn [getlines]. rewrite (proj2 (Z.eqb_neq c d)) by congruence. destruct l as [|c' l]; [done|]. by rewrite IH.
Qed.

Lemma getlines_lines d ls :
  Forall (fun l => d ∉ l) ls -> getlines d (ls ≫= fun l => l ++ [d]) = ls.
Proof.
  induction 1 as [|l ls Hl Hls IH]; [done|]. change ((l :: ls) ≫= fun l => l ++ [d]) with
    ((l ++ [d]) ++ (ls ≫= fun l => l ++ [d])). rewrite <- app_assoc. cbn [app]. by rewrite getlines_cons, IH.
Qed.

Lemma cut_at_found d a b : d ∉ a -> cut_at d (a ++ d :: b) = (a, Some b).
Proof.
  induction a as [|c a IH]; intros Hd.
  - cbn. by rewrite Z.eqb_refl.
  - apply not_elem_of_cons in Hd as [Hc Hd]. cbn [app cut_at]. rewrite (proj2 (Z.eqb_neq c d)) by congruence.
    by rewrite IH.
Qed.

Lemma cut_at_none d a : d ∉ a -> cut_at d a = (a, None).
Proof.
  induction a as [|c a IH]; intros Hd; [done|]. apply not_elem_of_cons in Hd as [Hc Hd].
  cbn [cut_at]. rewrite (proj2 (Z.eqb_neq c d)) by congruence. by rewrite IH.
Qed.

Lemma drop_while_none p s : Forall (fun c => p c = false) s -> drop_while p s = s.
Proof. intros H. apply drop_while_stop. intros c r ->. by apply Forall_cons in H as [? _]. Qed.

Lemma trim_by_none p s : Forall (fun c => p c = false) s -> trim_by p s = s.
Proof.
  intros H. unfold trim_by. rewrite (drop_while_none p s H), drop_while_none by (by apply Forall_reverse).
  apply reverse_involutive.
Qed.

Lemma drop_while_app p a s : Forall (fun c => p c = true) a -> drop_while p (a ++ s) = drop_while p s.
Proof. induction 1 as [|c a Hc Ha IH]; [done|]. cbn. by rewrite Hc. Qed.

Lemma drop_while_all p a : Forall (fun c => p c = true) a -> drop_while p a = [].
Proof. intros H. rewrite <- (app_nil_r a). by rewrite drop_while_app. Qed.

(** Blanks around a text do not matter to a trim. *)
Lemma trim_front p a s : Forall (fun c => p c = true) a -> trim_by p (a ++ s) = trim_by p s.
Proof. intros H. unfold trim_by. by rewrite drop_while_app. Qed.

Lemma trim_back p s b : Forall (fun c => p c = true) b -> trim_by p (s ++ b) = trim_by p s.
Proof.
  intros H. unfold trim_by. induction s as [|c s IH].
  - by rewrite app_nil_l, (drop_while_all p b H).
  - cbn [app drop_while]. destruct (p c); [exact IH|].
    rewrite app_comm_cons, reverse_app, drop_while_app by (by apply Forall_reverse). done.
Qed.

Lemma trim_solid p c s d :
  p c = false -> p d = false -> trim_by p (c :: s ++ [d]) = c :: s ++ [d].
Proof.
  intros Hc Hd. unfold trim_by. cbn [drop_while]. rewrite Hc.
  rewrite app_comm_cons, reverse_snoc. cbn [drop_while]. rewrite Hd.
  by rewrite reverse_cons, reverse_involutive.
Qed.

Lemma forallb_all (f : Z -> bool) s : forallb f s = true <-> Forall (fun c => f c = true) s.
Proof. rewrite forallb_forall, Forall_forall. by setoid_rewrite list_elem_of_In. Qed.
