(* ===== verification/RiskConfig.v ===== *)
(** Risk limits (include/ome/risk_config.hpp): the record, its defaults and
    [validate]. The two rates are IEEE doubles. *)
From stdpp Require Import base numbers list.
From Stdlib Require Import ZArith Lia SpecFloat.
From S2P Require Import Prelude.

(** A double: binary64 with the usual precision and exponent range. *)
Definition double : Type := spec_float.
Definition dbl_prec : Z := 53.
Definition dbl_emax : Z := 1024.

(** The double nearest to an integer. *)
Definition double_of_Z (z : Z) : double :=
  match z with
  | Z0 => S754_zero false
  | Zpos p => binary_normalize dbl_prec dbl_emax (Zpos p) 0 false
  | Zneg p => binary_normalize dbl_prec dbl_emax (Zneg p) 0 false
  end.

Definition dbl_lt (a b : double) : bool := SFltb a b.
Definition dbl_le (a b : double) : bool := SFleb a b.

Record RiskConfig := mkRisk {
  rate_per_sec : double;
  rate_burst : double;
  max_order_qty : Z;
  tick_size : Z;
  price_band_bp : Z;
}.

Definition risk_config0 : RiskConfig :=
  mkRisk (double_of_Z 1000) (double_of_Z 2000) 1000000 1 1000.

(** Which check failed. *)
Inductive RiskError :=
  | RateNotPositive | BurstBelowOne | MaxQtyZero | TickNotPositive | BandNegative.

Definition validate (c : RiskConfig) : option RiskError :=
  if dbl_le (rate_per_sec c) (double_of_Z 0) then Some RateNotPositive else
  if dbl_lt (rate_burst c) (double_of_Z 1) then Some BurstBelowOne else
  if max_order_qty c =? 0 then Some MaxQtyZero else
  if tick_size c <=? 0 then Some TickNotPositive else
  if price_band_bp c <? 0 then Some BandNegative else
  None.
