(* ===== verification/RiskFile.v ===== *)
(** The risk file (include/ome/risk_config.hpp): a flat file of key=value
    lines. [load] with its helpers, against a rendering of such files with
    comments, blank lines and spaces anywhere they may stand. *)
From Stdlib Require Import ZArith Lia SpecFloat String.
From stdpp Require Import base numbers list.
From S2P Require Import Prelude Text RiskConfig.

(** The characters [trim] removes. *)
Definition is_blank (c : Z) : bool := (c =? ch_space) || (c =? ch_tab) || (c =? ch_return) || (c =? ch_newline).

Definition trim : text -> text := trim_by is_blank.

(** [parse] at the three types it is used at: the extraction succeeds and
    consumes everything. A minus sign is accepted for the unsigned type. *)
Definition parse_u32 (s : text) : option Z :=
  match read_int s with
  | Some (neg, v, []) => if v <? 2 ^ 32 then Some (if neg then u32 (- v) else v) else None
  | _ => None
  end.

Definition parse_i64 (s : text) : option Z :=
  match read_int s with
  | Some (neg, v, []) =>
      let z := if neg then - v else v in
      if (- 2 ^ 63 <=? z) && (z <? 2 ^ 63) then Some z else None
  | _ => None
  end.

Definition is_infinity (x : spec_float) : bool := match x with S754_infinity _ => true | _ => false end.

Definition parse_double (s : text) : option double :=
  let '(neg, s) := read_sign (drop_while isspace s) in
  let '(m, frac, n, s) := read_mantissa s in
  if (n =? 0)%nat then None else
  let '(e, s) := read_exponent s in
  match s with
  | [] =>
      let v := decimal_float dbl_prec dbl_emax neg m (e - Z.of_nat frac) in
      if is_infinity v then None else Some v
  | _ :: _ => None
  end.

Definition with_rate (c : RiskConfig) (v : double) : RiskConfig :=
  mkRisk v (rate_burst c) (max_order_qty c) (tick_size c) (price_band_bp c).
Definition with_burst (c : RiskConfig) (v : double) : RiskConfig :=
  mkRisk (rate_per_sec c) v (max_order_qty c) (tick_size c) (price_band_bp c).
Definition with_max_qty (c : RiskConfig) (v : Z) : RiskConfig :=
  mkRisk (rate_per_sec c) (rate_burst c) v (tick_size c) (price_band_bp c).
Definition with_tick (c : RiskConfig) (v : Z) : RiskConfig :=
  mkRisk (rate_per_sec c) (rate_burst c) (max_order_qty c) v (price_band_bp c).
Definition with_band (c : RiskConfig) (v : Z) : RiskConfig :=
  mkRisk (rate_per_sec c) (rate_burst c) (max_order_qty c) (tick_size c) v.

Definition assign (key val : text) (c : RiskConfig) : option RiskConfig :=
  if decide (key = lit "rate_per_sec") then with_rate c <$> parse_double val else
  if decide (key = lit "rate_burst") then with_burst c <$> parse_double val else
  if decide (key = lit "max_order_qty") then with_max_qty c <$> parse_u32 val else
  if decide (key = lit "tick_size") then with_tick c <$> parse_i64 val else
  if decide (key = lit "price_band_bp") then with_band c <$> parse_i64 val else
  None.

Inductive LoadError :=
  | CannotOpen
  | ExpectedKeyValue (line : nat)
  | BadSetting (line : nat) (key : text)
  | Inconsistent (e : RiskError).

(** The body of the loop, on one line. *)
Definition load_line (lineno : nat) (line : text) (c : RiskConfig) : LoadError + RiskConfig :=
  let line := trim (cut_at ch_hash line).1 in
  match line with
  | [] => inr c
  | _ =>
      match cut_at ch_equals line with
      | (_, None) => inl (ExpectedKeyValue lineno)
      | (key, Some val) =>
          match assign (trim key) (trim val) c with
          | Some c => inr c
          | None => inl (BadSetting lineno (trim key))
          end
      end
  end.

Fixpoint load_lines (lineno : nat) (lines : list text) (c : RiskConfig) : LoadError + RiskConfig :=
  match lines with
  | [] => inr c
  | l :: lines =>
      match load_line (S lineno) l c with
      | inl e => inl e
      | inr c => load_lines (S lineno) lines c
      end
  end.

Definition load (file : option text) (c : RiskConfig) : LoadError + RiskConfig :=
  match file with
  | None => inl CannotOpen
  | Some s =>
      match load_lines 0 (getlines ch_newline s) c with
      | inl e => inl e
      | inr c => match validate c with Some e => inl (Inconsistent e) | None => inr c end
      end
  end.

(** ** Rendered files *)

(** Characters of keys and values. *)
Definition is_plain (c : Z) : bool := negb (is_blank c || (c =? ch_hash) || (c =? ch_equals)).

(** A line as an editor would leave it: nothing but a comment, or a setting,
    with blanks anywhere they are allowed and a comment behind. *)
Inductive FileLine :=
  | BlankLine (pad comment : text)
  | SettingLine (pad1 key pad2 pad3 val pad4 comment : text).

Definition pad_ok (s : text) : bool := forallb (fun c => is_blank c && negb (c =? ch_newline)) s.
Definition word_ok (s : text) : bool := forallb is_plain s && negb (bool_decide (s = [])).
Definition comment_ok (s : text) : bool :=
  match s with [] => true | c :: r => (c =? ch_hash) && forallb (fun c => negb (c =? ch_newline)) r end.

Definition line_ok (l : FileLine) : bool :=
  match l with
  | BlankLine pad com => pad_ok pad && comment_ok com
  | SettingLine p1 k p2 p3 v p4 com =>
      pad_ok p1 && word_ok k && pad_ok p2 && pad_ok p3 && word_ok v && pad_ok p4 && comment_ok com
  end.

Definition render_line (l : FileLine) : text :=
  match l with
  | BlankLine pad com => pad ++ com
  | SettingLine p1 k p2 p3 v p4 com => p1 ++ (k ++ p2 ++ [ch_equals] ++ p3 ++ v) ++ p4 ++ com
  end.

Definition render (ls : list FileLine) : text := ls ≫= fun l => render_line l ++ [ch_newline].

(** What the lines mean: the settings are assigned in order, the first that
    cannot be assigned is reported with the number of its line. *)
Fixpoint settings (lineno : nat) (ls : list FileLine) (c : RiskConfig) : LoadError + RiskConfig :=
  match ls with
  | [] => inr c
  | BlankLine _ _ :: ls => settings (S lineno) ls c
  | SettingLine _ k _ _ v _ _ :: ls =>
      match assign k v c with
      | Some c => settings (S lineno) ls c
      | None => inl (BadSetting (S lineno) k)
      end
  end.

Lemma pad_blank s : pad_ok s = true -> Forall (fun c => is_blank c = true) s.
Proof. intros H%forallb_all. eapply Forall_impl; [exact H|]. intros c. cbn. by destruct (is_blank c). Qed.

Lemma pad_no c s : pad_ok s = true -> is_blank c && negb (c =? ch_newline) = false -> c ∉ s.
Proof. intros H%forallb_all Hc Hin. rewrite Forall_forall in H. apply H in Hin. congruence. Qed.

Lemma word_plain s : word_ok s = true -> Forall (fun c => is_plain c = true) s /\ s <> [].
Proof.
  unfold word_ok. intros [H%forallb_all Hs%negb_true_iff]%andb_true_iff. split; [|by apply bool_decide_eq_false in Hs].
  eapply Forall_impl; [exact H|]. done.
Qed.

Lemma word_no c s : word_ok s = true -> is_plain c = false -> c ∉ s.
Proof. intros [H _]%word_plain Hc Hin. rewrite Forall_forall in H. apply H in Hin. congruence. Qed.

Lemma plain_not_blank c : is_plain c = true -> is_blank c = false.
Proof. unfold is_plain. by destruct (is_blank c). Qed.

Lemma trim_word s : word_ok s = true -> trim s = s.
Proof.
  intros [H _]%word_plain. apply trim_by_none. eapply Forall_impl; [exact H|]. intros c. apply plain_not_blank.
Qed.

Lemma comment_newline s : comment_ok s = true -> ch_newline ∉ s.
Proof.
  destruct s as [|c r]; cbn; [intros _ []%not_elem_of_nil|].
  intros [Hc%Z.eqb_eq Hr%forallb_all]%andb_true_iff. rewrite not_elem_of_cons. subst c. split; [done|].
  intros Hin. rewrite Forall_forall in Hr. by apply Hr in Hin.
Qed.

Lemma cut_comment s com : ch_hash ∉ s -> comment_ok com = true -> (cut_at ch_hash (s ++ com)).1 = s.
Proof.
  intros Hs Hc. destruct com as [|c r]; [by rewrite app_nil_r, cut_at_none|].
  cbn in Hc. apply andb_true_iff in Hc as [->%Z.eqb_eq _]. by rewrite cut_at_found.
Qed.

(** A character that cannot occur there. *)
Ltac absent :=
  match goal with
  | H : ?c ∈ ?s |- _ =>
      exfalso; first [by apply (word_no c s) in H|by apply (pad_no c s) in H|by apply (comment_newline s) in H]
  end.

Lemma setting_no c k p2 p3 v :
  word_ok k = true -> pad_ok p2 = true -> pad_ok p3 = true -> word_ok v = true ->
  is_plain c = false -> is_blank c && negb (c =? ch_newline) = false -> c <> ch_equals ->
  c ∉ k ++ p2 ++ [ch_equals] ++ p3 ++ v.
Proof.
  intros Hk H2 H3 Hv Hp Hb He. rewrite !elem_of_app, list_elem_of_singleton.
  intros [H|[H|[H|[H|H]]]]; [absent|absent|done|absent|absent].
Qed.

Lemma render_no_newline l : line_ok l = true -> ch_newline ∉ render_line l.
Proof.
  destruct l as [pad com|p1 k p2 p3 v p4 com]; cbn [line_ok render_line]; intros H.
  - apply andb_true_iff in H as [H1 H2]. rewrite elem_of_app. intros [H|H]; absent.
  - apply andb_true_iff in H as [H Hc]. do 5 apply andb_true_iff in H as [H ?].
    rewrite (elem_of_app p1), elem_of_app, (elem_of_app p4). intros [Hi|[Hi|[Hi|Hi]]].
    + absent.
    + by eapply setting_no in Hi.
    + absent.
    + absent.
Qed.

Lemma trim_setting k p2 p3 v :
  word_ok k = true -> word_ok v = true ->
  trim (k ++ p2 ++ [ch_equals] ++ p3 ++ v) = k ++ p2 ++ [ch_equals] ++ p3 ++ v.
Proof.
  intros [Hk Hk']%word_plain [Hv Hv']%word_plain. destruct k as [|c k]; [done|].
  destruct (exists_last Hv') as (v' & d & ->). apply Forall_app in Hv as [_ Hd]. apply Forall_cons in Hd as [Hd _].
  apply Forall_cons in Hk as [Hc _].
  replace ((c :: k) ++ p2 ++ [ch_equals] ++ p3 ++ v' ++ [d]) with (c :: (k ++ p2 ++ [ch_equals] ++ p3 ++ v') ++ [d]).
  - apply trim_solid; by apply plain_not_blank.
  - by rewrite <- !app_assoc.
Qed.

Lemma load_line_render n l c :
  line_ok l = true ->
  load_line (S n) (render_line l) c = settings n [l] c.
Proof.
  unfold load_line. destruct l as [pad com|p1 k p2 p3 v p4 com]; cbn [line_ok render_line settings]; intros H.
  - apply andb_true_iff in H as [H1 H2]. rewrite cut_comment; [|by apply pad_no|done].
    unfold trim. rewrite <- (app_nil_r pad), trim_front; [done|by apply pad_blank].
  - apply andb_true_iff in H as [H Hc]. do 5 apply andb_true_iff in H as [H ?].
    assert (forall c, is_plain c = false -> is_blank c && negb (c =? ch_newline) = false -> c <> ch_equals ->
      c ∉ k ++ p2 ++ [ch_equals] ++ p3 ++ v) as Hno by (intros; by apply setting_no).
    pose proof (trim_setting k p2 p3 v) as Htrim.
    set (S0 := k ++ p2 ++ [ch_equals] ++ p3 ++ v) in *.
    replace (p1 ++ S0 ++ p4 ++ com) with ((p1 ++ S0 ++ p4) ++ com) by (by rewrite <- !app_assoc).
    rewrite cut_comment; [|rewrite !elem_of_app; intros [Hi|[Hi|Hi]]; [absent|by apply Hno in Hi|absent]|done].
    unfold trim at 1 2. rewrite trim_front, trim_back by (by apply pad_blank).
    fold trim. fold (trim S0). rewrite Htrim by done. unfold S0.
    replace (k ++ p2 ++ [ch_equals] ++ p3 ++ v) with ((k ++ p2) ++ ch_equals :: p3 ++ v) by (by rewrite <- !app_assoc).
    rewrite cut_at_found.
    2: { rewrite elem_of_app. intros [Hi|Hi]; absent. }
    destruct ((k ++ p2) ++ ch_equals :: p3 ++ v) eqn:E; [by apply app_eq_nil in E as [_ ?]|].
    unfold trim. rewrite trim_back, trim_front by (by apply pad_blank). fold trim.
    rewrite !(trim_word k), (trim_word v) by done. by destruct (assign k v c).
Qed.

Lemma load_lines_render ls n c :
  Forall (fun l => line_ok l = true) ls -> load_lines n (render_line <$> ls) c = settings n ls c.
Proof.
  intros H. revert n c. induction H as [|l ls Hl Hls IH]; intros n c; [done|].
  rewrite fmap_cons. cbn [load_lines]. rewrite load_line_render by done. cbn [settings].
  destruct l as [|p1 k p2 p3 v p4 com]; [apply IH|]. destruct (assign k v c); [apply IH|done].
Qed.

(** ** Claims *)

(** [risk_file_exact]. Loading a risk file: whatever comments, blank lines
    and blanks it is written with, the settings are read and assigned in their
    order, the first that is unknown or does not parse is reported with the
    number of its line, and the result must pass [validate]. *)
Theorem risk_file_exact (ls : list FileLine) (c : RiskConfig) :
  Forall (fun l => line_ok l = true) ls ->
  load (Some (render ls)) c =
  match settings 0 ls c with
  | inl e => inl e
  | inr c' => match validate c' with Some e => inl (Inconsistent e) | None => inr c' end
  end.
Proof.
  intros H. unfold load. replace (render ls) with ((render_line <$> ls) ≫= fun l => l ++ [ch_newline]).
  - rewrite getlines_lines, load_lines_render; [done|done|].
    apply Forall_fmap. eapply Forall_impl; [exact H|]. exact render_no_newline.
  - unfold render. clear H. induction ls as [|l ls IH]; [done|]. cbn. by rewrite IH.
Qed.

Definition sample_risk_file : list FileLine :=
  [BlankLine [] (lit "# limits");
   SettingLine [] (lit "max_order_qty") (lit " ") (lit "  ") (lit "500") [] (lit "# lots");
   BlankLine (lit "  ") [];
   SettingLine (lit " ") (lit "rate_per_sec") [] [] (lit "2.5e2") [ch_return] [];
   SettingLine [] (lit "tick_size") [] [] (lit "5") [] []].

Lemma risk_file_exact_witness :
  load (Some (render sample_risk_file)) risk_config0 =
  inr (mkRisk (double_of_Z 250) (double_of_Z 2000) 500 5 1000).
Proof. rewrite (risk_file_exact sample_risk_file risk_config0); [vm_compute; done|repeat constructor]. Defined.

(** [negative_limit_accepted]. A negative quantity limit is not refused: it is
    taken modulo [2 ^ 32] and lets every order through. *)
Theorem negative_limit_accepted :
  load (Some (lit "max_order_qty = -1")) risk_config0 =
  inr (with_max_qty risk_config0 4294967295).
Proof. vm_compute. reflexivity. Qed.
