(* ===== verification/Session.v ===== *)
(** Session lifecycle (include/ome/session.hpp) and the per-session rate
    limiter (include/ome/token_bucket.hpp). Time is an argument of every
    operation, in nanoseconds modulo 2^64; the limiter computes in doubles. *)
From stdpp Require Import base numbers gmap list.
From Stdlib Require Import ZArith Lia SpecFloat.
From S2P Require Import Prelude RiskConfig.

Record SessionConfig := mkSessionConfig { heartbeat_interval_ns : Z; timeout_ns : Z }.

Definition session_config0 : SessionConfig :=
  mkSessionConfig (5 * 1000 * 1000 * 1000) (15 * 1000 * 1000 * 1000).

Inductive SessionState := Connected | Dead.

#[export] Instance SessionState_eq_dec : EqDecision SessionState.
Proof. solve_decision. Defined.

Record Session := mkSession {
  id_ : Z;
  ses_cfg_ : SessionConfig;
  state_ : SessionState;
  last_inbound_ns_ : Z;
  last_heartbeat_sent_ns_ : Z;
  live_orders_ : gset Z;
}.

Definition session (id now : Z) (cfg : SessionConfig) : Session :=
  mkSession id cfg Connected now now ∅.

Definition alive (s : Session) : bool := bool_decide (state_ s = Connected).

Definition on_inbound (now : Z) (s : Session) : Session :=
  mkSession (id_ s) (ses_cfg_ s) (state_ s) now (last_heartbeat_sent_ns_ s) (live_orders_ s).

(** The subtractions are unsigned. *)
Definition heartbeat_due (now : Z) (s : Session) : bool :=
  alive s && (heartbeat_interval_ns (ses_cfg_ s) <=? u64 (now - last_heartbeat_sent_ns_ s)).

Definition on_heartbeat_sent (now : Z) (s : Session) : Session :=
  mkSession (id_ s) (ses_cfg_ s) (state_ s) (last_inbound_ns_ s) now (live_orders_ s).

Definition timed_out (now : Z) (s : Session) : bool :=
  alive s && (timeout_ns (ses_cfg_ s) <=? u64 (now - last_inbound_ns_ s)).

Definition mark_dead (s : Session) : bool * Session :=
  match state_ s with
  | Dead => (false, s)
  | Connected =>
      (true, mkSession (id_ s) (ses_cfg_ s) Dead (last_inbound_ns_ s) (last_heartbeat_sent_ns_ s)
               (live_orders_ s))
  end.

Definition set_live (l : gset Z) (s : Session) : Session :=
  mkSession (id_ s) (ses_cfg_ s) (state_ s) (last_inbound_ns_ s) (last_heartbeat_sent_ns_ s) l.

Definition has_order (coid : Z) (s : Session) : bool := bool_decide (coid ∈ live_orders_ s).

Definition register_order (coid : Z) (s : Session) : bool * Session :=
  (negb (has_order coid s), set_live ({[coid]} ∪ live_orders_ s) s).

Definition forget_live (coid : Z) (s : Session) : bool * Session :=
  (has_order coid s, set_live (live_orders_ s ∖ {[coid]}) s).

Definition live_order_count (s : Session) : Z := Z.of_nat (size (live_orders_ s)).

(** ** The rate limiter *)

Definition dbl_add (a b : double) : double := SFadd dbl_prec dbl_emax a b.
Definition dbl_sub (a b : double) : double := SFsub dbl_prec dbl_emax a b.
Definition dbl_mul (a b : double) : double := SFmul dbl_prec dbl_emax a b.
Definition dbl_div (a b : double) : double := SFdiv dbl_prec dbl_emax a b.

Record TokenBucket := mkBucket { rate_ : double; tb_capacity_ : double; tokens_ : double; last_ns_ : Z }.

Definition token_bucket (rate_per_sec capacity : double) (now : Z) : TokenBucket :=
  mkBucket rate_per_sec capacity capacity now.

Definition refill (now : Z) (b : TokenBucket) : TokenBucket :=
  if now <=? last_ns_ b then b else
  let elapsed_s := dbl_div (double_of_Z (now - last_ns_ b)) (double_of_Z 1000000000) in
  let tokens := dbl_add (tokens_ b) (dbl_mul elapsed_s (rate_ b)) in
  let tokens := if dbl_lt (tb_capacity_ b) tokens then tb_capacity_ b else tokens in
  mkBucket (rate_ b) (tb_capacity_ b) tokens now.

Definition allow (now : Z) (b : TokenBucket) : bool * TokenBucket :=
  let b := refill now b in
  if dbl_lt (tokens_ b) (double_of_Z 1) then (false, b)
  else (true, mkBucket (rate_ b) (tb_capacity_ b) (dbl_sub (tokens_ b) (double_of_Z 1)) (last_ns_ b)).

(** The answers to a sequence of requests. *)
Fixpoint allow_all (nows : list Z) (b : TokenBucket) : list bool * TokenBucket :=
  match nows with
  | [] => ([], b)
  | now :: nows =>
      let '(ok, b) := allow now b in
      let '(oks, b) := allow_all nows b in (ok :: oks, b)
  end.

Definition granted (oks : list bool) : nat := length (filter (fun b => b = true) oks).

Example burst_is_capacity :
  granted (allow_all (replicate 30 5) (token_bucket (double_of_Z 1000) (double_of_Z 20) 0)).1 = 20%nat.
Proof. vm_compute. reflexivity. Qed.
