(* ===== verification/Rounding.v ===== *)
(** What IEEE binary64 rounding can do to a non-negative result. The double
    operations of the model are those of [SpecFloat]; here their results are
    bounded from above over the reals: the exact value grows by at most one part
    in [2 ^ 52] (or by the smallest subnormal), and results stay canonical, so
    that comparisons compare values. *)
From Stdlib Require Import ZArith Lia SpecFloat Reals Lra.
From stdpp Require Import base numbers list.
From S2P Require Import Prelude RiskConfig Session.

(** ** Powers of two *)

Definition bp (e : Z) : R := powerRZ 2 e.

Lemma bp_pos e : (0 < bp e)%R.
Proof. apply powerRZ_lt. lra. Qed.

Lemma bp_add a b : bp (a + b) = (bp a * bp b)%R.
Proof. apply powerRZ_add. lra. Qed.

Lemma bp_IZR n : 0 <= n -> IZR (2 ^ n) = bp n.
Proof.
  intros Hn. unfold bp. rewrite <- (Z2Nat.id n Hn). rewrite <- pow_powerRZ, pow_IZR. by rewrite Z2Nat.id.
Qed.

Lemma bp_le a b : a <= b -> (bp a <= bp b)%R.
Proof.
  intros H. replace b with (a + (b - a)) by lia. rewrite bp_add, <- (bp_IZR (b - a)) by lia.
  pose proof (bp_pos a). assert (1 <= IZR (2 ^ (b - a)))%R; [|nra].
  apply IZR_le. pose proof (Z.pow_pos_nonneg 2 (b - a)). lia.
Qed.

(** ** Shifting and rounding a mantissa *)

Definition dig (m : Z) : Z := Zdigits2 m.

Lemma digits2_log2 p : Zpos (digits2_pos p) = Z.log2 (Zpos p) + 1.
Proof.
  induction p as [p IH|p IH|]; [| |done]; cbn [digits2_pos]; rewrite Pos2Z.inj_succ, IH.
  - rewrite Pos2Z.inj_xI, Z.log2_succ_double by lia. lia.
  - rewrite Pos2Z.inj_xO, Z.log2_double by lia. lia.
Qed.

Lemma dig_spec m : 0 < m -> 2 ^ (dig m - 1) <= m < 2 ^ dig m /\ 0 < dig m.
Proof.
  intros Hm. destruct m as [|p|p]; [lia| |lia]. unfold dig, Zdigits2. rewrite digits2_log2.
  pose proof (Z.log2_spec (Zpos p) ltac:(lia)). pose proof (Z.log2_nonneg (Zpos p)).
  replace (Z.log2 (Zpos p) + 1 - 1) with (Z.log2 (Zpos p)) by lia. rewrite Z.add_1_r. lia.
Qed.

Lemma dig_nonneg m : 0 <= dig m.
Proof. by destruct m. Qed.

Lemma dig_lt m n : 0 <= n -> 0 <= m -> m < 2 ^ n -> dig m <= n.
Proof.
  intros Hn Hm H. destruct (decide (m = 0)) as [->|]; [done|]. destruct (dig_spec m ltac:(lia)) as [[Hl _] Hd].
  destruct (decide (dig m <= n)); [done|]. pose proof (Z.pow_le_mono_r 2 n (dig m - 1) ltac:(lia) ltac:(lia)). lia.
Qed.

Lemma dig_ge m n : 0 <= n -> 2 ^ n <= m -> n + 1 <= dig m.
Proof.
  intros Hn H. pose proof (Z.pow_pos_nonneg 2 n ltac:(lia) Hn). destruct (dig_spec m ltac:(lia)) as [[_ Hl] Hd].
  destruct (decide (n + 1 <= dig m)); [done|]. pose proof (Z.pow_le_mono_r 2 (dig m) n ltac:(lia) ltac:(lia)). lia.
Qed.

Lemma shr_1_m mrs : 0 <= shr_m mrs -> shr_m (shr_1 mrs) = shr_m mrs / 2.
Proof.
  destruct mrs as [[|[p|p|]|p] r s]; cbn; intros H; try done; try lia.
  - rewrite Pos2Z.inj_xI. by rewrite Z.mul_comm, Z.div_add_l, Z.add_0_r by lia.
  - rewrite Pos2Z.inj_xO. by rewrite Z.mul_comm, Z.div_mul by lia.
Qed.

Lemma iter_shr_m n : forall mrs, 0 <= shr_m mrs -> shr_m (SpecFloat.iter_pos shr_1 n mrs) = shr_m mrs / 2 ^ Zpos n.
Proof.
  induction n as [n IH|n IH|]; intros mrs H; cbn [SpecFloat.iter_pos].
  - pose proof (shr_1_m mrs H) as H1. pose proof (Z.div_pos (shr_m mrs) 2 H ltac:(lia)).
    pose proof (Z.div_pos (shr_m mrs / 2) (2 ^ Zpos n) ltac:(lia) ltac:(apply Z.pow_pos_nonneg; lia)).
    assert (shr_m (SpecFloat.iter_pos shr_1 n (shr_1 mrs)) = shr_m mrs / 2 / 2 ^ Zpos n) as E2 by (rewrite IH; rewrite H1; lia).
    rewrite IH, E2 by (rewrite ?E2; lia). rewrite !Z.div_div by (try apply Z.pow_nonzero; try apply Z.pow_pos_nonneg; lia).
    f_equal. replace (Zpos n~1) with (1 + Zpos n + Zpos n) by lia. rewrite !Z.pow_add_r by lia. ring.
  - pose proof (Z.div_pos (shr_m mrs) (2 ^ Zpos n) ltac:(lia) ltac:(apply Z.pow_pos_nonneg; lia)).
    rewrite IH by (rewrite IH; lia). rewrite IH by lia.
    rewrite Z.div_div by (try apply Z.pow_nonzero; try apply Z.pow_pos_nonneg; lia).
    f_equal. replace (Zpos n~0) with (Zpos n + Zpos n) by lia. by rewrite Z.pow_add_r by lia.
  - by apply shr_1_m.
Qed.

Definition fex (e : Z) : Z := Z.max (e - 53) (-1074).

Lemma fexp_fex e : fexp 53 1024 e = fex e.
Proof. done. Qed.

Lemma record_of_loc_m m l : shr_m (shr_record_of_loc m l) = m.
Proof. by destruct l as [|[]]. Qed.

(** A shift to the exponent the format asks for. *)
Lemma shr_fexp_spec m e l :
  0 <= m ->
  let '(mrs, e') := shr_fexp 53 1024 m e l in
  e' = Z.max e (fex (dig m + e)) /\ shr_m mrs = m / 2 ^ (e' - e) /\ (e' = e -> mrs = shr_record_of_loc m l).
Proof.
  intros Hm. unfold shr_fexp, shr. rewrite fexp_fex. fold (dig m).
  destruct (fex (dig m + e) - e) as [|p|p] eqn:E.
  - rewrite record_of_loc_m. replace (Z.max e _) with e by lia. by rewrite Z.sub_diag, Z.div_1_r.
  - rewrite iter_shr_m; rewrite record_of_loc_m; [|done].
    split_and!; [lia| |lia]. do 2 f_equal. lia.
  - rewrite record_of_loc_m. replace (Z.max e _) with e by lia. by rewrite Z.sub_diag, Z.div_1_r.
Qed.

Lemma round_even_bounds m l : m <= round_nearest_even m l <= m + 1.
Proof. destruct l as [|[]]; cbn; try destruct (Z.even m); lia. Qed.

Lemma loc_of_record m : loc_of_shr_record (shr_record_of_loc m loc_Exact) = loc_Exact.
Proof. done. Qed.

(** ** Values *)

Definition fval (m e : Z) : R := (IZR m * bp e)%R.

Definition val (f : double) : R :=
  match f with
  | S754_finite s m e => if s then (- fval (Zpos m) e)%R else fval (Zpos m) e
  | _ => 0%R
  end.

(** A finite number that is not negative. *)
Definition nonneg (f : double) : Prop :=
  match f with S754_zero _ | S754_finite false _ _ => True | _ => False end.

(** As such a number, or an overflow, a result at most [x]. *)
Definition up (f : double) (x : R) : Prop :=
  match f with
  | S754_zero _ => (0 <= x)%R
  | S754_finite false m e => (fval (Zpos m) e <= x)%R
  | S754_infinity false => (bp 971 <= x)%R
  | _ => False
  end.

(** What rounding can make of [y]. *)
Definition grow (y : R) : R := Rmax (y * (1 + bp (-52))) (y + bp (-1074)).

Lemma grow_ge y : (0 <= y -> y <= grow y)%R.
Proof. intros H. unfold grow. pose proof (Rmax_r (y * (1 + bp (-52))) (y + bp (-1074))). pose proof (bp_pos (-1074)). lra. Qed.

Lemma grow_rel y x : (x <= y * (1 + bp (-52)) -> x <= grow y)%R.
Proof. intros H. unfold grow. pose proof (Rmax_l (y * (1 + bp (-52))) (y + bp (-1074))). lra. Qed.

Lemma grow_abs y x : (x <= y + bp (-1074) -> x <= grow y)%R.
Proof. intros H. unfold grow. pose proof (Rmax_r (y * (1 + bp (-52))) (y + bp (-1074))). lra. Qed.

Lemma fval_nonneg m e : 0 <= m -> (0 <= fval m e)%R.
Proof. intros H. unfold fval. pose proof (bp_pos e). apply IZR_le in H. nra. Qed.

(** A shifted mantissa stands for no more than the whole one. *)
Lemma fval_shift m e e' : 0 <= m -> e <= e' -> (fval (m / 2 ^ (e' - e)) e' <= fval m e)%R.
Proof.
  intros Hm He. unfold fval. replace e' with ((e' - e) + e) at 2 by lia. rewrite bp_add, <- bp_IZR by lia.
  rewrite <- Rmult_assoc, <- mult_IZR. apply Rmult_le_compat_r; [apply Rlt_le, bp_pos|]. apply IZR_le.
  rewrite Z.mul_comm. apply Z.mul_div_le. apply Z.pow_pos_nonneg; lia.
Qed.

Lemma fval_mono m m' e : m <= m' -> (fval m e <= fval m' e)%R.
Proof. intros H. unfold fval. apply Rmult_le_compat_r; [apply Rlt_le, bp_pos|]. by apply IZR_le. Qed.

(** The unit in the last place of the first shift, against the value. *)
Lemma ulp_bound m e y :
  0 <= m -> e <= fex (dig m + e) -> (fval m e <= y)%R -> (y + bp (fex (dig m + e)) <= grow y)%R.
Proof.
  intros Hm He Hy. unfold fex in *. destruct (Z.max_spec (dig m + e - 53) (-1074)) as [[_ E]|[_ E]]; rewrite E in *.
  - by apply grow_abs, Req_le.
  - apply grow_rel. destruct (decide (m = 0)) as [->|Hn]; [cbn in He; lia|].
    destruct (dig_spec m ltac:(lia)) as [[Hl _] Hd].
    assert (bp (dig m + e - 53) <= y * bp (-52))%R; [|lra].
    replace (dig m + e - 53) with ((dig m - 1) + e + -52) by lia. rewrite !bp_add.
    apply Rmult_le_compat_r; [apply Rlt_le, bp_pos|]. eapply Rle_trans; [|exact Hy].
    unfold fval. rewrite <- bp_IZR by lia. apply Rmult_le_compat_r; [apply Rlt_le, bp_pos|]. by apply IZR_le.
Qed.

Lemma round_aux_up m e l y :
  0 <= m -> l = loc_Exact \/ e <= fex (dig m + e) -> (fval m e <= y)%R ->
  up (binary_round_aux 53 1024 false m e l) (grow y).
Proof.
  intros Hm Hl Hy. pose proof (fval_nonneg m e Hm) as H0. unfold binary_round_aux.
  pose proof (shr_fexp_spec m e l Hm) as H1. destruct (shr_fexp _ _ m e l) as [mrs1 e1]. destruct H1 as (E1 & M1 & X1).
  set (r := round_nearest_even (shr_m mrs1) _).
  pose proof (round_even_bounds (shr_m mrs1) (loc_of_shr_record mrs1)) as Hr. fold r in Hr.
  assert (0 <= shr_m mrs1) as Hq by (rewrite M1; apply Z.div_pos; [done|apply Z.pow_pos_nonneg; lia]).
  assert (fval r e1 <= grow y)%R as Hgrow.
  { pose proof (fval_shift m e e1 Hm ltac:(lia)) as Hs. rewrite <- M1 in Hs.
    destruct (decide (r = shr_m mrs1)) as [->|Hne]; [pose proof (grow_ge y); lra|].
    assert (e1 = fex (dig m + e) /\ e <= fex (dig m + e)) as [E2 E3].
    { destruct (decide (e1 = e)) as [Ee|]; [|lia]. destruct Hl as [->|]; [|lia]. exfalso. apply Hne.
      unfold r. by rewrite (X1 Ee), record_of_loc_m, loc_of_record. }
    pose proof (ulp_bound m e y Hm E3 Hy) as Hu. rewrite <- E2 in Hu.
    assert (fval r e1 <= fval (shr_m mrs1) e1 + bp e1)%R; [|lra].
    replace r with (shr_m mrs1 + 1) by lia. unfold fval. rewrite plus_IZR. lra. }
  pose proof (shr_fexp_spec r e1 loc_Exact ltac:(lia)) as H2. destruct (shr_fexp _ _ r e1 _) as [mrs2 e2].
  destruct H2 as (E2 & M2 & _). pose proof (fval_shift r e1 e2 ltac:(lia) ltac:(lia)) as Hs2. rewrite <- M2 in Hs2.
  assert (0 <= shr_m mrs2) by (rewrite M2; apply Z.div_pos; [lia|apply Z.pow_pos_nonneg; lia]).
  destruct (shr_m mrs2) as [|q|q]; [cbn; pose proof (fval_nonneg r e1 ltac:(lia)); lra| |lia].
  change (1024 - 53) with 971. destruct (Z.leb_spec e2 971); cbn [up]; [lra|].
  eapply Rle_trans; [apply (bp_le 971 e2); lia|]. eapply Rle_trans; [|exact Hgrow]. eapply Rle_trans; [|exact Hs2].
  unfold fval. pose proof (bp_pos e2). assert (1 <= IZR (Zpos q))%R; [apply IZR_le; lia|nra].
Qed.

(** ** Canonical results *)

Definition canon (f : double) : Prop := valid_binary 53 1024 f = true.

Lemma canon_finite s m e : canon (S754_finite s m e) <-> fex (dig (Zpos m) + e) = e /\ e <= 971.
Proof.
  unfold canon. cbn [valid_binary]. unfold SpecFloat.bounded, canonical_mantissa. rewrite andb_true_iff, Z.eqb_eq, Z.leb_le, fexp_fex. done.
Qed.

Lemma dig_shift m n : 0 <= m -> 0 <= n -> n < dig m -> dig (m / 2 ^ n) = dig m - n.
Proof.
  intros Hm Hn Hd. destruct (decide (m = 0)) as [->|Hne]; [cbn in Hd; lia|].
  destruct (dig_spec m ltac:(lia)) as [[Hl Hu] _]. pose proof (Z.pow_pos_nonneg 2 n ltac:(lia) Hn).
  apply Z.le_antisymm.
  - apply dig_lt; [lia|apply Z.div_pos; lia|]. apply Z.div_lt_upper_bound; [lia|].
    rewrite <- Z.pow_add_r by lia. by replace (n + (dig m - n)) with (dig m) by lia.
  - replace (dig m - n) with ((dig m - 1 - n) + 1) by lia. apply dig_ge; [lia|]. apply Z.div_le_lower_bound; [lia|].
    rewrite <- Z.pow_add_r by lia. by replace (n + (dig m - 1 - n)) with (dig m - 1) by lia.
Qed.

Lemma round_aux_canon s m e l :
  0 <= m -> e <= fex (dig m + e) -> canon (binary_round_aux 53 1024 s m e l).
Proof.
  intros Hm He. unfold binary_round_aux.
  pose proof (shr_fexp_spec m e l Hm) as H1. destruct (shr_fexp _ _ m e l) as [mrs1 e1]. destruct H1 as (E1 & M1 & _).
  rewrite Z.max_r in E1 by lia.
  set (r := round_nearest_even (shr_m mrs1) _).
  pose proof (round_even_bounds (shr_m mrs1) (loc_of_shr_record mrs1)) as Hr. fold r in Hr.
  assert (0 <= shr_m mrs1) as Hq by (rewrite M1; apply Z.div_pos; [done|apply Z.pow_pos_nonneg; lia]).
  assert (shr_m mrs1 < 2 ^ 53 /\ (e1 = -1074 \/ 2 ^ 52 <= shr_m mrs1)) as [Hlt Hnorm].
  { rewrite M1. destruct (decide (m = 0)) as [->|Hn].
    { rewrite Z.div_0_l by (apply Z.pow_nonzero; lia). unfold fex in *. change (dig 0) with 0 in *. lia. }
    destruct (dig_spec m ltac:(lia)) as [[Hl Hu] Hd]. pose proof (Z.pow_pos_nonneg 2 (e1 - e) ltac:(lia) ltac:(lia)). split.
    - apply Z.div_lt_upper_bound; [lia|]. rewrite <- Z.pow_add_r by lia.
      eapply Z.lt_le_trans; [exact Hu|]. apply Z.pow_le_mono_r; unfold fex in *; lia.
    - unfold fex in E1, He. destruct (decide (e1 = -1074)); [by left|right]. apply Z.div_le_lower_bound; [lia|].
      rewrite <- Z.pow_add_r by lia. eapply Z.le_trans; [|exact Hl]. apply Z.pow_le_mono_r; lia. }
  pose proof (shr_fexp_spec r e1 loc_Exact ltac:(lia)) as H2. destruct (shr_fexp _ _ r e1 _) as [mrs2 e2].
  destruct H2 as (E2 & M2 & _).
  destruct (shr_m mrs2) as [|q|q] eqn:Em; [done| |done].
  change (1024 - 53) with 971. destruct (Z.leb_spec e2 971); [|done]. apply canon_finite. split; [|done].
  destruct (decide (r < 2 ^ 53)) as [Hs|Hb].
  - assert (dig r <= 53) by (apply dig_lt; lia). assert (e2 = e1) as -> by (unfold fex in *; lia).
    rewrite Z.sub_diag, Z.div_1_r in M2. rewrite M2. unfold fex in *. destruct Hnorm as [->|Hn]; [lia|].
    pose proof (dig_ge r 52 ltac:(lia) ltac:(lia)). lia.
  - assert (r = 2 ^ 53) as Hr2 by lia. rewrite Hr2 in *. change (dig (2 ^ 53)) with 54 in *.
    assert (e2 = e1 + 1) as -> by (unfold fex in *; lia). replace (e1 + 1 - e1) with 1 in M2 by lia.
    change (2 ^ 53 / 2 ^ 1) with (2 ^ 52) in M2. rewrite M2. change (dig (2 ^ 52)) with 53. unfold fex in *. lia.
Qed.

(** ** The operations *)

Lemma iter_xO m d : Zpos (Pos.iter xO m d) = Zpos m * 2 ^ Zpos d.
Proof.
  induction d as [|d IH] using Pos.peano_ind; [cbn; lia|].
  rewrite Pos.iter_succ, Pos2Z.inj_xO, IH, Pos2Z.inj_succ, Z.pow_succ_r by lia. ring.
Qed.

Lemma shl_align_spec m e e' :
  let '(mz, ez) := shl_align m e e' in ez = Z.min e e' /\ Zpos mz = Zpos m * 2 ^ (e - ez).
Proof.
  unfold shl_align. destruct (e' - e) as [|d|d] eqn:E; split; try lia.
  - rewrite Z.sub_diag. lia.
  - rewrite Z.sub_diag. lia.
  - rewrite iter_xO. do 2 f_equal. lia.
Qed.

Lemma fval_scale m e e' : e' <= e -> fval (m * 2 ^ (e - e')) e' = fval m e.
Proof.
  intros H. unfold fval. rewrite mult_IZR, bp_IZR by lia. rewrite Rmult_assoc, <- bp_add. do 2 f_equal. lia.
Qed.

Lemma dig_scale m n : 0 < m -> 0 <= n -> dig (m * 2 ^ n) = dig m + n.
Proof.
  intros Hm Hn. destruct (dig_spec m Hm) as [[Hl Hu] Hd]. pose proof (Z.pow_pos_nonneg 2 n ltac:(lia) Hn).
  apply Z.le_antisymm.
  - apply dig_lt; [lia|nia|]. rewrite Z.pow_add_r by lia. nia.
  - replace (dig m + n) with ((dig m - 1 + n) + 1) by lia. apply dig_ge; [lia|]. rewrite Z.pow_add_r by lia. nia.
Qed.

Lemma round_spec s m e :
  canon (binary_round 53 1024 s m e) /\ (s = false -> up (binary_round 53 1024 s m e) (grow (fval (Zpos m) e))).
Proof.
  unfold binary_round. rewrite fexp_fex. change (Zpos (digits2_pos m)) with (dig (Zpos m)).
  pose proof (shl_align_spec m e (fex (dig (Zpos m) + e))) as H. destruct (shl_align _ _ _) as [mz ez]. destruct H as [-> Hz].
  set (ez := Z.min _ _) in *.
  assert (ez <= fex (dig (Zpos mz) + ez)).
  { rewrite Hz, dig_scale by lia. replace (dig (Zpos m) + (e - ez) + ez) with (dig (Zpos m) + e) by lia. lia. }
  split; [by apply round_aux_canon|]. intros ->. apply round_aux_up; [lia|by left|]. rewrite Hz, fval_scale by lia. lra.
Qed.

Lemma of_Z_up z : 0 < z -> canon (double_of_Z z) /\ up (double_of_Z z) (grow (IZR z)).
Proof.
  intros Hz. destruct z as [|p|p]; [lia| |lia]. destruct (round_spec false p 0) as [Hc Hu]. split; [done|].
  specialize (Hu eq_refl). unfold fval in Hu. change (bp 0) with 1%R in Hu. by rewrite Rmult_1_r in Hu.
Qed.

Lemma shift_mul m s :
  0 <= s -> match s with Zpos _ => Z.shiftl m s | Z0 => m | Zneg _ => 0 end = m * 2 ^ s.
Proof. intros Hs. destruct s as [|p|p]; [lia|by rewrite Z.shiftl_mul_pow2 by lia|lia]. Qed.

Lemma div_up m1 e1 m2 e2 :
  let f := dbl_div (S754_finite false m1 e1) (S754_finite false m2 e2) in
  canon f /\ up f (grow (fval (Zpos m1) e1 / fval (Zpos m2) e2)).
Proof.
  cbn [dbl_div]. unfold dbl_div, SFdiv, SFdiv_core_binary. rewrite fexp_fex.
  change (Zdigits2 (Zpos m1)) with (dig (Zpos m1)). change (Zdigits2 (Zpos m2)) with (dig (Zpos m2)).
  set (e' := Z.min _ _). set (s := e1 - e2 - e').
  assert (0 <= s) as Hs by lia. rewrite (shift_mul (Zpos m1) s Hs). pose proof (Z.pow_pos_nonneg 2 s ltac:(lia) Hs) as Hp.
  destruct (dig_spec (Zpos m1) ltac:(lia)) as [[Hl1 Hu1] Hd1]. destruct (dig_spec (Zpos m2) ltac:(lia)) as [[Hl2 Hu2] Hd2].
  pose proof (Z.div_mod (Zpos m1 * 2 ^ s) (Zpos m2) ltac:(lia)) as Hdm.
  pose proof (Z.mod_pos_bound (Zpos m1 * 2 ^ s) (Zpos m2) ltac:(lia)) as Hmod.
  unfold Z.div, Z.modulo in *. destruct (Z.div_eucl (Zpos m1 * 2 ^ s) (Zpos m2)) as [q r]. cbn [xorb].
  assert (0 <= q) as Hq by nia.
  assert (dig (Zpos m1) + s - dig (Zpos m2) <= dig q) as Hdq.
  { destruct (decide (dig (Zpos m1) + s - dig (Zpos m2) <= 0)); [pose proof (dig_nonneg q); lia|].
    replace (dig (Zpos m1) + s - dig (Zpos m2)) with ((dig (Zpos m1) + s - dig (Zpos m2) - 1) + 1) by lia.
    apply dig_ge; [lia|]. apply Z.lt_succ_r.
    assert (2 ^ (dig (Zpos m1) - 1 + s) <= Zpos m1 * 2 ^ s) by (rewrite Z.pow_add_r by lia; nia).
    assert (2 ^ (dig (Zpos m1) - 1 + s) = 2 ^ (dig (Zpos m1) + s - dig (Zpos m2) - 1) * 2 ^ dig (Zpos m2)).
    { rewrite <- Z.pow_add_r by lia. f_equal. lia. }
    nia. }
  assert (e' <= fex (dig q + e')) as He by (unfold fex in *; lia).
  split; [by apply round_aux_canon|]. apply round_aux_up; [done|by right|].
  unfold fval. pose proof (bp_pos e1). pose proof (bp_pos e2). pose proof (bp_pos e').
  assert (0 < IZR (Zpos m2))%R by (apply IZR_lt; lia).
  apply (Rmult_le_reg_r (IZR (Zpos m2) * bp e2)); [nra|].
  replace (IZR (Zpos m1) * bp e1 / (IZR (Zpos m2) * bp e2) * (IZR (Zpos m2) * bp e2))%R with (IZR (Zpos m1) * bp e1)%R
    by (field; lra).
  replace e1 with (s + e' + e2) by lia. rewrite !bp_add, <- (bp_IZR s) by lia.
  assert (IZR q * IZR (Zpos m2) <= IZR (Zpos m1) * IZR (2 ^ s))%R by (rewrite <- !mult_IZR; apply IZR_le; lia).
  assert (0 < bp e' * bp e2)%R by nra. nra.
Qed.

Lemma mul_up m1 e1 m2 e2 :
  canon (S754_finite false m1 e1) -> canon (S754_finite false m2 e2) ->
  let f := dbl_mul (S754_finite false m1 e1) (S754_finite false m2 e2) in
  canon f /\ up f (grow (fval (Zpos m1) e1 * fval (Zpos m2) e2)).
Proof.
  rewrite !canon_finite. intros [C1 _] [C2 _]. unfold dbl_mul, SFmul. cbn [xorb]. rewrite Pos2Z.inj_mul.
  assert (0 < Zpos m1 * Zpos m2) as Hp by lia. split.
  - apply round_aux_canon; [lia|].
    destruct (dig_spec (Zpos m1) ltac:(lia)) as [[Hl1 _] Hd1]. destruct (dig_spec (Zpos m2) ltac:(lia)) as [[Hl2 _] Hd2].
    assert (dig (Zpos m1) + dig (Zpos m2) - 1 <= dig (Zpos m1 * Zpos m2)); [|unfold fex in *; lia].
    replace (dig (Zpos m1) + dig (Zpos m2) - 1) with ((dig (Zpos m1) - 1 + (dig (Zpos m2) - 1)) + 1) by lia.
    apply dig_ge; [lia|]. rewrite Z.pow_add_r by lia. apply Z.mul_le_mono_nonneg; try done; apply Z.pow_nonneg; lia.
  - apply round_aux_up; [lia|by left|]. unfold fval. rewrite mult_IZR, bp_add. lra.
Qed.

Lemma align_val m e ez : ez <= e -> fval (Zpos (shl_align m e ez).1) ez = fval (Zpos m) e.
Proof.
  intros H. pose proof (shl_align_spec m e ez) as Hs. destruct (shl_align m e ez) as [mz e']. destruct Hs as [-> Hz].
  cbn [fst]. rewrite Hz, Z.min_r by lia. by apply fval_scale.
Qed.

Lemma fval_plus a b e : fval (a + b) e = (fval a e + fval b e)%R.
Proof. unfold fval. rewrite plus_IZR. ring. Qed.

Lemma fval_minus a b e : fval (a - b) e = (fval a e - fval b e)%R.
Proof. unfold fval. rewrite minus_IZR. ring. Qed.

Lemma add_up m1 e1 m2 e2 :
  let f := dbl_add (S754_finite false m1 e1) (S754_finite false m2 e2) in
  canon f /\ up f (grow (fval (Zpos m1) e1 + fval (Zpos m2) e2)).
Proof.
  unfold dbl_add, SFadd. cbn [cond_Zopp]. set (ez := Z.min e1 e2).
  rewrite <- (align_val m1 e1 ez), <- (align_val m2 e2 ez), <- fval_plus by lia.
  set (a := (shl_align m1 e1 ez).1). set (b := (shl_align m2 e2 ez).1).
  rewrite <- Pos2Z.inj_add. cbn [binary_normalize]. destruct (round_spec false (a + b) ez) as [Hc Hu].
  split; [done|]. by apply Hu.
Qed.

(** ** Exact results *)

Lemma shr_1_even k : 0 <= k -> shr_1 (Build_shr_record (k * 2) false false) = Build_shr_record k false false.
Proof. intros Hk. destruct k as [|p|p]; [done| |lia]. by rewrite Z.mul_comm. Qed.

Lemma iter_shr_exact n : forall k,
  0 <= k -> SpecFloat.iter_pos shr_1 n (Build_shr_record (k * 2 ^ Zpos n) false false) = Build_shr_record k false false.
Proof.
  induction n as [n IH|n IH|]; intros k Hk; cbn [SpecFloat.iter_pos].
  - replace (k * 2 ^ Zpos n~1) with (k * 2 ^ Zpos n * 2 ^ Zpos n * 2)
      by (replace (Zpos n~1) with (1 + Zpos n + Zpos n) by lia; rewrite !Z.pow_add_r by lia; ring).
    pose proof (Z.pow_pos_nonneg 2 (Zpos n) ltac:(lia) ltac:(lia)). rewrite shr_1_even by nia. rewrite !IH by nia. done.
  - replace (k * 2 ^ Zpos n~0) with (k * 2 ^ Zpos n * 2 ^ Zpos n)
      by (replace (Zpos n~0) with (Zpos n + Zpos n) by lia; rewrite !Z.pow_add_r by lia; ring).
    pose proof (Z.pow_pos_nonneg 2 (Zpos n) ltac:(lia) ltac:(lia)). rewrite !IH by nia. done.
  - by apply shr_1_even.
Qed.

(** A mantissa whose shifted-out bits are zero. *)
Lemma shr_fexp_exact m e e1 :
  0 < m -> e1 = fex (dig m + e) -> e <= e1 -> (2 ^ (e1 - e) | m) ->
  shr_fexp 53 1024 m e loc_Exact = (Build_shr_record (m / 2 ^ (e1 - e)) false false, e1).
Proof.
  intros Hm He1 He [k Hk]. unfold shr_fexp, shr. rewrite fexp_fex. fold (dig m). rewrite <- He1.
  pose proof (Z.pow_pos_nonneg 2 (e1 - e) ltac:(lia) ltac:(lia)).
  destruct (e1 - e) as [|n|n] eqn:E; [|..].
  - rewrite Z.div_1_r. by replace e1 with e by lia.
  - cbn [shr_record_of_loc]. rewrite Hk at 1. rewrite iter_shr_exact by nia. rewrite Hk, Z.div_mul by lia.
    f_equal. lia.
  - lia.
Qed.

Lemma round_aux_exact s m e :
  0 < m -> e <= fex (dig m + e) <= 971 -> (2 ^ (fex (dig m + e) - e) | m) ->
  exists q, binary_round_aux 53 1024 s m e loc_Exact = S754_finite s q (fex (dig m + e)) /\
    fval (Zpos q) (fex (dig m + e)) = fval m e.
Proof.
  intros Hm [He Hb] Hd. set (e1 := fex (dig m + e)) in *. unfold binary_round_aux.
  rewrite (shr_fexp_exact m e e1 Hm eq_refl He Hd). cbn [shr_m loc_of_shr_record round_nearest_even].
  destruct Hd as [k Hk]. pose proof (Z.pow_pos_nonneg 2 (e1 - e) ltac:(lia) ltac:(lia)).
  rewrite Hk, Z.div_mul by lia. assert (0 < k) as Hkp by nia.
  assert (dig m = dig k + (e1 - e)) as Hdm by (rewrite Hk; apply dig_scale; lia).
  assert (fex (dig k + e1) = e1) as Hf by (unfold e1 at 2; f_equal; lia).
  rewrite (shr_fexp_exact k e1 e1) by (rewrite ?Z.sub_diag; try done; try lia; exists k; lia).
  cbn [shr_m]. rewrite Z.sub_diag, Z.div_1_r. destruct k as [|q|q]; [lia| |lia].
  change (1024 - 53) with 971. rewrite (proj2 (Z.leb_le e1 971)) by lia. exists q. split; [done|].
  symmetry. rewrite <- (fval_scale (Zpos q) e1 e) by lia. by f_equal.
Qed.

(** ** Comparisons *)

Lemma val_lt_exp m1 e1 m2 e2 s1 s2 :
  canon (S754_finite s1 m1 e1) -> canon (S754_finite s2 m2 e2) -> e1 < e2 -> (fval (Zpos m1) e1 < fval (Zpos m2) e2)%R.
Proof.
  rewrite !canon_finite. intros [C1 _] [C2 _] He.
  destruct (dig_spec (Zpos m1) ltac:(lia)) as [[_ Hu1] Hd1]. destruct (dig_spec (Zpos m2) ltac:(lia)) as [[Hl2 _] Hd2].
  unfold fex in *. apply Rlt_le_trans with (bp (53 + e1)).
  - rewrite bp_add. unfold fval. apply Rmult_lt_compat_r; [apply bp_pos|]. rewrite <- bp_IZR by lia. apply IZR_lt.
    eapply Z.lt_le_trans; [exact Hu1|]. apply Z.pow_le_mono_r; lia.
  - eapply Rle_trans; [apply (bp_le (53 + e1) (52 + e2)); lia|]. rewrite bp_add. unfold fval.
    apply Rmult_le_compat_r; [apply Rlt_le, bp_pos|]. rewrite <- bp_IZR by lia. apply IZR_le.
    replace 52 with (dig (Zpos m2) - 1) by lia. done.
Qed.

(** Not less is at least. *)
Lemma not_lt_val f g : nonneg f -> nonneg g -> canon f -> canon g -> dbl_lt f g = false -> (val g <= val f)%R.
Proof.
  destruct f as [sf| | |[] mf ef]; cbn [nonneg]; try done; destruct g as [sg| | |[] mg eg]; cbn [nonneg]; try done;
    intros _ _ Hf Hg; unfold dbl_lt, SFltb; cbn [SFcompare val]; intros H; try done; try lra.
  - pose proof (fval_nonneg (Zpos mf) ef ltac:(lia)). lra.
  - destruct (Z.compare_spec ef eg) as [->|Hc|Hc]; [|done|].
    + change (Pos.compare_cont Eq mf mg) with (Pos.compare mf mg) in H. apply fval_mono.
      destruct (Pos.compare_spec mf mg); try done; lia.
    + apply Rlt_le. by apply (val_lt_exp mg eg mf ef false false).
Qed.

(** ** Taking one away *)

Lemma canon_mantissa s m e : canon (S754_finite s m e) -> Zpos m < 2 ^ 53 /\ (e = -1074 \/ 2 ^ 52 <= Zpos m) /\ -1074 <= e.
Proof.
  rewrite canon_finite. intros [C _]. destruct (dig_spec (Zpos m) ltac:(lia)) as [[Hl Hu] Hd]. unfold fex in C. split_and!.
  - eapply Z.lt_le_trans; [exact Hu|]. apply Z.pow_le_mono_r; lia.
  - destruct (decide (e = -1074)); [by left|right]. eapply Z.le_trans; [|exact Hl]. apply Z.pow_le_mono_r; lia.
  - lia.
Qed.

(** Rounding a number that fits changes nothing. *)
Lemma round_exact m e k j :
  Zpos m = k * 2 ^ j -> 0 <= j -> k < 2 ^ 53 -> -1074 <= e + j <= 900 -> 
  exists q e', binary_round 53 1024 false m e = S754_finite false q e' /\ fval (Zpos q) e' = fval (Zpos m) e.
Proof.
  intros Hm Hj Hk He. unfold binary_round. rewrite fexp_fex. change (Zpos (digits2_pos m)) with (dig (Zpos m)).
  pose proof (shl_align_spec m e (fex (dig (Zpos m) + e))) as H. destruct (shl_align _ _ _) as [mz ez]. destruct H as [-> Hz].
  set (E := fex (dig (Zpos m) + e)) in *. assert (E = fex (dig (Zpos m) + e)) as HE by done. clearbody E.
  set (ez := Z.min e E) in *. assert (ez = Z.min e E) as Hez by done. clearbody ez. pose proof (Z.pow_pos_nonneg 2 j ltac:(lia) Hj). assert (0 < k) as Hk0 by nia.
  assert (dig (Zpos m) = dig k + j) as Hd by (rewrite Hm; by apply dig_scale).
  assert (dig k <= 53) by (apply dig_lt; lia). pose proof (dig_nonneg k).
  assert (dig (Zpos mz) + ez = dig (Zpos m) + e) as Hdz by (rewrite Hz, dig_scale by lia; lia).
  destruct (round_aux_exact false (Zpos mz) ez) as (q & -> & Hq); rewrite ?Hdz, <- ?HE.
  - lia.
  - unfold fex in *. lia.
  - destruct (decide (ez = E)) as [->|Hne]; [rewrite Z.sub_diag; apply Z.divide_1_l|].
    assert (ez = e) as Eez by lia. rewrite Eez in Hz |- *. rewrite Z.sub_diag, Z.mul_1_r in Hz. rewrite Hz, Hm.
    apply Z.divide_mul_r. exists (2 ^ (j - (E - e))). rewrite <- Z.pow_add_r by (unfold fex in *; lia).
    f_equal. lia.
  - exists q. eexists. split; [done|]. rewrite Hdz, <- HE in Hq. rewrite Hq, Hz. apply fval_scale. lia.
Qed.

Definition one : double := double_of_Z 1.

Lemma one_val : val one = 1%R /\ canon one /\ nonneg one.
Proof.
  split_and!; [|done|done]. change one with (S754_finite false 4503599627370496 (-52)). cbn [val]. unfold fval.
  change (Zpos 4503599627370496) with (2 ^ 52). rewrite bp_IZR, <- bp_add by lia. done.
Qed.

Lemma sub_one f :
  nonneg f -> canon f -> (1 <= val f)%R -> (val f < bp 53)%R ->
  let g := dbl_sub f one in nonneg g /\ canon g /\ val g = (val f - 1)%R.
Proof.
  destruct f as [s| | |[] m e]; cbn [nonneg val]; try done; intros _ Hc H1 H2; [lra|].
  destruct (canon_mantissa _ _ _ Hc) as (Hu & Hn & _).
  assert (-52 <= e) as He1.
  { destruct (decide (-52 <= e)); [done|]. assert (fval (Zpos m) e < bp 0)%R; [|change (bp 0) with 1%R in *; lra].
    apply Rlt_le_trans with (bp (53 + e)); [|apply bp_le; lia]. rewrite bp_add, <- (bp_IZR 53) by lia.
    unfold fval. apply Rmult_lt_compat_r; [apply bp_pos|by apply IZR_lt]. }
  assert (e <= 0) as He2.
  { destruct (decide (e <= 0)); [done|]. assert (bp 53 <= fval (Zpos m) e)%R; [|lra].
    apply Rle_trans with (bp (52 + e)); [apply bp_le; lia|]. rewrite bp_add, <- (bp_IZR 52) by lia.
    unfold fval. apply Rmult_le_compat_r; [apply Rlt_le, bp_pos|apply IZR_le]. destruct Hn; [lia|done]. }
  change one with (S754_finite false 4503599627370496 (-52)). unfold dbl_sub, SFsub. cbn [cond_Zopp].
  rewrite (Z.min_r e (-52)) by lia. change (shl_align 4503599627370496 (-52) (-52)) with (4503599627370496%positive, -52).
  pose proof (align_val m e (-52) He1) as Ha. pose proof (shl_align_spec m e (-52)) as Hs.
  destruct (shl_align m e (-52)) as [a ez]. destruct Hs as [Hez Hs]. cbn [fst] in *.
  rewrite Z.min_r in Hez by lia. subst ez.
  assert (val one = 1%R) as Hone by apply one_val.
  change one with (S754_finite false 4503599627370496 (-52)) in Hone. cbn [val] in Hone.
  assert (fval (Zpos a - 4503599627370496) (-52) = fval (Zpos m) e - 1)%R as Hd by (by rewrite fval_minus, Ha, Hone).
  destruct (Zpos a - 4503599627370496) as [|p|p] eqn:Ep; cbn [binary_normalize].
  - split_and!; [done|done|]. cbn [val]. unfold fval in Hd at 1. lra.
  - destruct (round_spec false p (-52)) as [Hcp _].
    destruct (round_exact p (-52) (Zpos m - 2 ^ (- e)) (e + 52)) as (q & e' & E & Hq).
    + rewrite <- Ep, Hs, Z.mul_sub_distr_r, <- Z.pow_add_r by lia.
      replace (- e + (e + 52)) with 52 by lia. by replace (e - -52) with (e + 52) by lia.
    + lia.
    + pose proof (Z.pow_nonneg 2 (- e) ltac:(lia)). lia.
    + lia.
    + change dbl_prec with 53. change dbl_emax with 1024. rewrite E in Hcp |- *.
      split_and!; [done|done|]. cbn [val]. by rewrite Hq.
  - exfalso. assert (fval (Zneg p) (-52) < 0)%R; [|lra]. unfold fval. pose proof (bp_pos (-52)).
    assert (IZR (Zneg p) < 0)%R; [by apply IZR_lt|nra].
Qed.
