(* ===== verification/RateLimit.v ===== *)
(** The rate limiter (include/ome/token_bucket.hpp) keeps its promise in double
    arithmetic: in any window, whatever the requests before it, the grants are at
    most the capacity plus what the rate earns in the window, up to rounding,
    which is bounded explicitly. *)
From Stdlib Require Import ZArith Lia SpecFloat Reals Lra.
From stdpp Require Import base numbers list.
From S2P Require Import Prelude RiskConfig Session Rounding.

(** ** Constants *)

Lemma bp_1 : bp 1 = 2%R.
Proof. apply powerRZ_1. Qed.

Definition eps : R := bp (-52).
Definition eta : R := bp (-1074).

Lemma eps_small : (0 < eps /\ eps <= / 1000000)%R.
Proof.
  split; [apply bp_pos|]. eapply Rle_trans; [apply (bp_le (-52) (-20)); lia|].
  unfold bp. cbn [powerRZ]. apply Rinv_le_contravar; [lra|]. rewrite pow_IZR. apply IZR_le. vm_compute. done.
Qed.

Lemma eta_small : (0 < eta /\ 2 * eta <= eps)%R.
Proof.
  split; [apply bp_pos|]. unfold eta, eps. rewrite <- bp_1. rewrite <- bp_add. apply bp_le. lia.
Qed.

Lemma grow_mono a b : (a <= b -> grow a <= grow b)%R.
Proof.
  intros H. unfold grow. pose proof (bp_pos (-52)). apply Rmax_lub.
  - eapply Rle_trans; [|apply Rmax_l]. nra.
  - eapply Rle_trans; [|apply Rmax_r]. lra.
Qed.

Lemma grow_le y : (0 <= y -> grow y <= y * (1 + eps) + eta)%R.
Proof.
  intros H. unfold grow. fold eps eta. pose proof eps_small. pose proof eta_small. apply Rmax_lub; nra.
Qed.

(** Above the subnormal numbers rounding errors are relative. *)
Lemma grow_normal y : (bp (-1022) <= y -> grow y <= y * (1 + eps))%R.
Proof.
  intros H. unfold grow. fold eps. apply Rmax_lub; [lra|].
  assert (bp (-1074) = bp (-1022) * eps)%R as -> by (unfold eps; by rewrite <- bp_add). pose proof eps_small. nra.
Qed.

Lemma up_fin f x : up f x -> (x < bp 971)%R -> nonneg f /\ (val f <= Rmax 0 x)%R.
Proof.
  destruct f as [s|[]| |[] m e]; cbn; intros H Hx; try done; try (exfalso; lra).
  - split; [done|]. apply Rmax_l.
  - split; [done|]. eapply Rle_trans; [exact H|apply Rmax_r].
Qed.

Lemma nonneg_val f : nonneg f -> (0 <= val f)%R.
Proof. destruct f as [s| | |[] m e]; cbn; intros H; try done; try lra. apply fval_nonneg. lia. Qed.

(** ** The elapsed time *)

Definition elapsed (dt : Z) : double := dbl_div (double_of_Z dt) (double_of_Z 1000000000).

Definition giga : R := 1000000000%R.

Lemma giga_val : val (double_of_Z 1000000000) = giga.
Proof.
  change (double_of_Z 1000000000) with (S754_finite false 8388608000000000 (-23)). cbn [val]. unfold fval, giga.
  replace 8388608000000000%Z with (1000000000 * 2 ^ 23)%Z by lia. rewrite mult_IZR, bp_IZR, Rmult_assoc, <- bp_add by lia.
  change (bp (23 + -23)) with 1%R. lra.
Qed.

Lemma bp_big : (bp 70 < bp 971)%R.
Proof.
  replace 971 with (70 + 901) by lia. rewrite bp_add. pose proof (bp_pos 70).
  assert (2 <= bp 901)%R; [|nra]. rewrite <- bp_1. apply bp_le. lia.
Qed.

Lemma of_Z_fin dt : 0 < dt < 2 ^ 64 ->
  exists f, double_of_Z dt = f /\ nonneg f /\ canon f /\ (val f <= IZR dt * (1 + eps))%R.
Proof.
  intros Hdt. eexists. split; [done|]. destruct (of_Z_up dt ltac:(lia)) as [Hc Hu]. pose proof eps_small.
  assert (1 <= IZR dt)%R as H1 by (apply IZR_le; lia).
  assert (grow (IZR dt) <= IZR dt * (1 + eps))%R as Hg.
  { apply grow_normal. eapply Rle_trans; [apply (bp_le (-1022) 0); lia|]. change (bp 0) with 1%R. lra. }
  assert (IZR dt <= bp 64)%R as H64 by (rewrite <- bp_IZR by lia; apply IZR_le; lia).
  assert (bp 70 = bp 64 * 64)%R as E70 by (change 64%R with (IZR (2 ^ 6)); rewrite bp_IZR, <- bp_add by lia; done).
  destruct (up_fin _ _ Hu) as [Hn Hv].
  - pose proof bp_big. pose proof (bp_pos 64). nra.
  - split_and!; [done|done|]. rewrite Rmax_right in Hv by (pose proof (grow_ge (IZR dt)); lra). lra.
Qed.

Lemma elapsed_spec dt : 0 < dt < 2 ^ 64 ->
  nonneg (elapsed dt) /\ canon (elapsed dt) /\ (val (elapsed dt) <= IZR dt / giga * (1 + eps) * (1 + eps))%R.
Proof.
  intros Hdt. destruct (of_Z_fin dt Hdt) as (f & Hf & Hn & Hc & Hv). unfold elapsed. rewrite Hf. pose proof eps_small.
  assert (1 <= IZR dt <= bp 64)%R as [H1 H64] by (rewrite <- bp_IZR by lia; split; apply IZR_le; lia).
  set (y := (IZR dt * (1 + eps) / giga)%R).
  assert (bp (-1022) <= y)%R as Hy.
  { eapply Rle_trans; [apply (bp_le (-1022) (-30)); lia|]. unfold y. apply Rle_trans with (1 * 1 / giga)%R.
    - unfold bp, giga. cbn [powerRZ]. unfold Rdiv. rewrite !Rmult_1_l. apply Rinv_le_contravar; [lra|].
      rewrite pow_IZR. apply IZR_le. vm_compute. done.
    - unfold Rdiv. apply Rmult_le_compat_r; [unfold giga; lra|nra]. }
  assert (IZR dt / giga * (1 + eps) * (1 + eps) = y * (1 + eps))%R as -> by (unfold y, giga; field).
  pose proof (grow_normal y Hy) as Hg. pose proof (bp_pos (-1022)).
  destruct f as [s| | |[] m e]; try done.
  - split_and!; [done|done|]. change (val _) with 0%R. nra.
  - change (double_of_Z 1000000000) with (S754_finite false 8388608000000000 (-23)).
    destruct (div_up m e 8388608000000000 (-23)) as [Hcd Hu]. pose proof giga_val as Hgv.
    change (double_of_Z 1000000000) with (S754_finite false 8388608000000000 (-23)) in Hgv. cbn [val] in Hgv, Hv. rewrite Hgv in Hu.
    assert (grow (fval (Zpos m) e / giga) <= y * (1 + eps))%R as Hb.
    { eapply Rle_trans; [|exact Hg]. apply grow_mono. unfold y, Rdiv. apply Rmult_le_compat_r; [unfold giga; lra|done]. }
    assert (y * (1 + eps) < bp 971)%R as Hfin.
    { eapply Rle_lt_trans; [|apply bp_big]. replace (bp 70) with (bp 64 * 64)%R
        by (change 64%R with (IZR (2 ^ 6)); rewrite bp_IZR, <- bp_add by lia; done).
      assert (y <= IZR dt * (1 + eps))%R; [|pose proof (bp_pos 64); nra]. unfold y, giga, Rdiv. nra. }
    destruct (up_fin _ _ Hu) as [Hnn Hvv]; [lra|]. split_and!; [done|done|].
    eapply Rle_trans; [exact Hvv|]. apply Rmax_lub; [nra|done].
Qed.

(** ** Adding tokens *)

Lemma mul_any f g x :
  nonneg f -> canon f -> nonneg g -> canon g -> (val f <= x)%R ->
  canon (dbl_mul f g) /\ up (dbl_mul f g) (grow (x * val g)).
Proof.
  intros Hnf Hcf Hng Hcg Hx. pose proof (nonneg_val f Hnf). pose proof (nonneg_val g Hng).
  assert (0 <= grow (x * val g))%R as Hgx by (pose proof (grow_ge (x * val g)); nra).
  destruct f as [sf| | |[] m e]; try done; destruct g as [sg| | |[] m' e']; try done.
  destruct (mul_up m e m' e' Hcf Hcg) as [Hc Hu]. split; [done|]. cbn [val] in *.
  assert (grow (fval (Zpos m) e * fval (Zpos m') e') <= grow (x * fval (Zpos m') e'))%R as Hg by (apply grow_mono; nra).
  destruct (dbl_mul _ _) as [s|[]| |[] q e2]; cbn [up] in *; try done; lra.
Qed.

Lemma add_any f g x :
  nonneg f -> canon f -> up g x -> canon g -> (0 <= x)%R ->
  canon (dbl_add f g) /\ up (dbl_add f g) (grow (val f + x)).
Proof.
  intros Hnf Hcf Hu Hcg Hx. pose proof (nonneg_val f Hnf). pose proof (grow_ge (val f + x)) as Hgg.
  destruct f as [sf| | |[] m e]; try done; cbn [val] in *; destruct g as [sg|[]| |[] m' e']; cbn [up] in *; try done;
    try (split; [done|]; unfold dbl_add; cbn [SFadd up]; lra).
  - split; [by destruct sf, sg|]. destruct sf, sg; unfold dbl_add; cbn [SFadd up]; lra.
  - destruct (add_up m e m' e') as [Hc Hu2]. split; [done|].
    assert (grow (fval (Zpos m) e + fval (Zpos m') e') <= grow (fval (Zpos m) e + x))%R as Hg by (apply grow_mono; lra).
    destruct (dbl_add _ _) as [s|[]| |[] q e2]; cbn [up] in *; try done; lra.
Qed.

Lemma fval_pos m e : (0 < fval (Zpos m) e)%R.
Proof. unfold fval. pose proof (bp_pos e). assert (0 < IZR (Zpos m))%R; [by apply IZR_lt|nra]. Qed.

Lemma lt_val f g : nonneg f -> nonneg g -> canon f -> canon g -> dbl_lt f g = true -> (val f < val g)%R.
Proof.
  unfold dbl_lt, SFltb. destruct f as [sf| | |[] m e]; try done; destruct g as [sg| | |[] m' e']; try done; cbn [val SFcompare].
  - intros. apply fval_pos.
  - intros _ _ Hf Hg H. destruct (Z.compare_spec e e') as [->|He|He]; [|by eapply val_lt_exp|done].
    change (Pos.compare_cont Eq m m') with (Pos.compare m m') in H. unfold fval.
    apply Rmult_lt_compat_r; [apply bp_pos|]. apply IZR_lt. destruct (Pos.compare_spec m m'); try done; lia.
Qed.

Section Bucket.

Context (rate cap : double).
Hypothesis rate_ok : nonneg rate /\ canon rate.
Hypothesis cap_ok : nonneg cap /\ canon cap /\ (val cap < bp 53)%R.

(** What holds of a bucket: its tokens are a number within the capacity. *)
Record bucket_ok (b : TokenBucket) : Prop := {
  bo_rate : rate_ b = rate;
  bo_cap : tb_capacity_ b = cap;
  bo_tokens : nonneg (tokens_ b) /\ canon (tokens_ b);
  bo_full : (val (tokens_ b) <= val cap)%R;
}.

(** What [dt] nanoseconds earn, with the rounding of the three operations. *)
Definition earned (dt : Z) : R := (IZR dt / giga * val rate * (1 + 4 * eps))%R.

Lemma rounding_loss s x : (0 <= s -> x <= val cap -> x <= grow s -> x <= s + val cap * eps + eta)%R.
Proof.
  intros Hs Hc Hg. pose proof (grow_le s Hs). pose proof eps_small. pose proof eta_small.
  destruct (Rle_dec (val cap) s); [pose proof (nonneg_val cap (proj1 cap_ok)); nra|nra].
Qed.

Lemma refill_ok now b :
  bucket_ok b -> now - last_ns_ b < 2 ^ 64 ->
  bucket_ok (refill now b) /\ last_ns_ (refill now b) = Z.max now (last_ns_ b) /\
  (val (tokens_ (refill now b)) <= val (tokens_ b) + earned (Z.max now (last_ns_ b) - last_ns_ b) + (val cap + 1) * eps)%R.
Proof.
  intros [Hr Hc [Hn Ht] Hf] Hlt. destruct cap_ok as (Cn & Cc & Cb), rate_ok as [Rn Rc].
  pose proof (nonneg_val _ Cn) as C0. pose proof (nonneg_val _ Rn) as R0. pose proof (nonneg_val _ Hn) as T0.
  pose proof eps_small. pose proof eta_small. unfold refill. destruct (Z.leb_spec now (last_ns_ b)) as [Hle|Hgt].
  { split_and!; [done|lia|]. rewrite Z.max_r, Z.sub_diag by lia. unfold earned. rewrite Rdiv_0_l. nra. }
  rewrite Z.max_l by lia. set (dt := now - last_ns_ b) in *. rewrite Hr, Hc. cbn zeta. fold (elapsed dt).
  destruct (elapsed_spec dt ltac:(lia)) as (En & Ec & Ev).
  set (x := (IZR dt / giga * (1 + eps) * (1 + eps))%R) in *.
  assert (0 <= IZR dt / giga)%R as D0 by (assert (0 <= IZR dt)%R by (apply IZR_le; lia); unfold giga, Rdiv; nra).
  destruct (mul_any _ rate x En Ec Rn Rc Ev) as [Ic Iu]. pose proof (grow_le (x * val rate)) as Hgi.
  assert (0 <= x)%R as X0 by (unfold x; apply Rmult_le_pos; [apply Rmult_le_pos|]; lra).
  assert (0 <= x * val rate)%R as XR0 by nra. pose proof (grow_ge _ XR0) as Hgg.
  destruct (add_any _ _ _ Hn Ht Iu Ic ltac:(lra)) as [Sc Su].
  set (s := dbl_add (tokens_ b) (dbl_mul (elapsed dt) rate)) in *. set (t := if dbl_lt cap s then cap else s).
  assert (nonneg t /\ canon t /\ (val t <= val cap)%R /\ (val t <= grow (val (tokens_ b) + grow (x * val rate)))%R) as (Tn & Tc & T1 & T2).
  { unfold t. destruct (dbl_lt cap s) eqn:El.
    - split_and!; [done|done|lra|]. destruct s as [z|[]| |[] m e]; cbn [up] in Su; try done.
      + assert (val cap <= 0)%R; [|lra]. change 0%R with (val (S754_zero z)). by apply Rlt_le, lt_val.
      + eapply Rle_trans; [|exact Su]. eapply Rle_trans; [apply Rlt_le, Cb|]. apply bp_le. lia.
      + eapply Rle_trans; [|exact Su]. change (fval (Zpos m) e) with (val (S754_finite false m e)). by apply Rlt_le, lt_val.
    - destruct s as [z|[]| |[] m e]; cbn [up] in Su; try done.
      + exfalso. destruct cap as [zc| | |[] mc ec]; done.
      + split_and!; try done. by apply not_lt_val. }
  split_and!; [by split|done|]. cbn [tokens_].
  pose proof (rounding_loss (val (tokens_ b) + grow (x * val rate)) (val t) ltac:(lra) T1 T2) as Hl.
  assert (x * val rate * (1 + eps) <= earned dt)%R as He; [|specialize (Hgi XR0); lra].
  unfold x, earned. set (y := (IZR dt / giga)%R) in *.
  assert ((1 + eps) * (1 + eps) * (1 + eps) <= 1 + 4 * eps)%R by nra.
  replace (y * (1 + eps) * (1 + eps) * val rate * (1 + eps))%R with (y * val rate * ((1 + eps) * (1 + eps) * (1 + eps)))%R by ring.
  apply Rmult_le_compat_l; [by apply Rmult_le_pos|done].
Qed.

Lemma allow_ok now b :
  bucket_ok b -> now - last_ns_ b < 2 ^ 64 ->
  let '(ok, b') := allow now b in
  bucket_ok b' /\ last_ns_ b' = Z.max now (last_ns_ b) /\
  ((if ok then 1 else 0) + val (tokens_ b') <=
   val (tokens_ b) + earned (Z.max now (last_ns_ b) - last_ns_ b) + (if now <=? last_ns_ b then 0 else (val cap + 1) * eps))%R.
Proof.
  intros Hb Hlt. destruct (refill_ok now b Hb Hlt) as ([Hr Hc [Hn Ht] Hf] & Hl & Hv).
  assert (val (tokens_ (refill now b)) <= val (tokens_ b) + earned (Z.max now (last_ns_ b) - last_ns_ b) +
    (if now <=? last_ns_ b then 0 else (val cap + 1) * eps))%R as Hv'.
  { destruct (now <=? last_ns_ b) eqn:E; [|done]. unfold refill. rewrite E. apply Z.leb_le in E.
    rewrite Z.max_r, Z.sub_diag by lia. unfold earned. rewrite Rdiv_0_l. lra. }
  unfold allow. destruct (dbl_lt _ _) eqn:El; cbn [tokens_ last_ns_].
  { split_and!; [by split|done|]. lra. }
  destruct one_val as (V1 & C1 & N1). fold one in El |- *.
  pose proof (not_lt_val _ _ Hn N1 Ht C1 El) as H1. rewrite V1 in H1.
  destruct (sub_one _ Hn Ht H1) as (Sn & Sc & Sv); [destruct cap_ok as (_ & _ & ?); lra|]. rewrite Sv.
  split_and!; [|done|lra]. split; cbn [rate_ tb_capacity_ tokens_]; try done. rewrite Sv. lra.
Qed.

(** The requests that find the clock advanced. *)
Fixpoint advances (last : Z) (nows : list Z) : nat :=
  match nows with
  | [] => 0
  | now :: nows => (if now <=? last then 0 else 1) + advances (Z.max now last) nows
  end.

Lemma earned_plus a b : earned (a + b) = (earned a + earned b)%R.
Proof. unfold earned, Rdiv. rewrite plus_IZR. ring. Qed.

Lemma earned_mono a b : a <= b -> (earned a <= earned b)%R.
Proof.
  intros H. unfold earned. pose proof eps_small. pose proof (nonneg_val _ (proj1 rate_ok)).
  apply Rmult_le_compat_r; [lra|]. apply Rmult_le_compat_r; [done|].
  unfold Rdiv, giga. apply Rmult_le_compat_r; [lra|by apply IZR_le].
Qed.

Lemma allow_all_ok nows : forall b,
  bucket_ok b -> Forall (fun now => now < 2 ^ 64) nows -> 0 <= last_ns_ b ->
  let '(oks, b') := allow_all nows b in
  bucket_ok b' /\ last_ns_ b' = foldr Z.max (last_ns_ b) nows /\
  (INR (granted oks) + val (tokens_ b') <=
   val (tokens_ b) + earned (last_ns_ b' - last_ns_ b) + INR (advances (last_ns_ b) nows) * ((val cap + 1) * eps))%R.
Proof.
  induction nows as [|now nows IH]; intros b Hb Hnows H0; cbn [allow_all advances foldr].
  { split_and!; [done|done|]. cbn. rewrite Z.sub_diag. unfold earned. rewrite Rdiv_0_l. lra. }
  apply Forall_cons in Hnows as [Hnow Hnows].
  pose proof (allow_ok now b Hb ltac:(lia)) as Ha. destruct (allow now b) as [ok b1]. destruct Ha as (Hb1 & Hl1 & Hv1).
  specialize (IH b1 Hb1 Hnows ltac:(lia)). destruct (allow_all nows b1) as [oks b2]. destruct IH as (Hb2 & Hl2 & Hv2).
  assert (forall a l, foldr Z.max (Z.max now a) l = Z.max now (foldr Z.max a l)) as Hfold.
  { intros a l. induction l as [|x l IHl]; cbn; [done|]. rewrite IHl. lia. }
  split_and!; [done|by rewrite Hl2, Hl1, Hfold|].
  assert (INR (granted (ok :: oks)) = (if ok then 1 else 0) + INR (granted oks))%R as ->.
  { unfold granted. rewrite filter_cons. destruct ok; cbn [length]; [|by rewrite decide_False, Rplus_0_l].
    rewrite decide_True by done. cbn [length]. rewrite S_INR. lra. }
  replace (last_ns_ b2 - last_ns_ b) with ((last_ns_ b1 - last_ns_ b) + (last_ns_ b2 - last_ns_ b1)) by lia.
  rewrite earned_plus, plus_INR. rewrite <- Hl1 in Hv1 |- *.
  destruct (now <=? last_ns_ b); cbn [INR] in *; lra.
Qed.

End Bucket.

(** ** The promise *)

(** [rate_limit_holds]. A session's rate limiter, in double arithmetic:
    whatever it was asked before, the requests it grants from then on number at
    most its capacity plus what its rate earns from the last time it had seen to
    the latest time asked (times [1 + 2^-50]), plus at most
    [(capacity + 1) * 2^-52] of rounding for every request that finds the clock
    advanced. Requests at one instant are granted at most [capacity] times, and
    timestamps that go back earn nothing. *)
Theorem rate_limit_holds (rate cap : double) (t0 : Z) (before nows : list Z) :
  nonneg rate -> canon rate -> nonneg cap -> canon cap -> dbl_lt cap (double_of_Z (2 ^ 53)) = true ->
  0 <= t0 -> Forall is_u64 before -> Forall is_u64 nows ->
  let b := (allow_all before (token_bucket rate cap t0)).2 in
  let span := foldr Z.max (last_ns_ b) nows - last_ns_ b in
  (INR (granted (allow_all nows b).1) <=
   val cap + IZR span / 10 ^ 9 * val rate * (1 + 4 * / 2 ^ 52)
   + INR (advances (last_ns_ b) nows) * ((val cap + 1) * / 2 ^ 52))%R.
Proof.
  intros Rn Rc Cn Cc Cl H0 Hbef Hnows b span.
  assert (val cap < bp 53)%R as Cb.
  { replace (bp 53) with (val (double_of_Z (2 ^ 53))); [by apply lt_val|].
    change (double_of_Z (2 ^ 53)) with (S754_finite false 4503599627370496 1). cbn [val]. unfold fval.
    change (Zpos 4503599627370496) with (2 ^ 52). by rewrite bp_IZR, <- bp_add by lia. }
  assert (forall l, Forall is_u64 l -> Forall (fun now => now < 2 ^ 64) l) as Hu.
  { intros l Hl. eapply Forall_impl; [exact Hl|]. intros x. unfold is_u64. lia. }
  pose proof (allow_all_ok rate cap (conj Rn Rc) (conj Cn (conj Cc Cb)) before (token_bucket rate cap t0)) as H1.
  destruct (allow_all before (token_bucket rate cap t0)) as [oks0 b0]. cbn [snd] in b. subst b.
  destruct H1 as (Hb & Hl & _); [split; cbn; try done; lra|by apply Hu|done|]. cbn [last_ns_ token_bucket] in Hl.
  assert (0 <= last_ns_ b0) as Hl0. { rewrite Hl. clear -H0. induction before; cbn; lia. }
  pose proof (allow_all_ok rate cap (conj Rn Rc) (conj Cn (conj Cc Cb)) nows b0 Hb (Hu _ Hnows) Hl0) as H2.
  destruct (allow_all nows b0) as [oks b1]. destruct H2 as (Hb1 & Hl1 & Hv). cbn [fst].
  pose proof (nonneg_val _ (proj1 (bo_tokens _ _ _ Hb1))). pose proof (bo_full _ _ _ Hb).
  rewrite Hl1 in Hv. fold span in Hv. unfold earned, giga, eps in Hv.
  replace (10 ^ 9)%R with 1000000000%R by lra. replace (/ 2 ^ 52)%R with (bp (-52)) by done. lra.
Qed.

Definition sample_nows : list Z := [9; 8; 1000000009].
Definition sample_rate : double := double_of_Z 1000.
Definition sample_cap : double := double_of_Z 2000.

(** The default limits: 1000 a second, bursts of 2000. *)
Lemma rate_limit_holds_witness :
  granted (allow_all sample_nows (allow_all (replicate 3 7) (token_bucket sample_rate sample_cap 5)).2).1 = 3%nat /\
  let b := (allow_all (replicate 3 7) (token_bucket sample_rate sample_cap 5)).2 in
  let span := foldr Z.max (last_ns_ b) sample_nows - last_ns_ b in
  (INR (granted (allow_all sample_nows b).1) <=
   val sample_cap + IZR span / 10 ^ 9 * val sample_rate * (1 + 4 * / 2 ^ 52)
   + INR (advances (last_ns_ b) sample_nows) * ((val sample_cap + 1) * / 2 ^ 52))%R.
Proof.
  split; [vm_compute; reflexivity|].
  assert (Forall is_u64 (replicate 3 7)) as H1 by (repeat constructor; vm_compute; done).
  assert (Forall is_u64 sample_nows) as H2 by (repeat constructor; vm_compute; done).
  exact (rate_limit_holds sample_rate sample_cap 5 (replicate 3 7) sample_nows
    I eq_refl I eq_refl eq_refl ltac:(lia) H1 H2).
Defined.
