(* ===== verification/TcpServer.v ===== *)
(** The network thread (include/ome/tcp_server.hpp, src/net/tcp_server.cpp):
    connections, the dispatch of frames to commands, delivery of events, and
    one iteration of the event loop.

    A connection owns its two queues through a pointer; the queues themselves
    live in stores shared with the matching thread, as does the inbound queue.
    What the kernel answers (poll, accept, recv, send) is an argument, as is
    the clock: its [n]-th reading is [clock n]. The matching thread's wake-up is
    counted here and modelled in Wakeup.v. *)
From stdpp Require Import base numbers gmap list.
From Stdlib Require Import ZArith Lia.
From S2P Require Import Prelude Types Bytes Protocol FrameReader WriteBuffer Commands Spsc Egress.
From S2P Require Import RiskConfig Session.

Import protocol.

Module tcp.

Definition kInboundCapacity : Z := 8192.
Definition kRecvBuffer : Z := 16 * 1024.

Record TcpServerConfig := mkTcpConfig {
  max_write_buffer : Z;
  max_read_buffer : Z;
  cfg_session : SessionConfig;
  cfg_risk : RiskConfig;
  close_linger_ns : Z;
  accept_backoff_ns : Z;
}.

Definition tcp_config0 : TcpServerConfig :=
  mkTcpConfig write_buffer.kDefaultCapacity (2 * protocol.kMaxPayloadSize) session_config0
    risk_config0 (1000 * 1000 * 1000) (100 * 1000 * 1000).

Inductive CloseMode := CloseNone | AfterFlush | Immediate.

#[export] Instance CloseMode_eq_dec : EqDecision CloseMode.
Proof. solve_decision. Defined.

Record Connection := mkConn {
  fd : Z;
  reader : FrameReader;
  writer : write_buffer.WriteBuffer;
  c_session_ : Session;
  bucket : TokenBucket;
  (** both queues, by the pointer the connection owns *)
  queues : Z;
  subscribed : bool;
  retiring : bool;
  close_mode : CloseMode;
  flush_deadline_ns : Z;
}.

Definition set_fd (f : Z) (c : Connection) : Connection :=
  mkConn f (reader c) (writer c) (c_session_ c) (bucket c) (queues c) (subscribed c) (retiring c)
    (close_mode c) (flush_deadline_ns c).
Definition set_reader (r : FrameReader) (c : Connection) : Connection :=
  mkConn (fd c) r (writer c) (c_session_ c) (bucket c) (queues c) (subscribed c) (retiring c)
    (close_mode c) (flush_deadline_ns c).
Definition set_writer (w : write_buffer.WriteBuffer) (c : Connection) : Connection :=
  mkConn (fd c) (reader c) w (c_session_ c) (bucket c) (queues c) (subscribed c) (retiring c)
    (close_mode c) (flush_deadline_ns c).
Definition set_session (s : Session) (c : Connection) : Connection :=
  mkConn (fd c) (reader c) (writer c) s (bucket c) (queues c) (subscribed c) (retiring c)
    (close_mode c) (flush_deadline_ns c).
Definition set_bucket (b : TokenBucket) (c : Connection) : Connection :=
  mkConn (fd c) (reader c) (writer c) (c_session_ c) b (queues c) (subscribed c) (retiring c)
    (close_mode c) (flush_deadline_ns c).
Definition set_subscribed (b : bool) (c : Connection) : Connection :=
  mkConn (fd c) (reader c) (writer c) (c_session_ c) (bucket c) (queues c) b (retiring c)
    (close_mode c) (flush_deadline_ns c).
Definition set_retiring (b : bool) (c : Connection) : Connection :=
  mkConn (fd c) (reader c) (writer c) (c_session_ c) (bucket c) (queues c) (subscribed c) b
    (close_mode c) (flush_deadline_ns c).
Definition set_close (m : CloseMode) (d : Z) (c : Connection) : Connection :=
  mkConn (fd c) (reader c) (writer c) (c_session_ c) (bucket c) (queues c) (subscribed c) (retiring c)
    m d.

Definition connection (f id write_cap now : Z) (scfg : SessionConfig) (risk : RiskConfig) (p : Z)
    : Connection :=
  mkConn f frame_reader0 (write_buffer.write_buffer write_cap) (session id now scfg)
    (token_bucket (rate_per_sec risk) (rate_burst risk) now) p false false CloseNone 0.

Definition conn_id (c : Connection) : Z := id_ (c_session_ c).
Definition closing (c : Connection) : bool := negb (bool_decide (close_mode c = CloseNone)).
Definition close_now (c : Connection) : Connection := set_close Immediate (flush_deadline_ns c) c.

Definition close_after_flush (now linger_ns : Z) (c : Connection) : Connection :=
  match close_mode c with
  | CloseNone => set_close AfterFlush (u64 (now + linger_ns)) c
  | _ => c
  end.

Definition ready_to_close (now : Z) (c : Connection) : bool :=
  match close_mode c with
  | Immediate => true
  | AfterFlush => write_buffer.empty (writer c) || (flush_deadline_ns c <=? now)
  | CloseNone => false
  end.

(** ** The server, without its connections *)

Record Net := mkNet {
  (** [None]: [inbound_ == nullptr], no engine attached *)
  inbound_ : option (list OrderCommand);
  eg_store : gmap Z EgressQueue;
  mdq_store : gmap Z MarketDataQueue;
  next_ptr : Z;
  (** clock readings so far *)
  ticks_ : nat;
  (** calls of [waiter_->signal()] so far *)
  signals_ : nat;
  next_session_id_ : Z;
  accept_paused_until_ns_ : Z;
  acks_ : Z;
  conflated_ : Z;
  (** calls of the cancel-all hook *)
  hook_calls_ : list (Z * Z);
}.

Definition set_inbound (q : option (list OrderCommand)) (sig : nat) (n : Net) : Net :=
  mkNet q (eg_store n) (mdq_store n) (next_ptr n) (ticks_ n) sig (next_session_id_ n)
    (accept_paused_until_ns_ n) (acks_ n) (conflated_ n) (hook_calls_ n).
Definition set_stores (es : gmap Z EgressQueue) (ms : gmap Z MarketDataQueue) (n : Net) : Net :=
  mkNet (inbound_ n) es ms (next_ptr n) (ticks_ n) (signals_ n) (next_session_id_ n)
    (accept_paused_until_ns_ n) (acks_ n) (conflated_ n) (hook_calls_ n).
Definition set_alloc (p sid : Z) (n : Net) : Net :=
  mkNet (inbound_ n) (eg_store n) (mdq_store n) p (ticks_ n) (signals_ n) sid
    (accept_paused_until_ns_ n) (acks_ n) (conflated_ n) (hook_calls_ n).
Definition set_ticks (t : nat) (n : Net) : Net :=
  mkNet (inbound_ n) (eg_store n) (mdq_store n) (next_ptr n) t (signals_ n) (next_session_id_ n)
    (accept_paused_until_ns_ n) (acks_ n) (conflated_ n) (hook_calls_ n).
Definition set_paused (t : Z) (n : Net) : Net :=
  mkNet (inbound_ n) (eg_store n) (mdq_store n) (next_ptr n) (ticks_ n) (signals_ n)
    (next_session_id_ n) t (acks_ n) (conflated_ n) (hook_calls_ n).
Definition set_counters (acks conflated : Z) (n : Net) : Net :=
  mkNet (inbound_ n) (eg_store n) (mdq_store n) (next_ptr n) (ticks_ n) (signals_ n)
    (next_session_id_ n) (accept_paused_until_ns_ n) acks conflated (hook_calls_ n).
Definition add_hook_call (call : Z * Z) (n : Net) : Net :=
  mkNet (inbound_ n) (eg_store n) (mdq_store n) (next_ptr n) (ticks_ n) (signals_ n)
    (next_session_id_ n) (accept_paused_until_ns_ n) (acks_ n) (conflated_ n) (hook_calls_ n ++ [call]).

(** ** What the kernel answers *)

Inductive RecvResult := RData (bytes : list Z) | RAgain | RIntr | RError.
Inductive SendResult := SSent (n : nat) | SAgain | SIntr | SError.
(** [AFd fd ok]: a connection, and whether it could be made non-blocking. *)
Inductive AcceptResult := AFd (f : Z) (ok : bool) | AAgain | ATransient | ANoFiles | AError.

Section server.
Context (clock : nat -> Z) (cfg : TcpServerConfig) (waiter_set hook_set : bool).

Definition monotonic_now (n : Net) : Z * Net := (clock (ticks_ n), set_ticks (S (ticks_ n)) n).

(** ** Handlers of one connection *)

Definition queue (bytes : list Z) (c : Connection) : Connection :=
  let '(ok, w) := write_buffer.append bytes (writer c) in
  let c := set_writer w c in
  if ok then c else close_now c.

Definition send_reject (coid : Z) (r : RejectReason) (c : Connection) : Connection :=
  queue (protocol.encode_frame protocol.TReject (protocol.mkReject coid r)) c.

Definition submit (cmd : OrderCommand) (c : Connection) (n : Net) : bool * (Connection * Net) :=
  match inbound_ n with
  | None => (false, (c, n))
  | Some q =>
      let '(ok, q) := bounded_push kInboundCapacity cmd q in
      if negb ok then (false, (send_reject (c_client_order_id cmd) RATE_LIMITED c, n))
      else (true, (c, set_inbound (Some q) (if waiter_set then S (signals_ n) else signals_ n) n))
  end.

Definition forget_in_session (coid : Z) (c : Connection) : Connection :=
  set_session (forget_live coid (c_session_ c)).2 c.

Definition deliver (e : OrderEvent) (c : Connection) : Connection :=
  match e_type e with
  | EvAck =>
      let c := if e_closes_order e then forget_in_session (e_client_order_id e) c else c in
      queue (protocol.encode_frame protocol.TAck
               (protocol.mkAck (e_client_order_id e) (e_exchange_order_id e))) c
  | EvReject =>
      let c := forget_in_session (e_client_order_id e) c in
      send_reject (e_client_order_id e) (e_reason e) c
  | EvFill =>
      let c := if e_closes_order e then forget_in_session (e_client_order_id e) c else c in
      queue (protocol.encode_frame protocol.TFill
               (protocol.mkFill (e_exchange_order_id e) (e_price_ticks e) (e_quantity e)
                  (e_remaining_quantity e))) c
  | EvSessionRetired => close_now (set_retiring false c)
  end.

(** The popping loop: what is left in the queue, and the connection. *)
Fixpoint drain_events (evs : list OrderEvent) (c : Connection) : list OrderEvent * Connection :=
  match evs with
  | [] => ([], c)
  | e :: evs =>
      let c := deliver e c in
      if bool_decide (close_mode c = Immediate) && negb (bool_decide (e_type e = EvSessionRetired))
      then (evs, c) else drain_events evs c
  end.

Definition drain_egress (c : Connection) (n : Net) : Connection * Net :=
  match eg_store n !! queues c with
  | None => (c, n)
  | Some q =>
      if overflowed_ q then (close_now c, n) else
      let '(evs, c) := drain_events (q_items q) c in
      (c, set_stores (<[queues c := mkEgress evs (overflowed_ q)]> (eg_store n)) (mdq_store n) n)
  end.

(** The first [k] entries of the parallel arrays. *)
Definition levels_of (k : Z) (ticks qty : list Z) : list protocol.BookLevel :=
  zip_with protocol.mkBookLevel (take (Z.to_nat k) ticks) (take (Z.to_nat k) qty).

Definition book_update_of (s : BookSnapshot) : protocol.BookUpdate :=
  protocol.mkBookUpdate (bs_seq s) (levels_of (bs_n_bids s) (bs_bid_ticks s) (bs_bid_qty s))
    (levels_of (bs_n_asks s) (bs_ask_ticks s) (bs_ask_qty s)).

Definition drain_market_data (c : Connection) (n : Net) : Connection * Net :=
  if negb (subscribed c) then (c, n) else
  match mdq_store n !! queues c with
  | None => (c, n)
  | Some q =>
      match last q with
      | None => (c, n)
      | Some latest =>
          let n := set_stores (eg_store n) (<[queues c := []]> (mdq_store n)) n in
          let n := set_counters (acks_ n) (u64 (conflated_ n + Z.of_nat (length q - 1))) n in
          (queue (protocol.encode_frame protocol.TBookUpdate (book_update_of latest)) c, n)
      end
  end.

(** The five cases of the [switch] of [dispatch]. *)

Definition on_new_order (payload : list Z) (c : Connection) (n : Net) : Connection * Net :=
  match protocol.decode_NewOrder payload with
  | None => (send_reject 0 MALFORMED c, n)
  | Some m =>
      let coid := protocol.no_client_order_id m in
      if protocol.no_quantity m =? 0 then (send_reject coid INVALID_QTY c, n) else
      let '(fresh, s) := register_order coid (c_session_ c) in
      let c := set_session s c in
      if negb fresh then (send_reject coid DUPLICATE_ORDER_ID c, n) else
      match inbound_ n with
      | None =>
          let acks := u64 (acks_ n + 1) in
          (queue (protocol.encode_frame protocol.TAck
                    (protocol.mkAck coid (u64 (conn_id c * 1000000 + acks)))) c,
           set_counters acks (conflated_ n) n)
      | Some _ =>
          let '(ok, (c, n)) := submit (new_order (conn_id c) m) c n in
          ((if ok then c else forget_in_session coid c), n)
      end
  end.

Definition on_cancel (payload : list Z) (c : Connection) (n : Net) : Connection * Net :=
  match protocol.decode_Cancel payload with
  | None => (send_reject 0 MALFORMED c, n)
  | Some m =>
      match inbound_ n with
      | None => (send_reject (protocol.ca_client_order_id m) NOT_IMPLEMENTED c, n)
      | Some _ => (submit (cancel (conn_id c) (protocol.ca_client_order_id m)) c n).2
      end
  end.

Definition on_modify (payload : list Z) (c : Connection) (n : Net) : Connection * Net :=
  match protocol.decode_Modify payload with
  | None => (send_reject 0 MALFORMED c, n)
  | Some m =>
      match inbound_ n with
      | None => (send_reject (protocol.mo_client_order_id m) NOT_IMPLEMENTED c, n)
      | Some _ => (submit (modify (conn_id c) m) c n).2
      end
  end.

Definition on_subscribe (payload : list Z) (c : Connection) (n : Net) : Connection * Net :=
  match protocol.decode_Subscribe payload with
  | None => (send_reject 0 MALFORMED c, n)
  | Some m =>
      match inbound_ n with
      | None => (send_reject 0 NOT_IMPLEMENTED c, n)
      | Some _ =>
          let '(ok, (c, n)) := submit (subscribe (conn_id c) (protocol.su_depth m)) c n in
          ((if ok then set_subscribed true c else c), n)
      end
  end.

Definition dispatch (f : Frame) (c : Connection) (n : Net) : Connection * Net :=
  if negb (protocol.h_version (f_header f) =? protocol.kVersion)
  then (send_reject 0 MALFORMED c, n)
  else
    let mtype := protocol.mtype_of (protocol.h_type (f_header f)) in
    let '(limited, c, n) :=
      match mtype with
      | Some protocol.THeartbeat => (false, c, n)
      | _ => let '(now, n) := monotonic_now n in
             let '(ok, b) := allow now (bucket c) in
             (negb ok, set_bucket b c, n)
      end in
    if limited then (send_reject 0 RATE_LIMITED c, n) else
    match mtype with
    | Some protocol.TNewOrder => on_new_order (f_payload f) c n
    | Some protocol.TCancel => on_cancel (f_payload f) c n
    | Some protocol.TModify => on_modify (f_payload f) c n
    | Some protocol.TSubscribe => on_subscribe (f_payload f) c n
    | Some protocol.THeartbeat => (c, n)
    | _ => (send_reject 0 UNKNOWN_MESSAGE_TYPE c, n)
    end.

(** The frame loop of [handle_readable]; [true] when it returned early. Every
    frame takes at least its header out of the buffer. *)
Fixpoint dispatch_frames (fuel : nat) (c : Connection) (n : Net) : bool * (Connection * Net) :=
  match fuel with
  | O => (false, (c, n))
  | S fuel =>
      match next_frame (reader c) with
      | (None, r) => (false, (set_reader r c, n))
      | (Some f, r) =>
          let '(c, n) := dispatch f (set_reader r c) n in
          if closing c then (true, (c, n)) else dispatch_frames fuel c n
      end
  end.

(** The answers of [recv] in order; when they run out, there is nothing more to
    read for now. *)
Fixpoint handle_readable (rs : list RecvResult) (c : Connection) (n : Net) : Connection * Net :=
  match rs with
  | [] | RAgain :: _ => (c, n)
  | RIntr :: rs => handle_readable rs c n
  | RError :: _ | RData [] :: _ => (close_now c, n)
  | RData bytes :: rs =>
      let c := set_reader (fr_append bytes (reader c)) c in
      let '(now, n) := monotonic_now n in
      let c := set_session (on_inbound now (c_session_ c)) c in
      let '(returned, (c, n)) := dispatch_frames (S (FrameReader.buffered (reader c))) c n in
      if returned then (c, n) else
      if failed_ (reader c) then (close_now c, n) else
      if max_read_buffer cfg <? Z.of_nat (FrameReader.buffered (reader c)) then (close_now c, n) else
      if Z.of_nat (length bytes) <? kRecvBuffer then (c, n) else handle_readable rs c n
  end.

(** The answers of [send]; when they run out, the kernel buffer is full. *)
Fixpoint handle_writable (ss : list SendResult) (c : Connection) : Connection :=
  if write_buffer.empty (writer c) then c else
  match ss with
  | [] | SAgain :: _ => c
  | SIntr :: ss => handle_writable ss c
  | SSent O :: _ | SError :: _ => close_now c
  | SSent k :: ss => handle_writable ss (set_writer (write_buffer.consume k (writer c)) c)
  end.

(** ** The set of connections *)

Definition kill_session (c : Connection) (n : Net) : Connection * Net :=
  let '(was_alive, s) := mark_dead (c_session_ c) in
  let c := set_session s c in
  if negb was_alive then (c, n) else
  let n := if hook_set then add_hook_call (conn_id c, live_order_count (c_session_ c)) n else n in
  match inbound_ n with
  | None => (c, n)
  | Some _ =>
      let '(ok, (c, n)) := submit (cancel_all (conn_id c)) c n in
      ((if ok then set_retiring true c else c), n)
  end.

(** Destroying a connection frees its queues. *)
Definition free_queues (p : Z) (n : Net) : Net :=
  set_stores (delete p (eg_store n)) (delete p (mdq_store n)) n.

Definition close_connection (i : nat) (cs : list Connection) (n : Net) : list Connection * Net :=
  match cs !! i with
  | None => (cs, n)
  | Some c =>
      let '(c, n) := kill_session c n in
      let c := set_fd (-1) c in
      if retiring c
      then (<[i := set_close CloseNone (flush_deadline_ns c) c]> cs, n)
      else (delete i cs, free_queues (queues c) n)
  end.

Definition service_timer (now : Z) (c : Connection) : Connection :=
  if timed_out now (c_session_ c) then close_now c else
  if heartbeat_due now (c_session_ c)
  then let c := queue (protocol.encode_frame protocol.THeartbeat (protocol.mkHeartbeat now)) c in
       set_session (on_heartbeat_sent now (c_session_ c)) c
  else c.

Definition service_timers (now : Z) (cs : list Connection) : list Connection := service_timer now <$> cs.

(** A new connection, with its queues, and the registration of its session. *)
Definition accept_one (f : Z) (cs : list Connection) (n : Net) : list Connection * Net :=
  let p := next_ptr n in
  let id := next_session_id_ n in
  let n := set_alloc (p + 1) (u64 (id + 1)) n in
  let n := set_stores (<[p := egress_queue0]> (eg_store n)) (<[p := []]> (mdq_store n)) n in
  let '(now, n) := monotonic_now n in
  let c := connection f id (max_write_buffer cfg) now (cfg_session cfg) (cfg_risk cfg) p in
  match inbound_ n with
  | None => (cs ++ [c], n)
  | Some _ =>
      let '(_, (c, n)) := submit (session_opened id (Some p) (Some p)) c n in (cs ++ [c], n)
  end.

(** The answers of [accept]; when they run out, the backlog is empty. *)
Fixpoint accept_new (rs : list AcceptResult) (cs : list Connection) (n : Net) : list Connection * Net :=
  match rs with
  | [] | AAgain :: _ | AError :: _ => (cs, n)
  | ATransient :: rs | AFd _ false :: rs => accept_new rs cs n
  | ANoFiles :: _ =>
      let '(now, n) := monotonic_now n in
      (cs, set_paused (u64 (now + accept_backoff_ns cfg)) n)
  | AFd f true :: rs => let '(cs, n) := accept_one f cs n in accept_new rs cs n
  end.

(** ** The event loop *)

(** What [poll] reported of a connection, and the answers of the calls made for
    it. *)
Record ConnIo := mkConnIo {
  r_err : bool; r_out : bool; r_in : bool; r_hup : bool;
  io_send : list SendResult; io_recv : list RecvResult;
}.

(** [fd] -1 is passed to [poll] for a retiring connection: nothing is reported. *)
Definition no_io : ConnIo := mkConnIo false false false false [] [].

Definition close_if_ready (i : nat) (c : Connection) (cs : list Connection) (n : Net)
    : list Connection * Net :=
  let '(now, n) := monotonic_now n in
  let cs := <[i := c]> cs in
  if ready_to_close now c then close_connection i cs n else (cs, n).

Definition serve_one (io : ConnIo) (i : nat) (cs : list Connection) (n : Net)
    : list Connection * Net :=
  match cs !! i with
  | None => (cs, n)
  | Some c =>
      let io := if retiring c then no_io else io in
      if r_err io then close_connection i cs n else
      let c := if r_out io then handle_writable (io_send io) c else c in
      let '(c, n) := if r_in io then handle_readable (io_recv io) c n else (c, n) in
      let c := if r_hup io then close_now c else c in
      close_if_ready i c cs n
  end.

(** From the last connection to the first, those accepted since the poll
    skipped. *)
Fixpoint serve_all (polled : nat) (io : nat -> ConnIo) (i : nat) (cs : list Connection) (n : Net)
    : list Connection * Net :=
  match i with
  | O => (cs, n)
  | S i =>
      let '(cs, n) := if (polled <=? i)%nat then (cs, n) else serve_one (io i) i cs n in
      serve_all polled io i cs n
  end.

Definition drain_one (sends : list SendResult) (i : nat) (cs : list Connection) (n : Net)
    : list Connection * Net :=
  match cs !! i with
  | None => (cs, n)
  | Some c =>
      let '(c, n) := drain_egress c n in
      let '(c, n) := drain_market_data c n in
      let c := if negb (write_buffer.empty (writer c)) && (0 <=? fd c)
               then handle_writable sends c else c in
      close_if_ready i c cs n
  end.

Fixpoint drain_all (sends : nat -> list SendResult) (i : nat) (cs : list Connection) (n : Net)
    : list Connection * Net :=
  match i with
  | O => (cs, n)
  | S i => let '(cs, n) := drain_one (sends i) i cs n in drain_all sends i cs n
  end.

(** Whether [poll] must not block. *)
Definition work_pending (cs : list Connection) (n : Net) : bool :=
  existsb (fun c => negb (write_buffer.empty (writer c)) ||
    match eg_store n !! queues c with Some q => negb (egress_empty q) | None => false end ||
    (subscribed c && match mdq_store n !! queues c with
                     | Some q => negb (bool_decide (q = [])) | None => false end)) cs.

Inductive PollResult := PollIntr | PollFails | PollOk (listener_in : bool).

(** One turn of [run]; [None] when the loop ends with an error. *)
Definition run_once (pr : PollResult) (accepts : list AcceptResult) (io : nat -> ConnIo)
    (sends : nat -> list SendResult) (cs : list Connection) (n : Net) : option (list Connection * Net) :=
  let '(loop_now, n) := monotonic_now n in
  let accepting := accept_paused_until_ns_ n <=? loop_now in
  match pr with
  | PollIntr => Some (cs, n)
  | PollFails => None
  | PollOk listener_in =>
      let polled := length cs in
      let '(cs, n) := if accepting && listener_in then accept_new accepts cs n else (cs, n) in
      let '(now, n) := monotonic_now n in
      let cs := service_timers now cs in
      let '(cs, n) := serve_all polled io (length cs) cs n in
      Some (drain_all sends (length cs) cs n)
  end.

End server.

Definition net0 (engine : bool) : Net :=
  mkNet (if engine then Some [] else None) ∅ ∅ 1 0 0 1 0 0 0 [].

End tcp.
