(* ===== verification/TcpProps.v ===== *)
(** Properties of the network thread: what a frame can do, what closing a
    connection does, conflation. *)
From stdpp Require Import base numbers gmap list.
From Stdlib Require Import ZArith Lia.
From S2P Require Import Prelude Types Bytes Protocol FrameReader WriteBuffer Commands Spsc Egress.
From S2P Require Import RiskConfig Session TcpServer.
Import protocol tcp.

(** ** What the handlers of a connection leave alone *)

(** Identity and lifetime: everything but buffers, limiter, subscription, close
    mode, clocks and live ids. *)
Record same_conn (c c' : Connection) : Prop := mkSameConn {
  sc_id : conn_id c' = conn_id c;
  sc_queues : queues c' = queues c;
  sc_state : state_ (c_session_ c') = state_ (c_session_ c);
  sc_retiring : retiring c' = retiring c;
  sc_fd : fd c' = fd c;
}.

#[export] Instance same_conn_preorder : PreOrder same_conn.
Proof. split; [done|]. intros ??? [] []. split; congruence. Qed.

(** The shared state moves by appending commands to the inbound queue. *)
Record net_appends (cmds : list OrderCommand) (n n' : Net) : Prop := mkAppends {
  na_inbound : inbound_ n' = (fun q => q ++ cmds) <$> inbound_ n;
  na_egress : eg_store n' = eg_store n;
  na_md : mdq_store n' = mdq_store n;
  na_ptr : next_ptr n' = next_ptr n;
  na_next : next_session_id_ n' = next_session_id_ n;
}.

Lemma net_appends_refl n : net_appends [] n n.
Proof. split; try done. destruct (inbound_ n); [|done]. cbn. by rewrite app_nil_r. Qed.

Lemma net_appends_trans c1 c2 n1 n2 n3 :
  net_appends c1 n1 n2 -> net_appends c2 n2 n3 -> net_appends (c1 ++ c2) n1 n3.
Proof.
  intros [H1 ? ? ? ?] [H2 ? ? ? ?]. split; try congruence. rewrite H2, H1.
  destruct (inbound_ n1); [|done]. cbn. by rewrite app_assoc.
Qed.

(** A command a client can cause: its own session, one of four types. *)
Definition client_command (s : Z) (cmd : OrderCommand) : Prop :=
  c_session cmd = s /\
  match c_type cmd with
  | CmdNewOrder => c_quantity cmd <> 0
  | CmdCancel | CmdModify | CmdSubscribe => True
  | CmdSessionOpened | CmdCancelAllForSession => False
  end.

Lemma queue_same bytes c : same_conn c (queue bytes c).
Proof. unfold queue. destruct (write_buffer.append _ _) as [[] w]; done. Qed.

Lemma send_reject_same coid r c : same_conn c (send_reject coid r c).
Proof. apply queue_same. Qed.

Section server.
Context (clock : nat -> Z) (cfg : TcpServerConfig) (waiter_set hook_set : bool).

Abbreviation submit := (submit waiter_set).
Abbreviation dispatch := (dispatch clock waiter_set).

Lemma submit_ok cmd c n q :
  inbound_ n = Some q -> Z.of_nat (length q) < kInboundCapacity ->
  exists n', submit cmd c n = (true, (c, n')) /\ net_appends [cmd] n n' /\ ticks_ n' = ticks_ n /\
    acks_ n' = acks_ n /\ conflated_ n' = conflated_ n.
Proof.
  intros Hq Hl. unfold tcp.submit. rewrite Hq. unfold bounded_push. rewrite (proj2 (Z.ltb_lt _ _)) by done.
  eexists. split; [reflexivity|]. split; [|done]. split; try done. cbn. by rewrite Hq.
Qed.

Lemma submit_full cmd c n q :
  inbound_ n = Some q -> kInboundCapacity <= Z.of_nat (length q) ->
  submit cmd c n = (false, (send_reject (c_client_order_id cmd) RATE_LIMITED c, n)).
Proof.
  intros Hq Hl. unfold tcp.submit. rewrite Hq. unfold bounded_push. by rewrite (proj2 (Z.ltb_ge _ _)).
Qed.

(** Submitting a command: queued, or answered with RATE_LIMITED. *)
Lemma submit_cases cmd c n :
  is_Some (inbound_ n) ->
  (exists n', submit cmd c n = (true, (c, n')) /\ net_appends [cmd] n n') \/
  submit cmd c n = (false, (send_reject (c_client_order_id cmd) RATE_LIMITED c, n)).
Proof.
  intros [q Hq]. destruct (Z.lt_ge_cases (Z.of_nat (length q)) kInboundCapacity) as [Hl|Hl].
  - left. destruct (submit_ok cmd c n q Hq Hl) as (n' & ? & ? & _). by exists n'.
  - right. by apply (submit_full _ _ _ q).
Qed.

(** The connection and the shared state after a command was queued. *)
Definition queued (cmd : OrderCommand) (q : list OrderCommand) (n : Net) : Net :=
  set_inbound (Some (q ++ [cmd])) (if waiter_set then S (signals_ n) else signals_ n) (set_ticks (S (ticks_ n)) n).

Definition granted_to (cmd : OrderCommand) (c : Connection) : Connection :=
  match c_type cmd with
  | CmdNewOrder => set_session (set_live ({[c_client_order_id cmd]} ∪ live_orders_ (c_session_ c)) (c_session_ c)) c
  | CmdSubscribe => set_subscribed true c
  | _ => c
  end.

(** What a frame carries, for the session [s]. *)
Inductive Carried := Unknown | Undecodable | NoQuantity (coid : Z) | Carries (cmd : OrderCommand).

Definition carried (f : Frame) (s : Z) : Carried :=
  match mtype_of (h_type (f_header f)) with
  | Some TNewOrder =>
      match decode_NewOrder (f_payload f) with
      | Some m => if no_quantity m =? 0 then NoQuantity (no_client_order_id m) else Carries (new_order s m)
      | None => Undecodable
      end
  | Some TCancel =>
      match decode_Cancel (f_payload f) with
      | Some m => Carries (cancel s (ca_client_order_id m)) | None => Undecodable end
  | Some TModify =>
      match decode_Modify (f_payload f) with Some m => Carries (modify s m) | None => Undecodable end
  | Some TSubscribe =>
      match decode_Subscribe (f_payload f) with
      | Some m => Carries (subscribe s (su_depth m)) | None => Undecodable end
  | _ => Unknown
  end.

(** A NewOrder under a client id that is live already. *)
Definition duplicate (cmd : OrderCommand) (c : Connection) : bool :=
  bool_decide (c_type cmd = CmdNewOrder) && has_order (c_client_order_id cmd) (c_session_ c).

(** Why a frame the limiter let through is refused, and in whose name. *)
Inductive refused (f : Frame) (c : Connection) (q : list OrderCommand) : Z -> RejectReason -> Prop :=
| R_unknown : carried f (conn_id c) = Unknown -> refused f c q 0 UNKNOWN_MESSAGE_TYPE
| R_malformed : carried f (conn_id c) = Undecodable -> refused f c q 0 MALFORMED
| R_no_quantity coid : carried f (conn_id c) = NoQuantity coid -> refused f c q coid INVALID_QTY
| R_duplicate cmd :
    carried f (conn_id c) = Carries cmd -> duplicate cmd c = true ->
    refused f c q (c_client_order_id cmd) DUPLICATE_ORDER_ID
| R_full cmd :
    carried f (conn_id c) = Carries cmd -> duplicate cmd c = false ->
    kInboundCapacity <= Z.of_nat (length q) -> refused f c q (c_client_order_id cmd) RATE_LIMITED.

Definition versioned (f : Frame) : bool := h_version (f_header f) =? kVersion.
Definition heartbeat (f : Frame) : bool :=
  match mtype_of (h_type (f_header f)) with Some THeartbeat => true | _ => false end.

(** What a client frame comes to with an engine attached, the inbound queue
    holding [q]: the commands queued, and exactly the connection and the shared
    state that result. *)
Inductive outcome (f : Frame) (c : Connection) (n : Net) (q : list OrderCommand)
    : list OrderCommand -> Connection -> Net -> Prop :=
| O_version : versioned f = false -> outcome f c n q [] (send_reject 0 MALFORMED c) n
| O_heartbeat : versioned f = true -> heartbeat f = true -> outcome f c n q [] c n
| O_limited b :
    versioned f = true -> heartbeat f = false -> allow (clock (ticks_ n)) (bucket c) = (false, b) ->
    outcome f c n q [] (send_reject 0 RATE_LIMITED (set_bucket b c)) (set_ticks (S (ticks_ n)) n)
| O_refused b coid r :
    versioned f = true -> heartbeat f = false -> allow (clock (ticks_ n)) (bucket c) = (true, b) ->
    refused f c q coid r ->
    outcome f c n q [] (send_reject coid r (set_bucket b c)) (set_ticks (S (ticks_ n)) n)
| O_command b cmd :
    versioned f = true -> heartbeat f = false -> allow (clock (ticks_ n)) (bucket c) = (true, b) ->
    carried f (conn_id c) = Carries cmd -> duplicate cmd c = false -> Z.of_nat (length q) < kInboundCapacity ->
    outcome f c n q [cmd] (granted_to cmd (set_bucket b c)) (queued cmd q n).

Lemma queue_writer bytes c c' :
  writer c = writer c' -> close_mode c = close_mode c' ->
  writer (queue bytes c) = writer (queue bytes c') /\
  close_mode (queue bytes c) = close_mode (queue bytes c').
Proof. intros Hw Hm. unfold queue. rewrite Hw. by destruct (write_buffer.append _ _) as [[] w]. Qed.

Lemma queue_live bytes c : c_session_ (queue bytes c) = c_session_ c.
Proof. unfold queue. by destruct (write_buffer.append _ _) as [[] w]. Qed.

Lemma forgotten_live coid c c1 :
  coid ∉ live_orders_ (c_session_ c) ->
  live_orders_ (c_session_ c1) = {[coid]} ∪ live_orders_ (c_session_ c) ->
  live_orders_ (c_session_ (forget_in_session coid c1)) = live_orders_ (c_session_ c).
Proof. intros Hn H1. cbn [forget_in_session forget_live set_session set_live c_session_ live_orders_ snd].
  rewrite H1. set_solver.
Qed.

Lemma reject_session coid r x c : send_reject coid r (set_session x c) = set_session x (send_reject coid r c).
Proof. unfold send_reject, queue. cbn [writer set_session]. by destruct (write_buffer.append _ _) as [[] w]. Qed.

Lemma set_session_same x c : x = c_session_ c -> set_session x c = c.
Proof. intros ->. by destruct c. Qed.

Lemma set_live_same l x : l = live_orders_ x -> set_live l x = x.
Proof. intros ->. by destruct x. Qed.

Lemma set_eq_difference (x : Z) (l : gset Z) : x ∉ l -> ({[x]} ∪ l) ∖ {[x]} = l.
Proof. intros Hn. apply set_eq. set_solver. Qed.

(** A registration that is undone leaves the session as it was. *)
Lemma register_forget coid c :
  coid ∉ live_orders_ (c_session_ c) ->
  forget_in_session coid (send_reject coid RATE_LIMITED (set_session (register_order coid (c_session_ c)).2 c)) =
  send_reject coid RATE_LIMITED c.
Proof.
  intros Hn. rewrite reject_session. unfold forget_in_session, register_order. cbn [forget_live fst snd c_session_ set_session].
  match goal with |- set_session ?x _ = _ => replace x with (c_session_ (send_reject coid RATE_LIMITED c)) end.
  - by destruct (send_reject coid RATE_LIMITED c).
  - unfold send_reject. rewrite queue_live. symmetry. unfold set_live. cbn.
    rewrite (set_eq_difference _ _ Hn). by destruct (c_session_ c).
Qed.

Lemma submit_exact cmd c n q :
  inbound_ n = Some q ->
  submit cmd c n =
    if Z.of_nat (length q) <? kInboundCapacity
    then (true, (c, set_inbound (Some (q ++ [cmd])) (if waiter_set then S (signals_ n) else signals_ n) n))
    else (false, (send_reject (c_client_order_id cmd) RATE_LIMITED c, n)).
Proof. intros Hq. unfold tcp.submit, bounded_push. rewrite Hq. by destruct (_ <? _). Qed.

(** The handlers of the four requests, the limiter having granted the frame. *)
Section granted.
Context (f : Frame) (c : Connection) (n : Net) (q : list OrderCommand) (b : TokenBucket).
Hypothesis Hq : inbound_ n = Some q.
Hypothesis Hv : versioned f = true.
Hypothesis Hb : heartbeat f = false.
Hypothesis Ha : allow (clock (ticks_ n)) (bucket c) = (true, b).

Definition comes_to (r : Connection * Net) : Prop := exists cmds, outcome f c n q cmds r.1 r.2.

Lemma comes_refused coid r :
  refused f c q coid r -> comes_to (send_reject coid r (set_bucket b c), set_ticks (S (ticks_ n)) n).
Proof. intros Hr. exists []. by apply O_refused. Qed.

Lemma comes_new_order :
  mtype_of (h_type (f_header f)) = Some TNewOrder ->
  comes_to (on_new_order waiter_set (f_payload f) (set_bucket b c) (set_ticks (S (ticks_ n)) n)).
Proof.
  intros Ht. assert (carried f (conn_id c) = match decode_NewOrder (f_payload f) with
    | Some m => if no_quantity m =? 0 then NoQuantity (no_client_order_id m) else Carries (new_order (conn_id c) m)
    | None => Undecodable end) as Hc by (unfold carried; by rewrite Ht).
  unfold on_new_order. destruct (decode_NewOrder _) as [m|]; [|by apply comes_refused, R_malformed].
  destruct (no_quantity m =? 0); [by apply comes_refused, R_no_quantity|].
  set (coid := no_client_order_id m) in *. unfold register_order at 1.
  destruct (has_order coid (c_session_ c)) eqn:Hd; (assert (duplicate (new_order (conn_id c) m) c = has_order coid (c_session_ c))
    as Hdup by reflexivity); rewrite Hd in Hdup; cbn [c_session_ set_bucket]; rewrite Hd; cbn [negb].
  - apply bool_decide_eq_true in Hd. rewrite set_session_same by (apply set_live_same, set_eq; cbn; set_solver).
    by apply comes_refused, (R_duplicate _ _ _ _ Hc).
  - apply bool_decide_eq_false in Hd. cbn [inbound_ set_ticks]. rewrite Hq, (submit_exact _ _ _ q) by done.
    destruct (Z.ltb_spec (Z.of_nat (length q)) kInboundCapacity) as [Hl|Hl].
    + exists [new_order (conn_id c) m]. exact (O_command _ _ _ _ b (new_order (conn_id c) m) Hv Hb Ha Hc Hdup Hl).
    + change (set_live ({[coid]} ∪ live_orders_ (c_session_ c)) (c_session_ c)) with
        (register_order coid (c_session_ (set_bucket b c))).2.
      change (c_client_order_id _) with coid. rewrite register_forget by done.
      by apply comes_refused, (R_full f c q (new_order (conn_id c) m)).
Qed.

(** Cancel, Modify and Subscribe. *)
Lemma comes_submit cmd :
  carried f (conn_id c) = Carries cmd -> c_type cmd <> CmdNewOrder ->
  (c_type cmd <> CmdSubscribe -> comes_to (submit cmd (set_bucket b c) (set_ticks (S (ticks_ n)) n)).2) /\
  (c_type cmd = CmdSubscribe -> comes_to
     (let '(ok, (c2, n2)) := submit cmd (set_bucket b c) (set_ticks (S (ticks_ n)) n) in
      (if ok then set_subscribed true c2 else c2, n2))).
Proof.
  intros Hc Hne. assert (duplicate cmd c = false) as Hd by (unfold duplicate; by rewrite bool_decide_eq_false_2).
  rewrite (submit_exact _ _ _ q) by done.
  destruct (Z.ltb_spec (Z.of_nat (length q)) kInboundCapacity) as [Hl|Hl]; cbn [fst snd].
  2: { split; intros _; by apply comes_refused, R_full. }
  pose proof (O_command _ _ _ _ b cmd Hv Hb Ha Hc Hd Hl) as Ho. unfold granted_to in Ho.
  split; intros Ht; exists [cmd]; destruct (c_type cmd); done.
Qed.

End granted.

Lemma dispatch_outcome f c n q : inbound_ n = Some q -> comes_to f c n q (dispatch f c n).
Proof.
  intros Hq. unfold tcp.dispatch. fold (versioned f).
  destruct (versioned f) eqn:Hv; cbn [negb]; [|exists []; by apply O_version].
  destruct (heartbeat f) eqn:Hh.
  { pose proof Hh as Ht. unfold heartbeat in Ht. exists []. destruct (mtype_of _) as [[]|]; try done. by apply O_heartbeat. }
  unfold monotonic_now. destruct (allow (clock (ticks_ n)) (bucket c)) as [ok b] eqn:Ha.
  assert (mtype_of (h_type (f_header f)) <> Some THeartbeat) as Hne by (intros E; unfold heartbeat in Hh; by rewrite E in Hh).
  destruct ok; cbn [negb].
  2: { exists []. destruct (mtype_of _) as [[]|]; try done; by apply O_limited. }
  pose proof (comes_submit f c n q b Hq Hv Hh Ha) as Hsub.
  pose proof (comes_new_order f c n q b Hq Hv Hh Ha) as Hnew.
  pose proof (comes_refused f c n q b Hv Hh Ha) as Href.
  unfold carried in *. destruct (mtype_of _) as [[]|] eqn:Ht; try done;
    try (by apply Href, R_unknown; unfold carried; rewrite Ht); [by apply Hnew|..].
  - unfold on_cancel. destruct (decode_Cancel _) as [m|] eqn:Ed; [|by apply Href, R_malformed; unfold carried; rewrite Ht, Ed].
    cbn [inbound_ set_ticks]. rewrite Hq. by apply Hsub.
  - unfold on_modify. destruct (decode_Modify _) as [m|] eqn:Ed; [|by apply Href, R_malformed; unfold carried; rewrite Ht, Ed].
    cbn [inbound_ set_ticks]. rewrite Hq. by apply Hsub.
  - unfold on_subscribe. destruct (decode_Subscribe _) as [m|] eqn:Ed; [|by apply Href, R_malformed; unfold carried; rewrite Ht, Ed].
    cbn [inbound_ set_ticks]. rewrite Hq. by apply Hsub.
Qed.

Lemma carried_client f s cmd : carried f s = Carries cmd -> client_command s cmd.
Proof.
  unfold carried. destruct (mtype_of _) as [[]|]; try done.
  - destruct (decode_NewOrder _) as [m|]; [|done]. destruct (Z.eqb_spec (no_quantity m) 0); [done|]. intros [= <-]. by split.
  - destruct (decode_Cancel _) as [m|]; [|done]. intros [= <-]. by split.
  - destruct (decode_Modify _) as [m|]; [|done]. intros [= <-]. by split.
  - destruct (decode_Subscribe _) as [m|]; [|done]. intros [= <-]. by split.
Qed.

(** What an outcome leaves alone. *)
Lemma outcome_frame f c n q cmds c' n' :
  inbound_ n = Some q -> outcome f c n q cmds c' n' ->
  same_conn c c' /\ net_appends cmds n n' /\ Forall (client_command (conn_id c)) cmds.
Proof.
  intros Hq Ho.
  assert (forall k, net_appends [] n (set_ticks k n)) as Htick by (intros k; destruct (net_appends_refl n); by split).
  destruct Ho as [| |b|b coid r|b cmd Hv Hh Ha Hc Hd Hl]; split_and!; try done; try apply send_reject_same; try apply net_appends_refl.
  - by etrans; [|apply send_reject_same].
  - by etrans; [|apply send_reject_same].
  - unfold granted_to. by destruct (c_type cmd).
  - split; try done. cbn. by rewrite Hq.
  - apply Forall_singleton. by eapply carried_client.
Qed.

(** ** Reading and writing *)

Definition served (c : Connection) (n : Net) (r : Connection * Net) : Prop :=
  exists cmds, same_conn c r.1 /\ net_appends cmds n r.2 /\ Forall (client_command (conn_id c)) cmds.

Lemma served_refl c n : served c n (c, n).
Proof. exists []. split; [done|]. split; [apply net_appends_refl|constructor]. Qed.

Lemma served_conn c n c1 n1 c2 : served c n (c1, n1) -> same_conn c1 c2 -> served c n (c2, n1).
Proof. intros (cmds & H1 & H2 & H3) H. exists cmds. split; [by etrans|done]. Qed.

Lemma served_inbound c n c1 n1 : served c n (c1, n1) -> is_Some (inbound_ n) -> is_Some (inbound_ n1).
Proof. intros (cmds & _ & [H _ _ _ _] & _) [q Hq]. cbn in H. rewrite H. by rewrite Hq. Qed.

Lemma served_trans c n c1 n1 r : served c n (c1, n1) -> served c1 n1 r -> served c n r.
Proof.
  intros (cmds & H1 & H2 & H3) (cmds' & H1' & H2' & H3'). exists (cmds ++ cmds').
  split; [by etrans|]. split; [by eapply net_appends_trans|]. apply Forall_app_2; [done|].
  cbn in H1. by rewrite (sc_id _ _ H1) in H3'.
Qed.

Lemma served_tick c n : served c n (c, (monotonic_now clock n).2).
Proof.
  exists []. split; [done|]. split; [|constructor]. destruct (net_appends_refl n). by split.
Qed.

Lemma dispatch_served f c n : is_Some (inbound_ n) -> served c n (dispatch f c n).
Proof.
  intros [q Hq]. destruct (dispatch_outcome f c n q Hq) as [cmds Ho].
  destruct (outcome_frame _ _ _ _ _ _ _ Hq Ho) as (H1 & H2 & H3). by exists cmds.
Qed.

Lemma dispatch_frames_served fuel c n :
  is_Some (inbound_ n) -> served c n (dispatch_frames clock waiter_set fuel c n).2.
Proof.
  revert c n. induction fuel as [|fuel IH]; intros c n Hin; [apply served_refl|]. cbn [dispatch_frames].
  destruct (next_frame (reader c)) as [[f|] r].
  2: { by eapply served_conn; [apply served_refl|]. }
  pose proof (dispatch_served f (set_reader r c) n Hin) as H.
  destruct (tcp.dispatch _ _ _ _ _) as [c1 n1].
  assert (served c n (c1, n1)) as H1.
  { eapply served_trans; [|exact H]. by eapply served_conn; [apply served_refl|]. }
  destruct (closing c1); [done|]. eapply served_trans; [exact H1|]. apply IH.
  by eapply served_inbound.
Qed.

Lemma handle_readable_served rs c n :
  is_Some (inbound_ n) -> served c n (handle_readable clock cfg waiter_set rs c n).
Proof.
  assert (forall c n, served c n (close_now c, n)) as Hclose.
  { intros c' n'. by eapply served_conn; [apply served_refl|]. }
  revert c n. induction rs as [|r rs IH]; intros c n Hin; [apply served_refl|].
  destruct r as [[|b bytes]| | |]; cbn [handle_readable]; [done| |apply served_refl|by apply IH|done].
  unfold monotonic_now. cbv beta iota zeta.
  set (c1 := set_session _ _). set (n1 := set_ticks _ n).
  assert (served c n (c1, n1)) as H1.
  { eapply served_conn; [apply served_tick|done]. }
  pose proof (dispatch_frames_served (S (FrameReader.buffered (reader c1))) c1 n1
    (served_inbound _ _ _ _ H1 Hin)) as H2.
  destruct (dispatch_frames _ _ _ _ _) as [returned [c2 n2]]. cbn [snd] in H2.
  pose proof (served_trans _ _ _ _ _ H1 H2) as H3.
  destruct returned; [done|].
  destruct (failed_ _); [by eapply served_trans; [exact H3|]|].
  destruct (_ <? _); [by eapply served_trans; [exact H3|]|].
  destruct (_ <? _); [done|]. eapply served_trans; [exact H3|]. apply IH. by eapply served_inbound.
Qed.

Lemma handle_writable_same ss c : same_conn c (handle_writable ss c).
Proof.
  revert c. induction ss as [|r ss IH]; intros c; cbn [handle_writable];
    destruct (write_buffer.empty _); try done.
  destruct r as [[|k]| | |]; try done. etrans; [|apply IH]. done.
Qed.

Lemma service_timer_same now c : same_conn c (service_timer now c).
Proof.
  unfold service_timer. destruct (timed_out _ _); [done|]. destruct (heartbeat_due _ _); [|done].
  etrans; [apply (queue_same (encode_frame THeartbeat (mkHeartbeat now)))|]. done.
Qed.

(** ** Draining *)

Definition is_tombstone (e : OrderEvent) : Prop := e_type e = EvSessionRetired.

Lemma deliver_same e c : ~ is_tombstone e -> same_conn c (deliver e c).
Proof.
  intros He. unfold deliver, is_tombstone in *. destruct (e_type e); try done.
  - destruct (e_closes_order e); (etrans; [|apply queue_same]); done.
  - etrans; [|apply send_reject_same]; done.
  - destruct (e_closes_order e); (etrans; [|apply queue_same]); done.
Qed.

(** Draining keeps identity and session state; what stays in the queue is the
    end of it; a connection stops retiring only by its tombstone. *)
Lemma drain_events_spec evs c :
  let '(rest, c') := drain_events evs c in
  conn_id c' = conn_id c /\ queues c' = queues c /\ state_ (c_session_ c') = state_ (c_session_ c) /\
  fd c' = fd c /\ (exists pre, evs = pre ++ rest) /\
  (retiring c' = retiring c \/ retiring c' = false /\ Exists is_tombstone evs).
Proof.
  revert c. induction evs as [|e evs IH]; intros c; cbn [drain_events].
  { split_and!; try done; [by exists []|by left]. }
  assert (conn_id (deliver e c) = conn_id c /\ queues (deliver e c) = queues c /\
    state_ (c_session_ (deliver e c)) = state_ (c_session_ c) /\ fd (deliver e c) = fd c /\
    (retiring (deliver e c) = retiring c \/ retiring (deliver e c) = false /\ is_tombstone e))
    as (H1 & H2 & H3 & H4 & H5).
  { destruct (decide (e_type e = EvSessionRetired)) as [He|He].
    - unfold deliver. rewrite He. cbn. split_and!; try done. by right.
    - destruct (deliver_same e c He). split_and!; try done. by left. }
  destruct (_ && _).
  - split_and!; try done; [by exists [e]|]. destruct H5 as [?|[? ?]]; [by left|right].
    split; [done|]. by constructor.
  - specialize (IH (deliver e c)). destruct (drain_events evs (deliver e c)) as [rest c'].
    destruct IH as (I1 & I2 & I3 & I4 & [pre ->] & I6). split_and!; try congruence.
    { by exists (e :: pre). }
    destruct I6 as [I6|[I6 I7]]; [|right; split; [done|by apply Exists_cons_tl]].
    destruct H5 as [?|[? ?]]; [left; congruence|right]. split; [congruence|by constructor].
Qed.

End server.

(** ** Claims *)

(** C24: [frame_outcome]. A frame from a client, whatever its bytes, comes to
    exactly one of three things. A frame of the protocol's version that is no
    heartbeat, that the limiter grants, that decodes to one of the four requests
    (a NewOrder with a quantity, under a client id not live), and that finds room
    in the inbound queue: the command it carries, of the sender's own session, is
    appended to the queue, the engine is woken, and nothing is written; the
    connection has a token less, and the client id of a NewOrder is live, or a
    Subscribe has subscribed it; nothing else changes. A frame that fails one of
    these: one Reject, with the reason of the first that fails, is queued for the
    client, and nothing else changes (the subscription and the live ids neither),
    but that the limiter was asked, if it came to that. A heartbeat: nothing. No
    frame registers a session or cancels all its orders. *)
Theorem frame_outcome (clock : nat -> Z) (waiter_set : bool) (f : Frame) (c : Connection) (n : Net)
    (q : list OrderCommand) :
  inbound_ n = Some q ->
  exists cmds c' n', tcp.dispatch clock waiter_set f c n = (c', n') /\
    outcome clock waiter_set f c n q cmds c' n' /\ Forall (client_command (conn_id c)) cmds /\
    same_conn c c' /\ net_appends cmds n n'.
Proof.
  intros Hq. destruct (dispatch_outcome clock waiter_set f c n q Hq) as [cmds Ho].
  destruct (outcome_frame _ _ _ _ _ _ _ _ _ Hq Ho) as (H1 & H2 & H3).
  destruct (tcp.dispatch _ _ _ _ _) as [c' n']. by exists cmds, c', n'.
Qed.

Definition clock0 (k : nat) : Z := 1000 * Z.of_nat k.
Definition sample_conn : Connection := connection 5 1 4096 0 session_config0 risk_config0 1.
Definition sample_order : NewOrder := mkNewOrder 7 100 10 Bid Limit.
Definition order_frame (m : NewOrder) : Frame :=
  mkFrame (mkHeader (Z.of_nat (length (encode_NewOrder [] m))) (mtype_code TNewOrder) kVersion)
    (encode_NewOrder [] m).

Lemma frame_outcome_witness :
  exists cmds c' n', tcp.dispatch clock0 true (order_frame sample_order) sample_conn (net0 true) = (c', n') /\
    outcome clock0 true (order_frame sample_order) sample_conn (net0 true) [] cmds c' n' /\
    Forall (client_command (conn_id sample_conn)) cmds /\
    same_conn sample_conn c' /\ net_appends cmds (net0 true) n'.
Proof. apply (frame_outcome clock0 true). reflexivity. Defined.

(** The connection after an order was queued. *)
Definition ordered (coid : Z) (b : TokenBucket) (c : Connection) : Connection :=
  set_session (register_order coid (c_session_ c)).2 (set_bucket b c).

Lemma dispatch_order (clock : nat -> Z) (waiter_set : bool) (m : NewOrder) (c : Connection) (n : Net)
    (q : list OrderCommand) (b : TokenBucket) :
  NewOrder_ok m -> no_quantity m <> 0 -> no_client_order_id m ∉ live_orders_ (c_session_ c) ->
  allow (clock (ticks_ n)) (bucket c) = (true, b) -> inbound_ n = Some q ->
  Z.of_nat (length q) < kInboundCapacity ->
  tcp.dispatch clock waiter_set (order_frame m) c n =
    (ordered (no_client_order_id m) b c, queued waiter_set (new_order (conn_id c) m) q n).
Proof.
  intros Hm Hq Hfree Hb Hin Hl. unfold tcp.dispatch. cbn [f_header order_frame h_version h_type f_payload].
  rewrite mtype_of_code. change (kVersion =? kVersion) with true. cbn [negb].
  unfold monotonic_now. cbv beta iota zeta. rewrite Hb. cbn [negb].
  unfold on_new_order. rewrite NewOrder_roundtrip by done. rewrite (proj2 (Z.eqb_neq _ _)) by done.
  unfold ordered, register_order, has_order. cbn [c_session_ set_bucket]. rewrite bool_decide_eq_false_2 by done.
  cbn [negb inbound_ set_ticks]. rewrite Hin. unfold tcp.submit. cbn [inbound_ set_ticks]. rewrite Hin.
  unfold bounded_push. by rewrite (proj2 (Z.ltb_lt _ _)).
Qed.

(** [order_reaches_queue]. The frame of any encodable order with a positive
    quantity and a client id not in use, from a session within its rate, becomes
    the NewOrder command with the same fields at the end of an inbound queue
    with room, and the client id becomes live. With the queue full the order is
    refused as RATE_LIMITED and its id stays free. *)
Theorem order_reaches_queue (clock : nat -> Z) (waiter_set : bool) (m : NewOrder) (c : Connection) (n : Net)
    (q : list OrderCommand) (b : TokenBucket) :
  NewOrder_ok m -> no_quantity m <> 0 -> no_client_order_id m ∉ live_orders_ (c_session_ c) ->
  allow (clock (ticks_ n)) (bucket c) = (true, b) -> inbound_ n = Some q ->
  exists c' n', tcp.dispatch clock waiter_set (order_frame m) c n = (c', n') /\
    if Z.of_nat (length q) <? kInboundCapacity
    then inbound_ n' = Some (q ++ [new_order (conn_id c) m]) /\ writer c' = writer c /\
         no_client_order_id m ∈ live_orders_ (c_session_ c')
    else inbound_ n' = Some q /\
         writer c' = writer (send_reject (no_client_order_id m) RATE_LIMITED c) /\
         live_orders_ (c_session_ c') = live_orders_ (c_session_ c).
Proof.
  intros Hm Hq Hfree Hb Hin.
  destruct (Z.ltb_spec (Z.of_nat (length q)) kInboundCapacity) as [Hl|Hl].
  { rewrite (dispatch_order clock waiter_set m c n q b) by done. eexists _, _. split; [reflexivity|].
    split; [done|]. split; [done|]. cbn. set_solver. }
  unfold tcp.dispatch. cbn [f_header order_frame h_version h_type f_payload].
  rewrite mtype_of_code. cbn [negb]. change (kVersion =? kVersion) with true. cbn [negb].
  unfold monotonic_now. cbv beta iota zeta. rewrite Hb. cbn [negb].
  unfold on_new_order. rewrite NewOrder_roundtrip by done.
  rewrite (proj2 (Z.eqb_neq _ _)) by done.
  unfold register_order, has_order. cbn [c_session_ set_bucket]. rewrite bool_decide_eq_false_2 by done.
  cbn [negb inbound_ set_ticks]. rewrite Hin.
  set (c1 := set_session _ _). set (n1 := set_ticks _ n).
  rewrite (submit_full waiter_set _ _ n1 q Hin Hl). eexists _, _. split; [reflexivity|].
  split; [done|]. split.
  - apply (queue_writer (encode_frame TReject (mkReject (no_client_order_id m) RATE_LIMITED)) c1 c); done.
  - apply forgotten_live; [done|]. unfold send_reject. by rewrite queue_live.
Qed.

Lemma order_reaches_queue_witness :
  exists c' n', tcp.dispatch clock0 true (order_frame sample_order) sample_conn (net0 true) = (c', n') /\
    inbound_ n' = Some [new_order 1 sample_order].
Proof.
  destruct (order_reaches_queue clock0 true sample_order sample_conn (net0 true) []
    (allow 0 (bucket sample_conn)).2) as (c' & n' & H & H1 & _).
  - vm_compute. done.
  - discriminate.
  - apply not_elem_of_empty.
  - vm_compute. reflexivity.
  - reflexivity.
  - exists c', n'. split; [exact H|exact H1].
Defined.
