(* ===== verification/Throttle.v ===== *)
(** The rate limit of a connection: the limiter is asked once for every frame
    that is not a heartbeat, a refused frame queues nothing, and so the commands
    a client gets into the inbound queue, over any number of reads, are bounded
    by what its token bucket grants. *)
From stdpp Require Import base numbers gmap list.
From Stdlib Require Import ZArith Lia SpecFloat Reals Lra.
From S2P Require Import Prelude Types Bytes Protocol FrameReader WriteBuffer Commands Spsc Egress.
From S2P Require Import RiskConfig Session Rounding RateLimit TcpServer TcpProps.
Import protocol tcp.

Lemma allow_all_app l1 l2 b :
  allow_all (l1 ++ l2) b =
  ((allow_all l1 b).1 ++ (allow_all l2 (allow_all l1 b).2).1, (allow_all l2 (allow_all l1 b).2).2).
Proof.
  revert b. induction l1 as [|x l1 IH]; intros b; cbn [allow_all app fst snd]; [by destruct (allow_all l2 b)|].
  destruct (allow x b) as [ok b1]. rewrite IH. by destruct (allow_all l1 b1) as [oks b2].
Qed.

Lemma granted_app l1 l2 : granted (l1 ++ l2) = (granted l1 + granted l2)%nat.
Proof. unfold granted. by rewrite filter_app, length_app. Qed.

Section server.
Context (clock : nat -> Z) (cfg : TcpServerConfig) (waiter_set hook_set : bool).

Lemma queue_bucket bytes c : bucket (queue bytes c) = bucket c.
Proof. unfold queue. by destruct (write_buffer.append _ _) as [[] w]. Qed.

Lemma reject_bucket coid r c : bucket (send_reject coid r c) = bucket c.
Proof. apply queue_bucket. Qed.

(** The times at which the limiter was asked, with what it let through. *)
Record metered (asked : list Z) (cmds : list OrderCommand) (c : Connection) (n : Net) (r : Connection * Net) : Prop := {
  me_bucket : bucket r.1 = (allow_all asked (bucket c)).2;
  me_cmds : (length cmds <= granted (allow_all asked (bucket c)).1)%nat;
  me_net : net_appends cmds n r.2;
  me_ticks : (ticks_ n <= ticks_ r.2)%nat;
  me_count : (length asked <= ticks_ r.2 - ticks_ n)%nat;
  me_asked : Forall (fun t => exists k, (ticks_ n <= k < ticks_ r.2)%nat /\ t = clock k) asked;
}.

Lemma metered_asked c n b ok cmds r :
  allow (clock (ticks_ n)) (bucket c) = (ok, b) -> bucket r.1 = b -> ticks_ r.2 = S (ticks_ n) ->
  (length cmds <= if ok then 1 else 0)%nat -> net_appends cmds n r.2 -> metered [clock (ticks_ n)] cmds c n r.
Proof.
  intros Ha Hb Ht Hl Hn. split; cbn; rewrite ?Ha; try done.
  - by destruct ok.
  - lia.
  - rewrite Ht. lia.
  - apply Forall_singleton. exists (ticks_ n). split; [lia|done].
Qed.

Lemma dispatch_metered f c n :
  is_Some (inbound_ n) -> exists asked cmds, metered asked cmds c n (dispatch clock waiter_set f c n).
Proof.
  intros [q Hq]. destruct (dispatch_outcome clock waiter_set f c n q Hq) as [cmds Ho].
  destruct (outcome_frame _ _ _ _ _ _ _ _ _ Hq Ho) as (_ & Hn & _). destruct (tcp.dispatch _ _ _ _ _) as [c' n'].
  cbn [fst snd] in *. destruct Ho as [| |b Hv Hh Ha|b coid r Hv Hh Ha Hr|b cmd Hv Hh Ha Hc Hd Hl].
  - exists [], []. split; cbn; try done; [apply reject_bucket|lia].
  - exists [], []. split; cbn; try done; lia.
  - exists [clock (ticks_ n)], []. eapply metered_asked; [exact Ha|apply reject_bucket|done..].
  - exists [clock (ticks_ n)], []. eapply metered_asked; [exact Ha|apply reject_bucket|done|cbn; lia|done].
  - exists [clock (ticks_ n)], [cmd]. eapply metered_asked; [exact Ha| |done|done|done].
    cbn. unfold granted_to. by destruct (c_type cmd).
Qed.

Lemma metered_trans a1 a2 k1 k2 c n c1 n1 r :
  metered a1 k1 c n (c1, n1) -> metered a2 k2 c1 n1 r -> metered (a1 ++ a2) (k1 ++ k2) c n r.
Proof.
  intros [B1 C1 N1 T1 L1 A1] [B2 C2 N2 T2 L2 A2]. cbn [fst snd] in *. rewrite B1 in B2, C2. split.
  - by rewrite allow_all_app.
  - rewrite allow_all_app. cbn [fst]. rewrite granted_app, length_app. lia.
  - by eapply net_appends_trans.
  - lia.
  - rewrite length_app. lia.
  - apply Forall_app. split; [eapply Forall_impl; [exact A1|]|eapply Forall_impl; [exact A2|]];
      intros t (k & Hk & ->); exists k; (split; [lia|done]).
Qed.

(** Steps that neither ask the limiter nor queue anything. *)
Lemma metered_quiet c n r :
  bucket r.1 = bucket c -> net_appends [] n r.2 -> (ticks_ n <= ticks_ r.2)%nat -> metered [] [] c n r.
Proof. intros. split; cbn; try done; lia. Qed.

Lemma metered_conn a k c n c1 n1 c2 : metered a k c n (c1, n1) -> bucket c2 = bucket c1 -> metered a k c n (c2, n1).
Proof. intros [] Hb. split; cbn in *; by rewrite ?Hb. Qed.

Lemma metered_inbound a k c n c1 n1 : metered a k c n (c1, n1) -> is_Some (inbound_ n) -> is_Some (inbound_ n1).
Proof. intros [_ _ [H _ _ _ _] _ _ _] [q Hq]. cbn in H. rewrite H. by rewrite Hq. Qed.

Lemma frames_metered fuel c n :
  is_Some (inbound_ n) -> exists a k, metered a k c n (dispatch_frames clock waiter_set fuel c n).2.
Proof.
  revert c n. induction fuel as [|fuel IH]; intros c n Hin; cbn [dispatch_frames].
  { exists [], []. apply metered_quiet; [done|apply net_appends_refl|done]. }
  destruct (next_frame (reader c)) as [[f|] r].
  2: { exists [], []. apply metered_quiet; [done|apply net_appends_refl|done]. }
  destruct (dispatch_metered f (set_reader r c) n Hin) as (a1 & k1 & H1).
  destruct (tcp.dispatch _ _ _ _ _) as [c1 n1].
  assert (metered a1 k1 c n (c1, n1)) as H1' by (destruct H1; by split).
  destruct (closing c1); [by exists a1, k1|].
  destruct (IH c1 n1 (metered_inbound _ _ _ _ _ _ H1' Hin)) as (a2 & k2 & H2).
  exists (a1 ++ a2), (k1 ++ k2). by eapply metered_trans.
Qed.

Lemma read_metered rs c n :
  is_Some (inbound_ n) -> exists a k, metered a k c n (handle_readable clock cfg waiter_set rs c n).
Proof.
  revert c n. induction rs as [|r rs IH]; intros c n Hin.
  { exists [], []. apply metered_quiet; [done|apply net_appends_refl|done]. }
  destruct r as [[|b bytes]| | |]; cbn [handle_readable];
    try (exists [], []; apply metered_quiet; [done|apply net_appends_refl|done]); [|by apply IH].
  unfold monotonic_now. cbv beta iota zeta. set (c1 := set_session _ _). set (n1 := set_ticks _ n).
  assert (metered [] [] c n (c1, n1)) as H1.
  { apply metered_quiet; [done|destruct (net_appends_refl n); by split|cbn; lia]. }
  destruct (frames_metered (S (FrameReader.buffered (reader c1))) c1 n1 (metered_inbound _ _ _ _ _ _ H1 Hin)) as (a & k & H2).
  destruct (dispatch_frames _ _ _ _ _) as [returned [c2 n2]]. cbn [snd] in H2.
  pose proof (metered_trans _ _ _ _ _ _ _ _ _ H1 H2) as H3. cbn [app] in H3.
  destruct returned; [by exists a, k|].
  destruct (failed_ _); [exists a, k; by eapply metered_conn|].
  destruct (_ <? _); [exists a, k; by eapply metered_conn|].
  destruct (_ <? _); [by exists a, k|].
  destruct (IH c2 n2 (metered_inbound _ _ _ _ _ _ H3 Hin)) as (a' & k' & H4).
  exists (a ++ a'), (k ++ k'). by eapply metered_trans.
Qed.

(** What else the server does to a connection: writing, delivering events and
    book updates, its timers, closing. *)
Inductive conn_op (c : Connection) : Connection -> Prop :=
| Op_write ss : conn_op c (handle_writable ss c)
| Op_egress n : conn_op c (drain_egress c n).1
| Op_market n : conn_op c (drain_market_data c n).1
| Op_timer now : conn_op c (service_timer now c)
| Op_hangup : conn_op c (close_now c)
| Op_kill n : conn_op c (kill_session waiter_set hook_set c n).1
| Op_closed : conn_op c (set_fd (-1) c)
| Op_parked : conn_op c (set_close CloseNone (flush_deadline_ns c) c).

Lemma writable_bucket ss c : bucket (handle_writable ss c) = bucket c.
Proof.
  revert c. induction ss as [|r ss IH]; intros c; cbn [handle_writable]; destruct (write_buffer.empty _); try done.
  destruct r as [[|k]| | |]; try done. by rewrite IH.
Qed.

Lemma deliver_bucket e c : bucket (deliver e c) = bucket c.
Proof.
  unfold deliver. destruct (e_type e); rewrite ?queue_bucket, ?reject_bucket; try done; by destruct (e_closes_order e).
Qed.

Lemma events_bucket evs c : bucket (drain_events evs c).2 = bucket c.
Proof.
  revert c. induction evs as [|e evs IH]; intros c; [done|]. cbn [drain_events].
  destruct (_ && _); [apply deliver_bucket|]. by rewrite IH, deliver_bucket.
Qed.

(** None of it touches the limiter. *)
Lemma conn_op_bucket c c' : conn_op c c' -> bucket c' = bucket c.
Proof.
  destruct 1 as [ss|n|n|now| |n| |]; try done.
  - apply writable_bucket.
  - unfold drain_egress. destruct (eg_store n !! _) as [q|]; [|done]. destruct (overflowed_ q); [done|].
    pose proof (events_bucket (q_items q) c) as H. by destruct (drain_events _ _) as [evs c'].
  - unfold drain_market_data. destruct (negb _); [done|]. destruct (mdq_store n !! _) as [q|]; [|done].
    destruct (last q); [|done]. apply queue_bucket.
  - unfold service_timer. destruct (timed_out _ _); [done|]. destruct (heartbeat_due _ _); [|done].
    apply (queue_bucket _ c).
  - unfold kill_session. destruct (mark_dead _) as [was s]. destruct (negb was); [done|].
    set (n1 := if hook_set then _ else n). destruct (inbound_ n1) as [q|] eqn:Hq; [|done].
    rewrite (submit_exact _ _ _ _ q Hq). destruct (_ <? _); [done|apply (reject_bucket _ _ (set_session s c))].
Qed.

(** What happens on a connection over time, in any order: reads, each on the
    shared state as it is by then, while the clock is at most [T], and anything
    else. Counted are the clock readings made during the reads, and the commands
    found at the end of the inbound queue after each. *)
Inductive traffic (T : Z) : nat -> nat -> Connection -> Connection -> Prop :=
| T_none c : traffic T 0 0 c c
| T_read c n q rs c1 n1 cmds readings sent c2 :
    handle_readable clock cfg waiter_set rs c n = (c1, n1) ->
    inbound_ n = Some q -> inbound_ n1 = Some (q ++ cmds) ->
    (forall i, (ticks_ n <= i < ticks_ n1)%nat -> clock i <= T) ->
    traffic T readings sent c1 c2 ->
    traffic T ((ticks_ n1 - ticks_ n) + readings) (length cmds + sent) c c2
| T_other c c1 readings sent c2 :
    conn_op c c1 -> traffic T readings sent c1 c2 -> traffic T readings sent c c2.

(** Traffic asks the limiter, no more often than it reads the clock, and only
    sends what the limiter grants. *)
Lemma traffic_metered T readings sent c c2 :
  traffic T readings sent c c2 ->
  exists asked, bucket c2 = (allow_all asked (bucket c)).2 /\
    (sent <= granted (allow_all asked (bucket c)).1)%nat /\ (length asked <= readings)%nat /\
    Forall (fun t => t <= T /\ exists i, t = clock i) asked.
Proof.
  induction 1 as [c|c n q rs c1 n1 cmds readings sent c2 E Hq Hq1 HT _ (a2 & IB & IC & IL & IA)|c c1 readings sent c2 Hop _ IH].
  - by exists [].
  - destruct (read_metered rs c n) as (a1 & k & [B C [Hk _ _ _ _] _ L A]); [by eexists|]. rewrite E in *. cbn [fst snd] in *.
    assert (cmds = k) as ->. { rewrite Hq, Hq1 in Hk. cbn in Hk. injection Hk as Hk. by apply app_inv_head in Hk. }
    exists (a1 ++ a2). rewrite allow_all_app. cbn [fst snd]. rewrite granted_app, length_app. rewrite B in IB, IC.
    split_and!; [done|lia|lia|]. apply Forall_app. split; [|done].
    eapply Forall_impl; [exact A|]. intros t (i & Hi & ->). split; [by apply HT|by exists i].
  - by rewrite (conn_op_bucket _ _ Hop) in IH.
Qed.

End server.

Lemma advances_le last l : (advances last l <= length l)%nat.
Proof. revert last. induction l as [|x l IH]; intros last; cbn; [done|]. specialize (IH (Z.max x last)). destruct (_ <=? _); lia. Qed.

Lemma foldr_max_le last l T : Forall (fun t => t <= T) l -> foldr Z.max last l <= Z.max last T.
Proof. induction 1; cbn; lia. Qed.

(** C15: [connection_rate_bounded]. What a client can get into the exchange: on a
    connection accepted at [now], after any traffic, take any further traffic
    during whose reads the clock is at most [T]. The commands its reads put into
    the inbound queue (whatever bytes the client sends, however they are cut,
    whatever else happens on the server and to the connection in between) number
    at most the configured burst, plus what the rate earns from the last time
    the limiter had seen to [T] (times [1 + 2^-50]), plus
    [(burst + 1) * 2^-52] of rounding for each clock reading the reads make (one
    for each [recv] with data, one for each frame that is not a heartbeat). Rate
    and burst are doubles that are numbers and not negative, the burst below
    2^53, and the clock is a 64-bit one. *)
Theorem connection_rate_bounded (clock : nat -> Z) (cfg : TcpServerConfig) (w hook : bool) (f id cap now p T0 T : Z)
    (risk : RiskConfig) (readings0 readings sent0 sent : nat) (c1 c2 : Connection) :
  nonneg (rate_per_sec risk) -> canon (rate_per_sec risk) -> nonneg (rate_burst risk) -> canon (rate_burst risk) ->
  dbl_lt (rate_burst risk) (double_of_Z (2 ^ 53)) = true -> (forall i, is_u64 (clock i)) -> is_u64 now ->
  traffic clock cfg w hook T0 readings0 sent0 (connection f id cap now (cfg_session cfg) risk p) c1 ->
  traffic clock cfg w hook T readings sent c1 c2 ->
  (INR sent <=
   val (rate_burst risk) +
   IZR (Z.max 0 (T - last_ns_ (bucket c1))) / 10 ^ 9 * val (rate_per_sec risk) * (1 + 4 * / 2 ^ 52)
   + INR readings * ((val (rate_burst risk) + 1) * / 2 ^ 52))%R.
Proof.
  intros Rn Rc Bn Bc Bl Hclk [Hnow _] H1 H2.
  destruct (traffic_metered _ _ _ _ _ _ _ _ _ H1) as (before & B1 & _ & _ & A1).
  destruct (traffic_metered _ _ _ _ _ _ _ _ _ H2) as (asked & _ & G2 & L2 & A2).
  assert (forall T l, Forall (fun t => t <= T /\ exists i, t = clock i) l -> Forall is_u64 l) as Hu.
  { intros U l Hl. eapply Forall_impl; [exact Hl|]. intros t (_ & i & ->). done. }
  pose proof (rate_limit_holds _ _ now before asked Rn Rc Bn Bc Bl Hnow (Hu _ _ A1) (Hu _ _ A2)) as Hr. cbn zeta in Hr.
  cbn [bucket connection] in B1. rewrite <- B1 in Hr. set (last := last_ns_ (bucket c1)) in *.
  pose proof (nonneg_val _ Rn) as R0. pose proof (nonneg_val _ Bn) as B0.
  pose proof (le_INR _ _ G2) as HG.
  pose proof (le_INR _ _ (Nat.le_trans _ _ _ (advances_le last asked) L2)) as HA.
  assert (foldr Z.max last asked <= Z.max last T) as HM.
  { apply foldr_max_le. eapply Forall_impl; [exact A2|]. by intros t [? _]. }
  set (span := foldr Z.max last asked - last) in *.
  assert (IZR span <= IZR (Z.max 0 (T - last)))%R as Hs by (apply IZR_le; lia).
  assert (0 < / 2 ^ 52)%R as He by (apply Rinv_0_lt_compat, pow_lt; lra).
  assert (IZR span / 10 ^ 9 * val (rate_per_sec risk) * (1 + 4 * / 2 ^ 52) <=
    IZR (Z.max 0 (T - last)) / 10 ^ 9 * val (rate_per_sec risk) * (1 + 4 * / 2 ^ 52))%R.
  { apply Rmult_le_compat_r; [lra|]. apply Rmult_le_compat_r; [done|]. unfold Rdiv.
    apply Rmult_le_compat_r; [apply Rlt_le, Rinv_0_lt_compat, pow_lt; lra|done]. }
  assert (INR (advances last asked) * ((val (rate_burst risk) + 1) * / 2 ^ 52) <=
    INR readings * ((val (rate_burst risk) + 1) * / 2 ^ 52))%R.
  { apply Rmult_le_compat_r; [apply Rmult_le_pos; lra|done]. }
  lra.
Qed.

(** A client that sends one order and reads nothing. *)
Definition slow_clock (k : nat) : Z := 1000000 * Z.of_nat (Nat.min k 1000).

Definition one_order : list RecvResult := [RData (encode_frame TNewOrder sample_order)].

Lemma slow_clock_ok i : is_u64 (slow_clock i).
Proof. unfold slow_clock. widths. lia. Qed.

Lemma connection_rate_bounded_witness :
  exists readings sent c2, traffic slow_clock tcp_config0 true false (2 ^ 40) readings sent sample_conn c2 /\
    (INR sent <= val (rate_burst risk_config0) +
      IZR (Z.max 0 (2 ^ 40 - last_ns_ (bucket sample_conn))) / 10 ^ 9 * val (rate_per_sec risk_config0) * (1 + 4 * / 2 ^ 52)
      + INR readings * ((val (rate_burst risk_config0) + 1) * / 2 ^ 52))%R.
Proof.
  destruct (handle_readable slow_clock tcp_config0 true one_order sample_conn (net0 true)) as [c1 n1] eqn:E.
  destruct (read_metered slow_clock tcp_config0 true one_order sample_conn (net0 true)) as (a & k & Hm); [by eexists|].
  rewrite E in Hm. pose proof (na_inbound _ _ _ (me_net _ _ _ _ _ _ Hm)) as Hk. cbn [snd] in Hk.
  assert (traffic slow_clock tcp_config0 true false (2 ^ 40) ((ticks_ n1 - 0) + 0) (length k + 0) sample_conn c1) as Ht.
  { apply (T_read slow_clock tcp_config0 true false (2 ^ 40) sample_conn (net0 true) [] one_order c1 n1 k 0 0 c1);
      [exact E|reflexivity|exact Hk| |constructor]. intros i _. unfold slow_clock. lia. }
  exists (ticks_ n1 - 0 + 0)%nat, (length k + 0)%nat, c1. split; [exact Ht|].
  assert (is_u64 0) as Hnow by (unfold is_u64; lia).
  assert (dbl_lt (rate_burst risk_config0) (double_of_Z (2 ^ 53)) = true) as Hb by (vm_compute; reflexivity).
  exact (connection_rate_bounded slow_clock tcp_config0 true false 5 1 4096 0 1 0 (2 ^ 40) risk_config0 0 _ 0 _ sample_conn c1
    I eq_refl I eq_refl Hb slow_clock_ok Hnow (T_none _ _ _ _ _ _) Ht).
Defined.
