(* ===== verification/EventLoop.v ===== *)
(** One turn of the event loop ([TcpServer::run]): the connections are served
    and drained from the last to the first while closing erases them from the
    list, and what a turn must leave behind is that none was skipped. *)
From stdpp Require Import base numbers gmap list.
From Stdlib Require Import ZArith Lia.
From S2P Require Import Prelude Types Bytes Protocol FrameReader WriteBuffer Commands Spsc Egress.
From S2P Require Import RiskConfig Session TcpServer TcpProps.
Import protocol tcp.

(** ** What the handlers of a connection keep *)

(** The queues and the socket stay; a connection stops retiring, or changes its
    close mode, only by asking to be closed at once. *)
Record kept (c c' : Connection) : Prop := mkKept {
  kp_queues : queues c' = queues c;
  kp_fd : fd c' = fd c;
  kp_state : state_ (c_session_ c') = state_ (c_session_ c);
  kp_mode : retiring c' = retiring c /\ close_mode c' = close_mode c \/ close_mode c' = Immediate;
}.

#[export] Instance kept_preorder : PreOrder kept.
Proof.
  split; [intros c; split; auto|]. intros c1 c2 c3 [Q1 F1 S1 M1] [Q2 F2 S2 M2].
  split; [congruence..|]. destruct M2 as [[R2 E2]|?]; [|by right].
  destruct M1 as [[R1 E1]|E1]; [left; split; congruence|right; congruence].
Qed.

(** A connection that is closed, or about to be. *)
Definition doomed (c : Connection) : Prop := retiring c = true \/ close_mode c = Immediate.

Lemma kept_doomed c c' : kept c c' -> doomed c -> doomed c'.
Proof.
  intros [_ _ _ [[Hr Hm]|H]]; [|by right]. intros [?|?]; [left|right]; congruence.
Qed.

Lemma kept_close c : kept c (close_now c).
Proof. split; try done. by right. Qed.

Lemma kept_queue bytes c : kept c (queue bytes c).
Proof. unfold queue. destruct (write_buffer.append _ _) as [[] w]; split; try done; [by left|by right]. Qed.

Lemma kept_reject coid r c : kept c (send_reject coid r c).
Proof. apply kept_queue. Qed.

Ltac kept_left := split; [done..|by left].

Section server.
Context (clock : nat -> Z) (cfg : TcpServerConfig) (waiter_set hook_set : bool).

(** The stores of queues and the allocation of pointers. *)
Definition same_stores (n n' : Net) : Prop :=
  eg_store n' = eg_store n /\ mdq_store n' = mdq_store n /\ next_ptr n' = next_ptr n /\
  (is_Some (inbound_ n) -> is_Some (inbound_ n')).

#[local] Instance same_stores_preorder : PreOrder same_stores.
Proof. split; [done|]. intros n1 n2 n3 (? & ? & ? & ?) (? & ? & ? & ?). unfold same_stores. split_and!; [congruence..|auto]. Qed.

Lemma appends_stores cmds n n' : net_appends cmds n n' -> same_stores n n'.
Proof. intros [H1 H2 H3 H4 _]. split_and!; try done. intros [q Hq]. rewrite H1, Hq. by eexists. Qed.

Lemma kept_dispatch f c n :
  is_Some (inbound_ n) -> kept c (dispatch clock waiter_set f c n).1.
Proof.
  intros [q Hq]. destruct (dispatch_outcome clock waiter_set f c n q Hq) as [cmds Ho].
  destruct (dispatch _ _ _ _ _) as [c' n']. cbn [fst snd] in *.
  destruct Ho as [| |b|b coid r|b cmd].
  - apply kept_reject.
  - done.
  - etrans; [|apply kept_reject]. kept_left.
  - etrans; [|apply kept_reject]. kept_left.
  - unfold granted_to. destruct (c_type cmd); kept_left.
Qed.

Lemma kept_frames fuel c n :
  is_Some (inbound_ n) -> kept c (dispatch_frames clock waiter_set fuel c n).2.1.
Proof.
  revert c n. induction fuel as [|fuel IH]; intros c n Hin; [done|]. cbn [dispatch_frames].
  destruct (next_frame (reader c)) as [[f|] r]; [|kept_left].
  pose proof (kept_dispatch f (set_reader r c) n Hin) as H1.
  pose proof (dispatch_served clock waiter_set f (set_reader r c) n Hin) as H2.
  destruct (dispatch _ _ _ _ _) as [c1 n1]. cbn [fst] in H1.
  assert (kept c c1) as H by (etrans; [|exact H1]; kept_left).
  destruct (closing c1); [done|]. etrans; [exact H|]. apply IH. by eapply served_inbound.
Qed.

Lemma kept_readable rs c n :
  is_Some (inbound_ n) -> kept c (handle_readable clock cfg waiter_set rs c n).1.
Proof.
  revert c n. induction rs as [|r rs IH]; intros c n Hin; [done|].
  destruct r as [[|b bytes]| | |]; cbn [handle_readable]; [apply kept_close| |done|by apply IH|apply kept_close].
  unfold monotonic_now. cbv beta iota zeta. set (c1 := set_session _ _). set (n1 := set_ticks _ n).
  pose proof (kept_frames (S (FrameReader.buffered (reader c1))) c1 n1 Hin) as H1.
  pose proof (dispatch_frames_served clock waiter_set (S (FrameReader.buffered (reader c1))) c1 n1 Hin) as H2.
  destruct (dispatch_frames _ _ _ _ _) as [returned [c2 n2]]. cbn [fst snd] in *.
  assert (kept c c2) as H by (etrans; [|exact H1]; kept_left).
  assert (kept c (close_now c2)) as Hc by (etrans; [exact H|apply kept_close]).
  destruct returned; [done|]. destruct (failed_ _); [done|]. destruct (_ <? _); [done|]. destruct (_ <? _); [done|].
  etrans; [exact H|]. apply IH. by eapply served_inbound.
Qed.

Lemma readable_stores rs c n :
  is_Some (inbound_ n) -> same_stores n (handle_readable clock cfg waiter_set rs c n).2.
Proof. intros Hin. destruct (handle_readable_served clock cfg waiter_set rs c n Hin) as (cmds & _ & H & _). by eapply appends_stores. Qed.

Lemma kept_writable ss c : kept c (handle_writable ss c).
Proof.
  revert c. induction ss as [|r ss IH]; intros c; cbn [handle_writable]; destruct (write_buffer.empty _); try done.
  destruct r as [[|k]| | |]; try done; try apply kept_close. etrans; [|apply IH]. kept_left.
Qed.

Lemma reader_writable ss c : reader (handle_writable ss c) = reader c.
Proof.
  revert c. induction ss as [|r ss IH]; intros c; cbn [handle_writable]; destruct (write_buffer.empty _); try done.
  destruct r as [[|k]| | |]; try done. by rewrite IH.
Qed.

Lemma reader_queue bytes c : reader (queue bytes c) = reader c.
Proof. unfold queue. by destruct (write_buffer.append _ _) as [[] w]. Qed.

Lemma kept_timer now c : kept c (service_timer now c) /\ reader (service_timer now c) = reader c.
Proof.
  unfold service_timer. destruct (timed_out _ _); [split; [apply kept_close|done]|].
  destruct (heartbeat_due _ _); [|by split]. split; [|apply (reader_queue _ c)].
  etrans; [apply (kept_queue (encode_frame THeartbeat (mkHeartbeat now)))|]. kept_left.
Qed.

(** ** Draining *)

Lemma deliver_kept e c : kept c (deliver e c) /\ reader (deliver e c) = reader c /\ subscribed (deliver e c) = subscribed c.
Proof.
  assert (forall bytes c0, kept c c0 -> reader c0 = reader c -> subscribed c0 = subscribed c ->
    kept c (queue bytes c0) /\ reader (queue bytes c0) = reader c /\ subscribed (queue bytes c0) = subscribed c) as Hq.
  { intros bytes c0 H1 H2 H3. split; [etrans; [exact H1|apply kept_queue]|]. unfold queue.
    by destruct (write_buffer.append _ _) as [[] w]. }
  unfold deliver, send_reject. destruct (e_type e).
  - apply Hq; destruct (e_closes_order e); first [done|kept_left].
  - apply Hq; first [done|kept_left].
  - apply Hq; destruct (e_closes_order e); first [done|kept_left].
  - split; [|done]. split; [done..|by right].
Qed.

(** Events are left behind only when the connection is to be closed. *)
Lemma events_kept evs c :
  let '(rest, c') := drain_events evs c in
  kept c c' /\ reader c' = reader c /\ subscribed c' = subscribed c /\ (close_mode c' <> Immediate -> rest = []).
Proof.
  revert c. induction evs as [|e evs IH]; intros c; cbn [drain_events]; [done|].
  destruct (deliver_kept e c) as (Hk & Hr & Hs).
  destruct (bool_decide_reflect (close_mode (deliver e c) = Immediate)); cbn [andb].
  - destruct (negb _); [done|]. specialize (IH (deliver e c)). destruct (drain_events _ _) as [rest c'].
    destruct IH as (? & ? & ? & ?). split_and!; [by etrans|congruence..|done].
  - specialize (IH (deliver e c)). destruct (drain_events _ _) as [rest c'].
    destruct IH as (? & ? & ? & ?). split_and!; [by etrans|congruence..|done].
Qed.

(** The queue of events of [p] has been emptied. *)
Definition no_events (n : Net) (p : Z) : Prop :=
  forall q, eg_store n !! p = Some q -> q_items q = [] /\ overflowed_ q = false.
Definition no_updates (n : Net) (p : Z) : Prop := forall q, mdq_store n !! p = Some q -> q = [].

(** Only the queues of [p] may have changed. *)
Definition touches (p : Z) (n n' : Net) : Prop :=
  next_ptr n' = next_ptr n /\ (is_Some (inbound_ n) -> is_Some (inbound_ n')) /\
  forall p', p' <> p -> eg_store n' !! p' = eg_store n !! p' /\ mdq_store n' !! p' = mdq_store n !! p'.

#[local] Instance touches_preorder p : PreOrder (touches p).
Proof.
  split; [by intros n|]. intros n1 n2 n3 (P1 & I1 & S1) (P2 & I2 & S2). split_and!; [congruence|auto|].
  intros p' Hp. destruct (S1 p' Hp), (S2 p' Hp). split; congruence.
Qed.

Lemma stores_touches p n n' : same_stores n n' -> touches p n n'.
Proof. intros (E & M & P & I). unfold touches. rewrite E, M. done. Qed.

Lemma drain_egress_kept c n :
  let '(c', n') := drain_egress c n in
  kept c c' /\ reader c' = reader c /\ subscribed c' = subscribed c /\ touches (queues c) n n' /\
  mdq_store n' = mdq_store n /\ (close_mode c' <> Immediate -> no_events n' (queues c)).
Proof.
  unfold drain_egress. destruct (eg_store n !! queues c) as [q|] eqn:Eq.
  2: { split_and!; try done. intros _ q Hq. congruence. }
  destruct (overflowed_ q) eqn:Eo; [split_and!; try done; apply kept_close|].
  pose proof (events_kept (q_items q) c) as H. destruct (drain_events _ _) as [rest c'].
  destruct H as (H1 & H2 & H3 & H4). rewrite (kp_queues _ _ H1). split_and!; try done.
  - split_and!; try done. intros p1 Hp. split; [|done]. cbn. by rewrite lookup_insert_ne.
  - intros Hm. intros q' Hq'. cbn in Hq'. rewrite lookup_insert_eq in Hq'. injection Hq' as <-. cbn. auto.
Qed.

Lemma drain_md_kept c n :
  let '(c', n') := drain_market_data c n in
  kept c c' /\ reader c' = reader c /\ subscribed c' = subscribed c /\ touches (queues c) n n' /\
  eg_store n' = eg_store n /\ (subscribed c = true -> no_updates n' (queues c)).
Proof.
  unfold drain_market_data. destruct (subscribed c) eqn:Es; cbn [negb]; [|done].
  destruct (mdq_store n !! queues c) as [q|] eqn:Eq.
  2: { split_and!; try done. intros _ q Hq. congruence. }
  destruct (last q) as [latest|] eqn:El.
  2: { split_and!; try done. intros _ q' Hq'. apply last_None in El. congruence. }
  split_and!; try done; [apply kept_queue|apply reader_queue|..].
  - unfold queue. by destruct (write_buffer.append _ _) as [[] w].
  - split_and!; try done. intros p1 Hp. split; [done|]. cbn. by rewrite lookup_insert_ne.
  - intros _ q' Hq'. cbn in Hq'. rewrite lookup_insert_eq in Hq'. by injection Hq' as <-.
Qed.

(** ** Closing *)

(** A retired connection: its socket is gone, its session is dead, and it is not
    asked to close. *)
Definition parked (c : Connection) : Prop :=
  retiring c = true -> fd c = -1 /\ close_mode c = CloseNone /\ state_ (c_session_ c) = Dead.

(** What has become of connection [i], which owned [p]: it is still there and
    [P] holds of it, or it is gone; the queues of others are untouched. *)
Definition turned (i : nat) (p : Z) (cs : list Connection) (n : Net) (r : list Connection * Net)
    (P : Net -> Connection -> Prop) : Prop :=
  touches p n r.2 /\
  ((exists c', r.1 = <[i := c']> cs /\ queues c' = p /\ parked c' /\ P r.2 c') \/ r.1 = delete i cs).

Lemma turned_impl i p cs n r (P Q : Net -> Connection -> Prop) :
  (forall c', P r.2 c' -> Q r.2 c') -> turned i p cs n r P -> turned i p cs n r Q.
Proof. intros H [Ht [(c' & ? & ? & ? & ?)|?]]; (split; [done|]); [left; exists c'; auto|by right]. Qed.

Lemma killed c n c1 n1 :
  is_Some (inbound_ n) -> kill_session waiter_set hook_set c n = (c1, n1) ->
  queues c1 = queues c /\ reader c1 = reader c /\ subscribed c1 = subscribed c /\
  same_stores n n1 /\ state_ (c_session_ c1) = Dead.
Proof.
  intros [q Hq]. unfold kill_session. destruct (mark_dead _) as [was s] eqn:Em.
  assert (state_ s = Dead) as Hd by (unfold mark_dead in Em; destruct (state_ (c_session_ c)) eqn:E; by injection Em as <- <-).
  destruct (negb was); [by intros [= <- <-]|].
  set (n0 := if hook_set then _ else n).
  assert (inbound_ n0 = Some q) as Hq0 by (unfold n0; by destruct hook_set).
  assert (same_stores n n0) as H0 by (unfold n0; by destruct hook_set).
  rewrite Hq0, (submit_exact _ _ _ _ q Hq0). destruct (_ <? _); intros [= <- <-].
  - split_and!; try done. etrans; [exact H0|]. split_and!; try done.
  - split_and!; try done; unfold send_reject, queue; by destruct (write_buffer.append _ _) as [[] w].
Qed.

Lemma close_turned i cs n c :
  is_Some (inbound_ n) -> cs !! i = Some c ->
  turned i (queues c) cs n (close_connection waiter_set hook_set i cs n)
    (fun _ c' => retiring c' = true /\ reader c' = reader c).
Proof.
  intros Hin Hi. unfold close_connection. rewrite Hi.
  destruct (kill_session _ _ _ _) as [c1 n1] eqn:Ek.
  destruct (killed c n c1 n1 Hin Ek) as (Hq & Hr & _ & Hs & Hd). cbn [retiring set_fd].
  destruct (retiring c1) eqn:Er; (split; [|]); cbn [fst snd].
  - by apply stores_touches.
  - left. eexists. split; [reflexivity|]. split_and!; try done.
  - etrans; [by apply stores_touches|]. split_and!; try done. intros p Hp. cbn. rewrite Hq.
    by rewrite !lookup_delete_ne.
  - by right.
Qed.

Lemma not_ready now c : ready_to_close now c = false -> close_mode c <> Immediate.
Proof. unfold ready_to_close. by intros H E; rewrite E in H. Qed.

Lemma delete_insert i c (cs : list Connection) : delete i (<[i:=c]> cs) = delete i cs.
Proof. revert i. induction cs as [|d cs IH]; intros [|i]; cbn; [done..|]. by rewrite IH. Qed.

(** The end of serving and of draining a connection: closed if it is ready. *)
Lemma finish_turned i c c' cs n (P : Net -> Connection -> Prop) :
  is_Some (inbound_ n) -> cs !! i = Some c -> kept c c' -> parked c ->
  (forall n' now, same_stores n n' -> ready_to_close now c' = false -> P n' c') ->
  (forall n' c2, retiring c2 = true -> reader c2 = reader c' -> parked c2 -> P n' c2) ->
  turned i (queues c) cs n (close_if_ready clock waiter_set hook_set i c' cs n) P.
Proof.
  intros Hin Hi Hk Hp Hstay Hclosed. unfold close_if_ready, monotonic_now. cbv beta iota zeta.
  set (n1 := set_ticks _ n). assert (same_stores n n1) as Hs by done.
  destruct (ready_to_close _ c') eqn:Er.
  - assert (<[i:=c']> cs !! i = Some c') as Hi' by (apply list_lookup_insert_eq; by eapply lookup_lt_Some).
    destruct (close_turned i (<[i:=c']> cs) n1 c' Hin Hi') as [Ht H].
    rewrite (kp_queues _ _ Hk) in Ht, H. split; [etrans; [by apply stores_touches|exact Ht]|].
    destruct H as [(c2 & -> & Hq & Hpk & Hret & Hrd)|H].
    + left. exists c2. split; [by rewrite list_insert_insert_eq|]. split; [done|]. split; [done|]. by apply Hclosed.
    + right. by rewrite H, delete_insert.
  - split; [by apply stores_touches|]. left. exists c'. pose proof (not_ready _ _ Er) as Hm.
    split; [done|]. split; [apply Hk|]. split; [|by eapply Hstay].
    intros Hr. destruct Hk as [_ Hf Hst [[Hr' Hm']|?]]; [|done]. rewrite Hr' in Hr. rewrite Hf, Hm', Hst. by apply Hp.
Qed.

(** ** One connection *)

(** [poll] found the connection in error or hung up. *)
Definition faulty (io : ConnIo) : bool := r_err io || r_hup io.

Lemma serve_turned io i cs n c :
  is_Some (inbound_ n) -> cs !! i = Some c -> parked c ->
  turned i (queues c) cs n (serve_one clock cfg waiter_set hook_set io i cs n)
    (fun _ c' => (doomed c -> doomed c') /\ (retiring c = true -> retiring c' = true /\ reader c' = reader c) /\
       (faulty io = true -> doomed c')).
Proof.
  intros Hin Hi Hp. unfold serve_one. rewrite Hi. set (io1 := if retiring c then no_io else io).
  destruct (r_err io1) eqn:Ee.
  { eapply turned_impl; [|by apply close_turned]. cbn. intros c' [Hr ?]. unfold doomed. auto. }
  set (c1 := if r_out io1 then _ else c). assert (kept c c1) as H1 by (unfold c1; destruct (r_out io1); [apply kept_writable|done]).
  destruct (if r_in io1 then _ else (c1, n)) as [c2 n2] eqn:Er.
  assert (kept c c2 /\ same_stores n n2) as [H2 Hs].
  { destruct (r_in io1); [|by injection Er as <- <-].
    pose proof (kept_readable (io_recv io1) c1 n Hin) as Hk. pose proof (readable_stores (io_recv io1) c1 n Hin) as Hs.
    rewrite Er in Hk, Hs. split; [by etrans|done]. }
  set (c3 := if r_hup io1 then close_now c2 else c2).
  assert (kept c c3) as H3 by (unfold c3; destruct (r_hup io1); [etrans; [exact H2|apply kept_close]|done]).
  assert (is_Some (inbound_ n2)) as Hin2 by by apply Hs.
  destruct (finish_turned i c c3 cs n2 (fun _ c' => (doomed c -> doomed c') /\
    (retiring c = true -> retiring c' = true /\ reader c' = reader c) /\ (faulty io = true -> doomed c')) Hin2 Hi H3 Hp) as [Ht H].
  - intros n' now _ Hm%not_ready. split; [by apply kept_doomed|]. split.
    + intros Hr. assert (io1 = no_io) as Eio by (unfold io1; by rewrite Hr).
      assert (c3 = c) as ->; [|done]. unfold c3, c1 in *. rewrite Eio in *. cbn in *. by injection Er as <- <-.
    + intros Hf. destruct (retiring c) eqn:Hr; [left; destruct H3 as [_ _ _ [[-> _]|?]]; [done|congruence]|].
      unfold faulty, io1 in *. rewrite Ee in Hf. cbn in Hf. right. unfold c3, io1. by rewrite Hf.
  - intros n' c2' Hr Hrd _. split; [by left|]. split; [|by left]. intros Hrc. split; [done|]. rewrite Hrd.
    assert (io1 = no_io) as Eio by (unfold io1; by rewrite Hrc).
    unfold c3, c1 in *. rewrite Eio in *. cbn in *. by injection Er as <- <-.
  - split; [etrans; [by apply stores_touches|exact Ht]|exact H].
Qed.

(** What a turn leaves: nothing to be closed at once, and of a connection that
    is not retiring no event and no book update left to deliver, and nothing
    written either if it only waits for its buffer. *)
Definition settled (n : Net) (c : Connection) : Prop :=
  close_mode c <> Immediate /\
  (retiring c = false ->
     no_events n (queues c) /\ (subscribed c = true -> no_updates n (queues c)) /\
     (close_mode c = AfterFlush -> write_buffer.empty (writer c) = false)).

Lemma parked_settled n c : retiring c = true -> parked c -> settled n c.
Proof. intros Hr Hp. destruct (Hp Hr) as (_ & Hm & _). split; congruence. Qed.

(** Queues of other connections do not matter. *)
Lemma settled_touches p n n' c : touches p n n' -> queues c <> p -> settled n c -> settled n' c.
Proof.
  intros (_ & _ & Hs) Hp [Hm H]. destruct (Hs _ Hp) as [He Hd]. split; [done|]. intros Hr.
  destruct (H Hr) as (H1 & H2 & H3). split_and!; [|intros Hsub|done]; intros q Hq.
  - apply H1. by rewrite <- He.
  - apply (H2 Hsub). exact (eq_trans (eq_sym Hd) Hq).
Qed.

Lemma settled_same n n' c : same_stores n n' -> settled n c -> settled n' c.
Proof.
  intros (He & Hd & _) [Hm H]. split; [done|]. unfold no_events, no_updates. rewrite He, Hd. done.
Qed.

Lemma ready_empty now c : close_mode c = AfterFlush -> write_buffer.empty (writer c) = true -> ready_to_close now c = true.
Proof. intros Hm Hw. unfold ready_to_close. by rewrite Hm, Hw. Qed.

Lemma drain_turned sends i cs n c :
  is_Some (inbound_ n) -> cs !! i = Some c -> parked c ->
  turned i (queues c) cs n (drain_one clock waiter_set hook_set sends i cs n)
    (fun n' c' => settled n' c' /\ (doomed c -> doomed c') /\
       (retiring c = true -> retiring c' = true /\ reader c' = reader c)).
Proof.
  intros Hin Hi Hp. unfold drain_one. rewrite Hi.
  pose proof (drain_egress_kept c n) as H1. destruct (drain_egress c n) as [c1 n1].
  destruct H1 as (K1 & R1 & S1 & T1 & D1 & E1).
  pose proof (drain_md_kept c1 n1) as H2. destruct (drain_market_data c1 n1) as [c2 n2].
  destruct H2 as (K2 & R2 & S2 & T2 & D2 & E2).
  set (c3 := if negb (write_buffer.empty (writer c2)) && (0 <=? fd c2) then handle_writable sends c2 else c2).
  assert (kept c2 c3) as K3 by (unfold c3; destruct (_ && _); [apply kept_writable|done]).
  assert (reader c3 = reader c2 /\ subscribed c3 = subscribed c2) as [R3 S3].
  { unfold c3. destruct (_ && _); [|done]. split; [apply reader_writable|].
    clear. revert c2. induction sends as [|r ss IH]; intros c2; cbn [handle_writable]; destruct (write_buffer.empty _); try done.
    destruct r as [[|k]| | |]; try done. by rewrite IH. }
  assert (kept c c3) as K by (etrans; [exact K1|]; by etrans).
  rewrite (kp_queues _ _ K1) in *.
  assert (touches (queues c) n n2) as T by (by etrans).
  assert (is_Some (inbound_ n2)) as Hin2 by by apply T.
  assert (forall n' now, same_stores n2 n' -> ready_to_close now c3 = false -> settled n' c3) as Hset.
  { intros n' now Hn Hr. pose proof (not_ready _ _ Hr) as Hm3. apply (settled_same n2); [done|]. split; [done|].
    intros _. rewrite (kp_queues _ _ K). split_and!.
    - unfold no_events. rewrite D2. apply E1. intros E. apply Hm3.
      destruct (kp_mode _ _ K2) as [[_ M2]|M2]; destruct (kp_mode _ _ K3) as [[_ M3]|M3]; congruence.
    - rewrite S3, S2. exact E2.
    - intros Hf. destruct (write_buffer.empty (writer c3)) eqn:Ew; [|done]. by rewrite (ready_empty now c3 Hf Ew) in Hr. }
  destruct (finish_turned i c c3 cs n2 (fun n' c' => settled n' c' /\ (doomed c -> doomed c') /\
    (retiring c = true -> retiring c' = true /\ reader c' = reader c)) Hin2 Hi K Hp) as [Ht H].
  - intros n' now Hn Hr. split; [by eapply Hset|]. split; [by apply kept_doomed|].
    intros Hrc. split; [|congruence]. apply not_ready in Hr.
    destruct K as [_ _ _ [[-> _]|?]]; [done|done].
  - intros n' c' Hr Hrd Hpk. split; [by apply parked_settled|]. split; [by left|]. intros _. split; [done|congruence].
  - split; [by etrans|exact H].
Qed.

(** ** All connections *)

(** Every connection has queues of its own, and the retired ones are parked. *)
Record loop_inv (cs : list Connection) (n : Net) : Prop := mkLoop {
  lo_nodup : NoDup (queues <$> cs);
  lo_below : Forall (fun c => queues c < next_ptr n) cs;
  lo_engine : is_Some (inbound_ n);
  lo_parked : Forall parked cs;
}.

(** What a connection passes on to the one in its place. *)
Definition passes (c c' : Connection) : Prop :=
  queues c' = queues c /\ (doomed c -> doomed c') /\
  (retiring c = true -> retiring c' = true /\ reader c' = reader c).

#[export] Instance passes_preorder : PreOrder passes.
Proof.
  split; [by intros c|]. intros c1 c2 c3 (Q1 & D1 & R1) (Q2 & D2 & R2). split_and!; [congruence|auto|].
  intros H. destruct (R1 H) as [H1 ?]. destruct (R2 H1). split; congruence.
Qed.

(** Every connection left comes from one that was there. *)
Definition descends (cs cs' : list Connection) : Prop := forall c', c' ∈ cs' -> exists c, c ∈ cs /\ passes c c'.

#[local] Instance descends_preorder : PreOrder descends.
Proof.
  split; [intros cs c Hc; by exists c|]. intros cs1 cs2 cs3 H1 H2 c3 Hc3.
  destruct (H2 _ Hc3) as (c2 & Hc2 & P2). destruct (H1 _ Hc2) as (c1 & Hc1 & P1). exists c1. split; [done|by etrans].
Qed.

Lemma same_queues (cs : list Connection) c d : NoDup (queues <$> cs) -> c ∈ cs -> d ∈ cs -> queues c = queues d -> c = d.
Proof.
  intros Hnd [i Hi]%list_elem_of_lookup [j Hj]%list_elem_of_lookup He.
  assert (i = j) as ->; [|congruence]. eapply (NoDup_lookup _ i j (queues c)); [exact Hnd|..];
    rewrite list_lookup_fmap; [by rewrite Hi|by rewrite Hj, He].
Qed.

Lemma elem_of_delete (cs : list Connection) i c c1 :
  NoDup (queues <$> cs) -> cs !! i = Some c -> c1 ∈ delete i cs -> c1 ∈ cs /\ queues c1 <> queues c.
Proof.
  intros Hnd Hi Hin. pose proof (delete_Permutation cs i c Hi) as Hp.
  split; [rewrite Hp; by right|]. intros He. rewrite Hp in Hnd. cbn in Hnd. apply NoDup_cons in Hnd as [Hn _].
  apply Hn. rewrite <- He. by apply list_elem_of_fmap_2.
Qed.

Lemma elem_of_insert (cs : list Connection) i c c1 c' :
  cs !! i = Some c -> c1 ∈ <[i := c']> cs -> c1 = c' \/ c1 ∈ delete i cs.
Proof.
  intros Hi. assert (<[i:=c']> cs !! i = Some c') as Hi' by (apply list_lookup_insert_eq; by eapply lookup_lt_Some).
  rewrite (delete_Permutation _ i c' Hi'), delete_insert, elem_of_cons. done.
Qed.

Lemma queues_replaced (cs : list Connection) i c c' :
  cs !! i = Some c -> queues c' = queues c -> queues <$> <[i:=c']> cs = queues <$> cs.
Proof. intros Hi Hq. rewrite list_fmap_insert, Hq. apply list_insert_id. by rewrite list_lookup_fmap, Hi. Qed.

Lemma turned_loop i cs n c r P :
  loop_inv cs n -> cs !! i = Some c -> turned i (queues c) cs n r P ->
  (forall c', queues c' = queues c -> P r.2 c' -> passes c c') ->
  loop_inv r.1 r.2 /\ descends cs r.1 /\ (forall j, (j < i)%nat -> r.1 !! j = cs !! j) /\
  (forall c1, c1 ∈ r.1 -> queues c1 = queues c -> P r.2 c1) /\ (i <= length r.1)%nat.
Proof.
  intros [Hnd Hb He Hp] Hi [(Hptr & Hin & _) H] Hpass. destruct r as [cs' n']. cbn [fst snd] in *.
  pose proof (lookup_lt_Some _ _ _ Hi) as Hlt. destruct H as [(c' & -> & Hq & Hpk & HP)| ->].
  - split; [split|split_and!].
    + by rewrite (queues_replaced _ _ c).
    + rewrite Hptr. apply Forall_insert; [done|]. rewrite Hq. rewrite Forall_lookup in Hb. by eapply Hb.
    + auto.
    + by apply Forall_insert.
    + intros c1 [->|[Hc1 _]%(elem_of_delete _ _ _ _ Hnd Hi)]%(elem_of_insert _ _ _ _ _ Hi); [|by exists c1]. exists c.
      split; [by eapply list_elem_of_lookup_2|]. by apply Hpass.
    + intros j Hj. by rewrite list_lookup_insert_ne by lia.
    + by intros c1 [->|[_ Hne]%(elem_of_delete _ _ _ _ Hnd Hi)]%(elem_of_insert _ _ _ _ _ Hi) Hq1.
    + rewrite length_insert. lia.
  - split; [split|split_and!].
    + rewrite list_fmap_delete. eapply sublist_NoDup; [exact Hnd|apply sublist_delete].
    + rewrite Hptr. by apply Forall_delete.
    + auto.
    + by apply Forall_delete.
    + intros c1 [Hc1 _]%(elem_of_delete _ _ _ _ Hnd Hi). by exists c1.
    + intros j Hj. by rewrite list_lookup_delete_lt by lia.
    + by intros c1 [_ Hne]%(elem_of_delete _ _ _ _ Hnd Hi) Hq1.
    + rewrite length_delete by (by eexists). lia.
Qed.

Lemma loop_lookup cs n i c : loop_inv cs n -> cs !! i = Some c -> is_Some (inbound_ n) /\ parked c.
Proof. intros [_ _ He Hp] Hi. split; [done|]. rewrite Forall_lookup in Hp. by eapply Hp. Qed.

Lemma serve_all_ok polled io i cs n :
  loop_inv cs n -> (i <= length cs)%nat ->
  let '(cs', n') := serve_all clock cfg waiter_set hook_set polled io i cs n in
  loop_inv cs' n' /\ descends cs cs' /\
  (forall j c c', (j < i)%nat -> (j < polled)%nat -> cs !! j = Some c -> faulty (io j) = true ->
     c' ∈ cs' -> queues c' = queues c -> doomed c').
Proof.
  revert cs n. induction i as [|i IH]; intros cs n Hl Hi; cbn [serve_all]; [split_and!; [done|done|lia]|].
  destruct (Nat.leb_spec polled i) as [Hle|Hlt].
  { specialize (IH cs n Hl ltac:(lia)). destruct (serve_all _ _ _ _ _ _ i cs n) as [cs' n'].
    destruct IH as (H1 & H2 & H3). split_and!; [done|done|]. intros j c c' Hj Hp. apply H3; lia. }
  destruct (lookup_lt_is_Some_2 cs i ltac:(lia)) as [c Hc]. destruct (loop_lookup _ _ _ _ Hl Hc) as [Hin Hpk].
  pose proof (serve_turned (io i) i cs n c Hin Hc Hpk) as Ht.
  destruct (turned_loop _ _ _ _ _ _ Hl Hc Ht) as (L1 & D1 & B1 & P1 & Le1).
  { intros c' Hq (H1 & H2 & _). done. }
  destruct (serve_one _ _ _ _ _ _ _ _) as [cs1 n1]. cbn [fst snd] in *.
  specialize (IH cs1 n1 L1 Le1). destruct (serve_all _ _ _ _ _ _ i cs1 n1) as [cs' n'].
  destruct IH as (H1 & H2 & H3). split_and!; [done|by etrans|].
  intros j d c' Hj Hp Hd Hf Hc' Hq. destruct (decide (j = i)) as [->|Hne].
  - assert (d = c) as -> by congruence. destruct (H2 _ Hc') as (c1 & Hc1 & Q1 & Dm & _).
    apply Dm. apply (P1 c1 Hc1); [congruence|done].
  - apply (H3 j d c'); try done; [lia|]. by rewrite B1 by lia.
Qed.

Lemma drain_all_ok sends i cs n :
  loop_inv cs n -> (i <= length cs)%nat -> (forall c j, (i <= j)%nat -> cs !! j = Some c -> settled n c) ->
  let '(cs', n') := drain_all clock waiter_set hook_set sends i cs n in
  loop_inv cs' n' /\ descends cs cs' /\ Forall (settled n') cs'.
Proof.
  revert cs n. induction i as [|i IH]; intros cs n Hl Hi Hs; cbn [drain_all].
  { split_and!; [done|done|]. apply Forall_lookup. intros j c Hc. apply (Hs c j); [lia|done]. }
  destruct (lookup_lt_is_Some_2 cs i ltac:(lia)) as [c Hc]. destruct (loop_lookup _ _ _ _ Hl Hc) as [Hin Hpk].
  pose proof (drain_turned (sends i) i cs n c Hin Hc Hpk) as Ht.
  destruct (turned_loop _ _ _ _ _ _ Hl Hc Ht) as (L1 & D1 & B1 & P1 & Le1).
  { intros c' Hq (_ & H1 & H2). done. }
  assert (forall d j, (i <= j)%nat -> (drain_one clock waiter_set hook_set (sends i) i cs n).1 !! j = Some d ->
    settled (drain_one clock waiter_set hook_set (sends i) i cs n).2 d) as Hs1.
  { intros d j Hj Hd. destruct (decide (queues d = queues c)) as [Hq|Hq].
    { by destruct (P1 d (list_elem_of_lookup_2 _ _ _ Hd) Hq). }
    destruct Ht as [Htch H]. apply (settled_touches (queues c) n); [done|done|].
    destruct H as [(c' & E & Hq' & _)|E]; rewrite E in Hd.
    - destruct (decide (i = j)) as [<-|Hne].
      + rewrite list_lookup_insert_eq in Hd by (by eapply lookup_lt_Some). congruence.
      + rewrite list_lookup_insert_ne in Hd by done. apply (Hs d j); [lia|done].
    - rewrite list_lookup_delete_ge in Hd by done. apply (Hs d (S j)); [lia|done]. }
  destruct (drain_one _ _ _ _ _ _ _) as [cs1 n1]. cbn [fst snd] in *.
  specialize (IH cs1 n1 L1 Le1 Hs1). destruct (drain_all _ _ _ _ i cs1 n1) as [cs' n'].
  destruct IH as (H1 & H2 & H3). split_and!; [done|by etrans|done].
Qed.

(** Accepting only adds connections, with new queues. *)
Lemma accept_one_ok f cs n :
  loop_inv cs n ->
  let '(cs', n') := accept_one clock cfg waiter_set f cs n in
  loop_inv cs' n' /\ (ticks_ n <= ticks_ n')%nat /\ exists l, cs' = cs ++ l.
Proof.
  intros [Hnd Hb [q Hq] Hp]. unfold accept_one, monotonic_now. cbv beta iota zeta. cbn [inbound_ set_stores set_alloc set_ticks].
  rewrite Hq. set (n1 := set_ticks _ _). assert (inbound_ n1 = Some q) as Hq1 by done.
  set (c := connection _ _ _ _ _ _ _). set (cmd := session_opened _ _ _).
  assert (forall c1 n2, queues c1 = next_ptr n -> retiring c1 = false -> next_ptr n2 = next_ptr n + 1 ->
    is_Some (inbound_ n2) -> (ticks_ n <= ticks_ n2)%nat ->
    loop_inv (cs ++ [c1]) n2 /\ (ticks_ n <= ticks_ n2)%nat /\ exists l, cs ++ [c1] = cs ++ l) as Hadd.
  { intros c1 n2 Hq2 Hr Hptr Hin Ht. split; [split|split; [done|by eexists]].
    - rewrite fmap_app. cbn. rewrite Hq2. apply NoDup_app. split; [done|]. split; [|apply NoDup_singleton].
      intros p (d & -> & Hd)%list_elem_of_fmap Hp2%list_elem_of_singleton.
      rewrite Forall_forall in Hb. specialize (Hb d Hd). cbn in Hb. lia.
    - rewrite Hptr. apply Forall_app. split; [eapply Forall_impl; [exact Hb|]; cbn; lia|]. apply Forall_singleton. lia.
    - done.
    - apply Forall_app. split; [done|]. apply Forall_singleton. intros H. congruence. }
  rewrite (submit_exact _ _ _ _ q Hq1). destruct (_ <? _); apply Hadd; try done; try (cbn; lia); try by eexists.
  - unfold send_reject, queue. by destruct (write_buffer.append _ _) as [[] w].
  - unfold send_reject, queue. by destruct (write_buffer.append _ _) as [[] w].
Qed.

Lemma accept_new_ok rs cs n :
  loop_inv cs n ->
  let '(cs', n') := accept_new clock cfg waiter_set rs cs n in
  loop_inv cs' n' /\ (ticks_ n <= ticks_ n')%nat /\ exists l, cs' = cs ++ l.
Proof.
  assert (forall cs, exists l : list Connection, cs = cs ++ l) as Hnil by (intros l; exists []; by rewrite app_nil_r).
  revert cs n. induction rs as [|r rs IH]; intros cs n Hl; [done|].
  destruct r as [f []| | | |]; cbn [accept_new]; try done; try by apply IH.
  - pose proof (accept_one_ok f cs n Hl) as H1. destruct (accept_one _ _ _ _ _ _) as [cs1 n1].
    destruct H1 as (L1 & T1 & l1 & ->). specialize (IH _ _ L1). destruct (accept_new _ _ _ _ _ _) as [cs2 n2].
    destruct IH as (L2 & T2 & l2 & ->). split_and!; [done|lia|]. exists (l1 ++ l2). by rewrite app_assoc.
  - unfold monotonic_now. split; [destruct Hl; by split|]. split; [cbn; lia|done].
Qed.

(** The timers leave retired connections alone. *)
Lemma timer_passes now c : parked c -> passes c (service_timer now c) /\ parked (service_timer now c).
Proof.
  intros Hp. destruct (retiring c) eqn:Hr.
  - assert (service_timer now c = c) as ->; [|done]. destruct (Hp Hr) as (_ & _ & Hd).
    unfold service_timer, timed_out, heartbeat_due, alive. by rewrite Hd.
  - destruct (kept_timer now c) as [Hk Hrd]. split.
    + split; [apply Hk|]. split; [by apply kept_doomed|]. congruence.
    + assert (retiring (service_timer now c) = false) as Hr'; [|intros H; congruence].
      unfold service_timer. destruct (timed_out _ _); [done|]. destruct (heartbeat_due _ _); [|done].
      cbn. unfold queue. by destruct (write_buffer.append _ _) as [[] w].
Qed.

Lemma timers_ok now cs n :
  loop_inv cs n -> loop_inv (service_timers now cs) n /\ descends cs (service_timers now cs).
Proof.
  intros [Hnd Hb He Hp]. unfold service_timers. rewrite Forall_forall in Hp.
  assert (queues <$> (service_timer now <$> cs) = queues <$> cs) as Hq.
  { rewrite <- list_fmap_compose. apply list_fmap_ext. intros i c Hc. apply list_elem_of_lookup_2 in Hc.
    apply (proj1 (timer_passes now c (Hp _ Hc))). }
  split; [split|].
  - by rewrite Hq.
  - apply Forall_fmap. rewrite Forall_forall in Hb |- *. intros c Hc. cbn.
    rewrite (proj1 (proj1 (timer_passes now c (Hp _ Hc)))). by apply Hb.
  - done.
  - apply Forall_fmap, Forall_forall. intros c Hc. apply (timer_passes now c (Hp _ Hc)).
  - intros c' (c & -> & Hc)%list_elem_of_fmap. exists c. split; [done|]. apply (timer_passes now c (Hp _ Hc)).
Qed.

End server.

(** ** Claims *)

(** C25: [turn_settles]. One turn of the event loop serves, drains and closes every
    connection it should, though closing erases connections from the list it is
    walking. Let [poll] succeed, with any answers of [accept], [recv] and [send],
    on connections that own distinct queues and of which the retired ones have
    no socket, and with an engine attached. Then this holds of the connections
    left as well, and: none of them is to be closed at once; none that is not
    retired has an event or, being subscribed, a book update left to deliver,
    nor waits to close with nothing to write. A connection from before the turn
    that had timed out when the timers were read, or that was to be closed at
    once, or that [poll] reported in error or hung up, is gone or retired; a
    retired one is gone or still retired, and nothing was read from it. (Events
    the matching thread pushes meanwhile are found by the next turn.) *)
Theorem turn_settles (clock : nat -> Z) (cfg : TcpServerConfig) (waiter_set hook_set listener_in : bool)
    (accepts : list AcceptResult) (io : nat -> ConnIo) (sends : nat -> list SendResult)
    (cs cs' : list Connection) (n n' : Net) :
  loop_inv cs n ->
  run_once clock cfg waiter_set hook_set (PollOk listener_in) accepts io sends cs n = Some (cs', n') ->
  loop_inv cs' n' /\ Forall (settled n') cs' /\
  exists k, (ticks_ n < k)%nat /\
    forall i c c', cs !! i = Some c -> c' ∈ cs' -> queues c' = queues c ->
      (timed_out (clock k) (c_session_ c) = true \/ close_mode c = Immediate \/ faulty (io i) = true ->
         retiring c' = true) /\
      (retiring c = true -> retiring c' = true /\ reader c' = reader c).
Proof.
  intros Hl. unfold run_once, monotonic_now. cbv beta iota zeta. set (n0 := set_ticks _ n).
  assert (loop_inv cs n0) as Hl0 by (destruct Hl; by split).
  destruct (if _ : bool then accept_new _ _ _ _ _ _ else (cs, n0)) as [cs1 n1] eqn:Ea.
  assert (loop_inv cs1 n1 /\ (ticks_ n < ticks_ n1)%nat /\ exists l, cs1 = cs ++ l) as (L1 & T1 & l & ->).
  { destruct (_ && _).
    - pose proof (accept_new_ok clock cfg waiter_set accepts cs n0 Hl0) as H. rewrite Ea in H.
      destruct H as (? & H & ?). split_and!; [done|cbn in H; lia|done].
    - injection Ea as <- <-. split_and!; [done|cbn; lia|]. exists []. by rewrite app_nil_r. }
  set (now := clock (ticks_ n1)). set (n2 := set_ticks (S (ticks_ n1)) n1).
  assert (loop_inv (cs ++ l) n2) as L1' by (destruct L1; by split).
  destruct (timers_ok now _ _ L1') as [L2 D2]. set (cs2 := service_timers now (cs ++ l)) in *.
  pose proof (serve_all_ok clock cfg waiter_set hook_set (length cs) io (length cs2) cs2 n2 L2 (le_n _)) as H3.
  destruct (serve_all _ _ _ _ _ _ _ _ _) as [cs3 n3]. destruct H3 as (L3 & D3 & F3).
  pose proof (drain_all_ok clock waiter_set hook_set sends (length cs3) cs3 n3 L3 (le_n _)) as H4.
  destruct (drain_all _ _ _ _ _ _ _) as [cs4 n4].
  destruct H4 as (L4 & D4 & S4). { intros c j Hj Hc. apply lookup_lt_Some in Hc. lia. }
  intros [= <- <-]. split_and!; [done|done|]. exists (ticks_ n1). split; [done|].
  intros i c c' Hc Hc' Hq.
  assert (cs2 !! i = Some (service_timer now c)) as Hc2.
  { unfold cs2, service_timers. rewrite list_lookup_fmap, lookup_app_l by (by eapply lookup_lt_Some). by rewrite Hc. }
  destruct (D4 _ Hc') as (c3 & Hc3 & P4). destruct (D3 _ Hc3) as (c2 & Hcs2 & P3).
  destruct (loop_lookup _ _ _ _ Hl Hc) as [_ Hpk]. destruct (timer_passes now c Hpk) as [P2 _].
  assert (c2 = service_timer now c) as ->.
  { apply (same_queues cs2); [apply L2|done|by eapply list_elem_of_lookup_2|].
    rewrite (proj1 P2), <- Hq, (proj1 P4), (proj1 P3). done. }
  assert (doomed c' -> retiring c' = true) as Hdone.
  { intros [?|Hm]; [done|]. rewrite Forall_forall in S4. by destruct (S4 _ Hc') as [? _]. }
  split.
  - intros H. apply Hdone. destruct P4 as (Q4 & Dm4 & _), P3 as (Q3 & Dm3 & _). apply Dm4.
    destruct H as [H|[H|H]].
    + apply Dm3. right. fold now in H. unfold service_timer. by rewrite H.
    + apply Dm3, P2. by right.
    + apply (F3 i (service_timer now c) c3); [by eapply lookup_lt_Some| |done..]. by eapply lookup_lt_Some.
  - intros Hr. assert (passes c c') as (_ & _ & H); [|by apply H]. etrans; [exact P2|]. by etrans.
Qed.

(** Two clients: an event waits for the first, the second has hung up. *)
Definition turn_conns : list Connection :=
  [connection 5 1 4096 0 session_config0 risk_config0 1; connection 6 2 4096 0 session_config0 risk_config0 2].
Definition turn_net : Net :=
  set_alloc 3 3 (set_stores {[1 := mkEgress [ev_reject 1 7 UNKNOWN_ORDER] false; 2 := egress_queue0]}
    {[1 := []; 2 := []]} (net0 true)).
Definition turn_io (i : nat) : ConnIo :=
  if (i =? 1)%nat then mkConnIo false false false true [] [] else no_io.

Lemma turn_settles_witness :
  exists cs' n', run_once clock0 tcp_config0 true false (PollOk false) [] turn_io (fun _ => []) turn_conns turn_net =
      Some (cs', n') /\
    Forall (settled n') cs' /\ forall c', c' ∈ cs' -> queues c' = 2 -> retiring c' = true.
Proof.
  destruct (run_once clock0 tcp_config0 true false (PollOk false) [] turn_io (fun _ => []) turn_conns turn_net)
    as [[cs' n']|] eqn:E; [|exfalso; vm_compute in E; discriminate].
  destruct (turn_settles clock0 tcp_config0 true false false [] turn_io (fun _ => []) turn_conns cs' turn_net n')
    as (_ & Hs & k & _ & H).
  - split; [change (NoDup [1; 2]); vm_decide|by repeat (apply Forall_cons; split)|by eexists|].
    by repeat (apply Forall_cons; split; [discriminate|]).
  - exact E.
  - exists cs', n'. split; [reflexivity|]. split; [exact Hs|]. intros c' Hc Hq.
    destruct (H 1%nat (connection 6 2 4096 0 session_config0 risk_config0 2) c' eq_refl Hc Hq) as [Hd _].
    apply Hd. right. right. reflexivity.
Defined.
