(* ===== verification/MatchingThread.v ===== *)
(** The matching thread (include/ome/matching_thread.hpp): the single writer of
    the book.

    The state is split in two records. [Core] is what the command stream
    determines and what recovery has to rebuild: the engine, the ownership
    tables, the counters. [MatchingThread] adds what belongs to the running
    process: connections, queues, the log, snapshots, statistics. Every handler
    is one definition, with the emits and table updates in the order of the
    source. The queues of a connection live in a shared store addressed by the
    pointer a command carried; the clock and the outcome of system calls are
    arguments.

    Signed 64-bit arithmetic that would overflow is undefined in the source; it
    is written here with wrap-around ([i64]), and the theorems about it carry
    the bounds under which nothing wraps. *)
From stdpp Require Import base numbers gmap list.
From Stdlib Require Import ZArith Lia.
From S2P Require Import Prelude Types OrderBook Engine Bytes Protocol Commands Wal Snapshot Egress.
From S2P Require Import RiskConfig.

(** ** State *)

(** Ownership bookkeeping, keyed by exchange order id but for the last two. *)
Record Tables := mkTables {
  owner_of_ : gmap Z Z;
  client_id_of_ : gmap Z Z;
  remaining_of_ : gmap Z Z;
  side_of_ : gmap Z Side;
  session_orders_ : gmap Z (gset Z);
  by_client_id_ : gmap Z Z;
}.

Definition tables0 : Tables := mkTables ∅ ∅ ∅ ∅ ∅ ∅.

Record Core := mkCore {
  engine_ : MatchingEngine;
  tables_ : Tables;
  last_trade_ticks_ : Z;
  next_exchange_id_ : Z;
  logical_clock_ : Z;
}.

Definition core0 : Core := mkCore empty_engine tables0 0 1 0.

Definition with_engine (e : MatchingEngine) (k : Core) : Core :=
  mkCore e (tables_ k) (last_trade_ticks_ k) (next_exchange_id_ k) (logical_clock_ k).
Definition with_tables (t : Tables) (k : Core) : Core :=
  mkCore (engine_ k) t (last_trade_ticks_ k) (next_exchange_id_ k) (logical_clock_ k).
Definition with_last_trade (p : Z) (k : Core) : Core :=
  mkCore (engine_ k) (tables_ k) p (next_exchange_id_ k) (logical_clock_ k).

Record MatchingStats := mkStats {
  commands_applied : Z; events_emitted : Z; egress_overflows : Z; wal_failures : Z;
  market_data_dropped : Z; snapshots : Z; snapshot_failures : Z; sessions_retired : Z;
}.

Definition stats0 : MatchingStats := mkStats 0 0 0 0 0 0 0 0.

(** [SnapshotPolicy] and the two counters beside it; [snap_path_set] is
    [!path.empty()]. *)
Record SnapState := mkSnapState {
  snap_path_set : bool; snap_every_n : Z; next_snapshot_at_ : Z; last_snapshot_seq_ : Z }.

Record MatchingThread := mkMT {
  core_ : Core;
  risk_ : RiskConfig;
  replaying_ : bool;
  wal_ : option Wal;
  snap_ : SnapState;
  (** the files at [path] and [path.prev] *)
  snap_file : option (list Z);
  snap_prev : option (list Z);
  egress_ : gmap Z (option Z);
  md_ : gmap Z (option Z);
  subscribers_ : gmap Z Z;
  book_seq_ : Z;
  (** the queues of the connections, by pointer *)
  egress_store : gmap Z EgressQueue;
  md_store : gmap Z MarketDataQueue;
  stats_ : MatchingStats;
}.

Definition set_core (k : Core) (m : MatchingThread) : MatchingThread :=
  mkMT k (risk_ m) (replaying_ m) (wal_ m) (snap_ m) (snap_file m) (snap_prev m) (egress_ m) (md_ m)
    (subscribers_ m) (book_seq_ m) (egress_store m) (md_store m) (stats_ m).
Definition set_replaying (b : bool) (m : MatchingThread) : MatchingThread :=
  mkMT (core_ m) (risk_ m) b (wal_ m) (snap_ m) (snap_file m) (snap_prev m) (egress_ m) (md_ m)
    (subscribers_ m) (book_seq_ m) (egress_store m) (md_store m) (stats_ m).
Definition set_wal (w : option Wal) (m : MatchingThread) : MatchingThread :=
  mkMT (core_ m) (risk_ m) (replaying_ m) w (snap_ m) (snap_file m) (snap_prev m) (egress_ m) (md_ m)
    (subscribers_ m) (book_seq_ m) (egress_store m) (md_store m) (stats_ m).
Definition set_snap (s : SnapState) (f p : option (list Z)) (m : MatchingThread) : MatchingThread :=
  mkMT (core_ m) (risk_ m) (replaying_ m) (wal_ m) s f p (egress_ m) (md_ m)
    (subscribers_ m) (book_seq_ m) (egress_store m) (md_store m) (stats_ m).
Definition set_conns (eg md : gmap Z (option Z)) (sub : gmap Z Z) (m : MatchingThread) : MatchingThread :=
  mkMT (core_ m) (risk_ m) (replaying_ m) (wal_ m) (snap_ m) (snap_file m) (snap_prev m) eg md
    sub (book_seq_ m) (egress_store m) (md_store m) (stats_ m).
Definition set_queues (seq : Z) (es : gmap Z EgressQueue) (ms : gmap Z MarketDataQueue)
    (st : MatchingStats) (m : MatchingThread) : MatchingThread :=
  mkMT (core_ m) (risk_ m) (replaying_ m) (wal_ m) (snap_ m) (snap_file m) (snap_prev m) (egress_ m) (md_ m)
    (subscribers_ m) seq es ms st.
Definition set_stats (st : MatchingStats) (m : MatchingThread) : MatchingThread :=
  set_queues (book_seq_ m) (egress_store m) (md_store m) st m.

Definition matching_thread0 (risk : RiskConfig) (wal : option Wal) (snap_path : bool) (every_n : Z)
    : MatchingThread :=
  mkMT core0 risk false wal (mkSnapState snap_path every_n 0 0) None None ∅ ∅ ∅ 0 ∅ ∅ stats0.

(** ** Emission *)

Definition count_emit (ok : bool) (st : MatchingStats) : MatchingStats :=
  mkStats (commands_applied st)
    (if ok then u64 (events_emitted st + 1) else events_emitted st)
    (if ok then egress_overflows st else u64 (egress_overflows st + 1))
    (wal_failures st) (market_data_dropped st) (snapshots st) (snapshot_failures st)
    (sessions_retired st).

Definition emit (eg : option Z) (e : OrderEvent) (m : MatchingThread) : MatchingThread :=
  if replaying_ m then m else
  match eg with
  | None => m
  | Some p =>
      match egress_store m !! p with
      | None => m
      | Some q =>
          let '(ok, q) := egress_push e q in
          let q := if ok then q else mark_overflowed q in
          set_queues (book_seq_ m) (<[p := q]> (egress_store m)) (md_store m)
            (count_emit ok (stats_ m)) m
      end
  end.

Definition egress_for (s : Z) (m : MatchingThread) : option Z := default None (egress_ m !! s).

(** ** Tables *)

Definition key_of (s coid : Z) : Z :=
  Z.lxor (u64 (Z.shiftl s 40)) (u64 (coid * 0x9E3779B97F4A7C15)).

Definition find_order (s coid : Z) (t : Tables) : Z := default 0 (by_client_id_ t !! key_of s coid).

Definition forget_order (xoid : Z) (t : Tables) : Tables :=
  let '(t_owner, t_sess, t_by) :=
    match owner_of_ t !! xoid with
    | Some s =>
        (delete xoid (owner_of_ t),
         match session_orders_ t !! s with
         | Some ids => <[s := ids ∖ {[xoid]}]> (session_orders_ t)
         | None => session_orders_ t
         end,
         match client_id_of_ t !! xoid with
         | Some coid => delete (key_of s coid) (by_client_id_ t)
         | None => by_client_id_ t
         end)
    | None => (owner_of_ t, session_orders_ t, by_client_id_ t)
    end in
  mkTables t_owner (delete xoid (client_id_of_ t)) (delete xoid (remaining_of_ t))
    (delete xoid (side_of_ t)) t_sess t_by.

(** The six stores that record an order before it is applied (and when a
    snapshot is restored). *)
Definition record_order (xoid s coid qty : Z) (side : Side) (t : Tables) : Tables :=
  mkTables (<[xoid := s]> (owner_of_ t)) (<[xoid := coid]> (client_id_of_ t))
    (<[xoid := qty]> (remaining_of_ t)) (<[xoid := side]> (side_of_ t))
    (<[s := default ∅ (session_orders_ t !! s) ∪ {[xoid]}]> (session_orders_ t))
    (<[key_of s coid := xoid]> (by_client_id_ t)).

(** ** Market data *)

Definition count_drop (st : MatchingStats) : MatchingStats :=
  mkStats (commands_applied st) (events_emitted st) (egress_overflows st) (wal_failures st)
    (u64 (market_data_dropped st + 1)) (snapshots st) (snapshot_failures st) (sessions_retired st).

(** One turn of the loop over the subscribers. *)
Definition publish_to (snap : BookSnapshot) (m : MatchingThread) (sub : Z * Z) : MatchingThread :=
  let '(session, depth) := sub in
  match md_ m !! session with
  | Some (Some p) =>
      match md_store m !! p with
      | None => m
      | Some q =>
          let sized := mkBookSnapshot (bs_seq snap)
            (if depth <? bs_n_bids snap then depth else bs_n_bids snap)
            (if depth <? bs_n_asks snap then depth else bs_n_asks snap)
            (bs_bid_ticks snap) (bs_bid_qty snap) (bs_ask_ticks snap) (bs_ask_qty snap) in
          let '(ok, q) := md_push sized q in
          set_queues (book_seq_ m) (egress_store m) (<[p := q]> (md_store m))
            (if ok then stats_ m else count_drop (stats_ m)) m
      end
  | _ => m
  end.

Definition make_book_snapshot (seq : Z) (b : OrderBook) : BookSnapshot :=
  let bids := bid_levels_ticks protocol.kMaxBookDepth b in
  let asks := ask_levels_ticks protocol.kMaxBookDepth b in
  mkBookSnapshot seq (u8 (Z.of_nat (length bids))) (u8 (Z.of_nat (length asks)))
    (fill_array (fst <$> bids)) (fill_array (snd <$> bids))
    (fill_array (fst <$> asks)) (fill_array (snd <$> asks)).

Definition publish_book (m : MatchingThread) : MatchingThread :=
  if replaying_ m then m else
  if bool_decide (subscribers_ m = ∅) then m else
  let seq := u64 (book_seq_ m + 1) in
  let snap := make_book_snapshot seq (book_ (engine_ (core_ m))) in
  let m := set_queues seq (egress_store m) (md_store m) (stats_ m) m in
  foldl (publish_to snap) m (map_to_list (subscribers_ m)).

(** ** Fills *)

Definition set_remaining (xoid rem : Z) (t : Tables) : Tables :=
  mkTables (owner_of_ t) (client_id_of_ t) (<[xoid := rem]> (remaining_of_ t)) (side_of_ t)
    (session_orders_ t) (by_client_id_ t).

Definition on_core (f : Core -> Core) (m : MatchingThread) : MatchingThread := set_core (f (core_ m)) m.
Definition on_tables (f : Tables -> Tables) (m : MatchingThread) : MatchingThread :=
  on_core (fun k => with_tables (f (tables_ k)) k) m.

Definition route_fill (xoid : Z) (t : Trade) (m : MatchingThread) : MatchingThread :=
  let tb := tables_ (core_ m) in
  match owner_of_ tb !! xoid with
  | None => m
  | Some s =>
      let rem := default 0 (remaining_of_ tb !! xoid) in
      let rem := if t_quantity t <? rem then rem - t_quantity t else 0 in
      let m := on_tables (set_remaining xoid rem) m in
      let coid := default 0 (client_id_of_ tb !! xoid) in
      let m := emit (egress_for s m) (ev_fill s coid xoid (t_price_ticks t) (t_quantity t) rem) m in
      if rem =? 0 then on_tables (forget_order xoid) m else m
  end.

Definition publish_trade (m : MatchingThread) (t : Trade) : MatchingThread :=
  let m := on_core (with_last_trade (t_price_ticks t)) m in
  let m := route_fill (t_buyer_id t) t m in
  route_fill (t_seller_id t) t m.

Definition clear_log (m : MatchingThread) : MatchingThread :=
  on_core (fun k => with_engine (clear_trade_log (engine_ k)) k) m.

Definition publish_trades (from : nat) (m : MatchingThread) : MatchingThread :=
  let m := foldl publish_trade m (drop from (trade_log_ (engine_ (core_ m)))) in
  clear_log m.

(** ** Risk *)

Definition reference_price (k : Core) : option Z :=
  if 0 <? last_trade_ticks_ k then Some (last_trade_ticks_ k) else
  match best_bid_ticks (book_ (engine_ k)), best_ask_ticks (book_ (engine_ k)) with
  | Some bid, Some ask => Some (Z.quot (i64 (bid + ask)) 2)
  | _, _ => None
  end.

Definition check_risk (risk : RiskConfig) (c : OrderCommand) (k : Core) : RejectReason :=
  if c_quantity c =? 0 then INVALID_QTY else
  if max_order_qty risk <? c_quantity c then RISK_MAX_ORDER_SIZE else
  match c_order_type c with
  | protocol.Market => NONE
  | protocol.Limit =>
      if c_price_ticks c <=? 0 then INVALID_PRICE else
      if (1 <? tick_size risk) && negb (Z.rem (c_price_ticks c) (tick_size risk) =? 0)
      then INVALID_PRICE else
      if 0 <? price_band_bp risk then
        match reference_price k with
        | None => NONE
        | Some reference =>
            let distance := if reference <? c_price_ticks c
                            then i64 (c_price_ticks c - reference)
                            else i64 (reference - c_price_ticks c) in
            if i64 (reference * price_band_bp risk) <? i64 (distance * 10000)
            then RISK_PRICE_BAND else NONE
        end
      else NONE
  end.

(** ** Handlers *)

Definition engine_side (s : protocol.Side) : Side :=
  match s with protocol.Bid => BID | protocol.Ask => ASK end.
Definition engine_type (t : protocol.OrderType) : OrderType :=
  match t with protocol.Market => MARKET | protocol.Limit => LIMIT end.

(** The order a command becomes: next exchange id, next logical timestamp. *)
Definition order_of (c : OrderCommand) (k : Core) : Order :=
  mkOrder (next_exchange_id_ k) (c_price_ticks c) (c_quantity c) (engine_side (c_side c))
    (engine_type (c_order_type c)) (u64 (logical_clock_ k + 1)).

Definition cancel_order (xoid : Z) : Order := mkOrder xoid 0 0 BID CANCEL 0.

Definition set_engine (e : MatchingEngine) (m : MatchingThread) : MatchingThread :=
  on_core (with_engine e) m.

Definition apply_new_order (c : OrderCommand) (m : MatchingThread) : MatchingThread :=
  let eg := egress_for (c_session c) m in
  let risk := check_risk (risk_ m) c (core_ m) in
  if negb (bool_decide (risk = NONE))
  then emit eg (ev_reject (c_session c) (c_client_order_id c) risk) m
  else
    let o := order_of c (core_ m) in
    let m := on_core (fun k => mkCore (engine_ k) (tables_ k) (last_trade_ticks_ k)
                                 (u64 (next_exchange_id_ k + 1)) (o_timestamp o)) m in
    let m := on_tables (record_order (o_id o) (c_session c) (c_client_order_id c) (c_quantity c)
                          (o_side o)) m in
    let before := length (trade_log_ (engine_ (core_ m))) in
    let '(r, e) := processOrder o (engine_ (core_ m)) in
    let m := set_engine e m in
    if negb (accepted r)
    then emit eg (ev_reject (c_session c) (c_client_order_id c) (reason r))
           (on_tables (forget_order (o_id o)) m)
    else
      let m := emit eg (ev_ack (c_session c) (c_client_order_id c) (o_id o) false) m in
      let m := publish_trades before m in
      let m := publish_book m in
      match o_type o with
      | MARKET => on_tables (forget_order (o_id o)) m
      | _ => m
      end.

Definition apply_cancel (c : OrderCommand) (m : MatchingThread) : MatchingThread :=
  let eg := egress_for (c_session c) m in
  let xoid := find_order (c_session c) (c_client_order_id c) (tables_ (core_ m)) in
  if xoid =? 0
  then emit eg (ev_reject (c_session c) (c_client_order_id c) UNKNOWN_ORDER) m
  else
    let '(r, e) := processOrder (cancel_order xoid) (engine_ (core_ m)) in
    let m := set_engine e m in
    if negb (accepted r)
    then emit eg (ev_reject (c_session c) (c_client_order_id c) (reason r)) m
    else
      let m := on_tables (forget_order xoid) m in
      let m := emit eg (ev_ack (c_session c) (c_client_order_id c) xoid true) m in
      publish_book m.

(** [side_of_[old_id]] creates the entry when it is missing. *)
Definition touch_side (xoid : Z) (t : Tables) : Tables :=
  match side_of_ t !! xoid with
  | Some _ => t
  | None => mkTables (owner_of_ t) (client_id_of_ t) (remaining_of_ t) (<[xoid := BID]> (side_of_ t))
              (session_orders_ t) (by_client_id_ t)
  end.

Definition replacement_of (c : OrderCommand) (s : Side) : OrderCommand :=
  mkCommand CmdNewOrder (c_session c) (c_client_order_id c) (c_price_ticks c) (c_quantity c)
    (match s with BID => protocol.Bid | ASK => protocol.Ask end) protocol.Limit
    (c_egress c) (c_md_queue c).

Definition apply_modify (c : OrderCommand) (m : MatchingThread) : MatchingThread :=
  let eg := egress_for (c_session c) m in
  let old_id := find_order (c_session c) (c_client_order_id c) (tables_ (core_ m)) in
  if old_id =? 0
  then emit eg (ev_reject (c_session c) (c_client_order_id c) UNKNOWN_ORDER) m
  else
    let old_side := default BID (side_of_ (tables_ (core_ m)) !! old_id) in
    let m := on_tables (touch_side old_id) m in
    let '(r, e) := processOrder (cancel_order old_id) (engine_ (core_ m)) in
    let m := set_engine e m in
    if negb (accepted r)
    then emit eg (ev_reject (c_session c) (c_client_order_id c) UNKNOWN_ORDER) m
    else
      let m := on_tables (forget_order old_id) m in
      apply_new_order (replacement_of c old_side) m.

(** One turn of the loop of [apply_cancel_all]. *)
Definition cancel_one (k : Core) (xoid : Z) : Core :=
  let '(_, e) := processOrder (cancel_order xoid) (engine_ k) in
  with_tables (forget_order xoid (tables_ k)) (with_engine e k).

Definition erase_session (s : Z) (t : Tables) : Tables :=
  mkTables (owner_of_ t) (client_id_of_ t) (remaining_of_ t) (side_of_ t)
    (delete s (session_orders_ t)) (by_client_id_ t).

Definition count_retired (st : MatchingStats) : MatchingStats :=
  mkStats (commands_applied st) (events_emitted st) (egress_overflows st) (wal_failures st)
    (market_data_dropped st) (snapshots st) (snapshot_failures st) (u64 (sessions_retired st + 1)).

(** The tombstone is pushed directly, and a full queue is not noticed. *)
Definition push_tombstone (s : Z) (m : MatchingThread) : MatchingThread :=
  match egress_for s m with
  | None => m
  | Some p =>
      match egress_store m !! p with
      | None => m
      | Some q => set_queues (book_seq_ m)
                    (<[p := (egress_push (ev_session_retired s) q).2]> (egress_store m))
                    (md_store m) (stats_ m) m
      end
  end.

Definition apply_cancel_all (c : OrderCommand) (m : MatchingThread) : MatchingThread :=
  let s := c_session c in
  let ids := match session_orders_ (tables_ (core_ m)) !! s with
             | Some ids => elements ids | None => [] end in
  let m := on_core (fun k => foldl cancel_one k ids) m in
  let m := clear_log m in
  let m := push_tombstone s m in
  let m := on_tables (erase_session s) m in
  let m := set_conns (delete s (egress_ m)) (delete s (md_ m)) (delete s (subscribers_ m)) m in
  let m := set_stats (count_retired (stats_ m)) m in
  publish_book m.

Definition count_wal_failure (st : MatchingStats) : MatchingStats :=
  mkStats (commands_applied st) (events_emitted st) (egress_overflows st) (u64 (wal_failures st + 1))
    (market_data_dropped st) (snapshots st) (snapshot_failures st) (sessions_retired st).

Definition apply_subscribe (c : OrderCommand) (m : MatchingThread) : MatchingThread :=
  let depth := Z.min (if c_quantity c =? 0 then Z.of_nat protocol.kMaxBookDepth else c_quantity c)
                 (Z.of_nat protocol.kMaxBookDepth) in
  let m := set_conns (egress_ m) (md_ m) (<[c_session c := u8 depth]> (subscribers_ m)) m in
  let m := emit (egress_for (c_session c) m) (ev_ack (c_session c) 0 0 false) m in
  publish_book m.

(** The [switch] of [apply]. *)
Definition dispatch (c : OrderCommand) (m : MatchingThread) : MatchingThread :=
  match c_type c with
  | CmdSessionOpened =>
      set_conns (<[c_session c := c_egress c]> (egress_ m)) (<[c_session c := c_md_queue c]> (md_ m))
        (subscribers_ m) m
  | CmdSubscribe => apply_subscribe c m
  | CmdNewOrder => apply_new_order c m
  | CmdCancel => apply_cancel c m
  | CmdModify => apply_modify c m
  | CmdCancelAllForSession => apply_cancel_all c m
  end.

(** The clock and the outcome of the log write. *)
Record Env := mkEnv { env_now : Z; env_io : option nat }.

Definition apply (env : Env) (c : OrderCommand) (m : MatchingThread) : MatchingThread :=
  if negb (replaying_ m) && is_loggable (c_type c) then
    match wal_ m with
    | None => dispatch c m
    | Some w =>
        let '(ok, w) := wal_append c (env_now env) (env_io env) w in
        let m := set_wal (Some w) m in
        if negb ok then set_stats (count_wal_failure (stats_ m)) m else dispatch c m
    end
  else dispatch c m.

(** ** Recovery, snapshots, batches *)

(** The log is not touched while replaying, so any environment will do. *)
Definition recover (cs : list OrderCommand) (m : MatchingThread) : MatchingThread :=
  let m := set_replaying true m in
  let m := foldl (fun m c => apply (mkEnv 0 None) c m) m cs in
  let m := set_replaying false m in
  clear_log m.

Definition export_order (t : Tables) (o : Order) : SnapshotOrder :=
  mkSnapOrder (o_id o) (default 0 (owner_of_ t !! o_id o)) (default 0 (client_id_of_ t !! o_id o))
    (o_price_ticks o) (o_quantity o) (match o_side o with BID => 0 | ASK => 1 end) (o_timestamp o).

Definition export_snapshot (last_seq : Z) (k : Core) : SnapshotData :=
  mkSnapshot last_seq (last_trade_ticks_ k) (next_exchange_id_ k)
    (export_order (tables_ k) <$> all_orders (book_ (engine_ k))).

Definition restore_order (so : SnapshotOrder) : Order :=
  mkOrder (so_exchange_id so) (so_price_ticks so) (so_quantity so)
    (if so_side so =? 0 then BID else ASK) LIMIT (so_timestamp so).

Definition restore_one (k : Core) (so : SnapshotOrder) : Core :=
  let o := restore_order so in
  mkCore (mkEngine (addOrder o (book_ (engine_ k))) (trade_log_ (engine_ k)))
    (record_order (so_exchange_id so) (so_session so) (so_client_order_id so) (so_quantity so)
       (o_side o) (tables_ k))
    (last_trade_ticks_ k) (next_exchange_id_ k) (logical_clock_ k).

Definition restore (d : SnapshotData) (k : Core) : Core :=
  let k := mkCore (engine_ k) (tables_ k) (sd_last_trade_ticks d) (sd_next_exchange_id d)
             (logical_clock_ k) in
  let k := foldl restore_one k (sd_orders d) in
  mkCore (engine_ k) (tables_ k) (last_trade_ticks_ k) (next_exchange_id_ k)
    (foldl (fun clock so => if clock <? so_timestamp so then so_timestamp so else clock)
       (logical_clock_ k) (sd_orders d)).

Definition set_snapshot_baseline (seq : Z) (m : MatchingThread) : MatchingThread :=
  let s := snap_ m in
  set_snap (mkSnapState (snap_path_set s) (snap_every_n s) (u64 (seq + snap_every_n s)) seq)
    (snap_file m) (snap_prev m) m.

Definition count_snapshot (ok : bool) (st : MatchingStats) : MatchingStats :=
  mkStats (commands_applied st) (events_emitted st) (egress_overflows st) (wal_failures st)
    (market_data_dropped st)
    (if ok then u64 (snapshots st + 1) else snapshots st)
    (if ok then snapshot_failures st else u64 (snapshot_failures st + 1)) (sessions_retired st).

(** How moving the old snapshot aside, writing the new one and truncating the
    log went. *)
Record SnapIo := mkSnapIo { sio_rename : bool; sio_write : bool; sio_truncate : TruncateIo }.

(** [rename(path, path.prev)], its result discarded: it also fails when there is
    no file at [path]. *)
Definition move_aside (ok : bool) (path prev : option (list Z)) : option (list Z) * option (list Z) :=
  match path with
  | Some f => if ok then (None, Some f) else (path, prev)
  | None => (None, prev)
  end.

Definition maybe_snapshot (io : SnapIo) (m : MatchingThread) : MatchingThread :=
  let s := snap_ m in
  match wal_ m with
  | Some w =>
      if negb (snap_path_set s) || (snap_every_n s =? 0) then m else
      let seq := w_seq w in
      if seq <? next_snapshot_at_ s then m else
      let '(path, prev) := move_aside (sio_rename io) (snap_file m) (snap_prev m) in
      let '(ok, path) := write_snapshot (sio_write io) (export_snapshot seq (core_ m)) path in
      if negb ok
      then set_stats (count_snapshot false (stats_ m)) (set_snap s path prev m)
      else
        let m := if 0 <? last_snapshot_seq_ s
                 then set_wal (Some (truncate_before (last_snapshot_seq_ s) (sio_truncate io) w).2) m
                 else m in
        let s := mkSnapState (snap_path_set s) (snap_every_n s) (u64 (seq + snap_every_n s)) seq in
        set_stats (count_snapshot true (stats_ m)) (set_snap s path prev m)
  | None => m
  end.

Definition count_applied (st : MatchingStats) : MatchingStats :=
  mkStats (u64 (commands_applied st + 1)) (events_emitted st) (egress_overflows st) (wal_failures st)
    (market_data_dropped st) (snapshots st) (snapshot_failures st) (sessions_retired st).

(** One batch: the commands popped until the inbound queue was empty, the clock
    at its end, and whether the network thread is woken. *)
Definition drain (batch : list (Env * OrderCommand)) (now : Z) (io : SnapIo) (m : MatchingThread)
    : bool * MatchingThread :=
  let m := foldl (fun m p => let m := apply p.1 p.2 m in set_stats (count_applied (stats_ m)) m)
             m batch in
  let woken := negb (length batch =? 0)%nat in
  let m := if woken then set_wal (poll_sync now <$> wal_ m) m else m in
  (woken, maybe_snapshot io m).
