(* ===== verification/Keys.v ===== *)
(** The packed key of the ownership table ([MatchingThread::key_of]). *)
From stdpp Require Import base numbers gmap list.
From Stdlib Require Import ZArith Lia Znumtheory.
From S2P Require Import Prelude MatchingThread.

(** ** Keys *)

Definition key_mul : Z := 0x9E3779B97F4A7C15.

(** Multiplication by an odd constant is injective modulo a power of two. *)
Lemma odd_mul_inj (n a b : Z) :
  0 <= n -> 0 <= a < 2 ^ n -> 0 <= b < 2 ^ n ->
  (a * key_mul) mod 2 ^ n = (b * key_mul) mod 2 ^ n -> a = b.
Proof.
  intros Hn Ha Hb H. assert (0 < 2 ^ n) as Hp by (apply Z.pow_pos_nonneg; lia).
  assert (2 ^ n | key_mul * (a - b)) as Hd.
  { exists ((a * key_mul) / 2 ^ n - (b * key_mul) / 2 ^ n).
    pose proof (Z.div_mod (a * key_mul) (2 ^ n)). pose proof (Z.div_mod (b * key_mul) (2 ^ n)). lia. }
  apply Z.gauss in Hd; [|by apply Z.coprime_pow_l]. destruct Hd as [k Hk].
  destruct (Z.lt_trichotomy k 0) as [?|[->|?]]; nia.
Qed.

(** The low 40 bits of a key depend on the client id alone. *)
Lemma key_low s coid : key_of s coid mod 2 ^ 40 = (coid * key_mul) mod 2 ^ 40.
Proof.
  unfold key_of, u64. fold key_mul. apply Z.bits_inj'. intros i Hi.
  destruct (Z.lt_ge_cases i 40) as [Hlt|Hge].
  - rewrite !Z.mod_pow2_bits_low, Z.lxor_spec, !Z.mod_pow2_bits_low, Z.shiftl_spec_low by lia.
    by destruct (Z.testbit _ i).
  - by rewrite !Z.mod_pow2_bits_high by lia.
Qed.

Lemma key_same_session s a b :
  key_of s a = key_of s b -> (a * key_mul) mod 2 ^ 64 = (b * key_mul) mod 2 ^ 64.
Proof.
  unfold key_of, u64. fold key_mul. intros H.
  apply (f_equal (Z.lxor (Z.shiftl s 40 mod 2 ^ 64))) in H.
  by rewrite <- !Z.lxor_assoc, Z.lxor_nilpotent, !Z.lxor_0_l in H.
Qed.

Lemma key_same_client s s' a : key_of s a = key_of s' a -> u64 (Z.shiftl s 40) = u64 (Z.shiftl s' 40).
Proof.
  unfold key_of. intros H. apply (f_equal (fun z => Z.lxor z (u64 (a * 0x9E3779B97F4A7C15)))) in H.
  by rewrite !Z.lxor_assoc, Z.lxor_nilpotent, !Z.lxor_0_r in H.
Qed.

Lemma shifted_session_inj s s' :
  0 <= s < 2 ^ 24 -> 0 <= s' < 2 ^ 24 -> u64 (Z.shiftl s 40) = u64 (Z.shiftl s' 40) -> s = s'.
Proof.
  unfold u64. intros Hs Hs'. rewrite !Z.shiftl_mul_pow2 by lia.
  rewrite !Z.mod_small by (change (2 ^ 64) with (2 ^ 24 * 2 ^ 40); nia). nia.
Qed.

Lemma key_small_inj s s' a b :
  key_of s a = key_of s' b ->
  0 <= s < 2 ^ 24 -> 0 <= s' < 2 ^ 24 -> 0 <= a < 2 ^ 40 -> 0 <= b < 2 ^ 40 -> s = s' /\ a = b.
Proof.
  intros H Hs Hs' Ha Hb. assert (a = b) as <-.
  { apply (odd_mul_inj 40); [done..|]. by rewrite <- (key_low s), <- (key_low s'), H. }
  split; [|done]. by apply shifted_session_inj, (key_same_client _ _ a).
Qed.

(** [key_of_injective]. The packed key of the ownership table tells apart
    all client ids of one session, and, for session ids below 2^24 and client
    ids below 2^40, all (session, client id) pairs. *)
Theorem key_of_injective (s s' a b : Z) :
  key_of s a = key_of s' b ->
  (s = s' -> is_u64 a -> is_u64 b -> a = b) /\
  (0 <= s < 2 ^ 24 -> 0 <= s' < 2 ^ 24 -> 0 <= a < 2 ^ 40 -> 0 <= b < 2 ^ 40 -> s = s' /\ a = b).
Proof.
  intros H. split.
  - intros <- Ha Hb. apply (odd_mul_inj 64); [done..|]. by apply (key_same_session s).
  - by apply key_small_inj.
Qed.

Lemma key_of_injective_witness : key_of 3 7 = key_of 3 7 /\ 3 = 3 /\ 7 = 7.
Proof.
  split; [reflexivity|].
  apply (proj2 (key_of_injective 3 3 7 7 eq_refl)); lia.
Defined.
