(* ===== verification/Recovery.v ===== *)
(** Recovery determinism: replaying the log rebuilds the state the command
    stream built. Two threads are [same] when their [Core] and risk limits
    agree; emission, market data, queues, statistics and the log do not show
    through it, and every handler respects it. *)
From stdpp Require Import base numbers gmap list.
From Stdlib Require Import ZArith Lia.
From S2P Require Import Prelude Types OrderBook Engine Bytes Protocol Commands Wal WalProps.
From S2P Require Import Snapshot Egress RiskConfig MatchingThread.

Definition same (m m' : MatchingThread) : Prop := core_ m = core_ m' /\ risk_ m = risk_ m'.

#[export] Instance same_equivalence : Equivalence same.
Proof.
  split; [done|intros ?? []; done|]. intros ??? [] []. split; congruence.
Qed.

#[export] Instance core_proper : Proper (same ==> eq) core_.
Proof. by intros ?? []. Qed.
#[export] Instance risk_proper : Proper (same ==> eq) risk_.
Proof. by intros ?? []. Qed.
#[export] Instance on_core_proper f : Proper (same ==> same) (on_core f).
Proof. intros ?? [Hc Hr]. split; cbn; congruence. Qed.

(** ** What leaves the core alone *)

Lemma emit_same eg e m : same (emit eg e m) m.
Proof. unfold emit. repeat case_match; done. Qed.

Lemma publish_to_same snap m sub : same (publish_to snap m sub) m.
Proof. unfold publish_to. repeat case_match; done. Qed.

Lemma publish_fold_same snap subs m m' :
  same m m' -> same (foldl (publish_to snap) m subs) m'.
Proof.
  revert m. induction subs as [|s subs IH]; intros m H; [done|].
  cbn [foldl]. apply IH. by rewrite publish_to_same.
Qed.

Lemma publish_book_same m : same (publish_book m) m.
Proof. unfold publish_book. repeat case_match; try done. by apply publish_fold_same. Qed.

Lemma push_tombstone_same s m : same (push_tombstone s m) m.
Proof. unfold push_tombstone. repeat case_match; done. Qed.

(** ** Handlers respect it *)

Lemma route_fill_proper x t : Proper (same ==> same) (route_fill x t).
Proof.
  intros m m' [Hc Hr]. unfold route_fill. rewrite Hc. destruct (owner_of_ _ !! x); [|done].
  cbv zeta. destruct (_ =? 0).
  - apply on_core_proper. rewrite !emit_same. by apply on_core_proper.
  - rewrite !emit_same. by apply on_core_proper.
Qed.
#[export] Existing Instance route_fill_proper.

Lemma publish_trade_proper m m' t : same m m' -> same (publish_trade m t) (publish_trade m' t).
Proof. intros H. unfold publish_trade. by do 2 apply route_fill_proper; apply on_core_proper. Qed.

Lemma publish_trades_fold ts m m' :
  same m m' -> same (foldl publish_trade m ts) (foldl publish_trade m' ts).
Proof.
  revert m m'. induction ts as [|t ts IH]; intros m m' H; [done|]. by apply IH, publish_trade_proper.
Qed.

#[export] Instance publish_trades_proper n : Proper (same ==> same) (publish_trades n).
Proof.
  intros m m' H. unfold publish_trades, clear_log. apply on_core_proper.
  rewrite (core_proper _ _ H). by apply publish_trades_fold.
Qed.

#[export] Instance apply_new_order_proper c : Proper (same ==> same) (apply_new_order c).
Proof.
  intros m m' H. unfold apply_new_order. pose proof H as [Hc Hr]. rewrite Hc, Hr.
  destruct (negb (bool_decide _)); [by rewrite !emit_same|]. cbv zeta.
  set (o := order_of c (core_ m')).
  match goal with |- context [engine_ (core_ (on_tables ?f (on_core ?g m)))] =>
    assert (same (on_tables f (on_core g m)) (on_tables f (on_core g m'))) as H1
      by (unfold on_tables; do 2 apply on_core_proper; done) end.
  rewrite (core_proper _ _ H1). destruct (processOrder o _) as [r e].
  assert (forall x y, same x y -> same (set_engine e x) (set_engine e y)) as Hse.
  { intros. by apply on_core_proper. }
  destruct (negb (accepted r)).
  - rewrite !emit_same. by apply on_core_proper, Hse.
  - assert (forall x y n eg eg', same x y ->
      same (publish_book (publish_trades n (emit eg (ev_ack (c_session c) (c_client_order_id c)
        (o_id o) false) x)))
      (publish_book (publish_trades n (emit eg' (ev_ack (c_session c) (c_client_order_id c)
        (o_id o) false) y)))) as Hpub.
    { intros x y n eg eg' Hxy. rewrite !publish_book_same. apply publish_trades_proper.
      by rewrite !emit_same. }
    destruct (o_type o); [apply on_core_proper|..]; by apply Hpub, Hse.
Qed.

#[export] Instance apply_cancel_proper c : Proper (same ==> same) (apply_cancel c).
Proof.
  intros m m' H. unfold apply_cancel. pose proof H as [Hc Hr]. rewrite Hc.
  destruct (_ =? 0); [by rewrite !emit_same|].
  destruct (processOrder _ _) as [r e]. cbv zeta. destruct (negb (accepted r)).
  - rewrite !emit_same. by apply on_core_proper.
  - rewrite !publish_book_same, !emit_same. by do 2 apply on_core_proper.
Qed.

#[export] Instance apply_modify_proper c : Proper (same ==> same) (apply_modify c).
Proof.
  intros m m' H. unfold apply_modify. pose proof H as [Hc Hr]. rewrite Hc.
  destruct (_ =? 0); [by rewrite !emit_same|]. cbv zeta.
  assert (same (on_tables (touch_side (find_order (c_session c) (c_client_order_id c)
    (tables_ (core_ m')))) m) (on_tables (touch_side (find_order (c_session c) (c_client_order_id c)
    (tables_ (core_ m')))) m')) as H1 by by apply on_core_proper.
  rewrite (core_proper _ _ H1). destruct (processOrder _ _) as [r e]. destruct (negb (accepted r)).
  - rewrite !emit_same. by apply on_core_proper.
  - apply apply_new_order_proper. by do 2 apply on_core_proper.
Qed.

#[export] Instance apply_cancel_all_proper c : Proper (same ==> same) (apply_cancel_all c).
Proof.
  intros m m' H. unfold apply_cancel_all. pose proof H as [Hc Hr]. rewrite Hc. cbv zeta.
  rewrite !publish_book_same.
  assert (forall s st x y, same x y -> same (set_stats (st x) (set_conns (delete s (egress_ x))
    (delete s (md_ x)) (delete s (subscribers_ x)) x)) (set_stats (st y)
    (set_conns (delete s (egress_ y)) (delete s (md_ y)) (delete s (subscribers_ y)) y))) as Hs.
  { intros s st x y [? ?]. done. }
  match goal with |- same (set_stats _ (set_conns _ _ _ ?x)) (set_stats _ (set_conns _ _ _ ?y)) =>
    assert (same x y) as [? ?] end; [|done].
  apply on_core_proper. rewrite !push_tombstone_same. by do 2 apply on_core_proper.
Qed.

Lemma apply_subscribe_same c m : same (apply_subscribe c m) m.
Proof. unfold apply_subscribe. cbv zeta. by rewrite publish_book_same, emit_same. Qed.

#[export] Instance dispatch_proper c : Proper (same ==> same) (dispatch c).
Proof.
  intros m m' H. unfold dispatch. destruct (c_type c).
  - destruct H as [Hc Hr]. split; [exact Hc|exact Hr].
  - exact (apply_new_order_proper c _ _ H).
  - exact (apply_cancel_proper c _ _ H).
  - exact (apply_modify_proper c _ _ H).
  - rewrite (apply_subscribe_same c m), (apply_subscribe_same c m'). exact H.
  - exact (apply_cancel_all_proper c _ _ H).
Qed.

Lemma dispatch_not_loggable c m : is_loggable (c_type c) = false -> same (dispatch c m) m.
Proof.
  unfold dispatch. destruct (c_type c); cbn [is_loggable]; try (intros; discriminate).
  - split; reflexivity.
  - intros _. apply apply_subscribe_same.
Qed.

(** The pointers of a command do not matter once it is loggable. *)
Lemma apply_new_order_pointers c p q m :
  apply_new_order (mkCommand (c_type c) (c_session c) (c_client_order_id c) (c_price_ticks c)
    (c_quantity c) (c_side c) (c_order_type c) p q) m = apply_new_order c m.
Proof.
  unfold apply_new_order, order_of. cbn [c_type c_session c_client_order_id c_price_ticks
    c_quantity c_side c_order_type].
  change (check_risk (risk_ m) (mkCommand (c_type c) (c_session c) (c_client_order_id c)
    (c_price_ticks c) (c_quantity c) (c_side c) (c_order_type c) p q) (core_ m))
    with (check_risk (risk_ m) c (core_ m)). reflexivity.
Qed.

Lemma apply_modify_pointers c m : apply_modify (without_pointers c) m = apply_modify c m.
Proof.
  unfold apply_modify. cbn [without_pointers c_session c_client_order_id].
  destruct (_ =? 0); [reflexivity|]. destruct (processOrder _ _) as [r e].
  destruct (negb (accepted r)); [reflexivity|].
  apply (apply_new_order_pointers (replacement_of c _) None None).
Qed.

Lemma dispatch_without_pointers c m :
  is_loggable (c_type c) = true -> dispatch (without_pointers c) m = dispatch c m.
Proof.
  unfold dispatch. cbn [without_pointers c_type].
  destruct (c_type c) eqn:E; cbn [is_loggable]; try (intros; discriminate); intros _.
  - apply (apply_new_order_pointers c None None).
  - unfold apply_cancel. cbn [without_pointers c_session c_client_order_id]. reflexivity.
  - apply apply_modify_pointers.
  - unfold apply_cancel_all. cbn [without_pointers c_session]. reflexivity.
Qed.

(** ** What handlers leave alone besides the core *)

(** The snapshot schedule and both snapshot files. *)
Definition snaps (m : MatchingThread) : SnapState * option (list Z) * option (list Z) :=
  (snap_ m, snap_file m, snap_prev m).

Definition frame (m m' : MatchingThread) : Prop :=
  replaying_ m = replaying_ m' /\ wal_ m = wal_ m' /\ risk_ m = risk_ m' /\ snaps m = snaps m'.

#[export] Instance frame_equivalence : Equivalence frame.
Proof.
  split; [done|intros ?? (? & ? & ? & ?); done|]. intros ??? (? & ? & ? & ?) (? & ? & ? & ?). split_and!; congruence.
Qed.

Lemma on_core_frame f m : frame (on_core f m) m.
Proof. done. Qed.
Lemma emit_frame eg e m : frame (emit eg e m) m.
Proof. unfold emit. repeat case_match; done. Qed.
Lemma publish_to_frame snap m sub : frame (publish_to snap m sub) m.
Proof. unfold publish_to. repeat case_match; done. Qed.

Lemma publish_book_frame m : frame (publish_book m) m.
Proof.
  unfold publish_book. repeat case_match; try done.
  assert (forall subs m0 snap, frame m0 m -> frame (foldl (publish_to snap) m0 subs) m) as Hf.
  { intros subs. induction subs as [|s subs IH]; intros m0 snap H1; [done|].
    cbn [foldl]. apply IH. by rewrite publish_to_frame. }
  by apply Hf.
Qed.

Lemma route_fill_frame x t m : frame (route_fill x t m) m.
Proof.
  unfold route_fill. repeat case_match; cbv zeta; unfold on_tables;
    rewrite ?on_core_frame, ?emit_frame, ?on_core_frame; done.
Qed.

Lemma publish_trades_frame n m : frame (publish_trades n m) m.
Proof.
  unfold publish_trades, clear_log. rewrite on_core_frame.
  generalize (drop n (trade_log_ (engine_ (core_ m)))). intros ts.
  revert m. induction ts as [|t ts IH]; intros m; [done|]. cbn [foldl]. rewrite IH.
  unfold publish_trade. by rewrite !route_fill_frame, on_core_frame.
Qed.

Ltac frames := unfold on_tables, set_engine, clear_log;
  repeat first [rewrite publish_book_frame | rewrite publish_trades_frame | rewrite emit_frame
               |rewrite on_core_frame]; reflexivity.

Lemma apply_new_order_frame c m : frame (apply_new_order c m) m.
Proof.
  unfold apply_new_order. destruct (negb _); [frames|]. cbv zeta.
  destruct (processOrder _ _) as [r e]. destruct (negb (accepted r)).
  - frames.
  - destruct (o_type _); frames.
Qed.

Lemma dispatch_frame c m : frame (dispatch c m) m.
Proof.
  unfold dispatch. destruct (c_type c); [done| | | | |].
  - apply apply_new_order_frame.
  - unfold apply_cancel. destruct (_ =? 0); [frames|]. destruct (processOrder _ _) as [r e]. cbv zeta.
    destruct (negb (accepted r)); frames.
  - unfold apply_modify. destruct (_ =? 0); [frames|]. cbv zeta.
    destruct (processOrder _ _) as [r e].
    destruct (negb (accepted r)); [frames|]. rewrite apply_new_order_frame. frames.
  - unfold apply_subscribe. cbv zeta. by rewrite publish_book_frame, emit_frame.
  - unfold apply_cancel_all. cbv zeta. rewrite publish_book_frame.
    transitivity (push_tombstone (c_session c) m).
    + unfold push_tombstone, egress_for. cbn [egress_ clear_log on_core set_core egress_store].
      repeat case_match; done.
    + unfold push_tombstone. repeat case_match; done.
Qed.

(** The trade log is drained by every command. *)
Definition drained (m : MatchingThread) : Prop := trade_log_ (engine_ (core_ m)) = [].

#[export] Instance drained_proper : Proper (same ==> iff) drained.
Proof. intros m m' H. unfold drained. by rewrite (core_proper _ _ H). Qed.

Lemma drained_on_tables f m : drained (on_tables f m) <-> drained m.
Proof. done. Qed.

Lemma processOrder_accepted o e : o_type o <> CANCEL -> accepted (processOrder o e).1 = true.
Proof. unfold processOrder. intros Ho. repeat case_match; done. Qed.

Lemma processOrder_cancel_log o e :
  o_type o = CANCEL -> trade_log_ (processOrder o e).2 = trade_log_ e.
Proof. unfold processOrder. intros ->. repeat case_match; done. Qed.

Lemma publish_trades_drained n m : drained (publish_trades n m).
Proof. done. Qed.

Lemma apply_new_order_drained c m : drained m -> drained (apply_new_order c m).
Proof.
  intros Hd. unfold apply_new_order. destruct (negb (bool_decide _)); [by rewrite emit_same|].
  cbv zeta. set (o := order_of _ _).
  assert (o_type o <> CANCEL) as Ho by (cbn; by destruct (c_order_type c)).
  match goal with |- context [processOrder o ?e] =>
    pose proof (processOrder_accepted o e Ho) as Ha; destruct (processOrder o e) as [r e'] end.
  cbn [fst] in Ha. rewrite Ha. cbn [negb].
  destruct (o_type o); rewrite ?drained_on_tables, publish_book_same; apply publish_trades_drained.
Qed.

Lemma dispatch_drained c m : drained m -> drained (dispatch c m).
Proof.
  intros Hd. unfold dispatch. destruct (c_type c).
  - done.
  - by apply apply_new_order_drained.
  - unfold apply_cancel. destruct (_ =? 0); [by rewrite emit_same|].
    match goal with |- context [processOrder ?o ?e] =>
      pose proof (processOrder_cancel_log o e eq_refl) as Hl; destruct (processOrder o e) as [r e'] end.
    cbn [snd] in Hl. cbv zeta. destruct (negb (accepted r)); [rewrite emit_same|
      rewrite publish_book_same, emit_same]; unfold drained in *; cbn; by rewrite Hl.
  - unfold apply_modify. destruct (_ =? 0); [by rewrite emit_same|]. cbv zeta.
    match goal with |- context [processOrder ?o ?e] =>
      pose proof (processOrder_cancel_log o e eq_refl) as Hl; destruct (processOrder o e) as [r e'] end.
    cbn [snd] in Hl. destruct (negb (accepted r)); [rewrite emit_same|apply apply_new_order_drained];
      unfold drained in *; cbn; by rewrite Hl.
  - by rewrite apply_subscribe_same.
  - unfold apply_cancel_all. cbv zeta. rewrite publish_book_same.
    match goal with |- drained (set_stats _ (set_conns _ _ _ (on_tables _ ?x))) =>
      change (drained x) end.
    by rewrite push_tombstone_same.
Qed.

(** ** Live runs and replays *)

(** Commands applied one after the other, each with its clock and log write. *)
Definition run (m : MatchingThread) (ps : list (Env * OrderCommand)) : MatchingThread :=
  foldl (fun m p => apply p.1 p.2 m) m ps.

Definition replay (m : MatchingThread) (cs : list OrderCommand) : MatchingThread :=
  foldl (fun m c => dispatch c m) m cs.

Fixpoint logged (ps : list (Env * OrderCommand)) : list OrderCommand :=
  match ps with
  | [] => []
  | p :: ps => if is_loggable (c_type p.2) then p.2 :: logged ps else logged ps
  end.

(** Every log write succeeds. *)
Definition writes_ok (ps : list (Env * OrderCommand)) : Prop := Forall (fun p => env_io p.1 = None) ps.

Lemma logged_app ps qs : logged (ps ++ qs) = logged ps ++ logged qs.
Proof. induction ps as [|p ps IH]; [done|]. simpl. rewrite IH. by destruct (is_loggable _). Qed.

Lemma length_logged ps : (length (logged ps) <= length ps)%nat.
Proof. induction ps as [|p ps IH]; [done|]. simpl. destruct (is_loggable _); simpl; lia. Qed.

Lemma replay_proper cs m m' : same m m' -> same (replay m cs) (replay m' cs).
Proof.
  revert m m'. induction cs as [|c cs IH]; intros m m' H; [done|].
  cbn [replay foldl]. by apply IH, dispatch_proper.
Qed.

Lemma replay_app m cs ds : replay m (cs ++ ds) = replay (replay m cs) ds.
Proof. apply foldl_app. Qed.

Lemma replay_drained cs m : drained m -> drained (replay m cs).
Proof.
  revert m. induction cs as [|c cs IH]; intros m H; [done|]. cbn [replay foldl].
  by apply IH, dispatch_drained.
Qed.

(** A live thread: not replaying, its log holding [cs]. *)
Definition live (m : MatchingThread) (first : Z) (cs : list OrderCommand) : Prop :=
  replaying_ m = false /\ exists w, wal_ m = Some w /\ wal_holds w first cs.

Lemma apply_live env c m first cs :
  live m first cs -> numbered first (length cs) -> env_io env = None ->
  live (apply env c m) first (if is_loggable (c_type c) then cs ++ [c] else cs) /\
  same (apply env c m) (if is_loggable (c_type c) then dispatch c m else m).
Proof.
  intros (Hr & w & Hw & Hh) Hn He. unfold apply. rewrite Hr. cbn [negb andb].
  destruct (is_loggable (c_type c)) eqn:Hl.
  - rewrite Hw, He. destruct (wal_append_holds c (env_now env) w first cs Hh Hn) as [Hok Hh'].
    destruct (wal_append c (env_now env) None w) as [ok w']. cbn [fst snd] in *. subst ok. cbn [negb].
    split; [|apply dispatch_proper; done].
    destruct (dispatch_frame c (set_wal (Some w') m)) as (H1 & H2 & _). split; [by rewrite H1|].
    exists w'. by rewrite H2.
  - destruct (dispatch_frame c m) as (H1 & H2 & _). split; [|by apply dispatch_not_loggable].
    split; [by rewrite H1|]. exists w. by rewrite H2.
Qed.

Lemma run_live ps m first cs :
  live m first cs -> writes_ok ps -> numbered first (length cs + length ps) ->
  live (run m ps) first (cs ++ logged ps) /\ same (run m ps) (replay m (logged ps)).
Proof.
  intros Hlive Hio. revert m cs Hlive. induction Hio as [|p ps Hp Hio IH]; intros m cs Hlive Hn.
  { cbn. by rewrite app_nil_r. }
  unfold numbered in *. cbn [length run foldl logged] in *. fold (run (apply p.1 p.2 m) ps).
  destruct (apply_live p.1 p.2 m first cs Hlive) as [Hlive' Hsame]; [unfold numbered; lia|done|].
  destruct (is_loggable (c_type p.2)).
  - destruct (IH _ _ Hlive') as [H1 H2]; [rewrite length_app; simpl; lia|].
    rewrite <- app_assoc in H1. split; [done|]. rewrite H2. cbn [replay foldl].
    by apply (replay_proper (logged ps)).
  - destruct (IH _ _ Hlive') as [H1 H2]; [lia|]. split; [done|]. rewrite H2. by apply replay_proper.
Qed.

Lemma clear_log_drained m : drained m -> same (clear_log m) m.
Proof.
  intros H. split; [|done]. unfold drained in H. cbn. unfold with_engine, clear_trade_log.
  destruct (core_ m) as [[b l] ? ? ? ?]. cbn in *. by subst l.
Qed.

(** While replaying, applying is dispatching. *)
Lemma replaying_apply cs m :
  replaying_ m = true -> same (foldl (fun m c => apply (mkEnv 0 None) c m) m cs) (replay m cs).
Proof.
  revert m. induction cs as [|c cs IH]; intros m Hr; [done|]. cbn [foldl replay].
  assert (apply (mkEnv 0 None) c m = dispatch c m) as -> by (unfold apply; by rewrite Hr).
  apply IH. destruct (dispatch_frame c m) as (-> & _). done.
Qed.

Lemma recover_replay cs m :
  drained m -> same (recover cs m) (replay m cs).
Proof.
  intros Hd. unfold recover.
  assert (same (foldl (fun m c => apply (mkEnv 0 None) c m) (set_replaying true m) cs) (replay m cs)) as H1.
  { rewrite replaying_apply by done. by apply replay_proper. }
  rewrite clear_log_drained.
  - rewrite <- H1. done.
  - eapply drained_proper; [|apply (replay_drained cs m Hd)]. rewrite <- H1. done.
Qed.

(** Replaying does not write to the log. *)
Lemma recover_wal cs m : wal_ (recover cs m) = wal_ m.
Proof.
  unfold recover. cbn [clear_log on_core set_core wal_ set_replaying].
  assert (forall m0, replaying_ m0 = true ->
    wal_ (foldl (fun m c => apply (mkEnv 0 None) c m) m0 cs) = wal_ m0) as Hf.
  { induction cs as [|c cs IH]; intros m0 Hr; [done|]. cbn [foldl].
    assert (apply (mkEnv 0 None) c m0 = dispatch c m0) as -> by (unfold apply; by rewrite Hr).
    destruct (dispatch_frame c m0) as (H1 & H2 & _). rewrite IH by by rewrite H1. done. }
  by rewrite Hf.
Qed.

Lemma replay_without_pointers cs m :
  Forall (fun c => is_loggable (c_type c) = true) cs ->
  replay m (without_pointers <$> cs) = replay m cs.
Proof.
  intros H. revert m. induction H as [|c cs Hc _ IH]; intros m; [done|]. cbn [fmap list_fmap replay foldl].
  rewrite dispatch_without_pointers by done. apply IH.
Qed.

Lemma logged_loggable ps : Forall (fun c => is_loggable (c_type c) = true) (logged ps).
Proof.
  induction ps as [|p ps IH]; [constructor|]. cbn [logged].
  destruct (is_loggable (c_type p.2)) eqn:E; [by constructor|done].
Qed.

(** The first [j] logged commands are those of a prefix of the run. *)
Lemma logged_prefix ps j :
  (j <= length (logged ps))%nat -> exists pre post, ps = pre ++ post /\ logged pre = take j (logged ps).
Proof.
  revert j. induction ps as [|p ps IH]; intros j Hj.
  { exists [], []. simpl in *. by rewrite firstn_nil. }
  cbn [logged] in *. destruct (is_loggable (c_type p.2)) eqn:E.
  - destruct j as [|j]; [by exists [], (p :: ps)|].
    destruct (IH j) as (pre & post & -> & Hp); [simpl in Hj; lia|].
    exists (p :: pre), post. simpl. by rewrite E, Hp.
  - destruct (IH j Hj) as (pre & post & -> & Hp). exists (p :: pre), post. simpl. by rewrite E, Hp.
Qed.

Lemma command_ok_logged ps :
  Forall (fun p => command_ok p.2) ps -> Forall command_ok (logged ps).
Proof.
  induction 1; [constructor|]. cbn [logged]. destruct (is_loggable _); [by constructor|done].
Qed.

Lemma wr_commands_clean first cs n : wr_commands (clean_read first cs n) = without_pointers <$> cs.
Proof. by destruct cs. Qed.
Lemma wr_gap_clean first cs n : wr_sequence_gap (clean_read first cs n) = false.
Proof. by destruct cs. Qed.

(** Reading back what a crash left of a live thread's log and replaying it
    gives the core after some prefix of the run. *)
Lemma crash_replay m0 fresh ps first k :
  live m0 first [] -> same fresh m0 -> drained m0 -> writes_ok ps ->
  Forall (fun p => command_ok p.2) ps -> numbered first (length ps) ->
  let m := run m0 ps in
  exists w, wal_ m = Some w /\
  ((k <= length (w_file w))%nat ->
   let r := read_wal (Some (take k (w_file w))) in
   wr_sequence_gap r = false /\
   exists pre post, ps = pre ++ post /\ length (logged pre) = (k / 47)%nat /\
     same (recover (wr_commands r) fresh) (run m0 pre)).
Proof.
  intros Hlive Hfresh Hd Hio Hok Hn m.
  destruct (run_live ps m0 first [] Hlive Hio Hn) as [(_ & w & Hw & _ & Hf & _) _].
  exists w. split; [done|]. intros Hk. cbv zeta. rewrite Hf, app_nil_l in *.
  rewrite length_log_bytes in Hk. pose proof (length_logged ps) as Hll.
  rewrite read_cut_log; [|split; [unfold numbered in *; lia|by apply command_ok_logged]|done].
  rewrite wr_gap_clean, wr_commands_clean. split; [done|].
  assert (k / 47 <= length (logged ps))%nat as Hj.
  { pose proof (Nat.div_mod_eq k 47). lia. }
  destruct (logged_prefix ps (k / 47) Hj) as (pre & post & -> & Hp).
  exists pre, post. split; [done|]. split; [rewrite Hp, length_take; lia|].
  rewrite <- Hp, recover_replay by (by eapply drained_proper).
  rewrite replay_without_pointers by apply logged_loggable.
  apply Forall_app in Hio as [Hio _]. rewrite length_app in Hn.
  destruct (run_live pre m0 first [] Hlive Hio) as [_ Hs]; [unfold numbered in *; simpl; lia|].
  rewrite Hs. by apply replay_proper.
Qed.
