(* ===== verification/Ownership.v ===== *)
(** The ownership tables of the matching thread describe the book: their
    invariant, relative to the map of resting orders, and what the table
    updates of a handler do to it. *)
From stdpp Require Import base numbers gmap list.
From Stdlib Require Import ZArith Lia.
From S2P Require Import Prelude Types OrderBook BookFacts Engine Bytes Protocol Commands RiskConfig.
From S2P Require Import MatchingThread.
#[local] Set Warnings "-clear-no-such-hyp".

(** The orders of a list, by id. *)
Definition order_map (os : list Order) : gmap Z Order :=
  list_to_map ((fun o => (o_id o, o)) <$> os).

Lemma order_map_fst os : ((fun o : Order => (o_id o, o)) <$> os).*1 = o_id <$> os.
Proof. rewrite <- list_fmap_compose. done. Qed.

Lemma order_map_cons o os : order_map (o :: os) = <[o_id o := o]> (order_map os).
Proof. done. Qed.

Lemma order_map_perm os os' : NoDup (o_id <$> os) -> os ≡ₚ os' -> order_map os = order_map os'.
Proof.
  intros Hn Hp. apply list_to_map_proper; [by rewrite order_map_fst|by rewrite Hp].
Qed.

Lemma order_map_none os id : id ∉ (o_id <$> os) -> order_map os !! id = None.
Proof. intros H. apply not_elem_of_list_to_map. by rewrite order_map_fst. Qed.

Lemma order_map_some os o : NoDup (o_id <$> os) -> o ∈ os -> order_map os !! o_id o = Some o.
Proof.
  intros Hn Ho. apply elem_of_list_to_map; [by rewrite order_map_fst|].
  apply list_elem_of_fmap. eauto.
Qed.

Lemma order_map_lookup os id o : order_map os !! id = Some o -> o ∈ os /\ o_id o = id.
Proof.
  intros H%elem_of_list_to_map_2. apply list_elem_of_fmap in H as (o' & [= -> ->] & ?). done.
Qed.

(** ** The invariant *)

Record tables_wf (t : Tables) (M : gmap Z Order) : Prop := {
  tw_owner id : is_Some (owner_of_ t !! id) <-> is_Some (M !! id);
  tw_client id : is_Some (client_id_of_ t !! id) <-> is_Some (M !! id);
  tw_remaining : remaining_of_ t = o_quantity <$> M;
  tw_side : side_of_ t = o_side <$> M;
  tw_sessions s id :
    id ∈ default ∅ (session_orders_ t !! s) <-> owner_of_ t !! id = Some s;
  tw_by_client key id :
    by_client_id_ t !! key = Some id ->
    exists s coid, owner_of_ t !! id = Some s /\ client_id_of_ t !! id = Some coid /\
      key = key_of s coid;
}.

Lemma tables_wf_empty : tables_wf tables0 ∅.
Proof.
  split; try done; intros *; simpl.
  all: rewrite !lookup_empty; split; by intros [].
Qed.

Lemma record_order_wf t M id s coid o :
  tables_wf t M -> M !! id = None ->
  tables_wf (record_order id s coid (o_quantity o) (o_side o) t) (<[id := o]> M).
Proof.
  intros [Ho Hc Hr Hs Hses Hby] Hn.
  assert (owner_of_ t !! id = None) as Hon.
  { apply eq_None_not_Some. rewrite Ho, Hn. by intros []. }
  split; cbn [record_order owner_of_ client_id_of_ remaining_of_ side_of_ session_orders_ by_client_id_].
  - intros i. rewrite !lookup_insert_is_Some'. by rewrite Ho.
  - intros i. rewrite !lookup_insert_is_Some'. by rewrite Hc.
  - by rewrite fmap_insert, Hr.
  - by rewrite fmap_insert, Hs.
  - intros s' i. destruct (decide (s = s')) as [->|Hne].
    + rewrite lookup_insert_eq. simpl. rewrite elem_of_union, elem_of_singleton, Hses.
      destruct (decide (id = i)) as [->|].
      * rewrite lookup_insert_eq. naive_solver.
      * rewrite lookup_insert_ne by done. naive_solver.
    + rewrite lookup_insert_ne by done. rewrite Hses. destruct (decide (id = i)) as [->|].
      * rewrite lookup_insert_eq, Hon. naive_solver.
      * by rewrite lookup_insert_ne by done.
  - intros key i. destruct (decide (key_of s coid = key)) as [<-|Hne].
    + rewrite lookup_insert_eq. intros [= <-]. exists s, coid. by rewrite !lookup_insert_eq.
    + rewrite lookup_insert_ne by done. intros (s' & c' & H1 & H2 & ->)%Hby.
      assert (id <> i) by congruence. exists s', c'. by rewrite !lookup_insert_ne by done.
Qed.

Lemma is_Some_delete {A} (m : gmap Z A) i j :
  is_Some (delete i m !! j) <-> i <> j /\ is_Some (m !! j).
Proof. rewrite lookup_delete_is_Some. done. Qed.

Lemma forget_order_wf t M id :
  tables_wf t M -> tables_wf (forget_order id t) (delete id M).
Proof.
  intros [Ho Hc Hr Hs Hses Hby]. unfold forget_order.
  destruct (owner_of_ t !! id) as [s|] eqn:Eo.
  - assert (is_Some (client_id_of_ t !! id)) as [coid Ec] by (apply Hc, Ho; by rewrite Eo).
    rewrite Ec. assert (id ∈ default ∅ (session_orders_ t !! s)) as Hin by by apply Hses.
    destruct (session_orders_ t !! s) as [ids|] eqn:Es; [|set_solver]. simpl in Hin.
    split; cbn [owner_of_ client_id_of_ remaining_of_ side_of_ session_orders_ by_client_id_].
    + intros i. by rewrite !is_Some_delete, Ho.
    + intros i. by rewrite !is_Some_delete, Hc.
    + by rewrite fmap_delete, Hr.
    + by rewrite fmap_delete, Hs.
    + intros s' i. rewrite lookup_delete_Some. destruct (decide (s = s')) as [<-|Hne].
      * rewrite lookup_insert_eq. simpl. specialize (Hses s i). rewrite Es in Hses.
        simpl in Hses. rewrite <- Hses. set_solver.
      * rewrite lookup_insert_ne by done. rewrite Hses. split; [|naive_solver].
        intros H1. split; [|done]. intros <-. congruence.
    + intros key i [Hk (s' & c' & H1 & H2 & ->)%Hby]%lookup_delete_Some.
      assert (id <> i) by (intros <-; congruence). exists s', c'. by rewrite !lookup_delete_ne by done.
  - assert (M !! id = None) as Em.
    { apply eq_None_not_Some. rewrite <- Ho, Eo. by intros []. }
    assert (client_id_of_ t !! id = None) as Ec.
    { apply eq_None_not_Some. rewrite Hc, Em. by intros []. }
    rewrite (delete_id M) by done. rewrite !delete_id;
      [by split| | |done]; [rewrite Hs|rewrite Hr]; by rewrite lookup_fmap, Em.
Qed.

Lemma set_remaining_wf t M id o q :
  tables_wf t M -> M !! id = Some o ->
  tables_wf (set_remaining id q t) (<[id := set_quantity o q]> M).
Proof.
  intros [Ho Hc Hr Hs Hses Hby] Hm.
  split; cbn [set_remaining owner_of_ client_id_of_ remaining_of_ side_of_ session_orders_ by_client_id_];
    try done.
  - intros i. rewrite lookup_insert_is_Some', Ho. split; [by right|]. intros [<-|]; [by rewrite Hm|done].
  - intros i. rewrite lookup_insert_is_Some', Hc. split; [by right|]. intros [<-|]; [by rewrite Hm|done].
  - by rewrite fmap_insert, Hr.
  - rewrite fmap_insert, Hs. symmetry. apply insert_id. by rewrite lookup_fmap, Hm.
Qed.

Lemma touch_side_wf t M id : tables_wf t M -> is_Some (M !! id) -> touch_side id t = t.
Proof.
  intros [_ _ _ Hs _ _] [o Hm]. unfold touch_side. rewrite Hs, lookup_fmap, Hm. done.
Qed.

Lemma erase_session_wf t M s :
  tables_wf t M -> (forall id, owner_of_ t !! id <> Some s) -> tables_wf (erase_session s t) M.
Proof.
  intros [Ho Hc Hr Hs Hses Hby] Hn.
  split; cbn [erase_session owner_of_ client_id_of_ remaining_of_ side_of_ session_orders_ by_client_id_];
    try done.
  intros s' i. destruct (decide (s = s')) as [<-|].
  - rewrite lookup_delete_eq. simpl. specialize (Hn i). set_solver.
  - by rewrite lookup_delete_ne by done.
Qed.

(** ** Fills *)

(** The table side of [route_fill]. *)
Definition fill_tables (id q : Z) (t : Tables) : Tables :=
  match owner_of_ t !! id with
  | None => t
  | Some _ =>
      let rem := default 0 (remaining_of_ t !! id) in
      let rem := if q <? rem then rem - q else 0 in
      let t := set_remaining id rem t in
      if rem =? 0 then forget_order id t else t
  end.

(** A fill of [q] on the map of resting orders. *)
Definition fill_map (id q : Z) (M : gmap Z Order) : gmap Z Order :=
  match M !! id with
  | None => M
  | Some o => if q <? o_quantity o then <[id := set_quantity o (o_quantity o - q)]> M
              else delete id M
  end.

Lemma fill_tables_wf t M id q :
  tables_wf t M -> tables_wf (fill_tables id q t) (fill_map id q M).
Proof.
  intros Ht. unfold fill_tables, fill_map. destruct (M !! id) as [o|] eqn:Em.
  - assert (is_Some (owner_of_ t !! id)) as [s ->] by (apply Ht; by rewrite Em).
    rewrite (tw_remaining _ _ Ht), lookup_fmap, Em. simpl.
    destruct (Z.ltb_spec q (o_quantity o)).
    + rewrite (proj2 (Z.eqb_neq _ _)) by lia. by apply set_remaining_wf.
    + rewrite Z.eqb_refl. rewrite <- (delete_insert_eq M id (set_quantity o 0)).
      apply forget_order_wf. by apply set_remaining_wf.
  - destruct (owner_of_ t !! id) eqn:Eo; [|done].
    assert (is_Some (M !! id)) as [? ?]; [apply Ht; by rewrite Eo|congruence].
Qed.

Lemma fill_map_comm i j q r M :
  i <> j -> fill_map i q (fill_map j r M) = fill_map j r (fill_map i q M).
Proof.
  intros Hij. unfold fill_map.
  destruct (M !! i) as [o|] eqn:Ei, (M !! j) as [p|] eqn:Ej; try (by rewrite ?Ei, ?Ej).
  - destruct (r <? o_quantity p) eqn:E1, (q <? o_quantity o) eqn:E2;
      rewrite ?lookup_insert_ne, ?lookup_delete_ne by done; rewrite ?Ei, ?Ej, ?E1, ?E2.
    + by rewrite insert_insert_ne.
    + by rewrite delete_insert_ne.
    + by rewrite delete_insert_ne.
    + by rewrite delete_delete.
  - rewrite Ei. destruct (q <? o_quantity o); rewrite ?lookup_insert_ne, ?lookup_delete_ne by done; by rewrite Ej.
  - destruct (r <? o_quantity p); rewrite ?lookup_insert_ne, ?lookup_delete_ne by done; by rewrite Ei.
Qed.

Definition fill_trade (M : gmap Z Order) (t : Trade) : gmap Z Order :=
  fill_map (t_seller_id t) (t_quantity t) (fill_map (t_buyer_id t) (t_quantity t) M).

Definition fill_tables_trade (t : Tables) (tr : Trade) : Tables :=
  fill_tables (t_seller_id tr) (t_quantity tr) (fill_tables (t_buyer_id tr) (t_quantity tr) t).

Lemma fill_trades_wf trs t M :
  tables_wf t M -> tables_wf (foldl fill_tables_trade t trs) (foldl fill_trade M trs).
Proof.
  revert t M. induction trs as [|tr trs IH]; intros t M H; [done|].
  cbn [foldl]. apply IH. by apply fill_tables_wf, fill_tables_wf.
Qed.

(** ** Sweeping the opposite queue *)

(** What both sweeps do: take whole orders from the front while quantity
    lasts, perhaps part of the next one, or stop. *)
Inductive swept : Z -> list Order -> Z -> list Order -> list (Order * Z) -> Prop :=
| Sw_stop q os : swept q os q os []
| Sw_whole q o os q' rest fs :
    0 < q -> o_quantity o <= q -> swept (q - o_quantity o) os q' rest fs ->
    swept q (o :: os) q' rest ((o, o_quantity o) :: fs)
| Sw_part q o os :
    0 < q < o_quantity o ->
    swept q (o :: os) 0 (set_quantity o (o_quantity o - q) :: os) [(o, q)].

Lemma sweep_limit_swept s p q os q' rest fs :
  0 <= q -> sweep_limit s p q os = (q', rest, fs) -> swept q os q' rest fs.
Proof.
  revert q q' rest fs. induction os as [|o os IH]; intros q q' rest fs Hq; cbn [sweep_limit].
  { intros [= <- <- <-]. constructor. }
  destruct (Z.ltb_spec 0 q); cbn [andb]; [|intros [= <- <- <-]; constructor].
  destruct (crossesb _ _ _); [|intros [= <- <- <-]; constructor].
  destruct (Z.leb_spec (o_quantity o) q).
  - destruct (sweep_limit s p (q - o_quantity o) os) as [[q1 rest1] fs1] eqn:E.
    intros [= <- <- <-]. constructor; [done|done|]. apply IH; [lia|done].
  - intros [= <- <- <-]. by constructor.
Qed.

Lemma sweep_swept q os q' rest fs : 0 <= q -> sweep q os = (q', rest, fs) -> swept q os q' rest fs.
Proof.
  revert q q' rest fs. induction os as [|o os IH]; intros q q' rest fs Hq; cbn [sweep].
  { intros [= <- <- <-]. constructor. }
  destruct (Z.ltb_spec 0 q); [|intros [= <- <- <-]; constructor].
  destruct (Z.leb_spec (o_quantity o) q).
  - destruct (sweep (q - o_quantity o) os) as [[q1 rest1] fs1] eqn:E.
    intros [= <- <- <-]. constructor; [lia|done|]. apply IH; [lia|done].
  - intros [= <- <- <-]. constructor. lia.
Qed.

Section sweep.
Context (o : Order).
Let x := o_id o.

(** The aggressor with [q] left, if anything is left. *)
Definition with_left (q : Z) (M : gmap Z Order) : gmap Z Order :=
  if 0 <? q then <[x := set_quantity o q]> M else M.

Definition fill_pair (M : gmap Z Order) (f : Order * Z) : gmap Z Order :=
  fill_map x f.2 (fill_map (o_id f.1) f.2 M).

Lemma with_left_lookup_ne q M i : i <> x -> with_left q M !! i = M !! i.
Proof. intros Hi. unfold with_left. destruct (0 <? q); [by rewrite lookup_insert_ne|done]. Qed.

Lemma fill_resting q i r p M :
  i <> x -> M !! i = Some p ->
  fill_map i r (with_left q M) =
  with_left q (if r <? o_quantity p then <[i := set_quantity p (o_quantity p - r)]> M else delete i M).
Proof.
  intros Hi Hp. unfold fill_map. rewrite with_left_lookup_ne, Hp by done. unfold with_left.
  destruct (r <? o_quantity p), (0 <? q); try done.
  - by rewrite insert_insert_ne.
  - by rewrite delete_insert_ne.
Qed.

Lemma fill_aggressor q r M :
  M !! x = None -> 0 < q -> r <= q -> fill_map x r (with_left q M) = with_left (q - r) M.
Proof.
  intros Hn Hq Hr. unfold fill_map, with_left. rewrite (proj2 (Z.ltb_lt 0 q)) by done.
  rewrite lookup_insert_eq. cbn [o_quantity set_quantity].
  destruct (Z.ltb_spec r q), (Z.ltb_spec 0 (q - r)); try lia.
  - by rewrite insert_insert_eq.
  - by rewrite delete_insert_id.
Qed.

Lemma swept_fills q os q' rest fs N :
  swept q os q' rest fs -> 0 <= q -> positive os -> NoDup (o_id <$> os) ->
  x ∉ (o_id <$> os) -> N !! x = None -> (forall id, id ∈ (o_id <$> os) -> N !! id = None) ->
  foldl fill_pair (with_left q (order_map os ∪ N)) fs = with_left q' (order_map rest ∪ N).
Proof.
  intros Hsw. induction Hsw as [q os|q o1 os q' rest fs Hq Hle _ IH|q o1 os Hq]; intros Hq0 Hpos Hn Hx HN Hd.
  - done.
  - apply Forall_cons in Hpos as [Hp1 Hpos]. rewrite fmap_cons in Hn, Hx, Hd.
    apply NoDup_cons in Hn as [Hn1 Hn]. apply not_elem_of_cons in Hx as [Hx1 Hx].
    assert (order_map os !! x = None) as Hox by by apply order_map_none.
    cbn [foldl]. unfold fill_pair at 2. cbn [fst snd]. rewrite order_map_cons.
    rewrite (fill_resting _ _ _ o1); [|done|by rewrite <- insert_union_l, lookup_insert_eq].
    rewrite Z.ltb_irrefl, delete_union, delete_insert_id by (by apply order_map_none).
    rewrite (delete_id N) by (apply Hd; by left).
    rewrite fill_aggressor; [|by rewrite lookup_union_None|done|done].
    apply IH; [lia|done|done|done|done|]. intros id Hid. apply Hd. by right.
  - rewrite fmap_cons in Hn, Hx, Hd.
    apply NoDup_cons in Hn as [Hn1 Hn]. apply not_elem_of_cons in Hx as [Hx1 Hx].
    assert (order_map os !! x = None) as Hox by by apply order_map_none.
    cbn [foldl]. unfold fill_pair. cbn [fst snd]. rewrite order_map_cons.
    rewrite (fill_resting _ _ _ o1); [|done|by rewrite <- insert_union_l, lookup_insert_eq].
    rewrite (proj2 (Z.ltb_lt _ _)) by lia. rewrite insert_union_l, insert_insert_eq.
    rewrite fill_aggressor; [|by rewrite lookup_union_None, lookup_insert_ne|lia|lia].
    by rewrite Z.sub_diag, order_map_cons.
Qed.

End sweep.

(** The trades a sweep prints move the two orders they name. *)
Lemma fill_limit_trade o f M :
  o_id f.1 <> o_id o -> fill_trade M (limit_trade o f) = fill_pair o M f.
Proof.
  intros Hne. unfold fill_trade, limit_trade, fill_pair. destruct (o_side o); cbn; [|done].
  by apply fill_map_comm.
Qed.

Lemma fill_market_trade o s f ts M :
  o_id f.1 <> o_id o -> fill_trade M (market_trade (o_id o) s f.2 ts f.1) = fill_pair o M f.
Proof.
  intros Hne. unfold fill_trade, market_trade, fill_pair. destruct s; cbn; [|done].
  by apply fill_map_comm.
Qed.

Lemma swept_in q os q' rest fs f : swept q os q' rest fs -> f ∈ fs -> o_id f.1 ∈ (o_id <$> os).
Proof.
  intros H. induction H as [|q o os q' rest fs _ _ _ IH|]; rewrite ?fmap_cons.
  - by intros ?%not_elem_of_nil.
  - intros [->|Hf]%elem_of_cons; [by left|right; by apply IH].
  - intros ->%list_elem_of_singleton. by left.
Qed.

Lemma foldl_trades o (g : Order * Z -> Trade) fs M :
  (forall f M, f ∈ fs -> fill_trade M (g f) = fill_pair o M f) ->
  foldl fill_trade M (g <$> fs) = foldl (fill_pair o) M fs.
Proof.
  revert M. induction fs as [|f fs IH]; intros M H; [done|]. cbn [fmap list_fmap foldl].
  rewrite H by by left. apply IH. intros f' M' Hf. apply H. by right.
Qed.

Lemma order_map_app l k : order_map (l ++ k) = order_map l ∪ order_map k.
Proof. unfold order_map. by rewrite fmap_app, list_to_map_app. Qed.

Lemma book_ids_nodup b : book_wf b -> NoDup (o_id <$> all_orders b).
Proof. by intros (_ & _ & ? & _). Qed.

Lemma book_map_sides s b :
  book_wf b -> order_map (all_orders b) = order_map (queue (opposite s) b) ∪ order_map (queue s b).
Proof.
  intros Hw. rewrite <- order_map_app. apply order_map_perm; [by apply book_ids_nodup|].
  pose proof (all_orders_perm s b) as Hp. unfold queue. rewrite Hp. apply Permutation_app_comm.
Qed.

(** The two queues of a book share no id. *)
Lemma book_sides_disjoint s b id :
  book_wf b -> id ∈ (o_id <$> queue (opposite s) b) -> order_map (queue s b) !! id = None.
Proof.
  intros Hw Hin. apply order_map_none. intros Hin'.
  pose proof (book_ids_nodup b Hw) as Hn. rewrite (all_orders_perm s) in Hn.
  fold (queue s b) (queue (opposite s) b) in Hn. rewrite fmap_app in Hn.
  apply NoDup_app in Hn as (_ & Hd & _). by apply (Hd id).
Qed.

Lemma fresh_queue s b id : fresh id b -> id ∉ (o_id <$> queue s b).
Proof.
  unfold fresh. rewrite (all_orders_perm s), fmap_app. intros Hf Hin. apply Hf.
  apply elem_of_app. by left.
Qed.

Lemma queue_nodup s b : book_wf b -> NoDup (o_id <$> queue s b).
Proof.
  intros Hw. pose proof (book_ids_nodup b Hw) as Hn. rewrite (all_orders_perm s) in Hn.
  fold (queue s b) in Hn. rewrite fmap_app in Hn. by apply NoDup_app in Hn as (? & _).
Qed.

(** ** What an order does to the map of resting orders *)

(** The fills of a new order, on the map with the order in it at full size. *)
Definition fills_of (o : Order) (b : OrderBook) (ts : list Trade) : gmap Z Order :=
  foldl fill_trade (<[o_id o := o]> (order_map (all_orders b))) ts.

Lemma with_left_start o b :
  0 < o_quantity o ->
  with_left o (o_quantity o) (order_map (all_orders b)) = <[o_id o := o]> (order_map (all_orders b)).
Proof. intros H. unfold with_left. rewrite (proj2 (Z.ltb_lt _ _)) by done. by rewrite set_quantity_id. Qed.

Lemma swept_book o b g q' rest fs :
  engine_inv b -> fresh (o_id o) b -> 0 < o_quantity o ->
  swept (o_quantity o) (queue (opposite (o_side o)) b) q' rest fs ->
  (forall f M, o_id f.1 <> o_id o -> fill_trade M (g f) = fill_pair o M f) ->
  fills_of o b (g <$> fs) = with_left o q' (order_map rest ∪ order_map (queue (o_side o) b)).
Proof.
  intros Hinv Hf Hq Hsw Hg. pose proof Hinv as (Hw & _ & _). unfold fills_of.
  rewrite <- with_left_start by done. rewrite (book_map_sides (o_side o)) by done.
  rewrite (foldl_trades o).
  - apply (swept_fills o (o_quantity o)); [done|lia|by apply engine_inv_positive|by apply queue_nodup
      |by apply fresh_queue|by apply order_map_none, fresh_queue|].
    intros id. by apply book_sides_disjoint.
  - intros f M Hin. apply Hg. intros He. apply (swept_in _ _ _ _ _ _ Hsw) in Hin.
    rewrite He in Hin. by apply (fresh_queue (opposite (o_side o))) in Hf.
Qed.

Lemma process_new_map o b :
  engine_inv b -> acceptable o b -> fresh (o_id o) b -> 0 < o_quantity o -> o_type o <> CANCEL ->
  exists r b' ts, processOrder o (mkEngine b []) = (r, mkEngine b' ts) /\ accepted r = true /\
    engine_inv b' /\
    order_map (all_orders b') =
      match o_type o with
      | MARKET => delete (o_id o) (fills_of o b ts)
      | _ => fills_of o b ts
      end.
Proof.
  intros Hinv Hok Hf Hq Ht. pose proof Hinv as (Hw & _ & _).
  pose proof (process_refines_lemma o b [] Hinv Hok) as Hp. unfold spec_process in Hp.
  rewrite !qside_abs in Hp. set (s := o_side o) in *.
  assert (order_map (queue s b) !! o_id o = None) as Hown by by apply order_map_none, fresh_queue.
  destruct (o_type o); [| |done].
  - destruct (sweep (o_quantity o) (queue (opposite s) b)) as [[q' rest] fs] eqn:E.
    destruct Hp as (b' & Hp & Habs & Hinv'). eexists _, b', _. split; [exact Hp|].
    split; [done|]. split; [done|]. rewrite app_nil_l.
    assert (queue s b' = queue s b /\ queue (opposite s) b' = rest) as [H1 H2].
    { rewrite (abs_sides s b') in Habs. destruct s; cbn [opposite mkSides] in *; by injection Habs as -> ->. }
    apply sweep_swept in E; [|lia].
    rewrite (swept_book o b _ q' rest fs) by (done || intros; by apply fill_market_trade).
    pose proof Hinv' as (Hw' & _). rewrite (book_map_sides s b'), H1, H2 by done.
    assert (order_map rest !! o_id o = None) as Hrest.
    { apply order_map_none. intros Hin. apply (fresh_queue (opposite s)) in Hf. apply Hf.
      clear -E Hin. induction E as [| |]; [done| |]; rewrite ?fmap_cons in *.
      - right. by apply IHE.
      - done. }
    symmetry. unfold with_left. destruct (0 <? q');
      [rewrite delete_insert_id|rewrite delete_id]; by rewrite ?lookup_union_None.
  - destruct (sweep_limit s (o_price_ticks o) (o_quantity o) (queue (opposite s) b))
      as [[q' rest] fs] eqn:E.
    destruct Hp as (b' & Hp & Habs & Hinv'). eexists _, b', _. split; [exact Hp|].
    split; [done|]. split; [done|]. rewrite app_nil_l.
    set (own := if 0 <? q' then insert_prio s (set_quantity o q') (queue s b) else queue s b) in *.
    assert (queue s b' = own /\ queue (opposite s) b' = rest) as [H1 H2].
    { rewrite (abs_sides s b') in Habs. destruct s; cbn [opposite mkSides] in *; by injection Habs as -> ->. }
    apply sweep_limit_swept in E; [|lia].
    rewrite (swept_book o b _ q' rest fs) by (done || intros; by apply fill_limit_trade).
    pose proof Hinv' as (Hw' & _). rewrite (book_map_sides s b'), H1, H2 by done.
    unfold with_left, own in *. destruct (0 <? q'); [|done].
    pose proof (queue_nodup s b' Hw') as Hn. rewrite H1 in Hn.
    rewrite (order_map_perm (insert_prio s (set_quantity o q') (queue s b))
      (set_quantity o q' :: queue s b)) by (done || apply insert_prio_perm).
    rewrite order_map_cons. cbn [o_id set_quantity]. rewrite insert_union_r; [done|].
    apply order_map_none. rewrite <- H2. intros Hin.
    apply (book_sides_disjoint s b' _ Hw') in Hin. rewrite H1 in Hin.
    rewrite (order_map_perm (insert_prio s (set_quantity o q') (queue s b))
      (set_quantity o q' :: queue s b)) in Hin by (done || apply insert_prio_perm).
    rewrite order_map_cons in Hin. cbn [o_id set_quantity] in Hin. by rewrite lookup_insert_eq in Hin.
Qed.

Lemma remove_id_map id os x dq :
  NoDup (o_id <$> os) -> remove_id id os = Some (x, dq) ->
  order_map dq = delete id (order_map os) /\ order_map os !! id = Some x.
Proof.
  intros Hn (l1 & l2 & -> & -> & Hid)%remove_id_some.
  assert (l1 ++ x :: l2 ≡ₚ x :: (l1 ++ l2)) as Hp by (symmetry; apply Permutation_middle).
  rewrite (order_map_perm _ _ Hn Hp), order_map_cons. rewrite Hp in Hn.
  rewrite fmap_cons in Hn. apply NoDup_cons in Hn as [Hx _]. rewrite Hid in *.
  rewrite delete_insert_id, lookup_insert_eq; [done|]. by apply order_map_none.
Qed.

Lemma process_cancel_map id b :
  engine_inv b ->
  exists r b', processOrder (cancel_order id) (mkEngine b []) = (r, mkEngine b' []) /\
    engine_inv b' /\ order_map (all_orders b') = delete id (order_map (all_orders b)) /\
    accepted r = bool_decide (is_Some (order_map (all_orders b) !! id)).
Proof.
  intros Hinv. pose proof Hinv as (Hw & _ & _).
  pose proof (process_refines_lemma (cancel_order id) b [] Hinv I) as Hp.
  unfold spec_process in Hp. cbn [o_type cancel_order o_id abs bidq askq] in Hp.
  rewrite (book_map_sides BID b Hw). cbn [opposite].
  pose proof (queue_nodup BID b Hw) as HnB. pose proof (queue_nodup ASK b Hw) as HnA.
  destruct (remove_id id (queue BID b)) as [[x bq]|] eqn:EB;
    [|destruct (remove_id id (queue ASK b)) as [[x aq]|] eqn:EA];
    destruct Hp as (b' & Hp & Habs & Hinv'); pose proof Hinv' as (Hw' & _ & _);
    eexists _, b'; (split; [exact Hp|]); (split; [done|]);
    rewrite (book_map_sides BID b' Hw'); cbn [opposite];
    unfold abs in Habs; injection Habs as Hb Ha; rewrite ?Hb, ?Ha.
  - destruct (remove_id_map id _ x bq HnB EB) as [-> Hx]. split.
    + rewrite delete_union. f_equal. symmetry. apply delete_id.
      apply (book_sides_disjoint ASK b id Hw). apply order_map_lookup in Hx as [? <-].
      by apply list_elem_of_fmap_2.
    + symmetry. apply bool_decide_eq_true_2. rewrite lookup_union_is_Some. right. by rewrite Hx.
  - destruct (remove_id_map id _ x aq HnA EA) as [-> Hx]. split.
    + rewrite delete_union. f_equal. symmetry. apply delete_id.
      apply (book_sides_disjoint BID b id Hw). apply order_map_lookup in Hx as [? <-].
      by apply list_elem_of_fmap_2.
    + symmetry. apply bool_decide_eq_true_2. rewrite lookup_union_is_Some. left. by rewrite Hx.
  - assert (forall os, remove_id id os = None -> order_map os !! id = None) as Hno.
    { intros os Hr%remove_id_none. apply order_map_none. intros (o & -> & Ho)%list_elem_of_fmap.
      rewrite Forall_forall in Hr. by apply (Hr o). }
    split.
    + rewrite delete_union, !delete_id by by apply Hno. done.
    + symmetry. apply bool_decide_eq_false_2. rewrite lookup_union_is_Some.
      rewrite !Hno by done. intros [[]|[]]; done.
Qed.
