(* ===== verification/CoreInv.v ===== *)
(** The invariant of the matching thread's core, and that every command keeps
    it: the book stays sound, the trade log is drained, the ownership tables
    describe exactly the resting orders, exchange ids are never reused. *)
From stdpp Require Import base numbers gmap list.
From Stdlib Require Import ZArith Lia.
From S2P Require Import Prelude Types OrderBook BookFacts Engine Bytes Protocol Commands Wal.
From S2P Require Import RiskConfig MatchingThread Recovery Ownership.

Definition core_book (k : Core) : OrderBook := book_ (engine_ k).
Definition core_orders (k : Core) : gmap Z Order := order_map (all_orders (core_book k)).

Record core_inv (k : Core) : Prop := {
  ci_engine : engine_inv (core_book k);
  ci_log : trade_log_ (engine_ k) = [];
  ci_tables : tables_wf (tables_ k) (core_orders k);
  ci_ids id : is_Some (core_orders k !! id) -> 0 < id < next_exchange_id_ k;
  ci_next : 0 < next_exchange_id_ k;
}.

Lemma core_inv_init : core_inv core0.
Proof.
  split; try done.
  - change (core_book core0) with empty_book. vm_decide.
  - apply tables_wf_empty.
  - intros id. change (core_orders core0) with (∅ : gmap Z Order). rewrite lookup_empty. by intros [].
Qed.

(** ** The core after publishing trades *)

Lemma emit_core eg e m : core_ (emit eg e m) = core_ m.
Proof. apply core_proper, emit_same. Qed.

Lemma publish_book_core m : core_ (publish_book m) = core_ m.
Proof. apply core_proper, publish_book_same. Qed.

Lemma route_fill_core x t m :
  core_ (route_fill x t m) =
  with_tables (fill_tables x (t_quantity t) (tables_ (core_ m))) (core_ m).
Proof.
  unfold route_fill, fill_tables. destruct (owner_of_ _ !! x); [|by destruct (core_ m)].
  cbv zeta. unfold on_tables. destruct (_ =? 0); cbn [on_core set_core core_]; by rewrite emit_core.
Qed.

Definition last_price (p : Z) (ts : list Trade) : Z := foldl (fun _ t => t_price_ticks t) p ts.

Lemma publish_fold_core ts m :
  core_ (foldl publish_trade m ts) =
  with_last_trade (last_price (last_trade_ticks_ (core_ m)) ts)
    (with_tables (foldl fill_tables_trade (tables_ (core_ m)) ts) (core_ m)).
Proof.
  revert m. induction ts as [|t ts IH]; intros m.
  { unfold last_price. cbn [foldl]. destruct (core_ m). reflexivity. }
  cbn [foldl]. rewrite IH. unfold publish_trade. rewrite !route_fill_core. done.
Qed.

Lemma publish_trades_core m :
  core_ (publish_trades 0 m) =
  with_engine (mkEngine (core_book (core_ m)) [])
    (with_last_trade (last_price (last_trade_ticks_ (core_ m)) (trade_log_ (engine_ (core_ m))))
      (with_tables (foldl fill_tables_trade (tables_ (core_ m)) (trade_log_ (engine_ (core_ m))))
        (core_ m))).
Proof.
  unfold publish_trades, clear_log. rewrite drop_0. cbn [on_core set_core core_].
  by rewrite publish_fold_core.
Qed.

(** ** New orders *)

(** The core after an accepted order that printed [ts] and left the book [b']. *)
Definition accepted_core (c : OrderCommand) (b' : OrderBook) (ts : list Trade) (k : Core) : Core :=
  let o := order_of c k in
  let t := foldl fill_tables_trade
             (record_order (o_id o) (c_session c) (c_client_order_id c) (c_quantity c) (o_side o)
                (tables_ k)) ts in
  mkCore (mkEngine b' []) (match o_type o with MARKET => forget_order (o_id o) t | _ => t end)
    (last_price (last_trade_ticks_ k) ts) (u64 (next_exchange_id_ k + 1)) (o_timestamp o).

Lemma apply_new_order_rejected c m :
  check_risk (risk_ m) c (core_ m) <> NONE -> core_ (apply_new_order c m) = core_ m.
Proof.
  intros Hr. unfold apply_new_order. rewrite bool_decide_eq_false_2 by done. apply emit_core.
Qed.

Lemma apply_new_order_accepted c m r b' ts :
  check_risk (risk_ m) c (core_ m) = NONE -> trade_log_ (engine_ (core_ m)) = [] ->
  processOrder (order_of c (core_ m)) (mkEngine (core_book (core_ m)) []) = (r, mkEngine b' ts) ->
  accepted r = true ->
  core_ (apply_new_order c m) = accepted_core c b' ts (core_ m).
Proof.
  intros Hr Hl Hp Ha. unfold apply_new_order. rewrite bool_decide_eq_true_2 by done. cbn [negb]. cbv zeta.
  set (o := order_of c (core_ m)) in *.
  match goal with |- context [processOrder o ?e] =>
    assert (e = mkEngine (core_book (core_ m)) []) as -> end.
  { cbn. unfold core_book. destruct (engine_ (core_ m)). cbn in *. by rewrite Hl. }
  rewrite Hp, Ha. cbn [negb].
  cbn [trade_log_ length].
  match goal with |- context [publish_trades 0 (emit ?eg ?ev ?m1)] =>
    set (m' := publish_book (publish_trades 0 (emit eg ev m1)));
    assert (core_ m' = with_engine (mkEngine b' []) (with_last_trade
      (last_price (last_trade_ticks_ (core_ m)) ts) (with_tables (foldl fill_tables_trade
        (record_order (o_id o) (c_session c) (c_client_order_id c) (c_quantity c) (o_side o)
          (tables_ (core_ m))) ts) (core_ m1)))) as Hm' end.
  { unfold m'. rewrite publish_book_core, publish_trades_core, emit_core. done. }
  unfold accepted_core. fold o. destruct (o_type o); cbn [on_tables on_core set_core core_];
    rewrite Hm'; done.
Qed.

Lemma check_risk_qty risk c k :
  command_ok c -> check_risk risk c k = NONE -> 0 < c_quantity c.
Proof.
  intros (_ & _ & _ & Hq). unfold check_risk. destruct (Z.eqb_spec (c_quantity c) 0); [done|].
  unfold is_u32 in Hq. lia.
Qed.

Lemma fill_map_dom id q M i : is_Some (fill_map id q M !! i) -> is_Some (M !! i).
Proof.
  unfold fill_map. destruct (M !! id) as [o|] eqn:E; [|done]. destruct (q <? o_quantity o).
  - rewrite lookup_insert_is_Some'. intros [<-|]; [by rewrite E|done].
  - rewrite lookup_delete_is_Some. by intros [].
Qed.

Lemma fill_trades_dom ts M i : is_Some (foldl fill_trade M ts !! i) -> is_Some (M !! i).
Proof.
  revert M. induction ts as [|t ts IH]; intros M; [done|]. cbn [foldl].
  intros H%IH. by apply fill_map_dom, fill_map_dom in H.
Qed.

Lemma next_fresh k : core_inv k -> fresh (next_exchange_id_ k) (core_book k).
Proof.
  intros Hk Hin. apply list_elem_of_fmap in Hin as (o & He & Ho).
  assert (core_orders k !! o_id o = Some o) as Hl.
  { apply order_map_some; [|done]. by apply book_ids_nodup, (ci_engine k Hk). }
  rewrite <- He in Hl. pose proof (ci_ids k Hk (next_exchange_id_ k)) as Hi.
  rewrite Hl in Hi. specialize (Hi ltac:(done)). lia.
Qed.

Lemma order_of_acceptable risk c k :
  core_inv k -> command_ok c -> check_risk risk c k = NONE ->
  acceptable (order_of c k) (core_book k) /\ 0 < o_quantity (order_of c k) /\
  o_type (order_of c k) <> CANCEL /\ fresh (o_id (order_of c k)) (core_book k).
Proof.
  intros Hk Hc Hr. pose proof (check_risk_qty _ _ _ Hc Hr) as Hq. pose proof (next_fresh k Hk) as Hf.
  destruct Hc as (_ & _ & _ & Hu). unfold acceptable, order_of.
  cbn [o_type o_quantity o_id]. by destruct (c_order_type c).
Qed.

(** Ids are handed out below 2^64. *)
Definition id_room (k : Core) : Prop := next_exchange_id_ k + 1 < 2 ^ 64.

Lemma apply_new_order_inv c m :
  core_inv (core_ m) -> command_ok c -> id_room (core_ m) ->
  core_inv (core_ (apply_new_order c m)) /\
  next_exchange_id_ (core_ (apply_new_order c m)) <= next_exchange_id_ (core_ m) + 1.
Proof.
  intros Hk Hc Hroom. set (k := core_ m) in *.
  destruct (decide (check_risk (risk_ m) c k = NONE)) as [Hr|Hr].
  2: { rewrite apply_new_order_rejected by done. split; [done|]. unfold k. lia. }
  destruct (order_of_acceptable _ _ _ Hk Hc Hr) as (Hok & Hq & Ht & Hf).
  destruct (process_new_map _ _ (ci_engine k Hk) Hok Hf Hq Ht) as (r & b' & ts & Hp & Ha & Hinv & Hmap).
  rewrite (apply_new_order_accepted c m r b' ts Hr (ci_log k Hk) Hp Ha). fold k.
  set (o := order_of c k) in *.
  assert (u64 (next_exchange_id_ k + 1) = next_exchange_id_ k + 1) as Hn.
  { apply u64_id. pose proof (ci_next k Hk). unfold id_room in Hroom. unfold is_u64. lia. }
  assert (tables_wf (foldl fill_tables_trade (record_order (o_id o) (c_session c)
    (c_client_order_id c) (c_quantity c) (o_side o) (tables_ k)) ts) (fills_of o (core_book k) ts)) as Htw.
  { apply fill_trades_wf. change (c_quantity c) with (o_quantity o).
    apply record_order_wf; [apply (ci_tables k Hk)|]. apply order_map_none, Hf. }
  split; [|unfold accepted_core; cbn [next_exchange_id_]; fold k; lia].
  split; unfold accepted_core; fold o;
    cbn [core_book engine_ book_ trade_log_ tables_ next_exchange_id_ core_orders].
  - done.
  - done.
  - unfold core_orders, core_book. cbn [engine_ book_]. rewrite Hmap.
    destruct (o_type o); [by apply forget_order_wf|done|done].
  - intros id Hid. rewrite Hn. unfold core_orders, core_book in Hid. cbn [engine_ book_] in Hid.
    rewrite Hmap in Hid. assert (is_Some (fills_of o (core_book k) ts !! id)) as Hid'.
    { destruct (o_type o); try done. by apply lookup_delete_is_Some in Hid as []. }
    apply fill_trades_dom, lookup_insert_is_Some' in Hid'. destruct Hid' as [<-|Hid'].
    + pose proof (ci_next k Hk). cbn. lia.
    + pose proof (ci_ids k Hk id Hid'). lia.
  - rewrite Hn. pose proof (ci_next k Hk). lia.
Qed.

(** ** Cancels *)

(** The core without the order [xoid]. *)
Definition cancelled_core (xoid : Z) (b' : OrderBook) (k : Core) : Core :=
  with_tables (forget_order xoid (tables_ k)) (with_engine (mkEngine b' []) k).

Lemma engine_eta k : trade_log_ (engine_ k) = [] -> engine_ k = mkEngine (core_book k) [].
Proof. unfold core_book. destruct (engine_ k). simpl. by intros ->. Qed.

Lemma with_engine_id k : with_engine (engine_ k) k = k.
Proof. by destruct k. Qed.
Lemma with_tables_id k : with_tables (tables_ k) k = k.
Proof. by destruct k. Qed.

(** Cancelling in the engine and in the tables keeps the invariant, also for
    an id that is not resting. *)
Lemma cancelled_core_inv xoid k r b' :
  core_inv k -> engine_inv b' ->
  order_map (all_orders b') = delete xoid (core_orders k) ->
  processOrder (cancel_order xoid) (engine_ k) = (r, mkEngine b' []) ->
  core_inv (cancelled_core xoid b' k).
Proof.
  intros Hk Hb Hm Hp. split;
    unfold cancelled_core, core_orders, core_book; cbn [with_tables with_engine engine_ book_
      trade_log_ tables_ next_exchange_id_]; rewrite ?Hm.
  - done.
  - done.
  - apply forget_order_wf, (ci_tables k Hk).
  - intros id [_ Hid]%lookup_delete_is_Some. by apply (ci_ids k Hk).
  - apply (ci_next k Hk).
Qed.

Lemma process_cancel_core k xoid :
  core_inv k ->
  exists r b', processOrder (cancel_order xoid) (engine_ k) = (r, mkEngine b' []) /\ engine_inv b' /\
    order_map (all_orders b') = delete xoid (core_orders k) /\
    accepted r = bool_decide (is_Some (core_orders k !! xoid)) /\
    core_inv (cancelled_core xoid b' k).
Proof.
  intros Hk. rewrite (engine_eta k (ci_log k Hk)).
  destruct (process_cancel_map xoid (core_book k) (ci_engine k Hk)) as (r & b' & Hp & Hi & Hm & Ha).
  exists r, b'. split_and!; try done. apply (cancelled_core_inv xoid k r b'); try done.
  by rewrite (engine_eta k (ci_log k Hk)).
Qed.

(** The book a cancel leaves. *)
Lemma process_cancel_book xoid k r b' ts :
  processOrder (cancel_order xoid) (engine_ k) = (r, mkEngine b' ts) -> b' = (cancelOrder xoid (core_book k)).2.
Proof.
  unfold processOrder, core_book. cbn [cancel_order o_type o_id]. destruct (cancelOrder _ _) as [x b].
  intros H. by apply (f_equal (fun x => book_ x.2)) in H.
Qed.

(** An id the tables know is resting. *)
Lemma find_order_resting s coid k :
  core_inv k -> find_order s coid (tables_ k) <> 0 ->
  is_Some (core_orders k !! find_order s coid (tables_ k)).
Proof.
  intros Hk. unfold find_order. destruct (by_client_id_ _ !! _) as [id|] eqn:E; [|done].
  intros _. cbn. destruct (tw_by_client _ _ (ci_tables k Hk) _ _ E) as (s' & c' & Ho & _).
  apply (tw_owner _ _ (ci_tables k Hk)). by rewrite Ho.
Qed.

(** A cancel either finds no such order, and only rejects, or removes it. *)
Lemma apply_cancel_core c m :
  core_inv (core_ m) ->
  let xoid := find_order (c_session c) (c_client_order_id c) (tables_ (core_ m)) in
  (xoid = 0 /\ core_ (apply_cancel c m) = core_ m) \/
  (is_Some (core_orders (core_ m) !! xoid) /\
   exists b', (engine_inv b' /\ b' = (cancelOrder xoid (core_book (core_ m))).2) /\
   order_map (all_orders b') = delete xoid (core_orders (core_ m)) /\
   core_ (apply_cancel c m) = cancelled_core xoid b' (core_ m) /\
   core_inv (cancelled_core xoid b' (core_ m))).
Proof.
  intros Hk xoid. unfold apply_cancel. fold xoid.
  destruct (Z.eqb_spec xoid 0) as [He|He]; [left; by rewrite emit_core|right].
  pose proof (find_order_resting _ _ _ Hk He) as Hres. fold xoid in Hres. split; [done|].
  destruct (process_cancel_core (core_ m) xoid Hk) as (r & b' & Hp & Hi & Hm & Ha & Hinv).
  exists b'. split; [split; [done|by eapply process_cancel_book]|]. split; [done|]. split; [|done].
  rewrite Hp, Ha, bool_decide_eq_true_2 by done. cbn [negb].
  by rewrite publish_book_core, emit_core.
Qed.

Lemma apply_modify_core c m :
  core_inv (core_ m) ->
  let xoid := find_order (c_session c) (c_client_order_id c) (tables_ (core_ m)) in
  (xoid = 0 /\ core_ (apply_modify c m) = core_ m) \/
  (exists o b' m', core_orders (core_ m) !! xoid = Some o /\
     (engine_inv b' /\ b' = (cancelOrder xoid (core_book (core_ m))).2) /\
     order_map (all_orders b') = delete xoid (core_orders (core_ m)) /\
     core_ m' = cancelled_core xoid b' (core_ m) /\ core_inv (core_ m') /\ m' = set_core (core_ m') m /\
     apply_modify c m = apply_new_order (replacement_of c (o_side o)) m').
Proof.
  intros Hk xoid. unfold apply_modify. fold xoid.
  destruct (Z.eqb_spec xoid 0) as [He|He]; [left; by rewrite emit_core|right].
  pose proof (find_order_resting _ _ _ Hk He) as Hres. fold xoid in Hres. destruct Hres as [o Hres].
  destruct (process_cancel_core (core_ m) xoid Hk) as (r & b' & Hp & Hi & Hm & Ha & Hinv).
  rewrite (tw_side _ _ (ci_tables _ Hk)), lookup_fmap, Hres. cbn [fmap option_fmap option_map].
  assert (core_ (on_tables (touch_side xoid) m) = core_ m) as Htouch.
  { cbn. rewrite (touch_side_wf _ _ xoid (ci_tables _ Hk)) by (by rewrite Hres).
    apply with_tables_id. }
  cbv zeta. rewrite Htouch, Hp, Ha, bool_decide_eq_true_2 by (by rewrite Hres). cbn [negb].
  exists o, b', (on_tables (forget_order xoid) (set_engine (mkEngine b' [])
    (on_tables (touch_side xoid) m))).
  split_and!; [done|done|by eapply process_cancel_book|done| | |reflexivity|reflexivity].
  - change (cancelled_core xoid b' (core_ (on_tables (touch_side xoid) m)) =
      cancelled_core xoid b' (core_ m)). by rewrite Htouch.
  - change (core_inv (cancelled_core xoid b' (core_ (on_tables (touch_side xoid) m)))).
    by rewrite Htouch.
Qed.

(** ** Cancel-on-disconnect *)

Lemma cancel_one_inv k xoid :
  core_inv k -> core_inv (cancel_one k xoid) /\
  core_orders (cancel_one k xoid) = delete xoid (core_orders k) /\
  tables_ (cancel_one k xoid) = forget_order xoid (tables_ k) /\
  next_exchange_id_ (cancel_one k xoid) = next_exchange_id_ k.
Proof.
  intros Hk. destruct (process_cancel_core k xoid Hk) as (r & b' & Hp & Hi & Hm & Ha & Hinv).
  unfold cancel_one. rewrite Hp. by split_and!.
Qed.

Definition delete_ids (ids : list Z) (M : gmap Z Order) : gmap Z Order :=
  foldr (fun id M => delete id M) M ids.

Lemma delete_ids_comm ids i M : delete_ids ids (delete i M) = delete i (delete_ids ids M).
Proof.
  unfold delete_ids. induction ids as [|j ids IH]; [done|]. cbn [foldr]. rewrite IH. apply delete_delete.
Qed.

Lemma cancel_fold_inv ids k :
  core_inv k -> core_inv (foldl cancel_one k ids) /\
  core_orders (foldl cancel_one k ids) = delete_ids ids (core_orders k) /\
  owner_of_ (tables_ (foldl cancel_one k ids)) = foldr (fun id M => delete id M) (owner_of_ (tables_ k)) ids /\
  next_exchange_id_ (foldl cancel_one k ids) = next_exchange_id_ k.
Proof.
  revert k. induction ids as [|i ids IH]; intros k Hk; [done|]. cbn [foldl].
  destruct (cancel_one_inv k i Hk) as (H1 & H2 & H3 & H4).
  destruct (IH _ H1) as (Ha & Hb & Hc & Hd). split; [done|]. rewrite Hb, H2, Hc, H3, Hd, H4.
  split; [by rewrite delete_ids_comm|]. split; [|done]. cbn [foldr].
  assert (owner_of_ (forget_order i (tables_ k)) = delete i (owner_of_ (tables_ k))) as ->.
  { unfold forget_order. destruct (owner_of_ _ !! i) eqn:E; [done|]. cbn. by rewrite delete_id. }
  clear. induction ids as [|j ids IH]; [done|]. cbn [foldr]. rewrite IH. apply delete_delete.
Qed.

Lemma lookup_foldr_delete {A} ids (M : gmap Z A) i :
  foldr (fun id M => delete id M) M ids !! i = if decide (i ∈ ids) then None else M !! i.
Proof.
  induction ids as [|j ids IH]; [done|]. cbn [foldr].
  destruct (decide (j = i)) as [->|].
  - rewrite lookup_delete_eq, decide_True by by left. done.
  - rewrite lookup_delete_ne by done. rewrite IH. destruct (decide (i ∈ ids)), (decide (i ∈ j :: ids)); set_solver.
Qed.

(** After cancel-on-disconnect the orders of the session are gone, and only they. *)
Lemma apply_cancel_all_core c m :
  core_inv (core_ m) ->
  core_inv (core_ (apply_cancel_all c m)) /\
  next_exchange_id_ (core_ (apply_cancel_all c m)) = next_exchange_id_ (core_ m) /\
  (forall id, core_orders (core_ (apply_cancel_all c m)) !! id =
    if decide (owner_of_ (tables_ (core_ m)) !! id = Some (c_session c)) then None
    else core_orders (core_ m) !! id).
Proof.
  intros Hk. set (s := c_session c). set (k := core_ m) in *.
  set (ids := match session_orders_ (tables_ k) !! s with Some ids => elements ids | None => [] end).
  assert (forall id, id ∈ ids <-> owner_of_ (tables_ k) !! id = Some s) as Hids.
  { intros id. rewrite <- (tw_sessions _ _ (ci_tables k Hk)). unfold ids.
    destruct (session_orders_ (tables_ k) !! s); simpl; set_solver. }
  destruct (cancel_fold_inv ids k Hk) as (H1 & H2 & H3 & H4).
  assert (core_ (apply_cancel_all c m) =
    with_tables (erase_session s (tables_ (foldl cancel_one k ids))) (foldl cancel_one k ids)) as ->.
  { unfold apply_cancel_all. cbv zeta. rewrite publish_book_core. fold s. fold k. fold ids.
    cbn [set_stats set_queues set_conns on_tables on_core set_core core_].
    rewrite (core_proper _ _ (push_tombstone_same _ _)). cbn [clear_log on_core set_core core_].
    fold k. pose proof (engine_eta _ (ci_log _ H1)) as He. unfold clear_trade_log.
    unfold core_book in He. rewrite <- He. by rewrite with_engine_id. }
  split_and!.
  - destruct H1 as [A1 A2 A3 A4 A5]. split; try done. apply erase_session_wf; [done|].
    intros id. rewrite H3, lookup_foldr_delete. destruct (decide (id ∈ ids)) as [|Hn]; [done|].
    by rewrite <- Hids.
  - done.
  - intros id. change (core_orders (with_tables ?t ?k')) with (core_orders k').
    match goal with |- core_orders ?x !! id = _ =>
      change (core_orders x) with (core_orders (foldl cancel_one k ids)) end.
    rewrite H2. unfold delete_ids. rewrite lookup_foldr_delete.
    destruct (decide (id ∈ ids)) as [Hin|Hin], (decide (owner_of_ (tables_ k) !! id = Some s)) as [Ho|Ho];
      try done; by rewrite Hids in Hin.
Qed.

(** ** Every command *)

Lemma dispatch_inv c m :
  core_inv (core_ m) -> command_ok c -> id_room (core_ m) ->
  core_inv (core_ (dispatch c m)) /\
  next_exchange_id_ (core_ (dispatch c m)) <= next_exchange_id_ (core_ m) + 1.
Proof.
  intros Hk Hc Hr. unfold dispatch. destruct (c_type c).
  - split; [done|]. cbn. lia.
  - by apply apply_new_order_inv.
  - destruct (apply_cancel_core c m Hk) as [[_ ->]|(_ & b' & _ & _ & -> & Hinv)]; (split; [done|]).
    + lia.
    + cbn. lia.
  - destruct (apply_modify_core c m Hk) as [[_ ->]|(o & b' & m' & _ & _ & _ & Hm & Hinv & _ & ->)].
    { split; [done|lia]. }
    assert (next_exchange_id_ (core_ m') = next_exchange_id_ (core_ m)) as Hn by by rewrite Hm.
    rewrite <- Hn. apply apply_new_order_inv; [done|done|]. unfold id_room in *. by rewrite Hn.
  - rewrite (core_proper _ _ (apply_subscribe_same c m)). split; [done|lia].
  - destruct (apply_cancel_all_core c m Hk) as (H1 & H2 & _). split; [done|lia].
Qed.

Lemma apply_inv env c m :
  core_inv (core_ m) -> command_ok c -> id_room (core_ m) ->
  core_inv (core_ (apply env c m)) /\
  next_exchange_id_ (core_ (apply env c m)) <= next_exchange_id_ (core_ m) + 1.
Proof.
  intros Hk Hc Hr. unfold apply. destruct (_ && _); [|by apply dispatch_inv].
  destruct (wal_ m) as [w|]; [|by apply dispatch_inv].
  destruct (wal_append _ _ _ _) as [ok w']. destruct (negb ok).
  - cbn. split; [done|lia].
  - by apply (dispatch_inv c (set_wal (Some w') m)).
Qed.

Lemma run_inv ps m :
  core_inv (core_ m) -> Forall (fun p => command_ok p.2) ps ->
  next_exchange_id_ (core_ m) + Z.of_nat (length ps) < 2 ^ 64 ->
  core_inv (core_ (run m ps)).
Proof.
  intros Hk Hps. revert m Hk. induction Hps as [|p ps Hp Hps IH]; intros m Hk Hn; [done|].
  cbn [run foldl length] in *. fold (run (apply p.1 p.2 m) ps).
  destruct (apply_inv p.1 p.2 m Hk Hp) as [H1 H2]; [unfold id_room; lia|].
  apply IH; [done|lia].
Qed.
