(* ===== verification/MatchProps.v ===== *)
(** Properties of the matching thread: recovery, the ownership invariant,
    cancels, cancel-on-disconnect, the risk gate, and the cases where the code
    does something else than its documentation says. *)
From stdpp Require Import base numbers gmap list.
From Stdlib Require Import ZArith Lia.
From S2P Require Import Prelude Types OrderBook BookFacts Engine Bytes Protocol Commands Wal.
From S2P Require Import WalProps Snapshot Egress RiskConfig MatchingThread Recovery Ownership.
From S2P Require Import CoreInv.

(** ** Recovery *)

Lemma live_fresh risk now cfg sp n :
  live (matching_thread0 risk (Some (wal_open [] now 0 cfg)) sp n) 1 [].
Proof. split; [done|]. eexists. by split. Qed.

(** A log only grows while commands are applied, whatever its writes do. *)
Lemma append_grows c now io w : exists later, w_file (wal_append c now io w).2 = w_file w ++ later.
Proof.
  unfold wal_append, write_all. destruct (negb (w_open w)); [exists []; by rewrite app_nil_r|].
  destruct io as [n|]; cbn [negb snd w_file]; [by eexists|].
  match goal with |- context [maybe_sync ?t ?w'] => destruct (maybe_sync_frame t w') as (_ & -> & _) end. by eexists.
Qed.

Lemma run_grows ps m w :
  wal_ m = Some w -> exists w' later, wal_ (run m ps) = Some w' /\ w_file w' = w_file w ++ later.
Proof.
  revert m w. induction ps as [|p ps IH]; intros m w Hw; [exists w, []; by rewrite app_nil_r|].
  assert (exists w1 l1, wal_ (apply p.1 p.2 m) = Some w1 /\ w_file w1 = w_file w ++ l1) as (w1 & l1 & Hw1 & Hf1).
  { assert (wal_ (dispatch p.2 m) = Some w) as Hd by (by rewrite (proj1 (proj2 (dispatch_frame p.2 m)))).
    unfold apply. destruct (_ && _); [|exists w, []; by rewrite app_nil_r]. rewrite Hw.
    destruct (append_grows p.2 (env_now p.1) (env_io p.1) w) as [l Hl].
    destruct (wal_append _ _ _ _) as [ok w1]. exists w1, l. split; [|done].
    destruct (negb ok); [done|]. by rewrite (proj1 (proj2 (dispatch_frame _ _))). }
  destruct (IH _ _ Hw1) as (w2 & l2 & Hw2 & Hf2). exists w2, (l1 ++ l2). split; [done|].
  by rewrite Hf2, Hf1, app_assoc.
Qed.

(** C2: [crash_recovery_exact]. Recovery after a crash rebuilds the state
    exactly, up to the first failed log write. Run commands whose log writes
    succeed, whose fields fit their widths, and of which there are fewer than
    2^64, on a thread with a new log, and after them any others, whose writes
    may fail. Let the process die, and let any number of bytes of the log
    survive that is not beyond what the first commands wrote; read them back and
    replay them into a fresh thread. No gap is reported, and the engine, the
    ownership tables, the last trade price, the id counter and the clock are
    those the live thread had after some prefix of the first commands, namely
    when it had logged as many commands as whole records survive. If all the
    first commands' bytes survive, they are those after all of them. (What is
    logged after a failed write cannot be recovered: see the findings.) *)
Theorem crash_recovery_exact (risk : RiskConfig) (cfg : WalConfig) (now : Z) (sp : bool) (n : Z)
    (ps later : list (Env * OrderCommand)) (k : nat) :
  writes_ok ps -> Forall (fun p => command_ok p.2) ps -> 1 + Z.of_nat (length ps) < 2 ^ 64 ->
  let m0 := matching_thread0 risk (Some (wal_open [] now 0 cfg)) sp n in
  exists w w', wal_ (run m0 ps) = Some w /\ wal_ (run m0 (ps ++ later)) = Some w' /\
  ((k <= length (w_file w))%nat ->
   let r := read_wal (Some (take k (w_file w'))) in
   let rebuilt := core_ (recover (wr_commands r) (matching_thread0 risk None sp n)) in
   wr_sequence_gap r = false /\
   (exists pre post, ps = pre ++ post /\ length (logged pre) = (k / 47)%nat /\
      rebuilt = core_ (run m0 pre)) /\
   (k = length (w_file w) -> rebuilt = core_ (run m0 ps))).
Proof.
  intros Hio Hok Hn m0.
  destruct (run_live ps m0 1 [] (live_fresh _ _ _ _ _) Hio) as [(_ & w' & Hw' & _ & Hf & _) Hrun];
    [unfold numbered; simpl; lia|].
  destruct (crash_replay m0 (matching_thread0 risk None sp n) ps 1 k) as (w & Hw & Hk);
    [apply live_fresh|done|done|done|done|unfold numbered; lia|].
  destruct (run_grows later (run m0 ps) w Hw) as (w2 & ext & Hw2 & Hf2).
  exists w, w2. split; [done|]. split; [unfold run in *; by rewrite foldl_app|].
  intros Hle. rewrite Hf2, take_app_le by done. destruct (Hk Hle) as (Hgap & pre & post & -> & Hl & Hs).
  cbv zeta. split; [done|]. split; [exists pre, post; split; [done|]; split; [done|apply Hs]|].
  intros Hfull. destruct Hs as [-> _].
  assert (w' = w) as -> by congruence. rewrite app_nil_l in Hf.
  apply Forall_app in Hio as [Hio _]. rewrite length_app in Hn.
  destruct (run_live pre m0 1 [] (live_fresh _ _ _ _ _) Hio) as [_ Hpre]; [unfold numbered; simpl; lia|].
  assert (logged pre = logged (pre ++ post)) as He.
  { rewrite logged_app in *. rewrite Hf, length_log_bytes, length_app, Nat.mul_comm in Hfull.
    rewrite Hfull, Nat.div_mul in Hl by done.
    destruct (logged post); [by rewrite app_nil_r|]. simpl in Hl. lia. }
  rewrite <- He in Hrun. rewrite (core_proper _ _ Hrun). apply (core_proper _ _ Hpre).
Qed.

Definition buy (s coid p q : Z) : OrderCommand :=
  new_order s (protocol.mkNewOrder coid p q protocol.Bid protocol.Limit).
Definition sell (s coid p q : Z) : OrderCommand :=
  new_order s (protocol.mkNewOrder coid p q protocol.Ask protocol.Limit).
Definition at_ (t : Z) (c : OrderCommand) : Env * OrderCommand := (mkEnv t None, c).

Definition sample_run : list (Env * OrderCommand) :=
  [at_ 1 (session_opened 1 (Some 1) None); at_ 2 (session_opened 2 (Some 2) None);
   at_ 3 (buy 1 1 100 10); at_ 4 (sell 2 1 100 4); at_ 5 (subscribe 1 5); at_ 6 (cancel 1 1)].

(** The write of order 2 of session 1 fails after 20 bytes. *)
Definition sample_failures : list (Env * OrderCommand) := [(mkEnv 7 (Some 20%nat), buy 1 2 98 3); at_ 8 (sell 2 2 98 1)].

Lemma crash_recovery_exact_witness :
  let m0 := matching_thread0 risk_config0 (Some (wal_open [] 0 0 wal_config0)) false 0 in
  exists w w', wal_ (run m0 sample_run) = Some w /\ wal_ (run m0 (sample_run ++ sample_failures)) = Some w' /\
  ((100 <= length (w_file w))%nat ->
   wr_sequence_gap (read_wal (Some (take 100 (w_file w')))) = false).
Proof.
  destruct (crash_recovery_exact risk_config0 wal_config0 0 false 0 sample_run sample_failures 100) as (w & w' & Hw & Hw' & H).
  - repeat constructor.
  - unfold sample_run. repeat constructor; vm_compute; done.
  - simpl. lia.
  - exists w, w'. split; [exact Hw|]. split; [exact Hw'|]. intros Hk. apply (H Hk).
Defined.

(** ** The invariant *)

(** C12: [tables_describe_book]. After any commands, whatever happened to the
    log writes, the book is sound, and the ownership tables describe exactly
    the resting orders: an id has an owner, a client id, a side and a remaining
    quantity if and only if it rests, the side and quantity being the order's
    own; a session's set holds exactly the ids it owns; every (session, client
    id) entry points to a resting order with that owner and client id; all ids
    are below the next one. *)
Theorem tables_describe_book (risk : RiskConfig) (w : option Wal) (sp : bool) (n : Z)
    (ps : list (Env * OrderCommand)) :
  Forall (fun p => command_ok p.2) ps -> 1 + Z.of_nat (length ps) < 2 ^ 64 ->
  core_inv (core_ (run (matching_thread0 risk w sp n) ps)).
Proof. intros Hok Hn. apply run_inv; [apply core_inv_init|done|cbn; lia]. Qed.

Lemma tables_describe_book_witness :
  core_inv (core_ (run (matching_thread0 risk_config0 None false 0) sample_run)).
Proof.
  apply tables_describe_book.
  - unfold sample_run. repeat constructor; vm_compute; done.
  - simpl. lia.
Defined.

(** ** Cancels *)

Definition sample_mt : MatchingThread :=
  run (matching_thread0 risk_config0 None false 0) [at_ 1 (buy 1 1 100 10); at_ 2 (buy 2 1 99 5)].

Lemma sample_mt_inv : core_inv (core_ sample_mt).
Proof. apply run_inv; [apply core_inv_init|repeat constructor; vm_compute; done|cbn; lia]. Qed.

Lemma conns_publish m :
  egress_ (publish_book m) = egress_ m /\ md_ (publish_book m) = md_ m /\
  subscribers_ (publish_book m) = subscribers_ m.
Proof.
  unfold publish_book. repeat case_match; try done.
  assert (forall subs m0 snap,
    egress_ (foldl (publish_to snap) m0 subs) = egress_ m0 /\
    md_ (foldl (publish_to snap) m0 subs) = md_ m0 /\
    subscribers_ (foldl (publish_to snap) m0 subs) = subscribers_ m0) as Hf.
  { intros subs. induction subs as [|s subs IH]; intros m0 snap; [done|].
    cbn [foldl]. destruct (IH (publish_to snap m0 s) snap) as (-> & -> & ->).
    unfold publish_to. repeat case_match; done. }
  cbv zeta. match goal with |- context [foldl (publish_to ?s) ?m1 ?l] =>
    destruct (Hf l m1 s) as (-> & -> & ->) end. done.
Qed.

(** C23: [disconnect_cancels_exactly]. Cancel-on-disconnect removes every resting
    order the session owns and leaves every other order as it was; the session
    is dropped from the routing, market-data and subscriber tables. *)
Theorem disconnect_cancels_exactly (c : OrderCommand) (m : MatchingThread) :
  core_inv (core_ m) ->
  let m' := apply_cancel_all c m in
  core_inv (core_ m') /\
  (forall id, core_orders (core_ m') !! id =
     if decide (owner_of_ (tables_ (core_ m)) !! id = Some (c_session c)) then None
     else core_orders (core_ m) !! id) /\
  egress_ m' !! c_session c = None /\ md_ m' !! c_session c = None /\
  subscribers_ m' !! c_session c = None.
Proof.
  intros Hk m'. destruct (apply_cancel_all_core c m Hk) as (H1 & _ & H2).
  split; [done|]. split; [done|]. unfold m', apply_cancel_all. cbv zeta.
  match goal with |- context [publish_book ?m1] => generalize (conns_publish m1) end.
  intros (-> & -> & ->). cbn [set_stats set_queues set_conns egress_ md_ subscribers_].
  by rewrite !lookup_delete_eq.
Qed.

Lemma disconnect_cancels_exactly_witness :
  let m' := apply_cancel_all (cancel_all 1) sample_mt in
  core_inv (core_ m') /\
  (forall id, core_orders (core_ m') !! id =
     if decide (owner_of_ (tables_ (core_ sample_mt)) !! id = Some 1) then None
     else core_orders (core_ sample_mt) !! id).
Proof.
  destruct (disconnect_cancels_exactly (cancel_all 1) sample_mt sample_mt_inv) as (H1 & H2 & _).
  split; [exact H1|exact H2].
Defined.

(** ** The risk gate *)

(** What the limits mean, in exact arithmetic. *)
Definition within_limits (risk : RiskConfig) (c : OrderCommand) (reference : option Z) : Prop :=
  0 < c_quantity c <= max_order_qty risk /\
  (c_order_type c = protocol.Market \/
   0 < c_price_ticks c /\
   (1 < tick_size risk -> (tick_size risk | c_price_ticks c)) /\
   (0 < price_band_bp risk -> forall r, reference = Some r ->
      Z.abs (c_price_ticks c - r) * 10000 <= r * price_band_bp risk)).

(** Prices and the band small enough that no 64-bit product wraps. *)
Definition risk_bounds (risk : RiskConfig) (c : OrderCommand) (k : Core) : Prop :=
  c_price_ticks c < 2 ^ 49 /\ price_band_bp risk < 10000 /\
  (forall r, reference_price k = Some r -> 0 <= r < 2 ^ 49).

(** C33: [risk_check_exact]. With prices below 2^49 ticks and a band below 100%,
    the integer risk check accepts exactly the orders within the limits: the
    quantity positive and not above the cap, a limit price positive, a multiple
    of the tick size, and within the band around the reference price. *)
Theorem risk_check_exact (risk : RiskConfig) (c : OrderCommand) (k : Core) :
  command_ok c -> risk_bounds risk c k ->
  check_risk risk c k = NONE <-> within_limits risk c (reference_price k).
Proof.
  intros (_ & _ & Hp & Hq) (Hpx & Hbp & Href). unfold check_risk, within_limits.
  destruct (Z.eqb_spec (c_quantity c) 0); [split; [done|lia]|].
  destruct (Z.ltb_spec (max_order_qty risk) (c_quantity c)); [split; [done|lia]|].
  assert (0 < c_quantity c <= max_order_qty risk) as Hqty by (unfold is_u32 in Hq; lia).
  destruct (c_order_type c); [split; [by auto|done]|].
  destruct (Z.leb_spec (c_price_ticks c) 0); [split; [done|intros [_ [|[]]]; [done|lia]]|].
  assert (((1 <? tick_size risk) && negb (Z.rem (c_price_ticks c) (tick_size risk) =? 0) = false) <->
    (1 < tick_size risk -> (tick_size risk | c_price_ticks c))) as Htick.
  { destruct (Z.ltb_spec 1 (tick_size risk)); cbn [andb]; [|split; [lia|done]].
    rewrite Z.rem_mod_nonneg by lia. destruct (Z.eqb_spec (c_price_ticks c mod tick_size risk) 0) as [E|E].
    - split; [intros _ _; by apply Z.mod_divide; [lia|]|done].
    - split; [done|]. intros Hdiv. exfalso. apply E, Z.mod_divide; [lia|]. by apply Hdiv. }
  destruct (_ && negb _).
  { split; [done|]. intros [_ [|(_ & Hdiv & _)]]; [done|]. by apply Htick in Hdiv. }
  pose proof (proj1 Htick eq_refl) as Ht. clear Htick.
  destruct (Z.ltb_spec 0 (price_band_bp risk)).
  2: { split; [|done]. intros _. split; [done|]. right. split; [done|]. split; [done|lia]. }
  destruct (reference_price k) as [r|].
  2: { split; [|done]. intros _. split; [done|]. right. by split_and!. }
  specialize (Href r eq_refl).
  assert (i64 (r * price_band_bp risk) = r * price_band_bp risk) as ->.
  { apply i64_id. unfold is_i64. change (2 ^ 49) with 562949953421312 in *. change (2 ^ 63) with 9223372036854775808. nia. }
  set (d := if r <? c_price_ticks c then _ else _).
  assert (d = Z.abs (c_price_ticks c - r)) as ->.
  { unfold d. destruct (Z.ltb_spec r (c_price_ticks c)); rewrite i64_id; unfold is_i64; try lia. }
  rewrite i64_id by (unfold is_i64; lia).
  destruct (Z.ltb_spec (r * price_band_bp risk) (Z.abs (c_price_ticks c - r) * 10000)).
  - split; [done|]. intros [_ [|(_ & _ & Hband)]]; [done|]. specialize (Hband ltac:(done) r eq_refl). lia.
  - split; [|done]. intros _. split; [done|]. right. split_and!; [done|done|].
    intros _ r' [= <-]. done.
Qed.

Lemma risk_check_exact_witness :
  check_risk risk_config0 (buy 3 1 109 5) (core_ sample_mt) = NONE <->
  within_limits risk_config0 (buy 3 1 109 5) (reference_price (core_ sample_mt)).
Proof.
  apply (risk_check_exact risk_config0 (buy 3 1 109 5) (core_ sample_mt)).
  - vm_compute. done.
  - split; [vm_compute; done|]. split; [vm_compute; done|].
    intros r Hr. vm_compute in Hr. discriminate.
Defined.

(** [risk_reject_harmless]. An order the risk gate refuses leaves book,
    tables, counters and clock untouched; the client is told why, and that its
    order is closed, by one event at the end of its queue. *)
Theorem risk_reject_harmless (c : OrderCommand) (m : MatchingThread) (p : Z) (q : EgressQueue) :
  check_risk (risk_ m) c (core_ m) <> NONE -> replaying_ m = false ->
  egress_for (c_session c) m = Some p -> egress_store m !! p = Some q ->
  Z.of_nat (length (q_items q)) < kEgressCapacity ->
  core_ (apply_new_order c m) = core_ m /\
  egress_store (apply_new_order c m) = <[p := mkEgress (q_items q ++
    [ev_reject (c_session c) (c_client_order_id c) (check_risk (risk_ m) c (core_ m))])
    (overflowed_ q)]> (egress_store m).
Proof.
  intros Hr Hrep Hp Hq Hroom. split; [by apply apply_new_order_rejected|].
  unfold apply_new_order. rewrite bool_decide_eq_false_2 by done. cbn [negb]. rewrite Hp.
  unfold emit. rewrite Hrep, Hq. unfold egress_push, bounded_push.
  rewrite (proj2 (Z.ltb_lt _ _)) by done. done.
Qed.

Definition one_session : MatchingThread :=
  set_queues 0 {[ 1 := egress_queue0 ]} ∅ stats0
    (run (matching_thread0 risk_config0 None false 0) [at_ 1 (session_opened 1 (Some 1) None)]).

Lemma risk_reject_harmless_witness :
  core_ (apply_new_order (buy 1 5 100 0) one_session) = core_ one_session /\
  egress_store (apply_new_order (buy 1 5 100 0) one_session) =
    <[1 := mkEgress [ev_reject 1 5 INVALID_QTY] false]> (egress_store one_session).
Proof.
  apply (risk_reject_harmless (buy 1 5 100 0) one_session 1 egress_queue0).
  - vm_compute. discriminate.
  - reflexivity.
  - reflexivity.
  - reflexivity.
  - reflexivity.
Defined.

(** [risk_band_overflow]. The band check is not exact for large prices: the
    scaled distance overflows 64 bits, and an order nine trillion times the last
    trade price passes a 10% band. *)
Theorem risk_band_overflow :
  let k := mkCore empty_engine tables0 100 1 0 in
  check_risk risk_config0 (buy 1 1 922337203685578 1) k = NONE /\
  reference_price k = Some 100 /\
  ~ within_limits risk_config0 (buy 1 1 922337203685578 1) (Some 100).
Proof.
  split; [vm_compute; reflexivity|]. split; [reflexivity|].
  intros [_ [H|(_ & _ & H)]]; [discriminate|]. specialize (H eq_refl 100 eq_refl).
  vm_compute in H. by apply H.
Qed.
