(* ===== verification/RestoreProps.v ===== *)
(** Exporting a snapshot from the matching thread and restoring it. *)
From stdpp Require Import base numbers gmap list.
From Stdlib Require Import ZArith Lia.
From S2P Require Import Prelude Types OrderBook BookFacts Engine Bytes Protocol Commands Snapshot.
From S2P Require Import RiskConfig MatchingThread Recovery Ownership CoreInv.

(** ** Folding insertions into a map *)

Section insert_all.
Context {A B : Type} (f : A -> Z) (g : A -> B).

Definition insert_all (l : list A) (m : gmap Z B) : gmap Z B :=
  foldl (fun m a => <[f a := g a]> m) m l.

Lemma insert_all_lookup l m i v :
  NoDup (f <$> l) ->
  (insert_all l m !! i = Some v) <->
  (exists a, a ∈ l /\ f a = i /\ g a = v) \/ (i ∉ (f <$> l) /\ m !! i = Some v).
Proof.
  revert m. induction l as [|a l IH]; intros m Hn.
  { simpl. split; [|by intros [(a & ?%not_elem_of_nil & _)|[_ ?]]].
    intros Hm. right. split; [apply not_elem_of_nil|done]. }
  rewrite fmap_cons in Hn. apply NoDup_cons in Hn as [Ha Hn]. cbn [insert_all foldl fmap list_fmap].
  fold (insert_all l (<[f a := g a]> m)). rewrite IH by done. clear IH.
  rewrite not_elem_of_cons. split.
  - intros [(b & Hb & <- & <-)|[Hi Hm]].
    + left. exists b. split; [by right|done].
    + apply lookup_insert_Some in Hm as [[<- <-]|[Hne Hm]].
      * left. exists a. split; [by left|done].
      * right. done.
  - intros [(b & [->|Hb]%elem_of_cons & <- & <-)|[[Hi1 Hi2] Hm]].
    + right. split; [done|]. by rewrite lookup_insert_eq.
    + left. by exists b.
    + right. split; [done|]. by rewrite lookup_insert_ne.
Qed.

End insert_all.

(** ** The fold of [restore] *)

Definition record_snap (t : Tables) (so : SnapshotOrder) : Tables :=
  record_order (so_exchange_id so) (so_session so) (so_client_order_id so) (so_quantity so)
    (o_side (restore_order so)) t.

Lemma restore_fold sos k :
  foldl restore_one k sos =
  mkCore (mkEngine (add_orders (restore_order <$> sos) (core_book k)) (trade_log_ (engine_ k)))
    (foldl record_snap (tables_ k) sos) (last_trade_ticks_ k) (next_exchange_id_ k) (logical_clock_ k).
Proof.
  revert k. induction sos as [|so sos IH]; intros k; [by destruct k as [[? ?] ? ? ? ?]|].
  cbn [foldl fmap list_fmap]. rewrite IH. done.
Qed.

Lemma record_snap_maps sos t :
  owner_of_ (foldl record_snap t sos) = insert_all so_exchange_id so_session sos (owner_of_ t) /\
  client_id_of_ (foldl record_snap t sos) =
    insert_all so_exchange_id so_client_order_id sos (client_id_of_ t) /\
  by_client_id_ (foldl record_snap t sos) =
    insert_all (fun so => key_of (so_session so) (so_client_order_id so)) so_exchange_id sos
      (by_client_id_ t).
Proof.
  revert t. induction sos as [|so sos IH]; intros t; [done|]. cbn [foldl].
  destruct (IH (record_snap t so)) as (-> & -> & ->). done.
Qed.

Lemma record_snap_wf sos t M :
  tables_wf t M -> NoDup (so_exchange_id <$> sos) ->
  (forall so, so ∈ sos -> M !! so_exchange_id so = None) ->
  tables_wf (foldl record_snap t sos)
    (foldl (fun M so => <[so_exchange_id so := restore_order so]> M) M sos).
Proof.
  revert t M. induction sos as [|so sos IH]; intros t M Ht Hn Hf; [done|].
  rewrite fmap_cons in Hn. apply NoDup_cons in Hn as [Hso Hn]. cbn [foldl]. apply IH; [|done|].
  - apply (record_order_wf t M _ _ _ (restore_order so)); [done|]. apply Hf. by left.
  - intros so' Hin. rewrite lookup_insert_ne; [apply Hf; by right|].
    intros He. apply Hso. rewrite He. by apply list_elem_of_fmap_2.
Qed.

(** ** What restoring preserves *)

(** Every resting order can be found by its session and client id: no two of
    them share a key. *)
Definition keys_complete (t : Tables) : Prop :=
  forall id s coid, owner_of_ t !! id = Some s -> client_id_of_ t !! id = Some coid ->
    by_client_id_ t !! key_of s coid = Some id.

(** Equal tables, but for sessions without orders: an empty set and no entry
    are the same to every handler. *)
Record tables_equiv (t u : Tables) : Prop := {
  te_owner : owner_of_ t = owner_of_ u;
  te_client : client_id_of_ t = client_id_of_ u;
  te_remaining : remaining_of_ t = remaining_of_ u;
  te_side : side_of_ t = side_of_ u;
  te_sessions s : default ∅ (session_orders_ t !! s) = default ∅ (session_orders_ u !! s);
  te_by_client : by_client_id_ t = by_client_id_ u;
}.

Lemma restore_export_order t o :
  o_type o = LIMIT -> restore_order (export_order t o) = o.
Proof. destruct o as [? ? ? [] ? ?]; simpl; intros ->; done. Qed.

Lemma all_orders_limit b o : book_wf b -> o ∈ all_orders b -> o_type o = LIMIT.
Proof.
  intros Hw Ho. unfold all_orders in Ho. apply elem_of_app in Ho.
  destruct Hw as (Hb & Ha & _). pose proof (flat_resting _ _ Hb) as Hfb. pose proof (flat_resting _ _ Ha) as Hfa.
  rewrite Forall_forall in Hfb, Hfa. destruct Ho as [Ho|Ho];
    [destruct (Hfb o Ho) as (? & ? & ?)|destruct (Hfa o Ho) as (? & ? & ?)]; naive_solver.
Qed.

Section restore.
Context (k : Core) (Hk : core_inv k) (Hkeys : keys_complete (tables_ k)) (seq : Z).
Let os := all_orders (core_book k).
Let t := tables_ k.
Let sos := export_order t <$> os.

Lemma export_ids : so_exchange_id <$> sos = o_id <$> os.
Proof. unfold sos. rewrite <- list_fmap_compose. done. Qed.

Lemma book_ids : NoDup (o_id <$> os).
Proof. apply book_ids_nodup, (ci_engine k Hk). Qed.

Lemma export_nodup : NoDup (so_exchange_id <$> sos).
Proof. rewrite export_ids. apply book_ids. Qed.

Lemma restored_orders : restore_order <$> sos = os.
Proof.
  unfold sos. rewrite <- list_fmap_compose. rewrite <- (list_fmap_id os) at 2.
  apply list_fmap_ext. intros i o Ho. cbn. apply restore_export_order.
  apply list_elem_of_lookup_2 in Ho. apply (all_orders_limit (core_book k)); [|done].
  apply (ci_engine k Hk).
Qed.

(** A resting order has an owner and a client id, and they are exported. *)
Lemma exported so :
  so ∈ sos <-> exists o, core_orders k !! so_exchange_id so = Some o /\ so = export_order t o.
Proof.
  unfold sos. rewrite list_elem_of_fmap. split.
  - intros (o & -> & Ho). exists o. split; [|done]. apply order_map_some; [apply book_ids|done].
  - intros (o & Ho & ->). exists o. split; [done|]. by apply order_map_lookup in Ho as [? _].
Qed.

Lemma exported_owner so : so ∈ sos -> owner_of_ t !! so_exchange_id so = Some (so_session so).
Proof.
  intros (o & Ho & ->)%exported. cbn in *.
  assert (is_Some (owner_of_ t !! o_id o)) as [s Hs] by (apply (ci_tables k Hk); by rewrite Ho).
  by rewrite Hs.
Qed.

Lemma exported_client so : so ∈ sos -> client_id_of_ t !! so_exchange_id so = Some (so_client_order_id so).
Proof.
  intros (o & Ho & ->)%exported. cbn in *.
  assert (is_Some (client_id_of_ t !! o_id o)) as [s Hs] by (apply (ci_tables k Hk); by rewrite Ho).
  by rewrite Hs.
Qed.

(** A map on the ids of resting orders is what inserting the exports gives. *)
Lemma insert_all_exports {B} (m : gmap Z B) (g : SnapshotOrder -> B) :
  (forall id, is_Some (m !! id) <-> is_Some (core_orders k !! id)) ->
  (forall so, so ∈ sos -> m !! so_exchange_id so = Some (g so)) ->
  insert_all so_exchange_id g sos ∅ = m.
Proof.
  intros Hdom Hval. apply map_eq. intros i. apply option_eq. intros v.
  rewrite insert_all_lookup by apply export_nodup. split.
  - intros [(so & Hso & <- & <-)|[_ Hm]]; [by apply Hval|by rewrite lookup_empty in Hm].
  - intros Hm. left. assert (is_Some (core_orders k !! i)) as [o Ho] by (apply Hdom; by rewrite Hm).
    assert (o_id o = i) as Hid by by apply order_map_lookup in Ho as [_ ?].
    exists (export_order t o). assert (export_order t o ∈ sos) as Hin.
    { apply exported. exists o. cbn. by rewrite Hid. }
    split; [done|]. specialize (Hval _ Hin). cbn in Hval |- *. rewrite Hid in Hval |- *.
    split; [done|]. congruence.
Qed.

Lemma export_keys_nodup :
  NoDup ((fun so => key_of (so_session so) (so_client_order_id so)) <$> sos).
Proof.
  apply NoDup_fmap_2_strong; [|apply (NoDup_fmap_1 so_exchange_id), export_nodup].
  intros x y Hx Hy He.
  pose proof (Hkeys _ _ _ (exported_owner x Hx) (exported_client x Hx)) as H1.
  pose proof (Hkeys _ _ _ (exported_owner y Hy) (exported_client y Hy)) as H2.
  rewrite He in H1. assert (so_exchange_id x = so_exchange_id y) as Hxy by congruence.
  apply exported in Hx as (o & Ho & ->). apply exported in Hy as (o' & Ho' & ->).
  rewrite Hxy in Ho. congruence.
Qed.

Lemma restored_by_client :
  insert_all (fun so => key_of (so_session so) (so_client_order_id so)) so_exchange_id sos ∅ =
  by_client_id_ t.
Proof.
  apply map_eq. intros i. apply option_eq. intros v.
  rewrite insert_all_lookup by apply export_keys_nodup. split.
  - intros [(so & Hso & <- & <-)|[_ Hm]]; [|by rewrite lookup_empty in Hm].
    apply Hkeys; [by apply exported_owner|by apply exported_client].
  - intros Hm. left. destruct (tw_by_client _ _ (ci_tables k Hk) _ _ Hm) as (s & c & H1 & H2 & ->).
    assert (is_Some (core_orders k !! v)) as [o Ho] by (apply (ci_tables k Hk); by rewrite H1).
    assert (o_id o = v) as Hid by by apply order_map_lookup in Ho as [_ ?].
    exists (export_order t o). assert (export_order t o ∈ sos) as Hin.
    { apply exported. exists o. cbn. by rewrite Hid. }
    pose proof (exported_owner _ Hin) as H3. pose proof (exported_client _ Hin) as H4. cbn in H3, H4 |- *.
    split; [done|]. fold t in H1, H2. rewrite Hid in *. rewrite H1, H2. done.
Qed.

Lemma restored_wf : tables_wf (foldl record_snap tables0 sos) (core_orders k).
Proof.
  assert (insert_all so_exchange_id restore_order sos ∅ = core_orders k) as <-.
  { apply insert_all_exports; [done|]. intros so (o & Ho & ->)%exported.
    rewrite Ho, restore_export_order; [done|]. apply order_map_lookup in Ho as [Ho _].
    apply (all_orders_limit (core_book k)); [apply (ci_engine k Hk)|done]. }
  apply record_snap_wf; [apply tables_wf_empty|apply export_nodup|]. intros. apply lookup_empty.
Qed.

Lemma restored_tables : tables_equiv (foldl record_snap tables0 sos) t.
Proof.
  destruct (record_snap_maps sos tables0) as (Ho & Hc & Hb). cbn [tables0 owner_of_ client_id_of_ by_client_id_] in *.
  pose proof (ci_tables k Hk) as Ht. fold t in Ht.
  assert (owner_of_ (foldl record_snap tables0 sos) = owner_of_ t) as Hown.
  { rewrite Ho. apply insert_all_exports; [apply Ht|apply exported_owner]. }
  split.
  - done.
  - rewrite Hc. apply insert_all_exports; [apply Ht|apply exported_client].
  - by rewrite (tw_remaining _ _ restored_wf), (tw_remaining _ _ Ht).
  - by rewrite (tw_side _ _ restored_wf), (tw_side _ _ Ht).
  - intros s. apply leibniz_equiv. intros id.
    by rewrite (tw_sessions _ _ restored_wf), (tw_sessions _ _ Ht), Hown.
  - rewrite Hb. apply restored_by_client.
Qed.

End restore.

Lemma clock_max sos c :
  c <= foldl (fun clock so => if clock <? so_timestamp so then so_timestamp so else clock) c sos /\
  Forall (fun so => so_timestamp so <=
    foldl (fun clock so => if clock <? so_timestamp so then so_timestamp so else clock) c sos) sos.
Proof.
  revert c. induction sos as [|so sos IH]; intros c; [split; [simpl; lia|constructor]|].
  cbn [foldl]. destruct (IH (if c <? so_timestamp so then so_timestamp so else c)) as [H1 H2].
  destruct (Z.ltb_spec c (so_timestamp so)); (split; [lia|]); (constructor; [lia|done]).
Qed.

(** Engine, tables, last price and id counter of a restored export. *)
Lemma restore_exact k seq :
  core_inv k -> keys_complete (tables_ k) ->
  let k' := restore (export_snapshot seq k) core0 in
  engine_ k' = engine_ k /\ tables_equiv (tables_ k') (tables_ k) /\
  last_trade_ticks_ k' = last_trade_ticks_ k /\ next_exchange_id_ k' = next_exchange_id_ k.
Proof.
  intros Hk Hkeys k'. unfold k', restore. cbn [sd_orders export_snapshot sd_last_trade_ticks sd_next_exchange_id].
  rewrite restore_fold. cbn [engine_ tables_ last_trade_ticks_ next_exchange_id_ logical_clock_].
  split_and!; [|by apply restored_tables|done|done].
  fold (core_book k). rewrite restored_orders by done. change (core_book _) with empty_book at 2.
  rewrite add_orders_rebuild by apply (ci_engine k Hk). symmetry. by apply engine_eta, ci_log.
Qed.

(** ** Claims *)

(** C20: [snapshot_restores_state]. Restoring an exported snapshot into a fresh
    thread rebuilds the engine identically (levels, queues, totals, location
    map) and the ownership tables, the last trade price and the id counter,
    and leaves the logical clock no earlier than any resting order, provided
    every resting order could be found by its session and client id before. *)
Theorem snapshot_restores_state (k : Core) (seq : Z) :
  core_inv k -> keys_complete (tables_ k) ->
  let k' := restore (export_snapshot seq k) core0 in
  engine_ k' = engine_ k /\ tables_equiv (tables_ k') (tables_ k) /\
  last_trade_ticks_ k' = last_trade_ticks_ k /\ next_exchange_id_ k' = next_exchange_id_ k /\
  Forall (fun o => o_timestamp o <= logical_clock_ k') (all_orders (core_book k)).
Proof.
  intros Hk Hkeys k'. destruct (restore_exact k seq Hk Hkeys) as (H1 & H2 & H3 & H4). fold k' in H1, H2, H3, H4.
  split_and!; try done. unfold k', restore. cbn [logical_clock_ export_snapshot sd_orders].
  match goal with |- Forall (fun o => _ <= foldl ?f ?c ?l) _ =>
    destruct (clock_max l c) as [_ Hc] end.
  rewrite Forall_fmap in Hc. eapply Forall_impl; [exact Hc|]. done.
Qed.

Definition restore_sample : Core :=
  core_ (run (matching_thread0 risk_config0 None false 0)
    [(mkEnv 1 None, new_order 1 (protocol.mkNewOrder 1 100 10 protocol.Bid protocol.Limit));
     (mkEnv 2 None, new_order 2 (protocol.mkNewOrder 1 100 4 protocol.Ask protocol.Limit));
     (mkEnv 3 None, new_order 2 (protocol.mkNewOrder 2 103 7 protocol.Ask protocol.Limit))]).

Lemma snapshot_restores_state_witness :
  engine_ (restore (export_snapshot 9 restore_sample) core0) = engine_ restore_sample.
Proof.
  apply (snapshot_restores_state restore_sample 9).
  - apply run_inv; [apply core_inv_init|repeat constructor; vm_compute; done|cbn; lia].
  - intros id s coid Ho Hc.
    assert (owner_of_ (tables_ restore_sample) = {[1 := 1; 3 := 2]}) as Hown by (vm_compute; reflexivity).
    rewrite Hown in Ho. apply lookup_insert_Some in Ho as [[<- <-]|[_ [<- <-]%lookup_singleton_Some]];
      vm_compute in Hc; injection Hc as <-; vm_compute; reflexivity.
Defined.
