(* ===== verification/Timeless.v ===== *)
(** Timestamps do not matter for matching: erasing them from book, orders and
    trades commutes with every operation of the engine, and two cores that
    differ by timestamps and clock stay so under any commands. This is what
    makes recovery from a snapshot exact although a restored clock may lag. *)
From stdpp Require Import base numbers gmap list.
From Stdlib Require Import ZArith Lia.
From S2P Require Import Prelude Types OrderBook BookFacts Engine Bytes Protocol Commands Wal WalProps.
From S2P Require Import Snapshot Egress RiskConfig MatchingThread Recovery Ownership CoreInv.
From S2P Require Import RestoreProps.

(** ** Erasure *)

Definition strip (o : Order) : Order :=
  mkOrder (o_id o) (o_price_ticks o) (o_quantity o) (o_side o) (o_type o) 0.
Definition strip_level (pl : PriceLevel) : PriceLevel :=
  mkLevel (lvl_price_ticks pl) (total_qty pl) (strip <$> orders pl).
Definition strip_levels (ls : list PriceLevel) : list PriceLevel := strip_level <$> ls.
Definition strip_book (b : OrderBook) : OrderBook :=
  mkBook (strip_levels (bids_ b)) (strip_levels (asks_ b)) (order_loc_ b).
Definition strip_trade (t : Trade) : Trade :=
  mkTrade (t_buyer_id t) (t_seller_id t) (t_price_ticks t) (t_quantity t) 0.
Definition strip_engine (e : MatchingEngine) : MatchingEngine :=
  mkEngine (strip_book (book_ e)) (strip_trade <$> trade_log_ e).

(** ** The book *)

Lemma lower_bound_fmap {A B} (f : A -> B) (p : B -> bool) (l : list A) :
  lower_bound p (f <$> l) = lower_bound (fun x => p (f x)) l.
Proof.
  unfold lower_bound. rewrite length_fmap. generalize (length l) at 1 3 as fuel.
  intros fuel. generalize 0%nat as first, (length l) as count. revert fuel.
  induction fuel as [|fuel IH]; intros first count; [done|]. cbn [lower_bound_loop].
  destruct count as [|count]; [done|]. rewrite list_lookup_fmap.
  destruct (l !! _) as [x|]; [|done]. cbn. destruct (p (f x)); apply IH.
Qed.

Lemma find_level_strip s p ls : find_level s p (strip_levels ls) = find_level s p ls.
Proof. unfold find_level, strip_levels. rewrite lower_bound_fmap. by destruct s. Qed.

Lemma levels_strip s b : levels s (strip_book b) = strip_levels (levels s b).
Proof. by destruct s. Qed.
Lemma with_levels_strip s ls b :
  with_levels s (strip_levels ls) (strip_book b) = strip_book (with_levels s ls b).
Proof. by destruct s. Qed.

Lemma insert_at_strip i pl ls :
  insert_at i (strip_level pl) (strip_levels ls) = strip_levels (insert_at i pl ls).
Proof. unfold insert_at, strip_levels. by rewrite fmap_app, fmap_cons, fmap_take, fmap_drop. Qed.

Lemma add_to_side_strip s o ls :
  add_to_side s (strip o) (strip_levels ls) = strip_levels (add_to_side s o ls).
Proof.
  unfold add_to_side. cbn [strip o_price_ticks o_quantity]. rewrite find_level_strip.
  unfold strip_levels at 1. rewrite list_lookup_fmap.
  destruct (ls !! _) as [pl|]; cbn [fmap option_fmap option_map].
  - cbn [strip_level lvl_price_ticks]. destruct (_ =? _).
    + unfold strip_levels. rewrite list_fmap_insert. f_equal. unfold strip_level. cbn.
      by rewrite fmap_app.
    + by rewrite <- insert_at_strip.
  - by rewrite <- insert_at_strip.
Qed.

Lemma addOrder_strip o b : addOrder (strip o) (strip_book b) = strip_book (addOrder o b).
Proof.
  unfold addOrder. cbn [strip o_type]. destruct (o_type o); try done.
  change (o_side (strip o)) with (o_side o).
  rewrite levels_strip, add_to_side_strip, with_levels_strip. by destruct (o_side o).
Qed.

Lemma remove_id_strip id os :
  remove_id id (strip <$> os) =
  match remove_id id os with Some (o, dq) => Some (strip o, strip <$> dq) | None => None end.
Proof.
  induction os as [|o os IH]; [done|]. cbn. destruct (o_id o =? id); [done|].
  rewrite IH. by destruct (remove_id id os) as [[x dq]|].
Qed.

Lemma erase_from_strip s p id ls :
  erase_from s p id (strip_levels ls) = strip_levels <$> erase_from s p id ls.
Proof.
  unfold erase_from. rewrite find_level_strip. unfold strip_levels at 1. rewrite list_lookup_fmap.
  destruct (ls !! _) as [pl|]; [|done]. cbn [fmap option_fmap option_map strip_level lvl_price_ticks orders].
  destruct (_ =? _); [|done]. rewrite remove_id_strip.
  destruct (remove_id id (orders pl)) as [[o dq]|]; [|done]. destruct dq as [|x dq]; cbn [fmap list_fmap option_fmap option_map].
  - unfold strip_levels. by rewrite list_fmap_delete.
  - unfold strip_levels. by rewrite list_fmap_insert.
Qed.

Lemma cancelOrder_strip id b :
  cancelOrder id (strip_book b) = ((cancelOrder id b).1, strip_book (cancelOrder id b).2).
Proof.
  unfold cancelOrder. cbn [strip_book order_loc_]. destruct (order_loc_ b !! id) as [[s p]|]; [|done].
  fold (strip_book b). rewrite levels_strip, erase_from_strip.
  destruct (erase_from s p id (levels s b)) as [ls|]; [|done]. cbn [fmap option_fmap option_map fst snd].
  rewrite with_levels_strip. by destruct s.
Qed.

Lemma is_crossed_strip b : is_crossed (strip_book b) = is_crossed b.
Proof. unfold is_crossed. cbn. by destruct (bids_ b), (asks_ b). Qed.

Lemma front_order_strip ls : front_order (strip_levels ls) = strip <$> front_order ls.
Proof. destruct ls as [|pl ls]; [done|]. cbn. by destruct (orders pl). Qed.

Lemma fill_front_strip q ls :
  fill_front q (strip_levels ls) = (strip_levels (fill_front q ls).1, (fill_front q ls).2).
Proof.
  destruct ls as [|pl ls]; [done|]. unfold fill_front. cbn [strip_levels fmap list_fmap strip_level orders].
  destruct (orders pl) as [|o dq] eqn:E; cbn [fmap list_fmap].
  { cbn. unfold strip_level. by rewrite E. }
  cbn [strip o_quantity o_id]. destruct (_ =? 0); [|done]. destruct dq; done.
Qed.

Definition strip_pair (r : Trade * OrderBook) : Trade * OrderBook := (strip_trade r.1, strip_book r.2).

Lemma execute_top_cross_strip b :
  execute_top_cross (strip_book b) = strip_pair <$> execute_top_cross b.
Proof.
  unfold execute_top_cross. rewrite is_crossed_strip. destruct (is_crossed b); [|done].
  cbn [strip_book bids_ asks_]. rewrite !front_order_strip.
  destruct (front_order (bids_ b)) as [bid|]; [|done]. destruct (front_order (asks_ b)) as [ask|]; [|done].
  cbn [fmap option_fmap option_map strip o_quantity o_id o_price_ticks o_timestamp].
  rewrite !fill_front_strip. by destruct (fill_front _ (bids_ b)) as [? ?], (fill_front _ (asks_ b)) as [? ?].
Qed.

Definition strip_run (r : Z * OrderBook * list Trade) : Z * OrderBook * list Trade :=
  (r.1.1, strip_book r.1.2, strip_trade <$> r.2).

Lemma cross_loop_strip fuel id q b log :
  cross_loop fuel id q (strip_book b) (strip_trade <$> log) = strip_run (cross_loop fuel id q b log).
Proof.
  revert q b log. induction fuel as [|fuel IH]; intros q b log; [done|]. cbn [cross_loop].
  rewrite is_crossed_strip. destruct (_ && _); [|done]. rewrite execute_top_cross_strip.
  destruct (execute_top_cross b) as [[t b']|]; [|done].
  cbn [fmap option_fmap option_map strip_pair strip_trade fst snd t_buyer_id t_seller_id t_quantity].
  rewrite <- IH, fmap_app. done.
Qed.

Lemma flat_strip ls : flat (strip_levels ls) = strip <$> flat ls.
Proof.
  induction ls as [|pl ls IH]; [done|]. change (flat (pl :: ls)) with (orders pl ++ flat ls).
  rewrite fmap_app, <- IH. done.
Qed.

Lemma length_flat_strip ls : length (flat (strip_levels ls)) = length (flat ls).
Proof. by rewrite flat_strip, length_fmap. Qed.

Lemma all_orders_strip b : all_orders (strip_book b) = strip <$> all_orders b.
Proof. unfold all_orders. cbn [strip_book bids_ asks_]. by rewrite !flat_strip, fmap_app. Qed.

Definition strip_market (r : Z * list PriceLevel * gmap Z (Side * Z) * list Trade)
    : Z * list PriceLevel * gmap Z (Side * Z) * list Trade :=
  let '(q, ls, loc, ts) := r in (q, strip_levels ls, loc, strip_trade <$> ts).

Lemma match_loop_strip fuel id side ts q ls loc trades :
  match_loop fuel id side 0 q (strip_levels ls) loc (strip_trade <$> trades) =
  strip_market (match_loop fuel id side ts q ls loc trades).
Proof.
  revert q ls loc trades. induction fuel as [|fuel IH]; intros q ls loc trades; [done|]. cbn [match_loop].
  destruct (0 <? q); [|done]. rewrite front_order_strip. destruct (front_order ls) as [o|]; [|done].
  cbn [fmap option_fmap option_map strip o_quantity]. rewrite fill_front_strip.
  destruct (fill_front _ ls) as [ls' gone]. cbn [fst snd]. rewrite <- IH, fmap_app.
  f_equal. f_equal. by destruct side.
Qed.

Lemma match_market_strip id side q ts b log :
  match_market id side q 0 (strip_book b) (strip_trade <$> log) = strip_run (match_market id side q ts b log).
Proof.
  unfold match_market. rewrite levels_strip, length_flat_strip. cbn [strip_book order_loc_]. fold (strip_book b).
  rewrite (match_loop_strip _ id side ts).
  destruct (match_loop _ _ _ _ _ _ _ _) as [[[q' ls'] loc] trades]. cbn [strip_market].
  rewrite with_levels_strip. by destruct side.
Qed.

(** Matching ignores time: erase, then process, or process, then erase. *)
Lemma processOrder_strip o e :
  processOrder (strip o) (strip_engine e) = ((processOrder o e).1, strip_engine (processOrder o e).2).
Proof.
  unfold processOrder. cbn [strip o_type strip_engine book_ trade_log_ o_id o_side o_quantity o_timestamp].
  destruct (o_type o).
  - rewrite (match_market_strip _ _ _ (o_timestamp o)).
    by destruct (match_market _ _ _ _ _ _) as [[? ?] ?].
  - fold (strip o). rewrite addOrder_strip, all_orders_strip, length_fmap, cross_loop_strip.
    by destruct (cross_loop _ _ _ _ _) as [[? ?] ?].
  - rewrite cancelOrder_strip. by destruct (cancelOrder _ _) as [? ?].
Qed.

(** ** Tables *)

#[export] Instance tables_equiv_equivalence : Equivalence tables_equiv.
Proof.
  split.
  - done.
  - intros t u [A1 A2 A3 A4 A5 A6]. split; congruence.
  - intros t u v [A1 A2 A3 A4 A5 A6] [B1 B2 B3 B4 B5 B6]. split; congruence.
Qed.

#[export] Instance record_order_equiv xoid s coid q side :
  Proper (tables_equiv ==> tables_equiv) (record_order xoid s coid q side).
Proof.
  intros t u [H1 H2 H3 H4 H5 H6]. split; cbn; try congruence. intros s'.
  destruct (decide (s' = s)) as [->|Hne].
  - rewrite !lookup_insert_eq. cbn. by rewrite H5.
  - by rewrite !lookup_insert_ne.
Qed.

(** What forgetting does to the sets of the sessions. *)
Lemma forget_sessions x t s :
  default ∅ (session_orders_ (forget_order x t) !! s) =
  default ∅ (session_orders_ t !! s) ∖
    (if decide (owner_of_ t !! x = Some s) then {[x]} else ∅).
Proof.
  unfold forget_order. destruct (owner_of_ t !! x) as [o|] eqn:Ho; cbn.
  2: { rewrite decide_False by done. by rewrite difference_empty_L. }
  destruct (decide (s = o)) as [->|Hne].
  - rewrite decide_True by done. destruct (session_orders_ t !! o) as [ids|] eqn:E.
    + by rewrite lookup_insert_eq.
    + rewrite E. cbn. set_solver.
  - rewrite decide_False by congruence. rewrite difference_empty_L.
    destruct (session_orders_ t !! o); [by rewrite lookup_insert_ne|done].
Qed.

#[export] Instance forget_order_equiv x : Proper (tables_equiv ==> tables_equiv) (forget_order x).
Proof.
  intros t u Ht. pose proof Ht as [H1 H2 H3 H4 H5 H6]. split.
  - unfold forget_order. rewrite H1. by destruct (owner_of_ u !! x).
  - unfold forget_order. rewrite H1. destruct (owner_of_ u !! x); cbn; congruence.
  - unfold forget_order. rewrite H1. destruct (owner_of_ u !! x); cbn; congruence.
  - unfold forget_order. rewrite H1. destruct (owner_of_ u !! x); cbn; congruence.
  - intros s. by rewrite !forget_sessions, H1, H5.
  - unfold forget_order. rewrite H1, H2, H6. by destruct (owner_of_ u !! x).
Qed.

#[export] Instance set_remaining_equiv x r : Proper (tables_equiv ==> tables_equiv) (set_remaining x r).
Proof. intros t u []. split; cbn; try done; congruence. Qed.

#[export] Instance touch_side_equiv x : Proper (tables_equiv ==> tables_equiv) (touch_side x).
Proof.
  intros t u Ht. pose proof Ht as [H1 H2 H3 H4 H5 H6]. unfold touch_side. rewrite H4.
  destruct (side_of_ u !! x); [done|]. split; cbn; try done; congruence.
Qed.

#[export] Instance erase_session_equiv s : Proper (tables_equiv ==> tables_equiv) (erase_session s).
Proof.
  intros t u [H1 H2 H3 H4 H5 H6]. split; cbn; try done. intros s'.
  destruct (decide (s' = s)) as [->|Hne]; [by rewrite !lookup_delete_eq|by rewrite !lookup_delete_ne].
Qed.

#[export] Instance fill_tables_equiv x q : Proper (tables_equiv ==> tables_equiv) (fill_tables x q).
Proof.
  intros t u Ht. pose proof Ht as [H1 H2 H3 H4 H5 H6]. unfold fill_tables. rewrite H1, H3.
  destruct (owner_of_ u !! x); [|done]. cbv zeta. destruct (_ =? 0).
  - by apply forget_order_equiv, set_remaining_equiv.
  - by apply set_remaining_equiv.
Qed.

(** Trades that differ by time fill alike. *)
Lemma fill_trades_equiv ts ts' t u :
  strip_trade <$> ts = strip_trade <$> ts' -> tables_equiv t u ->
  tables_equiv (foldl fill_tables_trade t ts) (foldl fill_tables_trade u ts').
Proof.
  revert ts' t u. induction ts as [|x ts IH]; intros [|y ts'] t u He Ht; try done.
  cbn in He. injection He as H1 H2 H3 H4 H5. cbn [foldl]. apply IH; [done|].
  unfold fill_tables_trade. rewrite H1, H2, H4. by do 2 apply fill_tables_equiv.
Qed.

Lemma last_price_strip ts ts' p :
  strip_trade <$> ts = strip_trade <$> ts' -> last_price p ts = last_price p ts'.
Proof.
  revert ts' p. induction ts as [|x ts IH]; intros [|y ts'] p He; try done.
  cbn in He. injection He as H1 H2 H3 H4 H5. cbn. rewrite H3. by apply IH.
Qed.

(** ** Cores that differ by time only *)

Record core_sim (k k' : Core) : Prop := mkSim {
  cs_engine : strip_engine (engine_ k) = strip_engine (engine_ k');
  cs_tables : tables_equiv (tables_ k) (tables_ k');
  cs_last : last_trade_ticks_ k = last_trade_ticks_ k';
  cs_next : next_exchange_id_ k = next_exchange_id_ k';
}.

#[export] Instance core_sim_equivalence : Equivalence core_sim.
Proof.
  split.
  - done.
  - intros k k' [E T L N]. split; [congruence| |congruence|congruence]. symmetry. exact T.
  - intros k1 k2 k3 [E1 T1 L1 N1] [E2 T2 L2 N2]. split; [congruence| |congruence|congruence].
    by transitivity (tables_ k2).
Qed.

Lemma core_sim_drained k k' :
  core_sim k k' -> trade_log_ (engine_ k') = [] -> trade_log_ (engine_ k) = [].
Proof.
  intros [He _ _ _] Hk. apply (f_equal trade_log_) in He. cbn in He. rewrite Hk in He.
  by apply fmap_nil_inv in He.
Qed.

(** Answer and engine of processing orders that differ by time. *)
Lemma process_sim o o' e e' :
  strip o = strip o' -> strip_engine e = strip_engine e' ->
  (processOrder o e).1 = (processOrder o' e').1 /\
  strip_engine (processOrder o e).2 = strip_engine (processOrder o' e').2.
Proof.
  intros Ho He. pose proof (processOrder_strip o e) as H. pose proof (processOrder_strip o' e') as H'.
  rewrite Ho, He, H' in H. split; [apply (f_equal fst) in H|apply (f_equal snd) in H]; by symmetry.
Qed.

Lemma best_ticks_strip b :
  best_bid_ticks (strip_book b) = best_bid_ticks b /\ best_ask_ticks (strip_book b) = best_ask_ticks b.
Proof. unfold best_bid_ticks, best_ask_ticks. cbn. by destruct (bids_ b), (asks_ b). Qed.

Lemma check_risk_sim risk c k k' : core_sim k k' -> check_risk risk c k = check_risk risk c k'.
Proof.
  intros [He _ Hl _]. unfold check_risk, reference_price. rewrite Hl.
  apply (f_equal book_) in He. cbn in He.
  destruct (best_ticks_strip (book_ (engine_ k))) as [<- <-].
  destruct (best_ticks_strip (book_ (engine_ k'))) as [<- <-]. by rewrite He.
Qed.

Lemma order_of_sim c k k' : core_sim k k' -> strip (order_of c k) = strip (order_of c k').
Proof. intros [_ _ _ Hn]. unfold strip, order_of. cbn. by rewrite Hn. Qed.

Definition sim (m m' : MatchingThread) : Prop :=
  core_sim (core_ m) (core_ m') /\ risk_ m = risk_ m' /\ drained m /\ drained m'.

(** The core of a processed new order, as a function. *)
Lemma apply_new_order_core c m :
  drained m -> check_risk (risk_ m) c (core_ m) = NONE ->
  let e := (processOrder (order_of c (core_ m)) (engine_ (core_ m))).2 in
  core_ (apply_new_order c m) = accepted_core c (book_ e) (trade_log_ e) (core_ m).
Proof.
  intros Hd Hr e.
  assert (processOrder (order_of c (core_ m)) (mkEngine (core_book (core_ m)) []) =
    ((processOrder (order_of c (core_ m)) (engine_ (core_ m))).1, mkEngine (book_ e) (trade_log_ e))) as Hp.
  { rewrite <- (engine_eta _ Hd). unfold e. by destruct (processOrder _ _) as [r [b' ts]]. }
  eapply (apply_new_order_accepted c m); [done|done|exact Hp|].
  apply processOrder_accepted. cbn. by destruct (c_order_type c).
Qed.

Lemma new_order_core_sim c m m' :
  sim m m' -> core_sim (core_ (apply_new_order c m)) (core_ (apply_new_order c m')).
Proof.
  intros (Hs & Hr & Hd & Hd'). pose proof (check_risk_sim (risk_ m) c _ _ Hs) as Hc.
  destruct (decide (check_risk (risk_ m) c (core_ m) = NONE)) as [Hn|Hn].
  2: { rewrite !apply_new_order_rejected; [done|by rewrite <- Hr, <- Hc|done]. }
  rewrite !apply_new_order_core by (try done; by rewrite <- Hr, <- Hc).
  pose proof (order_of_sim c _ _ Hs) as Ho. pose proof Hs as [He Ht Hl Hx].
  destruct (process_sim _ _ _ _ Ho He) as [_ Hp].
  set (e := (processOrder (order_of c (core_ m)) _).2) in *.
  set (e' := (processOrder (order_of c (core_ m')) _).2) in *.
  pose proof (f_equal book_ Hp) as Hb. pose proof (f_equal trade_log_ Hp) as Hts. cbn in Hb, Hts.
  assert (o_id (order_of c (core_ m)) = o_id (order_of c (core_ m'))) as Hid by (cbn; exact Hx).
  unfold accepted_core. rewrite Hid.
  change (o_side (order_of c (core_ m))) with (o_side (order_of c (core_ m'))).
  change (o_type (order_of c (core_ m))) with (o_type (order_of c (core_ m'))).
  assert (tables_equiv
    (foldl fill_tables_trade (record_order (o_id (order_of c (core_ m'))) (c_session c) (c_client_order_id c)
       (c_quantity c) (o_side (order_of c (core_ m'))) (tables_ (core_ m))) (trade_log_ e))
    (foldl fill_tables_trade (record_order (o_id (order_of c (core_ m'))) (c_session c) (c_client_order_id c)
       (c_quantity c) (o_side (order_of c (core_ m'))) (tables_ (core_ m'))) (trade_log_ e'))) as Hfill.
  { apply fill_trades_equiv; [done|]. by apply record_order_equiv. }
  split; cbn [engine_ tables_ last_trade_ticks_ next_exchange_id_].
  - unfold strip_engine. cbn. by rewrite Hb.
  - destruct (o_type _); [by apply forget_order_equiv|done|done].
  - rewrite Hl. by apply last_price_strip.
  - by rewrite Hx.
Qed.

(** Cancelling one id, on both sides. *)
Lemma cancel_sim xoid k k' :
  core_sim k k' ->
  (processOrder (cancel_order xoid) (engine_ k)).1 = (processOrder (cancel_order xoid) (engine_ k')).1 /\
  core_sim (with_engine (processOrder (cancel_order xoid) (engine_ k)).2 k)
    (with_engine (processOrder (cancel_order xoid) (engine_ k')).2 k').
Proof.
  intros [He Ht Hl Hx]. destruct (process_sim (cancel_order xoid) (cancel_order xoid) _ _ eq_refl He) as [H1 H2].
  split; [done|]. by split.
Qed.

Lemma with_tables_sim f g k k' :
  core_sim k k' -> tables_equiv (f (tables_ k)) (g (tables_ k')) ->
  core_sim (with_tables (f (tables_ k)) k) (with_tables (g (tables_ k')) k').
Proof. intros [He Ht Hl Hx] Hf. by split. Qed.

Lemma find_order_sim s coid k k' :
  core_sim k k' -> find_order s coid (tables_ k) = find_order s coid (tables_ k').
Proof. intros [_ Ht _ _]. unfold find_order. by rewrite (te_by_client _ _ Ht). Qed.

Lemma cancel_core_sim c m m' :
  sim m m' -> core_sim (core_ (apply_cancel c m)) (core_ (apply_cancel c m')).
Proof.
  intros (Hs & _). unfold apply_cancel. rewrite <- (find_order_sim _ _ _ _ Hs).
  set (x := find_order _ _ _). destruct (x =? 0); [by rewrite !emit_core|].
  destruct (cancel_sim x _ _ Hs) as [Hr He].
  destruct (processOrder _ (engine_ (core_ m))) as [r e], (processOrder _ (engine_ (core_ m'))) as [r' e'].
  cbn [fst snd] in *. subst r'. cbv zeta. destruct (negb (accepted r)).
  - by rewrite !emit_core.
  - rewrite !publish_book_core, !emit_core. cbn [on_tables on_core set_core core_ set_engine].
    apply (with_tables_sim (forget_order x) (forget_order x) _ _ He). apply forget_order_equiv, Hs.
Qed.

Lemma modify_core_sim c m m' :
  sim m m' -> core_sim (core_ (apply_modify c m)) (core_ (apply_modify c m')).
Proof.
  intros (Hs & Hr & Hd & Hd'). unfold apply_modify. rewrite <- (find_order_sim _ _ _ _ Hs).
  set (x := find_order _ _ _). destruct (x =? 0); [by rewrite !emit_core|]. cbv zeta.
  rewrite (te_side _ _ (cs_tables _ _ Hs)). set (side := default BID _).
  assert (core_sim (core_ (on_tables (touch_side x) m)) (core_ (on_tables (touch_side x) m'))) as Hs1.
  { apply (with_tables_sim (touch_side x) (touch_side x) _ _ Hs). apply touch_side_equiv, Hs. }
  set (m1 := on_tables _ m) in *. set (m1' := on_tables _ m') in *.
  destruct (cancel_sim x _ _ Hs1) as [Ha He].
  pose proof (processOrder_cancel_log (cancel_order x) (engine_ (core_ m1)) eq_refl) as Hl.
  pose proof (processOrder_cancel_log (cancel_order x) (engine_ (core_ m1')) eq_refl) as Hl'.
  destruct (processOrder _ (engine_ (core_ m1))) as [r e], (processOrder _ (engine_ (core_ m1'))) as [r' e'].
  cbn [fst snd] in *. subst r'. destruct (negb (accepted r)).
  - by rewrite !emit_core.
  - apply new_order_core_sim. split_and!.
    + apply (with_tables_sim (forget_order x) (forget_order x) _ _ He). apply forget_order_equiv, Hs1.
    + done.
    + unfold drained. cbn. rewrite Hl. apply Hd.
    + unfold drained. cbn. rewrite Hl'. apply Hd'.
Qed.

Lemma cancel_one_sim ids k k' :
  core_sim k k' -> core_sim (foldl cancel_one k ids) (foldl cancel_one k' ids).
Proof.
  revert k k'. induction ids as [|x ids IH]; intros k k' Hs; [done|]. cbn [foldl]. apply IH.
  unfold cancel_one. destruct (cancel_sim x _ _ Hs) as [_ He].
  destruct (processOrder _ (engine_ k)) as [r e], (processOrder _ (engine_ k')) as [r' e']. cbn [snd] in He.
  apply (with_tables_sim (forget_order x) (forget_order x) _ _ He). apply forget_order_equiv, Hs.
Qed.

Lemma push_tombstone_core s m : core_ (push_tombstone s m) = core_ m.
Proof. apply core_proper, push_tombstone_same. Qed.

Definition session_ids (s : Z) (t : Tables) : list Z := elements (default ∅ (session_orders_ t !! s)).

Lemma cancel_all_core c m :
  let k := foldl cancel_one (core_ m) (session_ids (c_session c) (tables_ (core_ m))) in
  let k := with_engine (clear_trade_log (engine_ k)) k in
  core_ (apply_cancel_all c m) = with_tables (erase_session (c_session c) (tables_ k)) k.
Proof.
  intros k k1. unfold apply_cancel_all. cbv zeta. rewrite publish_book_core.
  cbn [set_stats set_queues set_conns core_ on_tables on_core set_core]. rewrite push_tombstone_core.
  unfold clear_log. cbn [on_core set_core core_]. unfold k1, k, session_ids.
  by destruct (session_orders_ (tables_ (core_ m)) !! c_session c).
Qed.

Lemma cancel_all_core_sim c m m' :
  sim m m' -> core_sim (core_ (apply_cancel_all c m)) (core_ (apply_cancel_all c m')).
Proof.
  intros (Hs & _). rewrite !cancel_all_core. cbv zeta.
  assert (session_ids (c_session c) (tables_ (core_ m)) = session_ids (c_session c) (tables_ (core_ m'))) as <-.
  { unfold session_ids. by rewrite (te_sessions _ _ (cs_tables _ _ Hs)). }
  pose proof (cancel_one_sim (session_ids (c_session c) (tables_ (core_ m))) _ _ Hs) as [He Ht Hl Hx].
  set (k := foldl _ (core_ m) _) in *. set (k' := foldl _ (core_ m') _) in *.
  split; cbn [engine_ tables_ last_trade_ticks_ next_exchange_id_ with_tables with_engine]; try done.
  - unfold strip_engine, clear_trade_log. cbn. pose proof (f_equal book_ He) as Hb. cbn in Hb. by rewrite Hb.
  - by apply erase_session_equiv.
Qed.

Lemma dispatch_sim c m m' : sim m m' -> sim (dispatch c m) (dispatch c m').
Proof.
  intros Hs. pose proof Hs as (Hk & Hr & Hd & Hd').
  destruct (dispatch_frame c m) as (_ & _ & R & _). destruct (dispatch_frame c m') as (_ & _ & R' & _).
  split_and!; [|congruence|by apply dispatch_drained..].
  unfold dispatch. destruct (c_type c).
  - exact Hk.
  - by apply new_order_core_sim.
  - by apply cancel_core_sim.
  - by apply modify_core_sim.
  - by rewrite !(core_proper _ _ (apply_subscribe_same c _)).
  - by apply cancel_all_core_sim.
Qed.

Lemma replay_sim cs m m' : sim m m' -> sim (replay m cs) (replay m' cs).
Proof.
  revert m m'. induction cs as [|c cs IH]; intros m m' Hs; [done|]. cbn [replay foldl].
  by apply IH, dispatch_sim.
Qed.

(** ** Keys stay complete *)

Section keys.

Lemma keys_record id s coid q side t :
  keys_complete t -> by_client_id_ t !! key_of s coid = None ->
  keys_complete (record_order id s coid q side t).
Proof.
  intros Hk Hn id' s' coid'. cbn. intros Ho Hc.
  destruct (decide (id' = id)) as [->|Hne].
  - rewrite lookup_insert_eq in Ho, Hc. simplify_eq. by rewrite lookup_insert_eq.
  - rewrite lookup_insert_ne in Ho, Hc by done. specialize (Hk _ _ _ Ho Hc).
    rewrite lookup_insert_ne; [done|]. intros He. by rewrite He, Hk in Hn.
Qed.

Lemma keys_forget id t : keys_complete t -> keys_complete (forget_order id t).
Proof.
  intros Hk id' s' coid'. unfold forget_order. destruct (owner_of_ t !! id) as [s|] eqn:Eo; cbn.
  2: { intros Ho Hc. apply lookup_delete_Some in Hc as [_ Hc]. by apply Hk. }
  intros [Hne Ho]%lookup_delete_Some [_ Hc]%lookup_delete_Some.
  pose proof (Hk _ _ _ Ho Hc) as H'. destruct (client_id_of_ t !! id) as [coid|] eqn:Ec; [|done].
  rewrite lookup_delete_ne; [done|]. intros He. pose proof (Hk _ _ _ Eo Ec) as H. congruence.
Qed.

Lemma keys_set_remaining id r t : keys_complete t -> keys_complete (set_remaining id r t).
Proof. done. Qed.
Lemma keys_erase s t : keys_complete t -> keys_complete (erase_session s t).
Proof. done. Qed.

Lemma keys_fill id q t : keys_complete t -> keys_complete (fill_tables id q t).
Proof.
  intros Hk. unfold fill_tables. destruct (owner_of_ t !! id); [|done]. cbv zeta.
  destruct (_ =? 0); [by apply keys_forget, keys_set_remaining|done].
Qed.

Lemma keys_fills ts t : keys_complete t -> keys_complete (foldl fill_tables_trade t ts).
Proof.
  revert t. induction ts as [|x ts IH]; intros t Hk; [done|]. cbn [foldl].
  by apply IH, keys_fill, keys_fill.
Qed.

(** The id a client names is free: nothing rests under its key. *)
Definition unused (s coid : Z) (k : Core) : Prop := by_client_id_ (tables_ k) !! key_of s coid = None.
#[export] Instance unused_dec s coid k : Decision (unused s coid k).
Proof. unfold unused. apply _. Defined.

Lemma keys_new_order c m :
  drained m -> keys_complete (tables_ (core_ m)) -> unused (c_session c) (c_client_order_id c) (core_ m) ->
  keys_complete (tables_ (core_ (apply_new_order c m))).
Proof.
  intros Hd Hk Hu. destruct (decide (check_risk (risk_ m) c (core_ m) = NONE)) as [Hn|Hn].
  2: { by rewrite apply_new_order_rejected. }
  rewrite apply_new_order_core by done. unfold accepted_core. cbn [tables_].
  assert (forall ts, keys_complete (foldl fill_tables_trade (record_order (o_id (order_of c (core_ m)))
    (c_session c) (c_client_order_id c) (c_quantity c) (o_side (order_of c (core_ m))) (tables_ (core_ m))) ts)) as H.
  { intros ts. by apply keys_fills, keys_record. }
  destruct (o_type _); [apply keys_forget|..]; apply H.
Qed.

Lemma keys_cancel c m : keys_complete (tables_ (core_ m)) -> keys_complete (tables_ (core_ (apply_cancel c m))).
Proof.
  intros Hk. unfold apply_cancel. destruct (_ =? 0); [by rewrite emit_core|].
  destruct (processOrder _ _) as [r e]. cbv zeta. destruct (negb _).
  - by rewrite emit_core.
  - rewrite publish_book_core, emit_core. by apply keys_forget.
Qed.

Lemma keys_cancel_all c m :
  keys_complete (tables_ (core_ m)) -> keys_complete (tables_ (core_ (apply_cancel_all c m))).
Proof.
  intros Hk. rewrite cancel_all_core. cbv zeta. cbn [tables_ with_tables with_engine]. apply keys_erase.
  generalize (session_ids (c_session c) (tables_ (core_ m))). intros ids. revert Hk.
  generalize (core_ m). induction ids as [|x ids IH]; intros k Hk; [done|]. cbn [foldl]. apply IH.
  unfold cancel_one. destruct (processOrder _ _) as [r e]. by apply keys_forget.
Qed.

(** A modify re-enters the order under the key it frees. *)
Lemma keys_modify c m :
  core_inv (core_ m) -> keys_complete (tables_ (core_ m)) ->
  keys_complete (tables_ (core_ (apply_modify c m))).
Proof.
  intros Hk Hkeys. destruct (apply_modify_core c m Hk) as [[_ ->]|(o & b' & m' & Ho & _ & _ & Hm & Hinv & _ & ->)];
    [done|].
  assert (tables_ (core_ m') = forget_order (find_order (c_session c) (c_client_order_id c) (tables_ (core_ m)))
    (tables_ (core_ m))) as Ht by by rewrite Hm.
  apply keys_new_order; [apply (ci_log _ Hinv)|rewrite Ht; by apply keys_forget|].
  unfold unused. cbn [replacement_of c_session c_client_order_id]. rewrite Ht.
  unfold find_order in *. destruct (by_client_id_ (tables_ (core_ m)) !! key_of _ _) as [x|] eqn:E; cbn in *.
  - destruct (tw_by_client _ _ (ci_tables _ Hk) _ _ E) as (s & coid & H1 & H2 & H3).
    unfold forget_order. rewrite H1, H2. cbn. by rewrite H3, lookup_delete_eq.
  - pose proof (ci_ids _ Hk 0 ltac:(by rewrite Ho)). lia.
Qed.

(** Clients that do not reuse the id of an order still resting: the condition
    on a run under which a snapshot loses nothing. *)
Definition id_fresh (c : OrderCommand) (k : Core) : bool :=
  match c_type c with
  | CmdNewOrder => bool_decide (unused (c_session c) (c_client_order_id c) k)
  | _ => true
  end.

Fixpoint ids_fresh (m : MatchingThread) (ps : list (Env * OrderCommand)) : bool :=
  match ps with
  | [] => true
  | p :: ps => id_fresh p.2 (core_ m) && ids_fresh (apply p.1 p.2 m) ps
  end.

Lemma keys_dispatch c m :
  core_inv (core_ m) -> keys_complete (tables_ (core_ m)) -> id_fresh c (core_ m) = true ->
  keys_complete (tables_ (core_ (dispatch c m))).
Proof.
  intros Hk Hkeys Hf. unfold dispatch, id_fresh in *. destruct (c_type c).
  - done.
  - apply bool_decide_eq_true in Hf. apply keys_new_order; [apply (ci_log _ Hk)|done|done].
  - by apply keys_cancel.
  - by apply keys_modify.
  - by rewrite (core_proper _ _ (apply_subscribe_same c m)).
  - by apply keys_cancel_all.
Qed.

Lemma keys_apply env c m :
  core_inv (core_ m) -> keys_complete (tables_ (core_ m)) -> id_fresh c (core_ m) = true ->
  keys_complete (tables_ (core_ (apply env c m))).
Proof.
  intros Hk Hkeys Hf. unfold apply. destruct (_ && _); [|by apply keys_dispatch].
  destruct (wal_ m) as [w|]; [|by apply keys_dispatch].
  destruct (wal_append _ _ _ _) as [ok w']. destruct (negb ok); [done|].
  by apply (keys_dispatch c (set_wal (Some w') m)).
Qed.

Lemma keys_run ps m :
  core_inv (core_ m) -> keys_complete (tables_ (core_ m)) -> Forall (fun p => command_ok p.2) ps ->
  next_exchange_id_ (core_ m) + Z.of_nat (length ps) < 2 ^ 64 -> ids_fresh m ps = true ->
  keys_complete (tables_ (core_ (run m ps))).
Proof.
  intros Hk Hkeys Hps. revert m Hk Hkeys. induction Hps as [|p ps Hp Hps IH]; intros m Hk Hkeys Hn Hf; [done|].
  cbn [run foldl length ids_fresh] in *. fold (run (apply p.1 p.2 m) ps).
  apply andb_true_iff in Hf as [Hf1 Hf2].
  destruct (apply_inv p.1 p.2 m Hk Hp) as [H1 H2]; [unfold id_room; lia|].
  apply IH; [done|by apply keys_apply|lia|done].
Qed.

End keys.

(** ** Restored cores *)

Lemma restored_sim k seq :
  core_inv k -> keys_complete (tables_ k) -> core_sim (restore (export_snapshot seq k) core0) k.
Proof.
  intros Hk Hkeys. destruct (restore_exact k seq Hk Hkeys) as (H1 & H2 & H3 & H4).
  split; [by rewrite H1|done|done|done].
Qed.
