(* ===== verification/Fits.v ===== *)
(** Every field the matching thread keeps stays within its machine width, so
    that what it exports fits the snapshot format. *)
From stdpp Require Import base numbers gmap list.
From Stdlib Require Import ZArith Lia.
From S2P Require Import Prelude Types OrderBook BookFacts Engine Bytes Protocol Commands Wal.
From S2P Require Import Snapshot RiskConfig MatchingThread Recovery Ownership CoreInv RestoreProps.
From S2P Require Import Timeless.

Definition order_fits (o : Order) : Prop := is_i64 (o_price_ticks o) /\ is_u64 (o_timestamp o).

Definition orders_fit (M : gmap Z Order) : Prop := map_Forall (fun _ o => order_fits o) M.

(** Sessions and client ids in the tables, within the bounds of the commands
    that brought them. *)
Definition tables_in (P Q : Z -> Prop) (t : Tables) : Prop :=
  map_Forall (fun _ => P) (owner_of_ t) /\ map_Forall (fun _ => Q) (client_id_of_ t).

Record core_fits (k : Core) : Prop := {
  cf_orders : orders_fit (core_orders k);
  cf_tables : tables_in is_u64 is_u64 (tables_ k);
  cf_last : is_i64 (last_trade_ticks_ k);
  cf_clock : is_u64 (logical_clock_ k);
}.

Lemma core_fits_init : core_fits core0.
Proof.
  split; [apply map_Forall_empty|split; apply map_Forall_empty|done|done].
Qed.

(** ** Orders and tables *)

Lemma fill_map_fit id q M : orders_fit M -> orders_fit (fill_map id q M).
Proof.
  intros H. unfold fill_map. destruct (M !! id) as [o|] eqn:E; [|done]. destruct (q <? _).
  - by apply map_Forall_insert_2; [apply (H _ _ E)|].
  - by apply map_Forall_delete.
Qed.

Lemma fill_trades_fit ts M : orders_fit M -> orders_fit (foldl fill_trade M ts).
Proof.
  revert M. induction ts as [|t ts IH]; intros M H; [done|]. cbn [foldl].
  by apply IH, fill_map_fit, fill_map_fit.
Qed.

Section tables.
Context (P Q : Z -> Prop).

Lemma record_order_in id s coid q side t :
  tables_in P Q t -> P s -> Q coid -> tables_in P Q (record_order id s coid q side t).
Proof. intros [H1 H2] Hs Hc. split; by apply map_Forall_insert_2. Qed.

Lemma forget_order_in id t : tables_in P Q t -> tables_in P Q (forget_order id t).
Proof.
  intros [H1 H2]. unfold forget_order. destruct (owner_of_ t !! id); split; cbn;
    by try apply map_Forall_delete.
Qed.

Lemma fill_tables_in id q t : tables_in P Q t -> tables_in P Q (fill_tables id q t).
Proof.
  intros H. unfold fill_tables. destruct (owner_of_ t !! id); [|done]. cbv zeta.
  destruct (_ =? 0); [by apply forget_order_in|done].
Qed.

Lemma fill_tables_trades_in ts t : tables_in P Q t -> tables_in P Q (foldl fill_tables_trade t ts).
Proof.
  revert t. induction ts as [|x ts IH]; intros t H; [done|]. cbn [foldl].
  by apply IH, fill_tables_in, fill_tables_in.
Qed.

Lemma new_order_in c m :
  drained m -> tables_in P Q (tables_ (core_ m)) -> P (c_session c) -> Q (c_client_order_id c) ->
  tables_in P Q (tables_ (core_ (apply_new_order c m))).
Proof.
  intros Hd Ht Hs Hc. destruct (decide (check_risk (risk_ m) c (core_ m) = NONE)) as [Hr|Hr];
    [|by rewrite apply_new_order_rejected].
  rewrite apply_new_order_core by done. cbn [accepted_core tables_].
  destruct (o_type _); [apply forget_order_in|..]; by apply fill_tables_trades_in, record_order_in.
Qed.

Lemma dispatch_in c m :
  core_inv (core_ m) -> tables_in P Q (tables_ (core_ m)) -> P (c_session c) -> Q (c_client_order_id c) ->
  tables_in P Q (tables_ (core_ (dispatch c m))).
Proof.
  intros Hk Ht Hs Hc. unfold dispatch. destruct (c_type c).
  - done.
  - apply new_order_in; [apply (ci_log _ Hk)|done..].
  - destruct (apply_cancel_core c m Hk) as [[_ ->]|(_ & b' & _ & _ & -> & _)]; [done|]. by apply forget_order_in.
  - destruct (apply_modify_core c m Hk) as [[_ ->]|(o & b' & m' & _ & _ & _ & He & Hinv & _ & ->)]; [done|].
    apply new_order_in; [apply (ci_log _ Hinv)| |done..]. rewrite He. by apply forget_order_in.
  - by rewrite (core_proper _ _ (apply_subscribe_same c m)).
  - rewrite cancel_all_core. cbv zeta. cbn [tables_ with_tables erase_session].
    generalize (session_ids (c_session c) (tables_ (core_ m))). intros ids. revert Ht. generalize (core_ m).
    induction ids as [|x ids IH]; intros k Ht; [exact Ht|]. cbn [foldl]. apply IH.
    unfold cancel_one. destruct (processOrder _ _) as [r e]. by apply forget_order_in.
Qed.

End tables.

(** ** Trades *)

Lemma swept_order q os q' rest fs f : swept q os q' rest fs -> f ∈ fs -> f.1 ∈ os.
Proof.
  intros H. induction H as [|q o os q' rest fs _ _ _ IH|].
  - by intros ?%not_elem_of_nil.
  - intros [->|Hf]%elem_of_cons; [by left|right; by apply IH].
  - intros ->%list_elem_of_singleton. by left.
Qed.

Definition price_fits (t : Trade) : Prop := is_i64 (t_price_ticks t).

Lemma fills_price (o : Order) q os q' rest fs (g : Order * Z -> Trade) :
  swept q os q' rest fs -> Forall order_fits (o :: os) ->
  (forall f, t_price_ticks (g f) = o_price_ticks f.1 \/ t_price_ticks (g f) = o_price_ticks o) ->
  Forall price_fits (g <$> fs).
Proof.
  intros Hsw [Ho Hos]%Forall_cons Hg. apply Forall_fmap, Forall_forall. intros f Hf.
  cbn. unfold price_fits. destruct (Hg f) as [-> | ->]; [|apply Ho].
  rewrite Forall_forall in Hos. by apply Hos, (swept_order q os q' rest fs).
Qed.

Lemma orders_fit_all b : book_wf b -> orders_fit (order_map (all_orders b)) -> Forall order_fits (all_orders b).
Proof.
  intros Hw H. apply Forall_forall. intros o Ho.
  by apply (H (o_id o)), order_map_some; [apply book_ids_nodup|].
Qed.

(** A new order trades at its own price or at that of a resting order. *)
Lemma process_prices o b :
  engine_inv b -> acceptable o b -> order_fits o -> Forall order_fits (all_orders b) ->
  Forall price_fits (trade_log_ (processOrder o (mkEngine b [])).2).
Proof.
  intros Hinv Hok Ho Hb. pose proof (process_refines_lemma o b [] Hinv Hok) as Hp.
  unfold spec_process in Hp. rewrite !qside_abs in Hp.
  assert (Forall order_fits (o :: queue (opposite (o_side o)) b)) as Hq.
  { apply Forall_cons. split; [done|]. rewrite (all_orders_perm (opposite (o_side o))) in Hb.
    by apply Forall_app in Hb as [Hb _]. }
  unfold acceptable in Hok. destruct (o_type o).
  - destruct (sweep _ _) as [[q' rest] fs] eqn:E. destruct Hp as (b' & -> & _).
    apply sweep_swept in E; [|apply Hok]. apply (fills_price o _ _ _ _ _ _ E Hq).
    intros f. left. unfold market_trade. by destruct (o_side o).
  - destruct (sweep_limit _ _ _ _) as [[q' rest] fs] eqn:E. destruct Hp as (b' & -> & _).
    apply sweep_limit_swept in E; [|apply Hok]. apply (fills_price o _ _ _ _ _ _ E Hq).
    intros f. unfold limit_trade. destruct (o_side o); [by left|by right].
  - destruct (remove_id _ _) as [[? ?]|]; [|destruct (remove_id _ _) as [[? ?]|]];
      destruct Hp as (b' & -> & _); constructor.
Qed.

Lemma last_price_fits p ts : is_i64 p -> Forall price_fits ts -> is_i64 (last_price p ts).
Proof.
  intros Hp H. revert p Hp. induction H as [|t ts Ht _ IH]; intros p Hp; [done|]. by apply IH.
Qed.

(** ** Commands *)

Lemma new_order_fits c m :
  core_inv (core_ m) -> core_fits (core_ m) -> command_ok c -> core_fits (core_ (apply_new_order c m)).
Proof.
  intros Hk [F1 F2 F3 F4] Hc. set (k := core_ m) in *.
  destruct (decide (check_risk (risk_ m) c k = NONE)) as [Hr|Hr];
    [|by rewrite apply_new_order_rejected].
  destruct (order_of_acceptable _ _ _ Hk Hc Hr) as (Hok & Hq & Ht & Hf).
  destruct (process_new_map _ _ (ci_engine k Hk) Hok Hf Hq Ht) as (r & b' & ts & Hp & Ha & Hinv & Hmap).
  rewrite (apply_new_order_accepted c m r b' ts Hr (ci_log k Hk) Hp Ha). fold k.
  set (o := order_of c k) in *.
  assert (is_u64 (o_timestamp o)) as Hts by apply u64_range.
  assert (order_fits o) as Ho by (split; [apply Hc|done]).
  pose proof (process_prices o _ (ci_engine k Hk) Hok Ho) as Hpr. rewrite Hp in Hpr. cbn in Hpr.
  assert (orders_fit (fills_of o (core_book k) ts)) as Hfills
    by by apply fill_trades_fit, map_Forall_insert_2.
  assert (tables_in is_u64 is_u64 (foldl fill_tables_trade (record_order (o_id o) (c_session c)
    (c_client_order_id c) (c_quantity c) (o_side o) (tables_ k)) ts)) as Htab
    by (apply fill_tables_trades_in, record_order_in; [done|apply Hc..]).
  split; unfold accepted_core; fold o; cbn [tables_ last_trade_ticks_ logical_clock_].
  - unfold core_orders, core_book. cbn [engine_ book_]. rewrite Hmap.
    destruct (o_type o); [by apply map_Forall_delete|done|done].
  - destruct (o_type o); [by apply forget_order_in|done|done].
  - apply last_price_fits; [done|]. apply Hpr, orders_fit_all; [apply (ci_engine k Hk)|done].
  - done.
Qed.

Lemma cancelled_fits xoid b' k :
  order_map (all_orders b') = delete xoid (core_orders k) -> core_fits k ->
  core_fits (cancelled_core xoid b' k).
Proof.
  intros Hm [F1 F2 F3 F4]. split; cbn; try done.
  - unfold core_orders, core_book. cbn. rewrite Hm. by apply map_Forall_delete.
  - by apply forget_order_in.
Qed.

Lemma cancel_one_fits xoid k : core_inv k -> core_fits k -> core_fits (cancel_one k xoid).
Proof.
  intros Hk Hf. destruct (process_cancel_core k xoid Hk) as (r & b' & Hp & _ & Hm & _).
  unfold cancel_one. rewrite Hp. by apply (cancelled_fits xoid b' k).
Qed.

Lemma cancel_all_fits c m :
  core_inv (core_ m) -> core_fits (core_ m) -> core_fits (core_ (apply_cancel_all c m)).
Proof.
  intros Hk Hf. rewrite cancel_all_core. cbv zeta.
  generalize (session_ids (c_session c) (tables_ (core_ m))). intros ids.
  assert (core_fits (foldl cancel_one (core_ m) ids)) as [F1 F2 F3 F4].
  { revert Hk Hf. generalize (core_ m). induction ids as [|x ids IH]; intros k Hk Hf; [done|].
    cbn [foldl]. apply IH; [by apply cancel_one_inv|by apply cancel_one_fits]. }
  by split.
Qed.

Lemma dispatch_fits c m :
  core_inv (core_ m) -> core_fits (core_ m) -> command_ok c -> core_fits (core_ (dispatch c m)).
Proof.
  intros Hk Hf Hc. unfold dispatch. destruct (c_type c).
  - done.
  - by apply new_order_fits.
  - destruct (apply_cancel_core c m Hk) as [[_ ->]|(_ & b' & _ & Hm & -> & _)]; [done|].
    by apply cancelled_fits.
  - destruct (apply_modify_core c m Hk) as [[_ ->]|(o & b' & m' & _ & _ & Hm & He & Hinv & _ & ->)]; [done|].
    apply new_order_fits; [done| |done]. rewrite He. by apply cancelled_fits.
  - by rewrite (core_proper _ _ (apply_subscribe_same c m)).
  - by apply cancel_all_fits.
Qed.

Lemma apply_fits env c m :
  core_inv (core_ m) -> core_fits (core_ m) -> command_ok c -> core_fits (core_ (apply env c m)).
Proof.
  intros Hk Hf Hc. unfold apply. destruct (_ && _); [|by apply dispatch_fits].
  destruct (wal_ m) as [w|]; [|by apply dispatch_fits].
  destruct (wal_append _ _ _ _) as [ok w']. destruct (negb ok); [done|].
  by apply (dispatch_fits c (set_wal (Some w') m)).
Qed.

Lemma run_fits ps m :
  core_inv (core_ m) -> core_fits (core_ m) -> Forall (fun p => command_ok p.2) ps ->
  next_exchange_id_ (core_ m) + Z.of_nat (length ps) < 2 ^ 64 -> core_fits (core_ (run m ps)).
Proof.
  intros Hk Hf Hps. revert m Hk Hf. induction Hps as [|p ps Hp Hps IH]; intros m Hk Hf Hn; [done|].
  cbn [run foldl length] in *. fold (run (apply p.1 p.2 m) ps).
  destruct (apply_inv p.1 p.2 m Hk Hp) as [H1 H2]; [unfold id_room; lia|].
  apply IH; [done|by apply apply_fits|lia].
Qed.

Lemma run_next_id ps m :
  core_inv (core_ m) -> Forall (fun p => command_ok p.2) ps ->
  next_exchange_id_ (core_ m) + Z.of_nat (length ps) < 2 ^ 64 ->
  next_exchange_id_ (core_ (run m ps)) <= next_exchange_id_ (core_ m) + Z.of_nat (length ps).
Proof.
  intros Hk Hps. revert m Hk. induction Hps as [|p ps Hp Hps IH]; intros m Hk Hn; [cbn; lia|].
  cbn [run foldl length] in *. fold (run (apply p.1 p.2 m) ps).
  destruct (apply_inv p.1 p.2 m Hk Hp) as [H1 H2]; [unfold id_room; lia|].
  specialize (IH _ H1 ltac:(lia)). lia.
Qed.

(** ** Exports *)

(** Ids are distinct and below the counter: there are fewer orders than that. *)
Lemma orders_below_counter k :
  core_inv k -> Z.of_nat (length (all_orders (core_book k))) < next_exchange_id_ k.
Proof.
  intros Hk. pose proof (ci_next k Hk) as Hn.
  pose proof (book_ids_nodup _ (proj1 (ci_engine k Hk))) as Hd.
  assert (length (o_id <$> all_orders (core_book k)) <= length (seqZ 1 (next_exchange_id_ k - 1)))%nat as Hl.
  { apply submseteq_length, NoDup_submseteq; [done|]. intros id (o & -> & Ho)%list_elem_of_fmap.
    apply elem_of_seqZ. pose proof (ci_ids k Hk (o_id o)) as Hi.
    unfold core_orders in Hi. rewrite (order_map_some _ o) in Hi by done. specialize (Hi ltac:(done)). lia. }
  rewrite length_fmap, length_seqZ in Hl. lia.
Qed.

Lemma all_orders_u32 b o : book_wf b -> o ∈ all_orders b -> is_u32 (o_quantity o).
Proof.
  intros (Hb & Ha & _) Ho. pose proof (flat_resting _ _ Hb) as Hfb. pose proof (flat_resting _ _ Ha) as Hfa.
  rewrite Forall_forall in Hfb, Hfa. unfold all_orders in Ho.
  apply elem_of_app in Ho as [Ho|Ho]; [destruct (Hfb o Ho) as (_ & _ & H)|destruct (Hfa o Ho) as (_ & _ & H)]; apply H.
Qed.

Lemma export_fits k seq :
  core_inv k -> core_fits k -> is_u64 (next_exchange_id_ k) -> is_u64 seq ->
  snapshot_ok (export_snapshot seq k).
Proof.
  intros Hk [F1 [F2 F2'] F3 F4] Hn Hs. pose proof (orders_below_counter k Hk) as Hl.
  pose proof (orders_fit_all _ (proj1 (ci_engine k Hk)) F1) as Hall. rewrite Forall_forall in Hall.
  unfold snapshot_ok, export_snapshot. cbn. split_and!; try done.
  - rewrite length_fmap. unfold core_book, is_u64 in *. lia.
  - apply Forall_fmap, Forall_forall. intros o Ho. cbn. destruct (Hall o Ho) as [Hp Ht].
    assert (core_orders k !! o_id o = Some o) as Hm
      by by apply order_map_some; [apply book_ids_nodup, (ci_engine k Hk)|].
    assert (forall (M : gmap Z Z), map_Forall (fun _ s => is_u64 s) M -> is_u64 (default 0 (M !! o_id o))) as Hd.
    { intros M HM. destruct (M !! o_id o) eqn:E; [by apply (HM _ _ E)|done]. }
    unfold snap_order_ok. cbn. split_and!; try done; [|apply Hd; done|apply Hd; done| | |].
    + pose proof (ci_ids k Hk (o_id o) ltac:(by rewrite Hm)). unfold is_u64 in *. lia.
    + pose proof (all_orders_u32 _ _ (proj1 (ci_engine k Hk)) Ho). done.
    + by destruct (o_side o).
    + by destruct (o_side o).
Qed.
