(* ===== verification/Names.v ===== *)
(** The names clients give their orders: while session and client ids fit the
    packed keys and no id is reused under which an order still rests, the
    tables find an order exactly when its owner names it. *)
From stdpp Require Import base numbers gmap list.
From Stdlib Require Import ZArith Lia.
From S2P Require Import Prelude Types OrderBook Engine Protocol Commands Wal RiskConfig MatchingThread Keys.
From S2P Require Import Recovery Ownership CoreInv MatchProps RestoreProps Timeless Fits.

(** Names small enough for the packed keys to tell them apart. *)
Definition small_session (s : Z) : Prop := 0 <= s < 2 ^ 24.
Definition small_client (c : Z) : Prop := 0 <= c < 2 ^ 40.
Definition small_names (c : OrderCommand) : Prop := small_session (c_session c) /\ small_client (c_client_order_id c).

#[export] Instance small_names_dec c : Decision (small_names c).
Proof. unfold small_names, small_session, small_client. apply _. Defined.

(** What a run maintains of the core. *)
Record tidy (k : Core) : Prop := {
  td_inv : core_inv k;
  td_keys : keys_complete (tables_ k);
  td_small : tables_in small_session small_client (tables_ k);
}.

Lemma dispatch_tidy c m :
  tidy (core_ m) -> command_ok c -> small_names c -> id_room (core_ m) -> id_fresh c (core_ m) = true ->
  tidy (core_ (dispatch c m)) /\ next_exchange_id_ (core_ (dispatch c m)) <= next_exchange_id_ (core_ m) + 1.
Proof.
  intros [H1 H2 H3] Hc [Hs Hs'] Hroom Hf. destruct (dispatch_inv c m H1 Hc Hroom) as [H4 H5].
  split; [|done]. split; [done|by apply keys_dispatch|by apply dispatch_in].
Qed.

Lemma apply_tidy env c m :
  tidy (core_ m) -> command_ok c -> small_names c -> id_room (core_ m) -> id_fresh c (core_ m) = true ->
  tidy (core_ (apply env c m)) /\ next_exchange_id_ (core_ (apply env c m)) <= next_exchange_id_ (core_ m) + 1.
Proof.
  intros Ht Hc Hs Hroom Hf. unfold apply. destruct (_ && _); [|by apply dispatch_tidy].
  destruct (wal_ m) as [w|]; [|by apply dispatch_tidy].
  destruct (wal_append _ _ _ _) as [ok w']. destruct (negb ok); [split; [done|cbn; lia]|].
  by apply (dispatch_tidy c (set_wal (Some w') m)).
Qed.

Lemma run_tidy ps m :
  tidy (core_ m) -> Forall (fun p => command_ok p.2 /\ small_names p.2) ps ->
  next_exchange_id_ (core_ m) + Z.of_nat (length ps) < 2 ^ 64 -> ids_fresh m ps = true ->
  tidy (core_ (run m ps)).
Proof.
  intros Ht Hps. revert m Ht. induction Hps as [|p ps [Hp Hs] Hps IH]; intros m Ht Hn Hf; [done|].
  cbn [run foldl length ids_fresh] in *. fold (run (apply p.1 p.2 m) ps).
  apply andb_true_iff in Hf as [Hf1 Hf2].
  destruct (apply_tidy p.1 p.2 m Ht Hp Hs) as [H1 H2]; [unfold id_room; lia|done|].
  apply IH; [done|lia|done].
Qed.

Lemma tidy_init : tidy core0.
Proof. split; [apply core_inv_init|intros id s coid; cbn; by rewrite lookup_empty|split; intros id x; cbn; by rewrite lookup_empty]. Qed.

(** Order [id] rests, and session [s] entered it under the client id [coid]. *)
Definition rests_as (s coid id : Z) (k : Core) : Prop :=
  is_Some (core_orders k !! id) /\ owner_of_ (tables_ k) !! id = Some s /\
  client_id_of_ (tables_ k) !! id = Some coid.

(** What a session finds under a name is its own order of that name. *)
Lemma find_order_rests s coid id k :
  tidy k -> small_session s -> small_client coid ->
  rests_as s coid id k <-> find_order s coid (tables_ k) = id /\ id <> 0.
Proof.
  intros [Hinv Hkeys [Ho Hc]] Hs Hcl. unfold find_order. split.
  - intros (Hr & H1 & H2). rewrite (Hkeys _ _ _ H1 H2). split; [done|]. apply (ci_ids _ Hinv) in Hr. lia.
  - intros [Hf Hne]. destruct (by_client_id_ (tables_ k) !! key_of s coid) as [x|] eqn:E; [|by subst]. cbn in Hf. subst x.
    destruct (tw_by_client _ _ (ci_tables _ Hinv) _ _ E) as (s' & coid' & H1 & H2 & Hk).
    destruct (key_small_inj s s' coid coid' Hk) as [-> ->]; try done; [by eapply Ho|by eapply Hc|].
    split_and!; try done. apply (tw_owner _ _ (ci_tables _ Hinv)). by eexists.
Qed.

(** What is left of the tables when an order is gone: nothing under its id, and
    its name is free. *)
Record forgotten (s coid id : Z) (t t' : Tables) : Prop := {
  fg_owner : owner_of_ t' = delete id (owner_of_ t);
  fg_client : client_id_of_ t' = delete id (client_id_of_ t);
  fg_remaining : remaining_of_ t' = delete id (remaining_of_ t);
  fg_side : side_of_ t' = delete id (side_of_ t);
  fg_name : by_client_id_ t' = delete (key_of s coid) (by_client_id_ t);
  fg_sessions s' : default ∅ (session_orders_ t' !! s') =
    if decide (s' = s) then default ∅ (session_orders_ t !! s) ∖ {[id]} else default ∅ (session_orders_ t !! s');
}.

Lemma forget_forgotten s coid id t :
  owner_of_ t !! id = Some s -> client_id_of_ t !! id = Some coid -> forgotten s coid id t (forget_order id t).
Proof.
  intros Ho Hc. unfold forget_order. rewrite Ho, Hc. split; try done. intros s'. cbn.
  destruct (session_orders_ t !! s) as [ids|] eqn:E; destruct (decide (s' = s)) as [->|Hne]; cbn.
  - by rewrite lookup_insert_eq.
  - by rewrite lookup_insert_ne.
  - rewrite E. cbn. set_solver.
  - done.
Qed.

(** ** Claims *)

(** C27: [cancel_exact]. A Cancel removes exactly the order it names. Take any
    commands whose fields fit their widths, whose session ids are below 2^24
    and client ids below 2^40 (so that the packed keys do not collide), fewer
    than 2^64 of them, none of them a new order reusing a client id under which
    its session still has an order resting, whatever happened to the log
    writes. Then a Cancel with such ids does one of two things. If an order
    rests that its session entered under that client id, that order alone leaves
    the book, every table forgets it, and its client id is free again. If there
    is no such order, nothing changes; an order of another session under the
    same client id is safe. *)
Theorem cancel_exact (risk : RiskConfig) (w : option Wal) (sp : bool) (n : Z)
    (ps : list (Env * OrderCommand)) (c : OrderCommand) :
  let m0 := matching_thread0 risk w sp n in
  Forall (fun p => command_ok p.2 /\ small_names p.2) ps -> 1 + Z.of_nat (length ps) < 2 ^ 64 ->
  ids_fresh m0 ps = true -> small_names c ->
  let m := run m0 ps in
  let k := core_ m in
  let k' := core_ (apply_cancel c m) in
  let '(s, coid) := (c_session c, c_client_order_id c) in
  (exists id, rests_as s coid id k /\ (forall id', rests_as s coid id' k -> id' = id) /\
     core_orders k' = delete id (core_orders k) /\ forgotten s coid id (tables_ k) (tables_ k') /\ core_inv k') \/
  ((forall id, ~ rests_as s coid id k) /\ k' = k).
Proof.
  intros m0 Hps Hn Hf [Hs Hcl] m k k'. pose proof (run_tidy ps m0 tidy_init Hps ltac:(cbn; lia) Hf) as Ht. fold m in Ht.
  pose proof (find_order_rests (c_session c) (c_client_order_id c)) as Hfind. pose proof (td_inv _ Ht) as Hinv.
  destruct (apply_cancel_core c m Hinv) as [[Hz Hk]|(Hr & b' & _ & Hm & Hk & Hi)].
  - right. split; [|done]. intros id Hid. apply (Hfind id _ Ht Hs Hcl) in Hid as [<- ?]. done.
  - left. set (id := find_order _ _ _) in *. exists id.
    assert (id <> 0) as Hne by (pose proof (ci_ids _ Hinv _ Hr); lia).
    assert (rests_as (c_session c) (c_client_order_id c) id k) as Hid by by apply (Hfind id _ Ht Hs Hcl).
    unfold k'. rewrite Hk. split_and!; try done.
    + intros id' Hid'. by apply (Hfind id' _ Ht Hs Hcl) in Hid' as [? _].
    + destruct Hid as (_ & Ho & Hc). by apply forget_forgotten.
Qed.

Lemma cancel_exact_witness :
  let k := core_ sample_mt in
  let k' := core_ (apply_cancel (cancel 2 1) sample_mt) in
  (exists id, rests_as 2 1 id k /\ (forall id', rests_as 2 1 id' k -> id' = id) /\
     core_orders k' = delete id (core_orders k) /\ forgotten 2 1 id (tables_ k) (tables_ k') /\ core_inv k') \/
  ((forall id, ~ rests_as 2 1 id k) /\ k' = k).
Proof.
  apply (cancel_exact risk_config0 None false 0 [at_ 1 (buy 1 1 100 10); at_ 2 (buy 2 1 99 5)] (cancel 2 1)).
  - repeat constructor; vm_compute; done.
  - cbn. lia.
  - vm_compute. reflexivity.
  - split; vm_compute; done.
Defined.
