(* ===== verification/EventProps.v ===== *)
(** What the matching thread tells its clients: which events an accepted order
    puts on which queue, in which order. *)
From stdpp Require Import base numbers gmap list.
From Stdlib Require Import ZArith Lia.
From S2P Require Import Prelude Types OrderBook BookFacts Engine Bytes Protocol Commands Wal Egress.
From S2P Require Import RiskConfig MatchingThread Recovery Ownership CoreInv.

(** The events waiting on the queue [p]. *)
Definition items (p : Z) (m : MatchingThread) : list OrderEvent :=
  match egress_store m !! p with Some q => q_items q | None => [] end.

(** Every queue can take [n] more events. *)
Definition room (n : nat) (m : MatchingThread) : Prop :=
  forall p q, egress_store m !! p = Some q ->
    Z.of_nat (length (q_items q)) + Z.of_nat n <= kEgressCapacity.

(** Of events addressed to queues, those of an existing queue [p]. *)
Fixpoint for_queue (p : Z) (evs : list (option Z * OrderEvent)) : list OrderEvent :=
  match evs with
  | [] => []
  | (eg, e) :: evs => if decide (eg = Some p) then e :: for_queue p evs else for_queue p evs
  end.

Lemma for_queue_app p l k : for_queue p (l ++ k) = for_queue p l ++ for_queue p k.
Proof. induction l as [|[eg e] l IH]; [done|]. simpl. rewrite IH. by destruct (decide _). Qed.

(** ** The fills of a list of trades *)

Definition fill_event (route : Z -> option Z) (t : Tables) (xoid : Z) (tr : Trade)
    : list (option Z * OrderEvent) :=
  match owner_of_ t !! xoid with
  | None => []
  | Some s =>
      let rem := default 0 (remaining_of_ t !! xoid) in
      let rem := if t_quantity tr <? rem then rem - t_quantity tr else 0 in
      [(route s, ev_fill s (default 0 (client_id_of_ t !! xoid)) xoid (t_price_ticks tr)
          (t_quantity tr) rem)]
  end.

(** Buyer first, then seller, trade by trade. *)
Fixpoint fill_events (route : Z -> option Z) (t : Tables) (trs : list Trade)
    : list (option Z * OrderEvent) :=
  match trs with
  | [] => []
  | tr :: trs =>
      let t1 := fill_tables (t_buyer_id tr) (t_quantity tr) t in
      fill_event route t (t_buyer_id tr) tr ++ fill_event route t1 (t_seller_id tr) tr ++
      fill_events route (fill_tables_trade t tr) trs
  end.

(** ** Emission *)

(** The queue [p], and what posting events makes of a queue: each is appended,
    or the queue is marked when it is full. *)
Definition outbox (p : Z) (m : MatchingThread) : option EgressQueue := egress_store m !! p.

Definition post (q : EgressQueue) (e : OrderEvent) : EgressQueue :=
  let '(ok, q) := egress_push e q in if ok then q else mark_overflowed q.
Definition posts (evs : list OrderEvent) (q : EgressQueue) : EgressQueue := foldl post q evs.

Definition grown (evs : list OrderEvent) (q : EgressQueue) : EgressQueue :=
  mkEgress (q_items q ++ evs) (overflowed_ q).

Lemma posts_nil (o : option EgressQueue) : posts [] <$> o = o.
Proof. by destruct o. Qed.

Lemma posts_app a b (o : option EgressQueue) : posts b <$> (posts a <$> o) = posts (a ++ b) <$> o.
Proof. destruct o as [q|]; [|done]. cbn. unfold posts. by rewrite foldl_app. Qed.

Lemma post_cases q e :
  (Z.of_nat (length (q_items q)) < kEgressCapacity /\ post q e = grown [e] q) \/
  (kEgressCapacity <= Z.of_nat (length (q_items q)) /\ post q e = mark_overflowed q).
Proof.
  unfold post, egress_push, bounded_push. destruct (Z.ltb_spec (Z.of_nat (length (q_items q))) kEgressCapacity); [left|right]; [done|].
  by destruct q.
Qed.

(** With room, or if no mark is left, every event is there. *)
Lemma posts_room evs q : Z.of_nat (length (q_items q) + length evs) <= kEgressCapacity -> posts evs q = grown evs q.
Proof.
  revert q. induction evs as [|e evs IH]; intros q H; cbn [posts foldl length] in *.
  { unfold grown. rewrite app_nil_r. by destruct q. }
  destruct (post_cases q e) as [[_ ->]|[Hf _]]; [|lia]. fold (posts evs (grown [e] q)). rewrite IH.
  - unfold grown. cbn. by rewrite <- app_assoc.
  - cbn. rewrite length_app. cbn. lia.
Qed.

Lemma posts_marked evs q : overflowed_ q = true -> overflowed_ (posts evs q) = true.
Proof.
  revert q. induction evs as [|e evs IH]; intros q H; [done|]. cbn [posts foldl]. fold (posts evs (post q e)). apply IH.
  by destruct (post_cases q e) as [[_ ->]|[_ ->]].
Qed.

Lemma posts_clean evs q : overflowed_ (posts evs q) = false -> q_items (posts evs q) = q_items q ++ evs.
Proof.
  revert q. induction evs as [|e evs IH]; intros q H; cbn [posts foldl] in *; [by rewrite app_nil_r|].
  fold (posts evs (post q e)) in *. rewrite (IH _ H). destruct (post_cases q e) as [[_ ->]|[_ E]]; [cbn; by rewrite <- app_assoc|].
  rewrite E in H. by rewrite posts_marked in H.
Qed.

(** Not replaying, with the routing of [m0]. *)
Definition routes (route : Z -> option Z) (m : MatchingThread) : Prop :=
  replaying_ m = false /\ (forall s, egress_for s m = route s).

Lemma emit_routes route eg e m : routes route m -> routes route (emit eg e m).
Proof. intros [Hr Hs]. unfold emit. rewrite Hr. repeat case_match; done. Qed.

Lemma emit_outbox eg e m p :
  replaying_ m = false -> outbox p (emit eg e m) = posts (for_queue p [(eg, e)]) <$> outbox p m.
Proof.
  intros Hr. unfold emit, outbox. rewrite Hr. cbn [for_queue].
  destruct eg as [p'|]; [|by rewrite decide_False, posts_nil by done].
  destruct (egress_store m !! p') as [q|] eqn:Hq.
  - destruct (egress_push e q) as [ok q'] eqn:Ep. cbn [egress_store set_queues]. destruct (decide (p' = p)) as [->|Hne].
    + rewrite lookup_insert_eq, Hq, decide_True by done. cbn. unfold post. by rewrite Ep.
    + rewrite lookup_insert_ne, decide_False by congruence. by rewrite posts_nil.
  - destruct (decide (Some p' = Some p)) as [[= ->]|]; [by rewrite Hq|by rewrite posts_nil].
Qed.

(** One fill: at most one event, of [fill_event]. *)
Lemma route_fill_outbox route x tr m p :
  routes route m ->
  routes route (route_fill x tr m) /\
  outbox p (route_fill x tr m) = posts (for_queue p (fill_event route (tables_ (core_ m)) x tr)) <$> outbox p m.
Proof.
  intros Hm. unfold route_fill, fill_event.
  destruct (owner_of_ (tables_ (core_ m)) !! x) as [s|]; [|cbn [for_queue]; by rewrite posts_nil].
  cbv zeta. set (rem := if t_quantity tr <? _ then _ else _). set (m1 := on_tables (set_remaining x rem) m).
  assert (routes route m1) as Hm1 by done. set (e := ev_fill _ _ _ _ _ _).
  pose proof (emit_routes route (egress_for s m1) e m1 Hm1) as H1.
  pose proof (emit_outbox (egress_for s m1) e m1 p (proj1 Hm1)) as H2.
  rewrite (proj2 Hm1 s) in *. destruct (rem =? 0); done.
Qed.

Lemma publish_fold_outbox route trs m p :
  routes route m ->
  routes route (foldl publish_trade m trs) /\
  outbox p (foldl publish_trade m trs) =
    posts (for_queue p (fill_events route (tables_ (core_ m)) trs)) <$> outbox p m.
Proof.
  revert m. induction trs as [|tr trs IH]; intros m Hm.
  { cbn [foldl fill_events for_queue]. by rewrite posts_nil. }
  cbn [foldl fill_events]. unfold publish_trade at 2 4. set (m1 := on_core (with_last_trade (t_price_ticks tr)) m).
  destruct (route_fill_outbox route (t_buyer_id tr) tr m1 p Hm) as (Ha & Hc).
  destruct (route_fill_outbox route (t_seller_id tr) tr _ p Ha) as (Hd & Hf).
  destruct (IH _ Hd) as [Hg Hh]. split; [done|].
  rewrite Hh, Hf, Hc, !for_queue_app, !posts_app, <- ?app_assoc, !route_fill_core. done.
Qed.

Lemma on_core_outbox p f m : outbox p (on_core f m) = outbox p m.
Proof. done. Qed.

Lemma publish_book_outbox m p : outbox p (publish_book m) = outbox p m.
Proof.
  unfold publish_book. repeat case_match; try done.
  assert (forall subs m0 snap, outbox p (foldl (publish_to snap) m0 subs) = outbox p m0) as Hf.
  { intros subs. induction subs as [|s subs IH]; intros m0 snap; [done|]. cbn [foldl]. rewrite IH.
    unfold publish_to. repeat case_match; done. }
  cbv zeta. by rewrite Hf.
Qed.

(** ** The log *)

(** The log takes the command (or there is none). *)
Definition logs (env : Env) (c : OrderCommand) (m : MatchingThread) : bool :=
  match wal_ m with None => true | Some w => (wal_append c (env_now env) (env_io env) w).1 end.

(** Then the command is dispatched, on a thread that differs in its log. *)
Lemma apply_logged env c m :
  logs env c m = true -> exists w, MatchingThread.apply env c m = MatchingThread.dispatch c (set_wal w m).
Proof.
  unfold MatchingThread.apply, logs. intros Hlog.
  assert (MatchingThread.dispatch c m = MatchingThread.dispatch c (set_wal (wal_ m) m)) as Heta by by destruct m.
  destruct (negb (replaying_ m) && is_loggable (c_type c)); [|by eexists].
  destruct (wal_ m) as [w|]; [|by exists None]. destruct (wal_append _ _ _ _) as [ok w']. cbn [fst] in Hlog. subst ok. by exists (Some w').
Qed.

(** ** Accepted orders *)

(** The trades of a command's order. *)
Definition trades_of (c : OrderCommand) (k : Core) : list Trade :=
  trade_log_ (processOrder (order_of c k) (engine_ k)).2.

(** What an accepted order posts: the Ack and the fills. *)
Definition order_events (c : OrderCommand) (m : MatchingThread) (ts : list Trade) : list (option Z * OrderEvent) :=
  let o := order_of c (core_ m) in
  (egress_for (c_session c) m, ev_ack (c_session c) (c_client_order_id c) (o_id o) false) ::
  fill_events (fun s => egress_for s m)
    (record_order (o_id o) (c_session c) (c_client_order_id c) (c_quantity c) (o_side o) (tables_ (core_ m))) ts.

Lemma new_order_posts c m r b' ts p :
  check_risk (risk_ m) c (core_ m) = NONE -> trade_log_ (engine_ (core_ m)) = [] ->
  processOrder (order_of c (core_ m)) (mkEngine (core_book (core_ m)) []) = (r, mkEngine b' ts) ->
  accepted r = true -> replaying_ m = false ->
  outbox p (apply_new_order c m) = posts (for_queue p (order_events c m ts)) <$> outbox p m.
Proof.
  intros Hr Hl Hp Ha Hrep. set (o := order_of c (core_ m)) in *.
  unfold apply_new_order. rewrite bool_decide_eq_true_2 by done. cbn [negb]. cbv zeta. fold o.
  match goal with |- context [processOrder o ?e] =>
    assert (e = mkEngine (core_book (core_ m)) []) as -> end.
  { cbn. unfold core_book. destruct (engine_ (core_ m)). cbn in *. by rewrite Hl. }
  rewrite Hp, Ha. cbn [negb trade_log_ length].
  match goal with |- context [emit ?eg ?ev ?m1] => set (m' := m1); set (ack := ev) end.
  assert (routes (fun s => egress_for s m) m') as Hm' by done.
  pose proof (emit_routes _ (egress_for (c_session c) m) ack m' Hm') as H1.
  pose proof (emit_outbox (egress_for (c_session c) m) ack m' p Hrep) as H2.
  destruct (publish_fold_outbox _ ts _ p H1) as [_ H4]. rewrite emit_core in H4.
  unfold order_events. fold o ack. change (outbox p m) with (outbox p m').
  match goal with |- _ = posts (for_queue p (?x :: ?fs)) <$> _ => change (x :: fs) with ([x] ++ fs) end.
  rewrite for_queue_app, <- posts_app, <- H2.
  change (tables_ (core_ m')) with (record_order (o_id o) (c_session c) (c_client_order_id c) (c_quantity c) (o_side o) (tables_ (core_ m))) in H4.
  rewrite <- H4. unfold publish_trades. rewrite emit_core, drop_0.
  change (trade_log_ (engine_ (core_ m'))) with ts.
  unfold on_tables, clear_log. destruct (o_type o); rewrite ?on_core_outbox, publish_book_outbox, ?on_core_outbox; done.
Qed.

Lemma length_for_queue p evs : (length (for_queue p evs) <= length evs)%nat.
Proof. induction evs as [|[eg e] evs IH]; [done|]. cbn. destruct (decide _); cbn; lia. Qed.

Lemma length_fill_events route t ts : (length (fill_events route t ts) <= 2 * length ts)%nat.
Proof.
  assert (forall t x tr, (length (fill_event route t x tr) <= 1)%nat) as H1
    by (intros; unfold fill_event; destruct (owner_of_ _ !! _); cbn; lia).
  revert t. induction ts as [|tr ts IH]; intros t; [done|]. cbn [fill_events length]. rewrite !length_app.
  pose proof (H1 t (t_buyer_id tr) tr). pose proof (H1 (fill_tables (t_buyer_id tr) (t_quantity tr) t) (t_seller_id tr) tr).
  specialize (IH (fill_tables_trade t tr)). lia.
Qed.

(** With room for them, the events of an accepted order are appended. *)
Lemma new_order_outbox c m r b' ts p :
  check_risk (risk_ m) c (core_ m) = NONE -> trade_log_ (engine_ (core_ m)) = [] ->
  processOrder (order_of c (core_ m)) (mkEngine (core_book (core_ m)) []) = (r, mkEngine b' ts) ->
  accepted r = true -> replaying_ m = false -> room (1 + 2 * length ts) m ->
  outbox p (apply_new_order c m) = grown (for_queue p (order_events c m ts)) <$> outbox p m.
Proof.
  intros Hr Hl Hp Ha Hrep Hroom. rewrite (new_order_posts c m r b' ts p Hr Hl Hp Ha Hrep).
  destruct (outbox p m) as [q|] eqn:Eq; [|done]. cbn [fmap option_fmap option_map]. f_equal. apply posts_room. pose proof (Hroom p q Eq).
  pose proof (length_for_queue p (order_events c m ts)) as H1. unfold order_events in H1 at 2. cbn [length] in H1.
  match goal with H : context [fill_events ?r ?t ts] |- _ => pose proof (length_fill_events r t ts) end. lia.
Qed.

(** Fills report what is left of the order, and close it when nothing is. *)
Lemma fill_events_fills route t trs :
  Forall (fun p => e_type p.2 = EvFill /\ e_closes_order p.2 = (e_remaining_quantity p.2 =? 0))
    (fill_events route t trs).
Proof.
  revert t. induction trs as [|tr trs IH]; intros t; [constructor|]. cbn [fill_events].
  repeat apply Forall_app_2; [..|apply IH]; unfold fill_event;
    destruct (owner_of_ _ !! _); repeat constructor.
Qed.

Lemma for_queue_forall (P : OrderEvent -> Prop) p evs :
  Forall (fun x => P x.2) evs -> Forall P (for_queue p evs).
Proof.
  induction 1 as [|[eg e] evs H _ IH]; [constructor|]. cbn [for_queue].
  destruct (decide _); [by constructor|done].
Qed.

(** ** Two sessions *)

(** Sessions 1 and 2 connected; session 1 has a bid of 10 at 100 resting. *)
Definition two_sessions : MatchingThread :=
  run (set_queues 0 {[ 1 := egress_queue0; 2 := egress_queue0 ]} ∅ stats0
         (matching_thread0 risk_config0 None false 0))
    [(mkEnv 1 None, session_opened 1 (Some 1) None); (mkEnv 1 None, session_opened 2 (Some 2) None);
     (mkEnv 1 None, new_order 1 (protocol.mkNewOrder 7 100 10 protocol.Bid protocol.Limit))].

Definition hit : OrderCommand :=
  new_order 2 (protocol.mkNewOrder 8 100 4 protocol.Ask protocol.Limit).

Lemma two_sessions_inv : core_inv (core_ two_sessions).
Proof. apply run_inv; [apply core_inv_init|repeat constructor; vm_compute; done|cbn; lia]. Qed.

Example two_sessions_events :
  items 1 (apply_new_order hit two_sessions) = [ev_ack 1 7 1 false; ev_fill 1 7 1 100 4 6] /\
  items 2 (apply_new_order hit two_sessions) = [ev_ack 2 8 2 false; ev_fill 2 8 2 100 4 0].
Proof. vm_compute. done. Qed.
