(* ===== verification/Answers.v ===== *)
(** Every request is answered: the specification of the one Ack or Reject a
    NewOrder, Cancel or Modify gets, and that the handlers of the matching
    thread (include/ome/matching_thread.hpp) post exactly that, before the
    fills, to the session that asked. *)
From stdpp Require Import base numbers gmap list.
From Stdlib Require Import ZArith Lia.
From S2P Require Import Prelude Types OrderBook BookFacts Engine Bytes Protocol Commands Wal Egress.
From S2P Require Import RiskConfig MatchingThread Recovery Ownership CoreInv EventProps.

(** ** The specification *)

(** The commands a client waits for an answer to. *)
Definition is_request (t : CommandType) : bool :=
  match t with CmdNewOrder | CmdCancel | CmdModify => true | _ => false end.

(** An order is acknowledged with the exchange's next id, unless a limit refuses it. *)
Definition order_answer (risk : RiskConfig) (c : OrderCommand) (k : Core) : OrderEvent :=
  let r := check_risk risk c k in
  if bool_decide (r = NONE) then ev_ack (c_session c) (c_client_order_id c) (next_exchange_id_ k) false
  else ev_reject (c_session c) (c_client_order_id c) r.

(** The fills of an order no limit refuses. *)
Definition order_fills (risk : RiskConfig) (route : Z -> option Z) (c : OrderCommand) (k : Core)
    : list (option Z * OrderEvent) :=
  let o := order_of c k in
  if bool_decide (check_risk risk c k = NONE)
  then fill_events route
         (record_order (o_id o) (c_session c) (c_client_order_id c) (c_quantity c) (o_side o) (tables_ k))
         (trades_of c k)
  else [].

(** The order a command names; the core without it; the order a Modify puts in
    its place, a new limit order on the same side. *)
Definition named (c : OrderCommand) (k : Core) : Z := find_order (c_session c) (c_client_order_id c) (tables_ k).

Definition without (xoid : Z) (k : Core) : Core := cancelled_core xoid (cancelOrder xoid (core_book k)).2 k.

Definition replacing (c : OrderCommand) (k : Core) : OrderCommand :=
  replacement_of c (default BID (side_of_ (tables_ k) !! named c k)).

(** A replacement is judged and matched once the order it replaces is gone. *)
Definition answer (c : OrderCommand) (m : MatchingThread) : OrderEvent :=
  let k := core_ m in
  let unknown := ev_reject (c_session c) (c_client_order_id c) UNKNOWN_ORDER in
  match c_type c with
  | CmdCancel => if named c k =? 0 then unknown else ev_ack (c_session c) (c_client_order_id c) (named c k) true
  | CmdModify =>
      if named c k =? 0 then unknown else order_answer (risk_ m) (replacing c k) (without (named c k) k)
  | _ => order_answer (risk_ m) c k
  end.

(** The fills a command causes, with the queue each is addressed to. *)
Definition fills_told (c : OrderCommand) (m : MatchingThread) : list (option Z * OrderEvent) :=
  let k := core_ m in
  let route := fun s => egress_for s m in
  match c_type c with
  | CmdNewOrder => order_fills (risk_ m) route c k
  | CmdModify => if named c k =? 0 then [] else order_fills (risk_ m) route (replacing c k) (without (named c k) k)
  | _ => []
  end.

Definition is_fill (e : OrderEvent) : Prop := e_type e = EvFill.

(** From [m] to [m'], the session of [c] was posted [a], and then every queue
    the fills addressed to it. *)
Definition answered (c : OrderCommand) (a : OrderEvent) (fills : list (option Z * OrderEvent)) (m m' : MatchingThread)
    : Prop :=
  forall p, outbox p m' = posts (for_queue p ((egress_for (c_session c) m, a) :: fills)) <$> outbox p m.

(** ** The handlers *)

(** Nothing but one event emitted, and the core changed. *)
Lemma emit_answered c a f g m :
  (forall p m0, outbox p (f m0) = outbox p m0) -> (forall p, outbox p g = outbox p m) ->
  replaying_ g = false -> answered c a [] m (f (emit (egress_for (c_session c) m) a g)).
Proof. intros Hf Hg Hrg p. by rewrite Hf, emit_outbox, Hg. Qed.

Lemma reject_answered c r g m :
  (forall p, outbox p g = outbox p m) -> replaying_ g = false ->
  answered c (ev_reject (c_session c) (c_client_order_id c) r) [] m
    (emit (egress_for (c_session c) m) (ev_reject (c_session c) (c_client_order_id c) r) g).
Proof. intros. by apply (emit_answered c _ (fun m => m)). Qed.

Lemma new_order_answered c m :
  core_inv (core_ m) -> command_ok c -> replaying_ m = false ->
  answered c (order_answer (risk_ m) c (core_ m)) (order_fills (risk_ m) (fun s => egress_for s m) c (core_ m)) m
    (apply_new_order c m).
Proof.
  intros Hk Hc Hrep. unfold order_answer, order_fills. cbv zeta. destruct (bool_decide_reflect (check_risk (risk_ m) c (core_ m) = NONE)) as [Hr|Hr].
  - destruct (order_of_acceptable _ _ _ Hk Hc Hr) as (Hok & Hq & Ht & Hf).
    destruct (process_new_map _ _ (ci_engine _ Hk) Hok Hf Hq Ht) as (r & b' & ts & Hpr & Ha & _).
    unfold trades_of. rewrite (engine_eta _ (ci_log _ Hk)), Hpr.
    intros p. by apply (new_order_posts c m r b' ts p Hr (ci_log _ Hk) Hpr Ha Hrep).
  - unfold apply_new_order. rewrite bool_decide_eq_false_2 by done. by apply reject_answered.
Qed.

Lemma cancel_answered c m :
  core_inv (core_ m) -> replaying_ m = false -> c_type c = CmdCancel -> answered c (answer c m) [] m (apply_cancel c m).
Proof.
  intros Hk Hrep Ht. unfold answer, apply_cancel. rewrite Ht. cbv zeta. fold (named c (core_ m)).
  destruct (Z.eqb_spec (named c (core_ m)) 0) as [He|He]; [by apply reject_answered|].
  destruct (process_cancel_core (core_ m) (named c (core_ m)) Hk) as (r & b' & -> & _ & _ & -> & _).
  rewrite bool_decide_eq_true_2 by exact (find_order_resting _ _ _ Hk He). cbn [negb].
  apply (emit_answered c _ publish_book); try done. intros p m0. apply publish_book_outbox.
Qed.

(** A Modify of a resting order is a new order on the core without it. *)
Lemma modify_replaces c m :
  core_inv (core_ m) -> named c (core_ m) <> 0 ->
  core_inv (without (named c (core_ m)) (core_ m)) /\ is_Some (core_orders (core_ m) !! named c (core_ m)) /\
  core_orders (without (named c (core_ m)) (core_ m)) = delete (named c (core_ m)) (core_orders (core_ m)) /\
  apply_modify c m =
    apply_new_order (replacing c (core_ m)) (set_core (without (named c (core_ m)) (core_ m)) m).
Proof.
  intros Hk He. destruct (apply_modify_core c m Hk) as [[H0 _]|(o & b' & m' & Ho & [_ ->] & Hmap & Hm & Hinv & Hset & ->)];
    [done|]. fold (named c (core_ m)) in *. fold (without (named c (core_ m)) (core_ m)) in Hm.
  rewrite Hm in Hset, Hinv. split_and!; [done|by rewrite Ho|done|]. rewrite Hset. unfold replacing.
  by rewrite (tw_side _ _ (ci_tables _ Hk)), lookup_fmap, Ho.
Qed.

Lemma modify_answered c m :
  core_inv (core_ m) -> command_ok c -> replaying_ m = false -> c_type c = CmdModify ->
  answered c (answer c m) (fills_told c m) m (apply_modify c m).
Proof.
  intros Hk Hc Hrep Ht. unfold answer, fills_told. rewrite Ht. cbv zeta.
  destruct (Z.eqb_spec (named c (core_ m)) 0) as [He|He].
  - unfold apply_modify. fold (named c (core_ m)). rewrite He. by apply reject_answered.
  - destruct (modify_replaces c m Hk He) as (Hinv & _ & _ & ->).
    exact (new_order_answered (replacing c (core_ m)) (set_core (without (named c (core_ m)) (core_ m)) m) Hinv Hc Hrep).
Qed.

(** ** The claim *)

Lemma answer_addressed c m :
  e_session (answer c m) = c_session c /\ e_client_order_id (answer c m) = c_client_order_id c /\
  (e_type (answer c m) = EvAck \/ e_type (answer c m) = EvReject).
Proof. unfold answer, order_answer. repeat case_match; split_and!; auto. Qed.

Lemma dispatch_answered c m :
  core_inv (core_ m) -> command_ok c -> replaying_ m = false -> is_request (c_type c) = true ->
  answered c (answer c m) (fills_told c m) m (MatchingThread.dispatch c m).
Proof.
  intros Hk Hc Hrep Ht. unfold MatchingThread.dispatch. destruct (c_type c) eqn:E; try done.
  - unfold answer, fills_told. rewrite E. by apply new_order_answered.
  - unfold fills_told. rewrite E. by apply cancel_answered.
  - by apply modify_answered.
Qed.

Lemma fills_told_fills c m :
  Forall (fun x => is_fill x.2) (fills_told c m) /\ (e_type (answer c m) = EvReject -> fills_told c m = []).
Proof.
  assert (forall r rt c k, Forall (fun x => is_fill x.2) (order_fills r rt c k) /\
    (e_type (order_answer r c k) = EvReject -> order_fills r rt c k = [])) as H.
  { intros. unfold order_fills, order_answer. cbv zeta. destruct (bool_decide _); (split; [|done]); [|constructor].
    eapply Forall_impl; [apply fill_events_fills|]. by intros x []. }
  unfold fills_told, answer. destruct (c_type c); try (split; [constructor|done]); [apply H|].
  destruct (_ =? 0); [split; [constructor|done]|apply H].
Qed.

(** A refused order and a refused cancel change nothing but the queue. *)
Lemma refused_core c m :
  core_inv (core_ m) -> is_request (c_type c) = true -> c_type c <> CmdModify ->
  e_type (answer c m) = EvReject -> core_ (MatchingThread.dispatch c m) = core_ m.
Proof.
  intros Hk Ht Hm. unfold answer, MatchingThread.dispatch. destruct (c_type c); try done; cbv zeta.
  - unfold order_answer. intros Ha. apply apply_new_order_rejected. intros E. by rewrite E in Ha.
  - destruct (Z.eqb_spec (named c (core_ m)) 0) as [E|E]; [|done].
    intros _. unfold apply_cancel. fold (named c (core_ m)). rewrite E. apply emit_core.
Qed.

(** C10: [request_answered]. Every NewOrder, Cancel and Modify the log takes is
    answered exactly once. The queue of the session that asked is posted the
    Ack or Reject [answer] specifies, carrying that session and the client's
    id, and behind it the fills addressed to that queue; every other queue is
    posted the fills addressed to it and nothing else; so unless the overflow
    mark is set, the queue's content has grown by exactly these. After a Reject
    there is no fill, and a rejected order or cancel has left the book, the
    tables and the counters as they were. *)
Theorem request_answered (env : Env) (c : OrderCommand) (m : MatchingThread) (p : Z) (q : EgressQueue) :
  core_inv (core_ m) -> command_ok c -> replaying_ m = false -> is_request (c_type c) = true ->
  logs env c m = true -> egress_for (c_session c) m = Some p -> egress_store m !! p = Some q ->
  let m' := MatchingThread.apply env c m in
  let a := answer c m in
  let fills p' := for_queue p' (fills_told c m) in
  (e_session a = c_session c /\ e_client_order_id a = c_client_order_id c /\ (e_type a = EvAck \/ e_type a = EvReject)) /\
  Forall is_fill (fills p) /\
  egress_store m' !! p = Some (posts (a :: fills p) q) /\
  (overflowed_ (posts (a :: fills p) q) = false -> q_items (posts (a :: fills p) q) = q_items q ++ a :: fills p) /\
  (forall p', p' <> p -> egress_store m' !! p' = posts (fills p') <$> egress_store m !! p') /\
  (e_type a = EvReject -> fills_told c m = [] /\ (c_type c <> CmdModify -> core_ m' = core_ m)).
Proof.
  intros Hk Hc Hrep Ht Hlog Hp Hq m' a fills. destruct (fills_told_fills c m) as [Hf Hrej].
  subst m'. destruct (apply_logged env c m Hlog) as [w ->].
  pose proof (dispatch_answered c (set_wal w m) Hk Hc Hrep Ht) as Hout. unfold answered, outbox in Hout.
  change (egress_for (c_session c) (set_wal w m)) with (egress_for (c_session c) m) in Hout. rewrite Hp in Hout.
  split_and!.
  - apply answer_addressed.
  - apply answer_addressed.
  - apply answer_addressed.
  - by apply for_queue_forall.
  - rewrite (Hout p). cbn [for_queue]. rewrite decide_True by done. cbn [egress_store set_wal]. by rewrite Hq.
  - apply posts_clean.
  - intros p' Hne. rewrite (Hout p'). cbn [for_queue]. by rewrite decide_False by congruence.
  - intros Ha. split; [by apply Hrej|]. intros Hm. by apply (refused_core c (set_wal w m)).
Qed.

(** Session 2 sells four of the ten that session 1 bids for. *)
Lemma request_answered_witness :
  answer hit two_sessions = ev_ack 2 8 2 false /\
  for_queue 2 (fills_told hit two_sessions) = [ev_fill 2 8 2 100 4 0] /\
  egress_store (MatchingThread.apply (mkEnv 1 None) hit two_sessions) !! 2 =
    Some (posts (answer hit two_sessions :: for_queue 2 (fills_told hit two_sessions)) egress_queue0).
Proof.
  split; [vm_compute; reflexivity|]. split; [vm_compute; reflexivity|].
  destruct (request_answered (mkEnv 1 None) hit two_sessions 2 egress_queue0) as (_ & _ & Hq & _).
  - apply two_sessions_inv.
  - vm_compute. done.
  - reflexivity.
  - reflexivity.
  - reflexivity.
  - vm_compute. reflexivity.
  - vm_compute. reflexivity.
  - exact Hq.
Defined.
