(* ===== verification/Accounts.v ===== *)
(** The clients' books balance: over any sequence of commands, the fills the
    matching thread reports for an order, what of it still rests and what was
    withdrawn make up the quantity that was entered. *)
From stdpp Require Import base numbers gmap list.
From Stdlib Require Import ZArith Lia.
From S2P Require Import Prelude Types OrderBook BookFacts Engine Bytes Protocol Commands Wal Egress.
From S2P Require Import RiskConfig MatchingThread Recovery Ownership CoreInv EventProps Answers.

(** ** Trades between orders that can pay *)

Definition covers (M : gmap Z Order) (id q : Z) : Prop := exists o, M !! id = Some o /\ 0 < q <= o_quantity o.

Definition sound_trade (M : gmap Z Order) (tr : Trade) : Prop :=
  t_buyer_id tr <> t_seller_id tr /\ covers M (t_buyer_id tr) (t_quantity tr) /\
  covers M (t_seller_id tr) (t_quantity tr).

(** Each trade is paid from what the trades before it have left. *)
Fixpoint sound_trades (M : gmap Z Order) (ts : list Trade) : Prop :=
  match ts with
  | [] => True
  | tr :: ts => sound_trade M tr /\ sound_trades (fill_trade M tr) ts
  end.

(** The trade of order [o] with the resting order of the fill [f], either way round. *)
Definition parties (o : Order) (f : Order * Z) (tr : Trade) : Prop :=
  t_quantity tr = f.2 /\
  (t_buyer_id tr = o_id o /\ t_seller_id tr = o_id f.1 \/ t_buyer_id tr = o_id f.1 /\ t_seller_id tr = o_id o).

Lemma fill_map_ne i j q M : i <> j -> fill_map i q M !! j = M !! j.
Proof.
  intros Hij. unfold fill_map. destruct (M !! i); [|done]. destruct (_ <? _); [by rewrite lookup_insert_ne|by rewrite lookup_delete_ne].
Qed.

Lemma fill_map_eq i q M o :
  M !! i = Some o -> fill_map i q M !! i = if q <? o_quantity o then Some (set_quantity o (o_quantity o - q)) else None.
Proof.
  intros Hi. unfold fill_map. rewrite Hi. destruct (_ <? _); [by rewrite lookup_insert_eq|by rewrite lookup_delete_eq].
Qed.

Lemma parties_fill o f tr M : parties o f tr -> o_id f.1 <> o_id o -> fill_trade M tr = fill_pair o M f.
Proof.
  intros [Hq [[Hb Hs]|[Hb Hs]]] Hne; unfold fill_trade, fill_pair; rewrite Hb, Hs, Hq; [|done].
  by apply fill_map_comm.
Qed.

Lemma swept_sound o (g : Order * Z -> Trade) q os q' rest fs M :
  swept q os q' rest fs -> (forall f, parties o f (g f)) -> positive os -> NoDup (o_id <$> os) -> o_id o ∉ (o_id <$> os) ->
  (forall r, r ∈ os -> M !! o_id r = Some r) -> (0 < q -> M !! o_id o = Some (set_quantity o q)) ->
  sound_trades M (g <$> fs).
Proof.
  intros Hsw Hg. revert M. induction Hsw as [q os|q r os q' rest fs Hq Hle _ IH|q r os Hq]; intros M Hpos Hn Hx Hos HM.
  - done.
  - apply Forall_cons in Hpos as [Hr Hpos]. rewrite fmap_cons in Hn, Hx.
    apply NoDup_cons in Hn as [Hn1 Hn]. apply not_elem_of_cons in Hx as [Hx1 Hx].
    cbn [fmap list_fmap sound_trades]. pose proof (Hg (r, o_quantity r)) as Hp. cbn [fst snd] in *.
    specialize (HM Hq). pose proof (Hos r ltac:(by left)) as Hr'. split.
    + destruct Hp as [Eq [[Eb Es]|[Eb Es]]]; cbn [fst snd] in *; unfold sound_trade; rewrite Eq, Eb, Es;
        (split; [congruence|]); (split; eexists; (split; [eassumption|]); cbn; unfold positive in *; lia).
    + rewrite (parties_fill o _ _ _ Hp) by (cbn; congruence). unfold fill_pair. cbn [fst snd]. apply IH; try done.
      * intros r2 Hr2. assert (o_id r <> o_id r2 /\ o_id o <> o_id r2) as [Ha Hb].
        { split; intros E; [apply Hn1|apply Hx]; rewrite E; by apply list_elem_of_fmap_2. }
        rewrite !fill_map_ne by done. apply Hos. by right.
      * intros Hlt. rewrite (fill_map_eq _ _ _ (set_quantity o q)) by (rewrite fill_map_ne by congruence; done).
        cbn [o_quantity set_quantity]. by rewrite (proj2 (Z.ltb_lt _ _)) by lia.
  - cbn [fmap list_fmap sound_trades]. rewrite fmap_cons in Hx. apply not_elem_of_cons in Hx as [Hx1 _].
    specialize (HM ltac:(lia)). pose proof (Hos r ltac:(by left)) as Hr'. split; [|done].
    destruct (Hg (r, q)) as [Eq [[Eb Es]|[Eb Es]]]; cbn [fst snd] in *; unfold sound_trade; rewrite Eq, Eb, Es;
      (split; [congruence|]); (split; eexists; (split; [eassumption|]); cbn; lia).
Qed.

(** The engine prints sound trades only. *)
Lemma process_sound o b r b' ts :
  engine_inv b -> acceptable o b -> fresh (o_id o) b -> 0 < o_quantity o -> o_type o <> CANCEL ->
  processOrder o (mkEngine b []) = (r, mkEngine b' ts) ->
  sound_trades (<[o_id o := o]> (order_map (all_orders b))) ts.
Proof.
  intros Hinv Hok Hf Hq Ht Hpr. pose proof Hinv as (Hw & _ & _).
  pose proof (process_refines_lemma o b [] Hinv Hok) as Hp. unfold spec_process in Hp. rewrite !qside_abs in Hp.
  assert (forall g q' rest fs, swept (o_quantity o) (queue (opposite (o_side o)) b) q' rest fs ->
    (forall f, parties o f (g f)) -> sound_trades (<[o_id o := o]> (order_map (all_orders b))) (g <$> fs)) as Hs.
  { intros g q' rest fs Hsw Hg. eapply swept_sound; [exact Hsw|exact Hg|by apply engine_inv_positive|by apply queue_nodup
      |by apply fresh_queue|..].
    - intros x Hx. rewrite lookup_insert_ne.
      + rewrite (book_map_sides (o_side o)) by done. apply lookup_union_Some_l, order_map_some; [by apply queue_nodup|done].
      + intros E. apply (fresh_queue (opposite (o_side o))) in Hf. apply Hf. rewrite E. by apply list_elem_of_fmap_2.
    - intros _. by rewrite lookup_insert_eq, set_quantity_id. }
  destruct (o_type o); [| |done].
  - destruct (sweep _ _) as [[q' rest] fs] eqn:E. destruct Hp as (b2 & Hp & _). rewrite Hpr in Hp. injection Hp as -> -> ->.
    eapply Hs; [apply sweep_swept; [|exact E]; lia|]. intros f. unfold parties, market_trade.
    destruct (o_side o); cbn; auto.
  - destruct (sweep_limit _ _ _ _) as [[q' rest] fs] eqn:E. destruct Hp as (b2 & Hp & _). rewrite Hpr in Hp. injection Hp as -> -> ->.
    eapply Hs; [eapply sweep_limit_swept; [|exact E]; lia|]. intros f. unfold parties, limit_trade.
    destruct (o_side o); cbn; auto.
Qed.

(** ** Quantities *)

Definition qty (M : gmap Z Order) (id : Z) : Z := default 0 (o_quantity <$> M !! id).

Definition share (i q id : Z) : Z := if decide (i = id) then q else 0.
Definition traded (id : Z) (ts : list Trade) : Z :=
  foldr (fun tr n => share (t_buyer_id tr) (t_quantity tr) id + share (t_seller_id tr) (t_quantity tr) id + n) 0 ts.

(** The quantity reported filled of order [id]. *)
Definition told (id : Z) (evs : list OrderEvent) : Z :=
  foldr (fun e n => (if bool_decide (e_type e = EvFill) then share (e_exchange_order_id e) (e_quantity e) id else 0) + n)
    0 evs.

Lemma told_app id l k : told id (l ++ k) = told id l + told id k.
Proof. unfold told. induction l as [|e l IH]; cbn [foldr app]; [lia|]. rewrite IH. lia. Qed.

Lemma fill_map_qty i q M id : covers M i q -> qty (fill_map i q M) id = qty M id - share i q id.
Proof.
  intros (o & Ho & Hq). unfold qty, share. destruct (decide (i = id)) as [<-|Hne].
  - rewrite (fill_map_eq _ _ _ o) by done. rewrite Ho. cbn. destruct (Z.ltb_spec q (o_quantity o)); cbn; lia.
  - rewrite fill_map_ne by done. lia.
Qed.

Lemma covers_fill i j q M : i <> j -> covers M j q -> covers (fill_map i q M) j q.
Proof. intros Hij (o & Ho & Hq). exists o. by rewrite fill_map_ne. Qed.

Lemma share_nonneg i q id : 0 <= q -> 0 <= share i q id.
Proof. unfold share. destruct (decide _); lia. Qed.

Lemma trades_qty ts M id :
  sound_trades M ts -> qty (foldl fill_trade M ts) id = qty M id - traded id ts /\ 0 <= traded id ts.
Proof.
  revert M. induction ts as [|tr ts IH]; intros M; [cbn; lia|]. cbn [sound_trades foldl traded foldr].
  intros [(Hne & Hb & Hs) Hts]. destruct (IH _ Hts) as [IH1 IH2]. fold (traded id ts).
  rewrite IH1. unfold fill_trade. rewrite !fill_map_qty by (try done; by apply covers_fill).
  assert (0 <= t_quantity tr) as Hq by (destruct Hb as (? & _ & ?); lia).
  pose proof (share_nonneg (t_buyer_id tr) _ id Hq). pose proof (share_nonneg (t_seller_id tr) _ id Hq). lia.
Qed.

(** Orders only get smaller, and those that are left are positive. *)
Lemma trades_positive ts M :
  sound_trades M ts -> map_Forall (fun _ o => 0 < o_quantity o) M ->
  map_Forall (fun _ o => 0 < o_quantity o) (foldl fill_trade M ts).
Proof.
  assert (forall i q M, 0 < q -> map_Forall (fun _ o => 0 < o_quantity o) M ->
    map_Forall (fun _ o => 0 < o_quantity o) (fill_map i q M)) as Hf.
  { intros i q M0 Hq HM. unfold fill_map. destruct (M0 !! i) as [o|] eqn:E; [|done].
    destruct (Z.ltb_spec q (o_quantity o)); [apply map_Forall_insert_2; [cbn; lia|done]|by apply map_Forall_delete]. }
  revert M. induction ts as [|tr ts IH]; intros M; [done|]. cbn [sound_trades foldl].
  intros [(_ & (o & _ & Hq) & _) Hts] HM. apply IH; [done|]. apply Hf; [lia|]. apply Hf; [lia|done].
Qed.

(** What the fills say is what was traded. *)
Lemma told_fills route ts t M id :
  tables_wf t M -> sound_trades M ts -> told id (fill_events route t ts).*2 = traded id ts.
Proof.
  assert (forall t M x tr, tables_wf t M -> covers M x (t_quantity tr) ->
    told id (fill_event route t x tr).*2 = share x (t_quantity tr) id) as H1.
  { intros t0 M0 x tr Hw (o & Ho & _). destruct (proj2 (tw_owner _ _ Hw x)) as [s Hs]; [by rewrite Ho|].
    unfold fill_event. rewrite Hs. cbv zeta. cbn [fmap list_fmap told foldr snd]. rewrite bool_decide_eq_true_2 by done.
    cbn [e_exchange_order_id e_quantity ev_fill]. lia. }
  revert t M. induction ts as [|tr ts IH]; intros t M Hw; [done|]. cbn [sound_trades fill_events traded foldr].
  intros [(Hne & Hb & Hs) Hts]. fold (traded id ts). rewrite !fmap_app, !told_app.
  pose proof (fill_tables_wf _ _ (t_buyer_id tr) (t_quantity tr) Hw) as Hw1.
  rewrite (H1 _ M _ _ Hw Hb), (H1 _ _ _ _ Hw1 ltac:(by apply covers_fill)).
  rewrite (IH (fill_tables_trade t tr) _ (fill_tables_wf _ _ (t_seller_id tr) (t_quantity tr) Hw1) Hts). lia.
Qed.

(** ** The ledger *)

(** What was entered under each id, what was reported, and which orders were
    taken out of the book by a request, a disconnect, or for being market orders. *)
Record Ledger := mkLedger { l_entered : gmap Z Z; l_told : list OrderEvent; l_withdrawn : gset Z }.

Definition withdraw (ids : gset Z) (L : Ledger) : Ledger :=
  mkLedger (l_entered L) (l_told L) (ids ∪ l_withdrawn L).
Definition tell (evs : list OrderEvent) (L : Ledger) : Ledger :=
  mkLedger (l_entered L) (l_told L ++ evs) (l_withdrawn L).
Definition enter (id q : Z) (L : Ledger) : Ledger :=
  mkLedger (<[id := q]> (l_entered L)) (l_told L) (l_withdrawn L).

(** An order that passes the limits is entered; of a market order nothing will rest. *)
Definition order_entry (risk : RiskConfig) (c : OrderCommand) (k : Core) (L : Ledger) : Ledger :=
  if bool_decide (check_risk risk c k = NONE) then
    let L := enter (next_exchange_id_ k) (c_quantity c) L in
    match c_order_type c with protocol.Market => withdraw {[ next_exchange_id_ k ]} L | protocol.Limit => L end
  else L.

Definition entry (c : OrderCommand) (m : MatchingThread) (L : Ledger) : Ledger :=
  let k := core_ m in
  match c_type c with
  | CmdNewOrder => order_entry (risk_ m) c k L
  | CmdCancel => if named c k =? 0 then L else withdraw {[ named c k ]} L
  | CmdModify =>
      if named c k =? 0 then L
      else order_entry (risk_ m) (replacing c k) (without (named c k) k) (withdraw {[ named c k ]} L)
  | CmdCancelAllForSession => withdraw (default ∅ (session_orders_ (tables_ k) !! c_session c)) L
  | _ => L
  end.

(** Command by command; one the log refuses is not applied. *)
Fixpoint ledger (ps : list (Env * OrderCommand)) (m : MatchingThread) (L : Ledger) : Ledger :=
  match ps with
  | [] => L
  | (env, c) :: ps =>
      let L := if is_loggable (c_type c) && negb (logs env c m) then L
               else tell (fills_told c m).*2 (entry c m L) in
      ledger ps (MatchingThread.apply env c m) L
  end.

(** A ledger that starts with what rests. *)
Definition opening (k : Core) : Ledger := mkLedger (o_quantity <$> core_orders k) [] ∅.

(** ** Balance *)

Record balances (M : gmap Z Order) (next : Z) (L : Ledger) : Prop := {
  ba_pos : map_Forall (fun _ o => 0 < o_quantity o) M;
  ba_dom : forall id, is_Some (M !! id) -> is_Some (l_entered L !! id);
  ba_next : forall id, is_Some (l_entered L !! id) -> id < next;
  ba_silent : forall id, l_entered L !! id = None -> told id (l_told L) = 0;
  ba_bound : forall id q, l_entered L !! id = Some q -> 0 <= told id (l_told L) <= q;
  ba_open : forall id q, l_entered L !! id = Some q -> id ∉ l_withdrawn L -> told id (l_told L) + qty M id = q;
  ba_gone : forall id, id ∈ l_withdrawn L -> M !! id = None /\ is_Some (l_entered L !! id);
}.

Lemma qty_nonneg M id : map_Forall (fun _ o => 0 < o_quantity o) M -> 0 <= qty M id.
Proof. intros HM. unfold qty. destruct (M !! id) as [o|] eqn:E; cbn; [|lia]. specialize (HM id o E). cbn in HM. lia. Qed.

Lemma balances_enter M n o L :
  balances M n L -> o_id o = n -> 0 < o_quantity o ->
  balances (<[n := o]> M) (n + 1) (enter n (o_quantity o) L).
Proof.
  intros [Hpos Hdom Hnext Hsil Hbnd Hopen Hgone] Hid Hq.
  assert (l_entered L !! n = None) as HE.
  { destruct (l_entered L !! n) eqn:E; [|done]. specialize (Hnext n). rewrite E in Hnext. specialize (Hnext ltac:(done)). lia. }
  split; cbn [l_entered l_told l_withdrawn enter].
  - by apply map_Forall_insert_2.
  - intros id. rewrite !lookup_insert_is_Some'. intros [?|?]; [by left|right; auto].
  - intros id. rewrite lookup_insert_is_Some'. intros [?|H]; [lia|]. specialize (Hnext id H). lia.
  - intros id [H _]%lookup_insert_None. auto.
  - intros id q [[<- <-]|[_ H]]%lookup_insert_Some; [|auto]. rewrite (Hsil _ HE). lia.
  - intros id q [[<- <-]|[Hne H]]%lookup_insert_Some Hw.
    + rewrite (Hsil _ HE). unfold qty. rewrite lookup_insert_eq. cbn. lia.
    + unfold qty. rewrite lookup_insert_ne by done. by apply Hopen.
  - intros id Hw. destruct (Hgone id Hw) as [H1 H2]. assert (id <> n) by (intros ->; rewrite HE in H2; by destruct H2).
    by rewrite !lookup_insert_ne.
Qed.

Lemma balances_trades M n L ts evs :
  balances M n L -> sound_trades M ts -> (forall id, told id evs = traded id ts) ->
  balances (foldl fill_trade M ts) n (tell evs L).
Proof.
  intros [Hpos Hdom Hnext Hsil Hbnd Hopen Hgone] Hs He.
  pose proof (trades_positive _ _ Hs Hpos) as Hpos'.
  assert (forall id, is_Some (foldl fill_trade M ts !! id) -> is_Some (M !! id)) as Hsub by (intros id; apply fill_trades_dom).
  assert (forall id, M !! id = None -> traded id ts = 0) as Hnone.
  { intros id Hid. destruct (trades_qty ts M id Hs) as [H1 H2]. pose proof (qty_nonneg _ id Hpos') as H3.
    unfold qty in H1 at 2. rewrite Hid in H1. cbn in H1. lia. }
  split; cbn [l_entered l_told l_withdrawn tell withdraw]; try done.
  - intros id Hid. by apply Hdom, Hsub.
  - intros id Hid. rewrite told_app, He, (Hsil id Hid), Hnone; [done|].
    destruct (M !! id) eqn:E; [|done]. specialize (Hdom id). rewrite E, Hid in Hdom. by destruct Hdom.
  - intros id q Hid. rewrite told_app, He. destruct (trades_qty ts M id Hs) as [H1 H2].
    specialize (Hbnd id q Hid). pose proof (qty_nonneg _ id Hpos') as H3.
    destruct (decide (id ∈ l_withdrawn L)) as [Hw|Hw].
    + rewrite Hnone by by apply Hgone. lia.
    + specialize (Hopen id q Hid Hw). lia.
  - intros id q Hid Hw. rewrite told_app, He. destruct (trades_qty ts M id Hs) as [H1 H2].
    specialize (Hopen id q Hid Hw). lia.
  - intros id Hw. destruct (Hgone id Hw) as [H1 H2]. split; [|done].
    destruct (foldl fill_trade M ts !! id) eqn:E; [|done]. specialize (Hsub id). rewrite E, H1 in Hsub. by destruct Hsub.
Qed.

Lemma balances_withdraw M M' n L ids :
  balances M n L -> (forall id, id ∈ ids -> is_Some (l_entered L !! id)) ->
  (forall id, M' !! id = if decide (id ∈ ids) then None else M !! id) -> balances M' n (withdraw ids L).
Proof.
  intros [Hpos Hdom Hnext Hsil Hbnd Hopen Hgone] Hin HM.
  assert (forall id o, M' !! id = Some o -> M !! id = Some o) as Hsub by (intros id o; rewrite HM; by destruct (decide _)).
  split; cbn [l_entered l_told l_withdrawn tell withdraw]; try done.
  - intros id o H. by apply (Hpos id), Hsub.
  - intros id [o Ho]. apply Hdom. exists o. auto.
  - intros id q Hid Hw. rewrite not_elem_of_union in Hw. destruct Hw as [Hw1 Hw2].
    rewrite <- (Hopen id q Hid Hw2). unfold qty. by rewrite HM, decide_False.
  - intros id Hw. rewrite HM. destruct (decide (id ∈ ids)); [auto|]. apply elem_of_union in Hw as [?|?]; [done|auto].
Qed.

(** ** Commands *)

Definition in_balance (k : Core) (L : Ledger) : Prop := balances (core_orders k) (next_exchange_id_ k) L.

Lemma tell_nil L : tell [] L = L.
Proof. destruct L. unfold tell. cbn. by rewrite app_nil_r. Qed.

Lemma withdraw_one M n L id :
  balances M n L -> is_Some (M !! id) -> balances (delete id M) n (withdraw {[ id ]} L).
Proof.
  intros Hb Hid. apply (balances_withdraw M); [done|..].
  - intros i ->%elem_of_singleton. by apply (ba_dom _ _ _ Hb).
  - intros i. destruct (decide (i ∈ {[id]})) as [->%elem_of_singleton|Hi]; [by rewrite lookup_delete_eq|].
    rewrite lookup_delete_ne by set_solver. done.
Qed.

Lemma new_order_balances route c m L :
  core_inv (core_ m) -> command_ok c -> id_room (core_ m) -> in_balance (core_ m) L ->
  in_balance (core_ (apply_new_order c m))
    (tell (order_fills (risk_ m) route c (core_ m)).*2 (order_entry (risk_ m) c (core_ m) L)).
Proof.
  intros Hk Hc Hroom Hb. set (k := core_ m) in *. unfold order_fills, order_entry. cbv zeta.
  destruct (bool_decide_reflect (check_risk (risk_ m) c k = NONE)) as [Hr|Hr].
  2: { cbn [fmap list_fmap]. by rewrite tell_nil, apply_new_order_rejected. }
  destruct (order_of_acceptable _ _ _ Hk Hc Hr) as (Hok & Hq & Ht & Hf).
  destruct (process_new_map _ _ (ci_engine k Hk) Hok Hf Hq Ht) as (r & b' & ts & Hp & Ha & _ & Hmap).
  pose proof (process_sound _ _ _ _ _ (ci_engine k Hk) Hok Hf Hq Ht Hp) as Hs.
  rewrite (apply_new_order_accepted c m r b' ts Hr (ci_log k Hk) Hp Ha). fold k.
  unfold trades_of. rewrite (engine_eta _ (ci_log k Hk)), Hp. cbn [snd trade_log_].
  unfold in_balance, accepted_core. cbv zeta. set (o := order_of c k) in *.
  match goal with |- balances (core_orders ?k') _ _ =>
    change (core_orders k') with (order_map (all_orders b')); change (next_exchange_id_ k') with (u64 (next_exchange_id_ k + 1)) end.
  assert (u64 (next_exchange_id_ k + 1) = next_exchange_id_ k + 1) as ->.
  { apply u64_id. pose proof (ci_next k Hk). unfold id_room, is_u64 in *. lia. }
  assert (balances (fills_of o (core_book k) ts) (next_exchange_id_ k + 1)
    (tell (fill_events route (record_order (o_id o) (c_session c) (c_client_order_id c) (c_quantity c) (o_side o)
       (tables_ k)) ts).*2 (enter (next_exchange_id_ k) (c_quantity c) L))) as Hfills.
  { apply balances_trades; [by apply (balances_enter _ _ o)|done|]. intros id. eapply told_fills; [|exact Hs].
    apply (record_order_wf _ _ _ _ _ o); [apply (ci_tables k Hk)|]. by apply order_map_none. }
  rewrite Hmap. unfold o in *. cbn [order_of o_type engine_type] in *. destruct (c_order_type c); [|exact Hfills].
  match type of Hfills with balances ?M _ (tell ?evs _) =>
    change (balances (delete (next_exchange_id_ k) M) (next_exchange_id_ k + 1)
      (withdraw {[next_exchange_id_ k]} (tell evs (enter (next_exchange_id_ k) (c_quantity c) L)))) end.
  apply (balances_withdraw _ _ _ _ _ Hfills).
  - intros id ->%elem_of_singleton. cbn. by rewrite lookup_insert_eq.
  - intros id. destruct (decide (id ∈ {[next_exchange_id_ k]})) as [->%elem_of_singleton|Hi]; [by rewrite lookup_delete_eq|].
    rewrite lookup_delete_ne by set_solver. done.
Qed.

Lemma dispatch_balances c m L :
  core_inv (core_ m) -> command_ok c -> id_room (core_ m) -> in_balance (core_ m) L ->
  in_balance (core_ (MatchingThread.dispatch c m)) (tell (fills_told c m).*2 (entry c m L)).
Proof.
  intros Hk Hc Hroom Hb. unfold MatchingThread.dispatch, fills_told, entry. cbv zeta.
  destruct (c_type c) eqn:Ht; cbn [fmap list_fmap]; rewrite ?tell_nil.
  - done.
  - by apply new_order_balances.
  - destruct (apply_cancel_core c m Hk) as [[H0 ->]|(Hres & b' & _ & Hmap & -> & _)]; fold (named c (core_ m)) in *.
    + by rewrite H0.
    + rewrite (proj2 (Z.eqb_neq _ _)).
      * unfold in_balance. change (core_orders (cancelled_core _ _ _)) with (order_map (all_orders b')). rewrite Hmap.
        by apply withdraw_one.
      * intros E. rewrite E in Hres. pose proof (ci_ids _ Hk 0 Hres). lia.
  - destruct (Z.eqb_spec (named c (core_ m)) 0) as [E|E]; cbn [fmap list_fmap]; rewrite ?tell_nil.
    + destruct (apply_modify_core c m Hk) as [[_ ->]|(o & _ & _ & Ho & _)]; [done|].
      fold (named c (core_ m)) in Ho. rewrite E in Ho. pose proof (ci_ids _ Hk 0 ltac:(by rewrite Ho)). lia.
    + destruct (modify_replaces c m Hk E) as (Hinv & Hres & Hmap & ->).
      apply (new_order_balances (fun s => egress_for s m) (replacing c (core_ m))
        (set_core (without (named c (core_ m)) (core_ m)) m)); [done|done|done|].
      unfold in_balance. cbn [core_ set_core]. rewrite Hmap. by apply withdraw_one.
  - by rewrite (core_proper _ _ (apply_subscribe_same c m)).
  - destruct (apply_cancel_all_core c m Hk) as (_ & Hn & Hmap). unfold in_balance. rewrite Hn.
    apply (balances_withdraw (core_orders (core_ m))); [done|..].
    + intros id Hid. apply (ba_dom _ _ _ Hb). apply (tw_owner _ _ (ci_tables _ Hk)).
      apply (tw_sessions _ _ (ci_tables _ Hk)) in Hid. by rewrite Hid.
    + intros id. rewrite Hmap. pose proof (tw_sessions _ _ (ci_tables _ Hk) (c_session c) id) as Hw.
      destruct (decide (owner_of_ _ !! id = _)), (decide (id ∈ _)); tauto.
Qed.

(** ** Runs *)

Lemma resting_positive k : core_inv k -> map_Forall (fun _ o => 0 < o_quantity o) (core_orders k).
Proof.
  intros Hk id o Ho. apply order_map_lookup in Ho as [Hin _]. rewrite (all_orders_perm BID), elem_of_app in Hin.
  pose proof (engine_inv_positive BID _ (ci_engine k Hk)) as H1.
  pose proof (engine_inv_positive ASK _ (ci_engine k Hk)) as H2.
  unfold positive in *. rewrite Forall_forall in H1, H2. by destruct Hin; auto.
Qed.

Lemma opening_balances k : core_inv k -> in_balance k (opening k).
Proof.
  intros Hk. pose proof (resting_positive k Hk) as Hpos. split; unfold opening; cbn [l_entered l_told l_withdrawn].
  - done.
  - intros id. by rewrite lookup_fmap, fmap_is_Some.
  - intros id. rewrite lookup_fmap, fmap_is_Some. apply (ci_ids k Hk).
  - done.
  - intros id q. rewrite lookup_fmap. intros (o & Ho & ->)%fmap_Some. specialize (Hpos id o Ho). cbn in *. lia.
  - intros id q. rewrite lookup_fmap. unfold qty. intros Hq _. by rewrite Hq.
  - intros id H. by apply not_elem_of_empty in H.
Qed.

(** A command the log refuses changes nothing; any other is dispatched. *)
Lemma apply_cases env c m :
  replaying_ m = false -> replaying_ (MatchingThread.apply env c m) = false /\
  if is_loggable (c_type c) && negb (logs env c m) then core_ (MatchingThread.apply env c m) = core_ m
  else exists w, MatchingThread.apply env c m = MatchingThread.dispatch c (set_wal w m).
Proof.
  intros Hr. destruct (logs env c m) eqn:Hl.
  - rewrite andb_false_r. destruct (apply_logged env c m Hl) as [w ->]. split; [|by exists w].
    by destruct (dispatch_frame c (set_wal w m)) as (-> & _).
  - rewrite andb_true_r. unfold logs, MatchingThread.apply in *. rewrite Hr. cbn [negb andb].
    destruct (is_loggable (c_type c)).
    + destruct (wal_ m) as [w|]; [|done]. destruct (wal_append _ _ _ _) as [ok w']. cbn [fst] in Hl. by subst ok.
    + split; [by destruct (dispatch_frame c m) as (-> & _)|]. exists (wal_ m). by destruct m.
Qed.

Lemma run_balances ps m L :
  core_inv (core_ m) -> replaying_ m = false -> Forall (fun p => command_ok p.2) ps ->
  next_exchange_id_ (core_ m) + Z.of_nat (length ps) < 2 ^ 64 -> in_balance (core_ m) L ->
  in_balance (core_ (run m ps)) (ledger ps m L).
Proof.
  intros Hk Hr Hps. revert m L Hk Hr. induction Hps as [|[env c] ps Hc Hps IH]; intros m L Hk Hr Hn Hb; [done|].
  cbn [run foldl length ledger fst snd] in *. fold (run (MatchingThread.apply env c m) ps).
  assert (id_room (core_ m)) as Hroom by (unfold id_room; lia).
  destruct (apply_inv env c m Hk Hc Hroom) as [H1 H2]. destruct (apply_cases env c m Hr) as [H3 H4].
  apply IH; [done|done|lia|]. destruct (is_loggable (c_type c) && negb (logs env c m)).
  - by rewrite H4.
  - destruct H4 as [w ->]. by apply (dispatch_balances c (set_wal w m)).
Qed.

(** C9: [fills_add_up]. What clients are told adds up. Over any sequence of
    commands applied by the matching thread, with log failures, cancels,
    replacements and disconnects among them, take for each order the quantity
    it was entered with and the quantities of all Fills addressed to its owner
    that name it. No order is ever reported filled beyond its quantity; an
    order that rests has exactly what is left of it in the book; a limit order
    that is gone from the book without a cancel, a replacement or the end of
    its session has been reported filled completely. *)
Theorem fills_add_up (ps : list (Env * OrderCommand)) (m : MatchingThread) :
  core_inv (core_ m) -> replaying_ m = false -> Forall (fun p => command_ok p.2) ps ->
  next_exchange_id_ (core_ m) + Z.of_nat (length ps) < 2 ^ 64 ->
  let L := ledger ps m (opening (core_ m)) in
  let M := core_orders (core_ (run m ps)) in
  (forall id, is_Some (M !! id) -> is_Some (l_entered L !! id)) /\
  forall id q, l_entered L !! id = Some q ->
    0 <= told id (l_told L) <= q /\
    (forall o, M !! id = Some o -> told id (l_told L) + o_quantity o = q) /\
    (M !! id = None -> id ∉ l_withdrawn L -> told id (l_told L) = q).
Proof.
  intros Hk Hr Hps Hn L M.
  pose proof (run_balances ps m _ Hk Hr Hps Hn (opening_balances _ Hk)) as [_ Hdom _ _ Hbnd Hopen Hgone].
  fold L M in Hdom, Hbnd, Hopen, Hgone. split; [exact Hdom|]. intros id q Hq. split; [by apply Hbnd|]. split.
  - intros o Ho. rewrite <- (Hopen id q Hq); [unfold qty; by rewrite Ho|].
    intros Hw. destruct (Hgone id Hw) as [Hnone _]. congruence.
  - intros Hnone Hw. rewrite <- (Hopen id q Hq Hw). unfold qty. rewrite Hnone. cbn [fmap option_fmap option_map default from_option]. lia.
Qed.

(** Two sales against the resting bid of ten, then its owner replaces what is left. *)
Definition trading_day : list (Env * OrderCommand) :=
  [(mkEnv 1 None, hit); (mkEnv 1 None, new_order 2 (protocol.mkNewOrder 9 99 3 protocol.Ask protocol.Market));
   (mkEnv 1 None, modify 1 (protocol.mkModify 7 101 5))].

Definition closing_ledger : Ledger := ledger trading_day two_sessions (opening (core_ two_sessions)).

Example closing_ledger_entries :
  (fun id => l_entered closing_ledger !! id) <$> [1; 2; 3; 4] = [Some 10; Some 4; Some 3; Some 5] /\
  (fun id => told id (l_told closing_ledger)) <$> [1; 2; 3; 4] = [7; 4; 3; 0].
Proof. vm_compute. done. Qed.

Lemma fills_add_up_witness :
  l_entered closing_ledger !! 1 = Some 10 /\ 0 <= told 1 (l_told closing_ledger) <= 10 /\
  told 2 (l_told closing_ledger) = 4.
Proof.
  destruct (fills_add_up trading_day two_sessions) as [_ H].
  - apply two_sessions_inv.
  - reflexivity.
  - repeat constructor; vm_compute; discriminate.
  - vm_compute. reflexivity.
  - split; [vm_compute; reflexivity|]. split.
    + apply (H 1 10). vm_compute. reflexivity.
    + apply (H 2 4).
      * vm_compute. reflexivity.
      * vm_compute. reflexivity.
      * vm_compute. intros E. discriminate.
Defined.
