(* ===== verification/Gateway.v ===== *)
(** Startup of the gateway (src/gateway_main.cpp, [main] between argument
    parsing and the event loop): which snapshot is used, which log records are
    replayed, where numbering resumes. *)
From stdpp Require Import base numbers gmap list.
From Stdlib Require Import ZArith Lia.
From S2P Require Import Prelude Types OrderBook BookFacts Engine Bytes Protocol Commands Wal.
From S2P Require Import WalProps Snapshot Egress RiskConfig MatchingThread Recovery Ownership.
From S2P Require Import CoreInv MatchProps RestoreProps Timeless.

(** The newest snapshot, else the one kept behind it. Both reads fill the same
    variable, which keeps what a refused file left in it. *)
Definition load_snapshot (file prev : option (list Z)) : bool * SnapshotData :=
  match read_snapshot file snapshot0 with
  | (None, d) => (true, d)
  | (Some _, d) =>
      match read_snapshot prev d with
      | (None, d) => (true, d)
      | (Some _, d) => (false, d)
      end
  end.

(** The records a snapshot does not cover, [seq] being the first record's. *)
Fixpoint pending_from (have_snapshot : bool) (last_seq seq : Z) (cs : list OrderCommand)
    : list OrderCommand :=
  match cs with
  | [] => []
  | c :: cs =>
      let rest := pending_from have_snapshot last_seq (u64 (seq + 1)) cs in
      if negb have_snapshot || (last_seq <? seq) then c :: rest else rest
  end.

(** [None]: refuse to start. Otherwise what to replay and the number of the
    last record. *)
Definition plan_recovery (have_snapshot : bool) (d : SnapshotData) (wal : option (list Z))
    : option (list OrderCommand * Z) :=
  let rd := read_wal wal in
  if wr_error rd then Some ([], 0) else
  if wr_sequence_gap rd then None else
  Some (pending_from have_snapshot (sd_last_seq d) (wr_first_seq rd) (wr_commands rd),
        if sd_last_seq d <? wr_last_seq rd then wr_last_seq rd else sd_last_seq d).

Record Files := mkFiles {
  f_snapshot : option (list Z);
  f_previous : option (list Z);
  f_wal : option (list Z);
}.

(** Startup with a log and a snapshot path configured; [do_recover] is the
    [--recover] flag. *)
Definition gateway_start (risk : RiskConfig) (cfg : WalConfig) (now every_n : Z) (do_recover : bool)
    (fs : Files) : option MatchingThread :=
  let '(have_snapshot, d) :=
    if do_recover then load_snapshot (f_snapshot fs) (f_previous fs) else (false, snapshot0) in
  match (if do_recover then plan_recovery have_snapshot d (f_wal fs) else Some ([], 0)) with
  | None => None
  | Some (pending, resume_seq) =>
      let m := matching_thread0 risk (Some (wal_open (default [] (f_wal fs)) now resume_seq cfg))
                 true every_n in
      let m := set_snap (snap_ m) (f_snapshot fs) (f_previous fs) m in
      let m := if have_snapshot
               then set_snapshot_baseline (sd_last_seq d) (on_core (restore d) m) else m in
      Some (match pending with [] => m | _ => recover pending m end)
  end.

(** ** Startup on what a crash left of a log *)

Lemma pending_all last_seq seq cs : pending_from false last_seq seq cs = cs.
Proof. revert seq. induction cs as [|c cs IH]; intros seq; [done|]. simpl. by rewrite IH. Qed.

Lemma wr_error_clean first cs n : wr_error (clean_read first cs n) = false.
Proof. by destruct cs. Qed.

Lemma resume_at cs n k :
  length cs = k ->
  (if sd_last_seq snapshot0 <? wr_last_seq (clean_read 1 cs n)
   then wr_last_seq (clean_read 1 cs n) else sd_last_seq snapshot0) = Z.of_nat k.
Proof.
  intros <-. destruct cs as [|c cs]; [done|].
  cbn [clean_read wr_last_seq sd_last_seq snapshot0 length fst snd].
  destruct (Z.ltb_spec 0 (1 + Z.of_nat (S (length cs)) - 1)); lia.
Qed.

(** Startup without a snapshot on the first [k] bytes of a run's log. *)
Lemma restart_log risk cfg now every_n ps k :
  writes_ok ps -> Forall (fun p => command_ok p.2) ps -> 1 + Z.of_nat (length ps) < 2 ^ 64 ->
  let m0 := matching_thread0 risk (Some (wal_open [] now 0 cfg)) true every_n in
  (k <= 47 * length (logged ps))%nat ->
  exists m w' pre post,
    gateway_start risk cfg now every_n true
      (mkFiles None None (Some (take k (log_bytes 1 (logged ps))))) = Some m /\
    ps = pre ++ post /\ length (logged pre) = (k / 47)%nat /\ core_ m = core_ (run m0 pre) /\
    wal_ m = Some w' /\ w_seq w' = Z.of_nat (k / 47).
Proof.
  intros Hio Hok Hn m0 Hk.
  pose proof (live_fresh risk now cfg true every_n) as Hlive. fold m0 in Hlive.
  pose proof (length_logged ps) as Hll.
  assert (read_wal (Some (take k (log_bytes 1 (logged ps)))) =
    clean_read 1 (take (k / 47) (logged ps)) (k mod 47)) as Hrd.
  { apply read_cut_log; [|done]. split; [unfold numbered; lia|by apply command_ok_logged]. }
  assert (k / 47 <= length (logged ps))%nat as Hj by (pose proof (Nat.div_mod_eq k 47); lia).
  destruct (logged_prefix ps (k / 47) Hj) as (pre & post & -> & Hp).
  assert (length (take (k / 47) (logged (pre ++ post))) = (k / 47)%nat) as Hlen by (rewrite length_take; lia).
  unfold gateway_start. cbn [f_snapshot f_previous f_wal load_snapshot read_snapshot].
  unfold plan_recovery. rewrite Hrd, wr_error_clean, wr_gap_clean, wr_commands_clean, pending_all.
  rewrite (resume_at _ _ _ Hlen).
  rewrite <- Hp. set (m1 := set_snap _ _ _ _).
  assert (drained m1) as Hd by done. assert (same m1 m0) as Hs1 by done.
  set (cs := without_pointers <$> logged pre).
  exists (match cs with [] => m1 | _ => recover cs m1 end).
  assert (same (match cs with [] => m1 | _ => recover cs m1 end) (run m0 pre)) as Hs.
  { transitivity (replay m1 cs).
    - destruct cs as [|c cs']; [done|by apply recover_replay].
    - unfold cs. rewrite replay_without_pointers by apply logged_loggable.
      apply Forall_app in Hio as [Hio _]. rewrite length_app in Hn.
      destruct (run_live pre m0 1 [] Hlive Hio) as [_ ->]; [unfold numbered; simpl; lia|].
      by apply replay_proper. }
  eexists _, pre, post. split; [done|]. split; [done|]. split; [rewrite Hp; done|].
  split; [apply Hs|].
  assert (wal_ (match cs with [] => m1 | _ => recover cs m1 end) = wal_ m1) as ->.
  { destruct cs as [|c cs']; [done|]. apply recover_wal. }
  split; [reflexivity|]. done.
Qed.

(** [restart_after_crash]. Starting with [--recover] on what a crash left
    of a log (any number of its bytes, and no snapshot) succeeds, and the
    restarted thread has the core the crashed one had when it had logged as
    many commands as records survive; numbering resumes after the last
    surviving record. *)
Theorem restart_after_crash (risk : RiskConfig) (cfg : WalConfig) (now every_n : Z)
    (ps : list (Env * OrderCommand)) (k : nat) :
  writes_ok ps -> Forall (fun p => command_ok p.2) ps -> 1 + Z.of_nat (length ps) < 2 ^ 64 ->
  let m0 := matching_thread0 risk (Some (wal_open [] now 0 cfg)) true every_n in
  exists w, wal_ (run m0 ps) = Some w /\
  ((k <= length (w_file w))%nat ->
   exists m w' pre post,
     gateway_start risk cfg now every_n true (mkFiles None None (Some (take k (w_file w)))) = Some m /\
     ps = pre ++ post /\ length (logged pre) = (k / 47)%nat /\ core_ m = core_ (run m0 pre) /\
     wal_ m = Some w' /\ w_seq w' = Z.of_nat (k / 47)).
Proof.
  intros Hio Hok Hn m0.
  destruct (run_live ps m0 1 [] (live_fresh risk now cfg true every_n) Hio) as [(_ & w & Hw & _ & Hf & _) _];
    [unfold numbered; simpl; lia|].
  exists w. split; [done|]. rewrite Hf, app_nil_l, length_log_bytes. by apply restart_log.
Qed.

Lemma restart_after_crash_witness :
  exists w, wal_ (run (matching_thread0 risk_config0 (Some (wal_open [] 0 0 wal_config0)) true 0)
                   sample_run) = Some w /\
  ((100 <= length (w_file w))%nat ->
   exists m w' pre post,
     gateway_start risk_config0 wal_config0 0 0 true (mkFiles None None (Some (take 100 (w_file w)))) = Some m /\
     sample_run = pre ++ post /\ length (logged pre) = (100 / 47)%nat /\
     core_ m = core_ (run (matching_thread0 risk_config0 (Some (wal_open [] 0 0 wal_config0)) true 0) pre) /\
     wal_ m = Some w' /\ w_seq w' = Z.of_nat (100 / 47)).
Proof.
  apply (restart_after_crash risk_config0 wal_config0 0 0 sample_run 100).
  - repeat constructor.
  - unfold sample_run. repeat constructor; vm_compute; done.
  - reflexivity.
Defined.

(** ** Startup on a snapshot and what is left of the log behind it *)

(** The records past the snapshot, of a log that starts no later than it. *)
Lemma pending_drop (last_seq j : nat) seq cs :
  seq = 1 + Z.of_nat j -> (j <= last_seq)%nat -> 1 + Z.of_nat (j + length cs) < 2 ^ 64 ->
  pending_from true (Z.of_nat last_seq) seq cs = drop (last_seq - j) cs.
Proof.
  intros -> Hj. revert j Hj. induction cs as [|c cs IH]; intros j Hj Hn; [by rewrite drop_nil|].
  cbn [pending_from negb orb length] in *.
  rewrite u64_id by (unfold is_u64; lia).
  destruct (Z.ltb_spec (Z.of_nat last_seq) (1 + Z.of_nat j)) as [Hlt|Hge].
  - replace (last_seq - j)%nat with 0%nat by lia. cbn [drop]. f_equal. clear IH.
    assert (forall cs seq, Z.of_nat last_seq < seq -> seq + Z.of_nat (length cs) < 2 ^ 64 ->
      pending_from true (Z.of_nat last_seq) seq cs = cs) as H.
    { clear. intros cs. induction cs as [|c cs IH]; intros seq Hs Hn; [done|].
      cbn [pending_from negb orb length] in *. destruct (Z.ltb_spec (Z.of_nat last_seq) seq); [|lia].
      rewrite u64_id by (unfold is_u64; lia). f_equal. apply IH; lia. }
    apply H; lia.
  - replace (last_seq - j)%nat with (S (last_seq - S j)) by lia. cbn [drop].
    replace (1 + Z.of_nat j + 1) with (1 + Z.of_nat (S j)) by lia. apply IH; lia.
Qed.

(** Where numbering resumes. *)
Lemma resume_max (last_seq j : nat) cs n :
  (if Z.of_nat last_seq <? wr_last_seq (clean_read (1 + Z.of_nat j) cs n)
   then wr_last_seq (clean_read (1 + Z.of_nat j) cs n) else Z.of_nat last_seq) =
  Z.of_nat (if decide (cs = []) then last_seq else Nat.max last_seq (j + length cs)).
Proof.
  destruct cs as [|c cs]; cbn [clean_read wr_last_seq].
  - rewrite decide_True by done. by destruct (Z.ltb_spec (Z.of_nat last_seq) 0); [lia|].
  - rewrite decide_False by done. case_match eqn:E; lia.
Qed.

(** The snapshot [d] is the newest file, or the newest is refused (missing,
    damaged) and it is the one kept behind it. *)
Definition refused (file : option (list Z)) : Prop := is_Some (read_snapshot file snapshot0).1.

Definition offers (fs : Files) (d : SnapshotData) : Prop :=
  f_snapshot fs = Some (snapshot_bytes d) \/
  (refused (f_snapshot fs) /\ f_previous fs = Some (snapshot_bytes d)).

Lemma load_offered fs d :
  snapshot_ok d -> offers fs d -> load_snapshot (f_snapshot fs) (f_previous fs) = (true, d).
Proof.
  intros Hd [-> |[[e He] ->]]; unfold load_snapshot.
  - by rewrite read_written.
  - destruct (read_snapshot (f_snapshot fs) snapshot0) as [e' d']. cbn in He. subst e'.
    by rewrite read_written.
Qed.

Lemma gateway_start_snapshot risk cfg now every_n fs d (L j k : nat) cs :
  snapshot_ok d -> offers fs d -> sd_last_seq d = Z.of_nat L ->
  f_wal fs = Some (take k (log_bytes (1 + Z.of_nat j) cs)) -> intact (1 + Z.of_nat j) cs ->
  (k <= 47 * length cs)%nat -> (j <= L)%nat ->
  exists m m1, gateway_start risk cfg now every_n true fs = Some m /\
    core_ m1 = restore d core0 /\ risk_ m1 = risk /\
    same m (match drop (L - j) (take (k / 47) cs) with
            | [] => m1 | tl => recover (without_pointers <$> tl) m1 end) /\
    (w_seq <$> wal_ m) = Some (Z.of_nat (Nat.max L (j + k / 47))).
Proof.
  intros Hd Hf HL Hw Hi Hk Hj.
  assert (length (take (k / 47) cs) = (k / 47)%nat) as Hlen.
  { rewrite length_take. pose proof (Nat.div_mod_eq k 47). lia. }
  unfold gateway_start. rewrite (load_offered fs d Hd Hf). unfold plan_recovery.
  rewrite Hw, read_cut_log by done. rewrite wr_error_clean, wr_gap_clean, wr_commands_clean, HL.
  rewrite resume_max.
  assert ((if decide (take (k / 47) cs = []) then L else Nat.max L (j + length (take (k / 47) cs))) =
    Nat.max L (j + k / 47)) as ->.
  { rewrite Hlen. destruct (decide _) as [E|]; [|done]. rewrite E in Hlen. cbn [length] in Hlen. rewrite <- Hlen. lia. }
  assert (pending_from true (Z.of_nat L) (wr_first_seq (clean_read (1 + Z.of_nat j) (take (k / 47) cs) (k mod 47)))
    (without_pointers <$> take (k / 47) cs) = without_pointers <$> drop (L - j) (take (k / 47) cs)) as ->.
  { destruct Hi as [[_ Hn] _]. destruct (take (k / 47) cs) as [|c tl] eqn:E.
    - by rewrite drop_nil.
    - cbn [clean_read wr_first_seq]. rewrite (pending_drop L j) by (try done; rewrite length_fmap, Hlen;
        pose proof (Nat.div_mod_eq k 47); lia). by rewrite fmap_drop. }
  set (m1 := set_snapshot_baseline _ _). eexists _, m1. split; [reflexivity|].
  split; [done|]. split; [done|]. destruct (drop (L - j) (take (k / 47) cs)) as [|c tl]; [done|].
  cbn [fmap list_fmap]. rewrite recover_wal. done.
Qed.

(** What a log cut at both ends adds to a prefix it overlaps. *)
Lemma tail_behind {A} (a b : list A) (j q : nat) :
  (j <= length a)%nat ->
  take (Nat.max (length a) (j + q)) (a ++ b) =
  a ++ drop (length a - j) (take q (drop j (a ++ b))).
Proof.
  intros Hj. rewrite take_drop_commute, drop_drop. replace (j + (length a - j))%nat with (length a) by lia.
  destruct (decide (length a <= j + q)%nat).
  - rewrite Nat.max_r, take_app_ge, drop_app_length by done. done.
  - rewrite Nat.max_l, take_app_length, (drop_ge (take _ _)) by (rewrite ?length_take; lia).
    by rewrite app_nil_r.
Qed.

Lemma replay_risk cs m : risk_ (replay m cs) = risk_ m.
Proof.
  revert m. induction cs as [|c cs IH]; intros m; [done|]. cbn [replay foldl].
  change (risk_ (replay (dispatch c m) cs) = risk_ m). rewrite IH. apply dispatch_frame.
Qed.

(** Startup with a snapshot and a log cut at both ends. *)
Lemma restart_behind (risk : RiskConfig) (cfg : WalConfig) (now every_n : Z)
    (ps1 ps2 : list (Env * OrderCommand)) (w1 : Wal) (fs : Files) (j k : nat) :
  writes_ok (ps1 ++ ps2) -> Forall (fun p => command_ok p.2) (ps1 ++ ps2) ->
  1 + Z.of_nat (length (ps1 ++ ps2)) < 2 ^ 64 ->
  let m0 := matching_thread0 risk (Some (wal_open [] now 0 cfg)) true every_n in
  ids_fresh m0 ps1 = true -> wal_ (run m0 ps1) = Some w1 ->
  let d := export_snapshot (w_seq w1) (core_ (run m0 ps1)) in
  snapshot_ok d -> offers fs d ->
  (j <= length (logged ps1))%nat -> (k <= 47 * length (drop j (logged (ps1 ++ ps2))))%nat ->
  f_wal fs = Some (take k (log_bytes (1 + Z.of_nat j) (drop j (logged (ps1 ++ ps2))))) ->
  exists m w pre post,
    gateway_start risk cfg now every_n true fs = Some m /\
    ps1 ++ ps2 = pre ++ post /\ length (logged pre) = Nat.max (length (logged ps1)) (j + k / 47) /\
    core_sim (core_ m) (core_ (run m0 pre)) /\
    wal_ m = Some w /\ w_seq w = Z.of_nat (length (logged pre)).
Proof.
  intros Hio Hok Hn m0 Hfresh Hw1 d Hd Hof Hj Hk Hwal.
  pose proof (live_fresh risk now cfg true every_n) as Hlive. fold m0 in Hlive.
  assert (forall pre post, ps1 ++ ps2 = pre ++ post -> live (run m0 pre) 1 (logged pre) /\
    same (run m0 pre) (replay m0 (logged pre))) as Hpre.
  { intros pre post He. rewrite He in Hio, Hn. apply Forall_app in Hio as [Hio _]. rewrite length_app in Hn.
    apply (run_live pre m0 1 [] Hlive Hio). unfold numbered. cbn [length]. lia. }
  destruct (Hpre ps1 ps2 eq_refl) as [(_ & w & Hw & _ & _ & Hseq) Hs1].
  assert (sd_last_seq d = Z.of_nat (length (logged ps1))) as HL by (cbn; simplify_eq; lia).
  pose proof (length_logged (ps1 ++ ps2)) as Hll. rewrite length_drop in Hk.
  assert (j <= length (logged (ps1 ++ ps2)))%nat as Hjl by (rewrite logged_app, length_app; lia).
  destruct (gateway_start_snapshot risk cfg now every_n fs d (length (logged ps1)) j k
    (drop j (logged (ps1 ++ ps2)))) as (m & m1 & Hg & Hm1 & Hr1 & Hsame & Hwseq); try done.
  { split; [unfold numbered; rewrite length_drop; lia|]. by apply Forall_drop, command_ok_logged. }
  { by rewrite length_drop. }
  set (n := Nat.max (length (logged ps1)) (j + k / 47)) in *.
  assert (n <= length (logged (ps1 ++ ps2)))%nat as Hnle.
  { pose proof (Nat.div_mod_eq k 47). rewrite logged_app, length_app in *. lia. }
  destruct (logged_prefix (ps1 ++ ps2) n Hnle) as (pre & post & He & Hp).
  assert (length (logged pre) = n) as Hlp by (rewrite Hp, length_take; lia).
  destruct (wal_ m) as [w'|] eqn:Hw'; [|done]. cbn in Hwseq. injection Hwseq as Hwseq.
  exists m, w', pre, post. split_and!; try done; [|by rewrite Hlp].
  assert (sim m1 (run m0 ps1)) as Hsim.
  { apply Forall_app in Hok as [Hok1 _]. rewrite length_app in Hn.
    assert (core_inv (core_ (run m0 ps1))) as Hinv by (apply run_inv; [apply core_inv_init|done|cbn; lia]).
    assert (core_sim (core_ m1) (core_ (run m0 ps1))) as Hcs.
    { rewrite Hm1. apply restored_sim; [done|]. apply keys_run; try done; [apply core_inv_init|cbn; lia]. }
    split_and!; [done|by rewrite Hr1, (proj2 Hs1), replay_risk| |apply (ci_log _ Hinv)].
    apply (core_sim_drained _ _ Hcs), (ci_log _ Hinv). }
  destruct (Hpre pre post He) as [_ [-> _]]. rewrite Hp, logged_app. unfold n. rewrite tail_behind by done.
  rewrite <- logged_app, replay_app. rewrite (proj1 Hsame).
  set (tl := drop _ (take _ _)). assert (sim (replay m1 tl) (replay (run m0 ps1) tl)) as [Ht _] by by apply replay_sim.
  assert (core_ (match tl with [] => m1 | c :: l => recover (without_pointers <$> c :: l) m1 end) = core_ (replay m1 tl)) as ->.
  { destruct tl eqn:Etl; [done|]. rewrite <- Etl. destruct Hsim as (_ & _ & Hdr & _).
    rewrite (proj1 (recover_replay _ _ Hdr)), replay_without_pointers; [done|].
    unfold tl. apply Forall_drop, Forall_take, Forall_drop, logged_loggable. }
  rewrite Ht. by rewrite (proj1 (replay_proper tl _ _ Hs1)).
Qed.

(** [restart_from_snapshot]. Recovery from a snapshot and the log behind
    it. A thread with a new log runs [ps1], exports a snapshot numbered by its
    log, and runs [ps2]. If the snapshot file survives (as the newest, or as the
    previous one with the newest refused), and of the log any number of bytes
    after the first [j] records, none of them past the snapshot, were truncated
    away, then starting with [--recover] succeeds and rebuilds the live state
    after the snapshot or after the last surviving record, whichever is later:
    the book, the ownership tables, the last trade price and the id counter,
    up to timestamps, with numbering resumed there. Clients must not reuse the
    id of an order that still rests before the snapshot. *)
Theorem restart_from_snapshot (risk : RiskConfig) (cfg : WalConfig) (now every_n : Z)
    (ps1 ps2 : list (Env * OrderCommand)) (w1 : Wal) (fs : Files) (j k : nat) :
  writes_ok (ps1 ++ ps2) -> Forall (fun p => command_ok p.2) (ps1 ++ ps2) ->
  1 + Z.of_nat (length (ps1 ++ ps2)) < 2 ^ 64 ->
  let m0 := matching_thread0 risk (Some (wal_open [] now 0 cfg)) true every_n in
  ids_fresh m0 ps1 = true -> wal_ (run m0 ps1) = Some w1 ->
  let d := export_snapshot (w_seq w1) (core_ (run m0 ps1)) in
  snapshot_ok d -> offers fs d ->
  (j <= length (logged ps1))%nat -> (k <= 47 * length (drop j (logged (ps1 ++ ps2))))%nat ->
  f_wal fs = Some (take k (log_bytes (1 + Z.of_nat j) (drop j (logged (ps1 ++ ps2))))) ->
  exists m w pre post,
    gateway_start risk cfg now every_n true fs = Some m /\
    ps1 ++ ps2 = pre ++ post /\ length (logged pre) = Nat.max (length (logged ps1)) (j + k / 47) /\
    core_sim (core_ m) (core_ (run m0 pre)) /\
    wal_ m = Some w /\ w_seq w = Z.of_nat (length (logged pre)).
Proof. apply restart_behind. Qed.

Definition before_snapshot : list (Env * OrderCommand) :=
  [at_ 1 (session_opened 1 (Some 1) None); at_ 2 (session_opened 2 (Some 2) None);
   at_ 3 (buy 1 1 100 10); at_ 4 (sell 2 1 100 4)].
Definition after_snapshot : list (Env * OrderCommand) := [at_ 5 (buy 1 2 99 7); at_ 6 (cancel 1 1)].

Definition new_gateway : MatchingThread :=
  matching_thread0 risk_config0 (Some (wal_open [] 0 0 wal_config0)) true 0.
Definition sample_log : Wal := default (wal_open [] 0 0 wal_config0) (wal_ (run new_gateway before_snapshot)).
Definition surviving_files : Files :=
  mkFiles None (Some (snapshot_bytes (export_snapshot 2 (core_ (run new_gateway before_snapshot)))))
    (Some (take 100 (log_bytes 2 (drop 1 (logged (before_snapshot ++ after_snapshot)))))).

Lemma restart_from_snapshot_witness :
  exists m w pre post,
    gateway_start risk_config0 wal_config0 0 0 true surviving_files = Some m /\
    before_snapshot ++ after_snapshot = pre ++ post /\
    length (logged pre) = Nat.max (length (logged before_snapshot)) (1 + 100 / 47) /\
    core_sim (core_ m) (core_ (run new_gateway pre)) /\
    wal_ m = Some w /\ w_seq w = Z.of_nat (length (logged pre)).
Proof.
  apply (restart_from_snapshot risk_config0 wal_config0 0 0 before_snapshot after_snapshot sample_log
    surviving_files 1 100).
  - repeat constructor.
  - unfold before_snapshot, after_snapshot. cbn [app]. repeat constructor; vm_compute; done.
  - reflexivity.
  - vm_compute. reflexivity.
  - vm_compute. reflexivity.
  - vm_decide.
  - right. split; [by eexists|]. vm_compute. reflexivity.
  - vm_compute. lia.
  - vm_compute. lia.
  - vm_compute. reflexivity.
Defined.
