(* ===== verification/GatewayArgs.v ===== *)
(** The command line of the gateway (src/gateway_main.cpp): the argument loop,
    and startup with whatever of the log and the snapshot it configures. *)
From Stdlib Require Import ZArith Lia String.
From stdpp Require Import base numbers gmap list.
From S2P Require Import Prelude Types OrderBook BookFacts Engine Bytes Protocol Commands Wal.
From S2P Require Import WalProps Snapshot Egress Text RiskConfig RiskFile MatchingThread Recovery Ownership.
From S2P Require Import CoreInv MatchProps RestoreProps Timeless Gateway.

(** ** Arguments *)

Record GatewayOptions := mkOptions {
  opt_port : Z;
  opt_wal : text;
  opt_wal_config : WalConfig;
  opt_recover : bool;
  opt_snapshot : text;
  opt_snapshot_every : Z;
  opt_risk : RiskConfig;
}.

Definition options0 : GatewayOptions := mkOptions 9001 [] wal_config0 false [] 100000 risk_config0.

Definition set_wal (v : text) (o : GatewayOptions) : GatewayOptions :=
  mkOptions (opt_port o) v (opt_wal_config o) (opt_recover o) (opt_snapshot o) (opt_snapshot_every o) (opt_risk o).
Definition set_snapshot (v : text) (o : GatewayOptions) : GatewayOptions :=
  mkOptions (opt_port o) (opt_wal o) (opt_wal_config o) (opt_recover o) v (opt_snapshot_every o) (opt_risk o).
Definition set_snapshot_every (v : Z) (o : GatewayOptions) : GatewayOptions :=
  mkOptions (opt_port o) (opt_wal o) (opt_wal_config o) (opt_recover o) (opt_snapshot o) v (opt_risk o).
Definition set_recover (o : GatewayOptions) : GatewayOptions :=
  mkOptions (opt_port o) (opt_wal o) (opt_wal_config o) true (opt_snapshot o) (opt_snapshot_every o) (opt_risk o).
Definition set_no_fullsync (o : GatewayOptions) : GatewayOptions :=
  let c := opt_wal_config o in
  mkOptions (opt_port o) (opt_wal o) (mkWalConfig (sync_interval_ns c) (sync_every_n c) false) (opt_recover o)
    (opt_snapshot o) (opt_snapshot_every o) (opt_risk o).
Definition set_risk (v : RiskConfig) (o : GatewayOptions) : GatewayOptions :=
  mkOptions (opt_port o) (opt_wal o) (opt_wal_config o) (opt_recover o) (opt_snapshot o) (opt_snapshot_every o) v.
Definition set_port (v : Z) (o : GatewayOptions) : GatewayOptions :=
  mkOptions v (opt_wal o) (opt_wal_config o) (opt_recover o) (opt_snapshot o) (opt_snapshot_every o) (opt_risk o).

(** [std::strtoull]: 0 without digits, the largest value out of range. *)
Definition strtoull (s : text) : Z :=
  match read_int s with
  | Some (neg, v, _) => if v <? 2 ^ 64 then (if neg then u64 (- v) else v) else 2 ^ 64 - 1
  | None => 0
  end.

(** The check of [--port]: everything is consumed, no range error, 0 to 65535. *)
Definition parse_port (raw : text) : option Z :=
  match read_int raw with
  | Some (neg, v, []) =>
      let z := if neg then - v else v in
      if (- 2 ^ 63 <=? z) && (z <? 2 ^ 63) && (0 <=? z) && (z <=? 65535) then Some z else None
  | _ => None
  end.

Inductive ArgsOutcome :=
  | ArgsHelp
  | ArgsBadRisk (e : LoadError)
  | ArgsBadPort (raw : text)
  | ArgsUnknown (arg : text)
  | ArgsOk (o : GatewayOptions).

(** The loop over the arguments behind the program's name; [files] are the risk
    files by path. *)
Fixpoint parse_args (files : text -> option text) (args : list text) (o : GatewayOptions) : ArgsOutcome :=
  match args with
  | [] => ArgsOk o
  | arg :: rest =>
      if decide (arg = lit "--help") then ArgsHelp else
      match rest with
      | v :: rest' =>
          if decide (arg = lit "--wal") then parse_args files rest' (set_wal v o) else
          if decide (arg = lit "--snapshot") then parse_args files rest' (set_snapshot v o) else
          if decide (arg = lit "--snapshot-every") then parse_args files rest' (set_snapshot_every (strtoull v) o) else
          if decide (arg = lit "--recover") then parse_args files rest (set_recover o) else
          if decide (arg = lit "--wal-no-fullsync") then parse_args files rest (set_no_fullsync o) else
          if decide (arg = lit "--risk") then
            match load (files v) (opt_risk o) with
            | inl e => ArgsBadRisk e
            | inr c => parse_args files rest' (set_risk c o)
            end
          else if decide (arg = lit "--port") then
            match parse_port v with
            | None => ArgsBadPort v
            | Some p => parse_args files rest' (set_port p o)
            end
          else ArgsUnknown arg
      | [] =>
          if decide (arg = lit "--recover") then parse_args files rest (set_recover o) else
          if decide (arg = lit "--wal-no-fullsync") then parse_args files rest (set_no_fullsync o) else
          ArgsUnknown arg
      end
  end.

(** ** Startup *)

Definition configured (path : text) : bool := negb (bool_decide (path = [])).

(** [main] from the parsed arguments to the event loop: a matching thread, or a
    refusal to start. *)
Definition gateway_boot (o : GatewayOptions) (now : Z) (fs : Files) : option MatchingThread :=
  let use_wal := configured (opt_wal o) in
  let use_snap := configured (opt_snapshot o) in
  let '(have_snapshot, d) :=
    if use_snap && opt_recover o then load_snapshot (f_snapshot fs) (f_previous fs) else (false, snapshot0) in
  match (if use_wal && opt_recover o then plan_recovery have_snapshot d (f_wal fs) else Some ([], 0)) with
  | None => None
  | Some (pending, resume_seq) =>
      let wal := if use_wal then Some (wal_open (default [] (f_wal fs)) now resume_seq (opt_wal_config o)) else None in
      let m := matching_thread0 (opt_risk o) wal use_snap (opt_snapshot_every o) in
      let m := if use_snap then set_snap (snap_ m) (f_snapshot fs) (f_previous fs) m else m in
      let m := if have_snapshot
               then set_snapshot_baseline (sd_last_seq d) (on_core (restore d) m) else m in
      Some (match pending with [] => m | _ => recover pending m end)
  end.

(** With both a log and a snapshot configured this is [gateway_start]. *)
Lemma gateway_boot_start o now fs :
  opt_wal o <> [] -> opt_snapshot o <> [] ->
  gateway_boot o now fs =
  gateway_start (opt_risk o) (opt_wal_config o) now (opt_snapshot_every o) (opt_recover o) fs.
Proof.
  intros Hw Hs. unfold gateway_boot, gateway_start, configured. rewrite !bool_decide_false by done. cbn [negb andb].
  destruct (if opt_recover o then load_snapshot _ _ else _) as [have d].
  by destruct (if opt_recover o then plan_recovery _ _ _ else _) as [[pending resume]|].
Qed.

(** ** Command lines *)

Inductive Opt :=
  | OWal (path : text) | OSnapshot (path : text) | OSnapshotEvery (n : text)
  | ORecover | ONoFullsync | ORisk (path : text) | OPort (raw : text).

Definition args_of (x : Opt) : list text :=
  match x with
  | OWal p => [lit "--wal"; p]
  | OSnapshot p => [lit "--snapshot"; p]
  | OSnapshotEvery n => [lit "--snapshot-every"; n]
  | ORecover => [lit "--recover"]
  | ONoFullsync => [lit "--wal-no-fullsync"]
  | ORisk p => [lit "--risk"; p]
  | OPort raw => [lit "--port"; raw]
  end.

(** What one option does: new options, or the end of the program. *)
Definition opt_effect (files : text -> option text) (x : Opt) (o : GatewayOptions) : ArgsOutcome :=
  match x with
  | OWal p => ArgsOk (set_wal p o)
  | OSnapshot p => ArgsOk (set_snapshot p o)
  | OSnapshotEvery n => ArgsOk (set_snapshot_every (strtoull n) o)
  | ORecover => ArgsOk (set_recover o)
  | ONoFullsync => ArgsOk (set_no_fullsync o)
  | ORisk p => match load (files p) (opt_risk o) with inl e => ArgsBadRisk e | inr c => ArgsOk (set_risk c o) end
  | OPort raw => match parse_port raw with Some p => ArgsOk (set_port p o) | None => ArgsBadPort raw end
  end.

Fixpoint opts_effect (files : text -> option text) (xs : list Opt) (o : GatewayOptions) : ArgsOutcome :=
  match xs with
  | [] => ArgsOk o
  | x :: xs => match opt_effect files x o with ArgsOk o => opts_effect files xs o | out => out end
  end.

Lemma parse_args_opt files x rest o :
  parse_args files (args_of x ++ rest) o =
  match opt_effect files x o with ArgsOk o => parse_args files rest o | out => out end.
Proof.
  destruct x; try reflexivity; cbn [args_of app opt_effect].
  - by destruct rest.
  - by destruct rest.
  - cbn. by destruct (load (files path) (opt_risk o)).
  - cbn. by destruct (parse_port raw).
Qed.

Lemma parse_port_print z rest :
  starts_digit rest = false ->
  parse_port (dec z ++ rest) = if decide (0 <= z <= 65535 /\ rest = []) then Some z else None.
Proof.
  intros Hr. unfold parse_port. rewrite read_int_dec by done.
  replace (if z <? 0 then - Z.abs z else Z.abs z) with z by (destruct (Z.ltb_spec z 0); lia).
  destruct rest as [|c r]; [|by rewrite decide_False by naive_solver].
  destruct (decide _) as [[H _]|H].
  - destruct (_ && _) eqn:E; [done|]. exfalso. lia.
  - destruct (_ && _) eqn:E; [|done]. exfalso. apply H. split; [lia|done].
Qed.

Lemma strtoull_print z : is_u64 z -> strtoull (dec z) = z.
Proof.
  intros H. unfold is_u64 in H. unfold strtoull. rewrite <- (app_nil_r (dec z)), read_int_dec by done.
  rewrite Z.abs_eq, (proj2 (Z.ltb_ge z 0)), (proj2 (Z.ltb_lt z (2 ^ 64))) by lia. done.
Qed.

(** ** Claims *)

(** [command_line_exact]. The command line is read option by option: each
    takes effect in its order, a value is taken as it stands even where it
    looks like an option, a port must be a decimal number from 0 to 65535 with
    nothing behind it, and the first option that cannot be honoured ends the
    program. With a log, a snapshot and [--recover] given, startup is recovery
    from those files. *)
Theorem command_line_exact (files : text -> option text) (xs : list Opt) (o : GatewayOptions) (now : Z) (fs : Files) :
  parse_args files (xs ≫= args_of) o = opts_effect files xs o /\
  (forall z rest, starts_digit rest = false ->
     opt_effect files (OPort (dec z ++ rest)) o =
     if decide (0 <= z <= 65535 /\ rest = []) then ArgsOk (set_port z o) else ArgsBadPort (dec z ++ rest)) /\
  (forall w s n, w <> [] -> s <> [] -> is_u64 n ->
     exists o', parse_args files ([OWal w; OSnapshot s; OSnapshotEvery (dec n); ORecover] ≫= args_of) o = ArgsOk o' /\
       gateway_boot o' now fs = gateway_start (opt_risk o) (opt_wal_config o) now n true fs).
Proof.
  split; [|split].
  - revert o. induction xs as [|x xs IH]; intros o; [done|].
    change ((x :: xs) ≫= args_of) with (args_of x ++ (xs ≫= args_of)). rewrite parse_args_opt. cbn [opts_effect].
    by destruct (opt_effect files x o).
  - intros z rest Hr. cbn [opt_effect]. rewrite parse_port_print by done. by destruct (decide _).
  - intros w s n Hw Hs Hn. eexists. split; [reflexivity|]. rewrite gateway_boot_start by done.
    cbn [set_recover set_snapshot_every set_snapshot set_wal opt_risk opt_wal_config opt_snapshot_every opt_recover].
    by rewrite strtoull_print.
Qed.

(** [bad_snapshot_interval]. The interval of snapshots is not checked: text that
    is not a number gives 0, which turns snapshots off. *)
Theorem bad_snapshot_interval :
  parse_args (fun _ => None) [lit "--snapshot-every"; lit "abc"] options0 =
  ArgsOk (set_snapshot_every 0 options0).
Proof. reflexivity. Qed.
