(* ===== verification/Durable.v ===== *)
(** What the matching thread keeps on disk while it runs: batches of commands,
    logged as they are applied, snapshots between batches and truncations of
    the log behind them ([MatchingThread::drain] and [maybe_snapshot]) always
    leave files from which a restart rebuilds the state. *)
From stdpp Require Import base numbers gmap list.
From Stdlib Require Import ZArith Lia.
From S2P Require Import Prelude Types OrderBook BookFacts Engine Bytes Protocol Commands Wal.
From S2P Require Import WalProps Snapshot Egress RiskConfig MatchingThread Recovery Ownership.
From S2P Require Import CoreInv MatchProps RestoreProps Timeless Fits Gateway.

(** A batch: the commands popped, the clock at its end, and how the snapshot's
    file operations go. *)
Record Batch := mkBatch { b_commands : list (Env * OrderCommand); b_now : Z; b_io : SnapIo }.

Definition drains (m : MatchingThread) (bs : list Batch) : MatchingThread :=
  foldl (fun m b => (drain (b_commands b) (b_now b) (b_io b) m).2) m bs.

Definition commands (bs : list Batch) : list (Env * OrderCommand) := bs ≫= b_commands.

(** ** The commands of a batch *)

Definition apply_counted (m : MatchingThread) (p : Env * OrderCommand) : MatchingThread :=
  let m := apply p.1 p.2 m in set_stats (count_applied (stats_ m)) m.

Lemma apply_snaps env c m : snaps (apply env c m) = snaps m.
Proof.
  unfold apply. destruct (_ && _); [|apply dispatch_frame].
  destruct (wal_ m) as [w|]; [|apply dispatch_frame].
  destruct (wal_append _ _ _ _) as [ok w']. destruct (negb ok); [done|].
  destruct (dispatch_frame c (set_wal (Some w') m)) as (_ & _ & _ & ->). done.
Qed.

Lemma batch_live ps m first cs :
  live m first cs -> writes_ok ps -> numbered first (length cs + length ps) ->
  let m' := foldl apply_counted m ps in
  live m' first (cs ++ logged ps) /\ same m' (replay m (logged ps)) /\ snaps m' = snaps m.
Proof.
  intros Hlive Hio. revert m cs Hlive. induction Hio as [|p ps Hp Hio IH]; intros m cs Hlive Hn.
  { cbn. by rewrite app_nil_r. }
  unfold numbered in *. cbn [length foldl logged] in *.
  destruct (apply_live p.1 p.2 m first cs Hlive) as [Hlive' Hsame]; [unfold numbered; lia|done|].
  assert (live (apply_counted m p) first (if is_loggable (c_type p.2) then cs ++ [p.2] else cs)) as Hl by done.
  assert (snaps (apply_counted m p) = snaps m) as Hs by apply apply_snaps.
  destruct (IH _ _ Hl) as (H1 & H2 & H3); [destruct (is_loggable _); rewrite ?length_app; simpl; lia|].
  destruct (is_loggable (c_type p.2)).
  - rewrite <- app_assoc in H1. split_and!; [done| |congruence]. rewrite H2. by apply (replay_proper (logged ps)).
  - split_and!; [done| |congruence]. rewrite H2. by apply replay_proper.
Qed.

(** ** The invariant *)

Section durable.
Context (risk : RiskConfig) (cfg : WalConfig) (now every_n : Z).
Let m0 : MatchingThread := matching_thread0 risk (Some (wal_open [] now 0 cfg)) true every_n.

(** The snapshot file [f] shows the state after some prefix of [ps] that had
    logged [L] commands. *)
Definition shows (ps : list (Env * OrderCommand)) (L : nat) (f : list Z) : Prop :=
  exists ps1 ps2, ps = ps1 ++ ps2 /\ length (logged ps1) = L /\
    f = snapshot_bytes (export_snapshot (Z.of_nat L) (core_ (run m0 ps1))).

(** The log starts at record [j + 1]; the newest snapshot (the file, or the one
    behind it when the file is missing) shows record [L]. *)
Record on_disk (ps : list (Env * OrderCommand)) (j L : nat) (file prev : option (list Z)) : Prop := {
  od_log : (j <= L <= length (logged ps))%nat;
  od_file f : file = Some f -> shows ps L f;
  od_prev f : prev = Some f -> exists L', (j <= L')%nat /\ shows ps L' f /\ (file = None -> L' = L);
  od_none : file = None -> prev = None -> L = 0%nat;
}.

Record durable (ps : list (Env * OrderCommand)) (j L : nat) (m : MatchingThread) : Prop := {
  du_same : same m (replay m0 (logged ps));
  du_live : live m (1 + Z.of_nat j) (drop j (logged ps));
  du_disk : on_disk ps j L (snap_file m) (snap_prev m);
  du_every : snap_every_n (snap_ m) = every_n;
  du_last : last_snapshot_seq_ (snap_ m) = Z.of_nat L;
  du_next : (0 < L)%nat -> Z.of_nat L < next_snapshot_at_ (snap_ m);
}.

Lemma durable_init : durable [] 0 0 m0.
Proof.
  split; [done| |split; [cbn; lia|done..]|done|done|intros; lia].
  split; [done|]. eexists. by split.
Qed.

Lemma shows_app ps qs L f : shows ps L f -> shows (ps ++ qs) L f.
Proof.
  intros (ps1 & ps2 & -> & HL & ->). exists ps1, (ps2 ++ qs). by rewrite <- app_assoc.
Qed.

Lemma on_disk_app ps qs j L file prev : on_disk ps j L file prev -> on_disk (ps ++ qs) j L file prev.
Proof.
  intros [H1 H2 H3 H4]. split; [rewrite logged_app, length_app; lia|eauto using shows_app| |done].
  intros f Hf. destruct (H3 f Hf) as (L' & ? & ? & ?). eauto using shows_app.
Qed.

Lemma durable_batch qs ps j L m :
  durable ps j L m -> writes_ok qs -> 1 + Z.of_nat (length (ps ++ qs)) < 2 ^ 64 ->
  durable (ps ++ qs) j L (foldl apply_counted m qs).
Proof.
  intros [H1 H2 H3 H4 H5 H6] Hio Hn. rewrite length_app in Hn. pose proof (od_log _ _ _ _ _ H3) as Hj.
  pose proof (length_logged ps) as Hll.
  destruct (batch_live qs m _ _ H2 Hio) as (Hl & Hs & Hsn).
  { unfold numbered. rewrite length_drop. lia. }
  injection Hsn as E1 E2 E3. rewrite <- E1 in H4, H5, H6.
  split; try done; rewrite ?logged_app.
  - rewrite Hs, replay_app. by apply replay_proper.
  - rewrite drop_app_le by lia. done.
  - rewrite E2, E3. by apply on_disk_app.
Qed.

(** ** Snapshots and truncation *)

(** The file moved aside, if any, else the one already there. *)
Definition moved_aside (file prev : option (list Z)) : option (list Z) :=
  match file with Some f => Some f | None => prev end.

Lemma newest_moved ps j L file prev :
  on_disk ps j L file prev ->
  (forall f, moved_aside file prev = Some f -> shows ps L f) /\ (moved_aside file prev = None -> L = 0%nat).
Proof.
  intros [H1 H2 H3 H4]. destruct file as [f|]; cbn; [split; [|done]; intros f' [= <-]; by apply H2|].
  split; [|by apply H4]. intros f Hf. destruct (H3 f Hf) as (L' & _ & Hs & He). by rewrite <- He.
Qed.

(** Moving the file aside loses nothing, and so does installing a new one. *)
Lemma on_disk_moved ps j L file prev :
  on_disk ps j L file prev -> on_disk ps j L None (moved_aside file prev).
Proof.
  intros H. destruct (newest_moved _ _ _ _ _ H) as [Hf Hn]. split; [apply H|done| |done].
  intros f He. exists L. split; [apply H|]. split; [by apply Hf|done].
Qed.

Lemma on_disk_new ps j L file prev f :
  on_disk ps j L file prev -> shows ps (length (logged ps)) f ->
  on_disk ps j (length (logged ps)) (Some f) (moved_aside file prev) /\
  on_disk ps L (length (logged ps)) (Some f) (moved_aside file prev).
Proof.
  intros H Hs. destruct (newest_moved _ _ _ _ _ H) as [Hf Hn]. pose proof (od_log _ _ _ _ _ H) as Hj.
  split; (split; [lia|by intros ? [= <-]| |done]).
  all: intros f' He; exists L; split; [lia|]; split; [by apply Hf|done].
Qed.

(** A thread whose files are in order, its log possibly closed. *)
Definition recoverable (ps : list (Env * OrderCommand)) (m : MatchingThread) : Prop :=
  exists j L w, wal_ m = Some w /\ w_file w = log_bytes (1 + Z.of_nat j) (drop j (logged ps)) /\
    on_disk ps j L (snap_file m) (snap_prev m).

Lemma durable_recoverable ps j L m : durable ps j L m -> recoverable ps m.
Proof. intros [_ (_ & w & Hw & _ & Hf & _) Hd _ _ _]. by exists j, L, w. Qed.

Section snapshot.
Context (ps : list (Env * OrderCommand)).
Hypothesis Hio : writes_ok ps.
Hypothesis Hok : Forall (fun p => command_ok p.2) ps.
Hypothesis Hn : 1 + Z.of_nat (length ps) + every_n < 2 ^ 64.
Hypothesis He : 0 <= every_n.

Lemma run_replayed : same (run m0 ps) (replay m0 (logged ps)).
Proof.
  apply (run_live ps m0 1 []); [apply live_fresh|done|unfold numbered; cbn [length]; lia].
Qed.

Lemma durable_shows j L m w :
  durable ps j L m -> wal_ m = Some w ->
  w_seq w = Z.of_nat (length (logged ps)) /\
  shows ps (length (logged ps)) (snapshot_bytes (export_snapshot (w_seq w) (core_ m))).
Proof.
  intros [H1 (_ & w' & Hw' & _ & _ & Hs) H3 _ _ _] Hw. assert (w' = w) as -> by congruence. pose proof (od_log _ _ _ _ _ H3).
  rewrite length_drop in Hs. assert (w_seq w = Z.of_nat (length (logged ps))) as Hseq by lia.
  split; [done|]. exists ps, []. rewrite app_nil_r, Hseq. split_and!; try done.
  by rewrite (proj1 H1), (proj1 run_replayed).
Qed.

(** Truncating behind the snapshot before the newest one. *)
Lemma truncate_behind j L m w io :
  whole_read io = true -> durable ps j L m -> wal_ m = Some w -> (0 < L < length (logged ps))%nat ->
  (w_file (truncate_before (Z.of_nat L) io w).2 = log_bytes (1 + Z.of_nat j) (drop j (logged ps)) \/
   w_file (truncate_before (Z.of_nat L) io w).2 = log_bytes (1 + Z.of_nat L) (drop L (logged ps))) /\
  wal_holds (truncate_before (Z.of_nat L) TruncOk w).2 (1 + Z.of_nat L) (drop L (logged ps)).
Proof.
  intros Hrd [H1 (_ & w' & Hw' & Hh) H3 _ _ _] Hw HL. assert (w' = w) as -> by congruence. pose proof (od_log _ _ _ _ _ H3) as Hj.
  pose proof (length_logged ps) as Hll.
  assert (intact (1 + Z.of_nat j) (drop j (logged ps))) as Hi.
  { split; [unfold numbered; rewrite length_drop; lia|]. by apply Forall_drop, command_ok_logged. }
  assert (drop j (logged ps) <> []) as Hne.
  { intros Hz. apply (f_equal length) in Hz. rewrite length_drop in Hz. cbn in Hz. lia. }
  pose proof (truncate_file w _ (Z.of_nat L) _ io Hrd Hh Hi Hne) as Hf.
  destruct (truncate_holds w _ (Z.of_nat L) _ Hh Hi Hne) as (_ & Ht & _). cbv zeta in *.
  rewrite length_drop in *.
  replace (Nat.min (Z.to_nat (Z.of_nat L + 1 - (1 + Z.of_nat j))) (length (logged ps) - j))
    with (L - j)%nat in * by lia.
  rewrite drop_drop in *. replace (j + (L - j))%nat with L in * by lia.
  replace (1 + Z.of_nat j + Z.of_nat (L - j)) with (1 + Z.of_nat L) in * by lia. done.
Qed.

Lemma maybe_snapshot_durable io j L m :
  sio_rename io = true -> whole_read (sio_truncate io) = true -> durable ps j L m ->
  recoverable ps (maybe_snapshot io m) /\
  (sio_truncate io = TruncOk -> exists j' L', durable ps j' L' (maybe_snapshot io m)).
Proof.
  intros Hmv Hrd Hd. pose proof Hd as [H1 H2 H3 H4 H5 H6]. pose proof (durable_recoverable _ _ _ _ Hd) as Hrec.
  pose proof H2 as (Hr & w & Hw & Hh). pose proof Hh as (_ & Hfile & _). unfold maybe_snapshot. rewrite Hw.
  destruct (durable_shows j L m w Hd Hw) as [Hseq Hsh]. rewrite H4.
  destruct (negb (snap_path_set (snap_ m)) || (every_n =? 0)) eqn:Eset; [by eauto|].
  apply orb_false_iff in Eset as [_ Ez]. apply Z.eqb_neq in Ez.
  cbv zeta. destruct (Z.ltb_spec (w_seq w) (next_snapshot_at_ (snap_ m))) as [|Hdue]; [by eauto|].
  assert (move_aside (sio_rename io) (snap_file m) (snap_prev m) =
    (None, moved_aside (snap_file m) (snap_prev m))) as -> by (rewrite Hmv; by destruct (snap_file m)).
  unfold write_snapshot. destruct (sio_write io); cbn [negb].
  2: { pose proof (on_disk_moved _ _ _ _ _ H3) as Hm. split; [by exists j, L, w|]. intros _. exists j, L. by split. }
  set (f := snapshot_bytes _) in *. destruct (on_disk_new _ _ _ _ _ f H3 Hsh) as [Hd1 Hd2].
  assert (u64 (w_seq w + every_n) = w_seq w + every_n) as Hu.
  { apply u64_id. pose proof (length_logged ps). unfold is_u64. lia. }
  rewrite Hu, H5. destruct (Z.ltb_spec 0 (Z.of_nat L)) as [HL|HL].
  - pose proof (od_log _ _ _ _ _ H3) as Hj.
    destruct (truncate_behind j L m w (sio_truncate io) Hrd Hd Hw) as [Hf Ht]; [specialize (H6 ltac:(lia)); lia|].
    split.
    + destruct Hf as [Hf|Hf]; [exists j|exists L]; eexists _, _; (split; [reflexivity|]); split; try exact Hf; done.
    + intros Hio'. rewrite Hio'. exists L, (length (logged ps)). split; try done.
      * split; [done|]. eexists. by split.
      * cbn. lia.
  - split; [by exists j, (length (logged ps)), w|]. intros _. exists j, (length (logged ps)).
    split; try done. cbn. lia.
Qed.

End snapshot.

(** ** Batches *)

Lemma durable_poll ps j L m t : durable ps j L m -> durable ps j L (set_wal (poll_sync t <$> wal_ m) m).
Proof.
  intros [H1 (Hr & w & Hw & Ho & Hf & Hs) H3 H4 H5 H6]. split; try done. split; [done|].
  cbn [wal_ set_wal]. rewrite Hw. exists (poll_sync t w). split; [done|]. unfold wal_holds, poll_sync.
  destruct (maybe_sync_frame t w) as (-> & -> & -> & _). done.
Qed.

Lemma drain_durable b ps j L m :
  sio_rename (b_io b) = true -> whole_read (sio_truncate (b_io b)) = true -> durable ps j L m -> writes_ok (ps ++ b_commands b) ->
  Forall (fun p => command_ok p.2) (ps ++ b_commands b) ->
  1 + Z.of_nat (length (ps ++ b_commands b)) + every_n < 2 ^ 64 -> 0 <= every_n ->
  let m' := (drain (b_commands b) (b_now b) (b_io b) m).2 in
  recoverable (ps ++ b_commands b) m' /\
  (sio_truncate (b_io b) = TruncOk -> exists j' L', durable (ps ++ b_commands b) j' L' m').
Proof.
  intros Hmv Hrd Hd Hio Hok Hn He. unfold drain. cbn [snd].
  assert (durable (ps ++ b_commands b) j L (foldl apply_counted m (b_commands b))) as Hd1.
  { apply durable_batch; [done| |lia]. by apply Forall_app in Hio as [_ ?]. }
  fold apply_counted. apply (maybe_snapshot_durable _ Hio Hok Hn He _ j L); [done|done|].
  destruct (negb _); [by apply durable_poll|done].
Qed.

(** Every snapshot found was moved aside, and every truncation went through;
    writing the snapshots may have failed. *)
Definition file_ops_ok (bs : list Batch) : Prop :=
  Forall (fun b => sio_rename (b_io b) = true /\ sio_truncate (b_io b) = TruncOk) bs.

Lemma drains_durable bs :
  file_ops_ok bs -> writes_ok (commands bs) -> Forall (fun p => command_ok p.2) (commands bs) ->
  1 + Z.of_nat (length (commands bs)) + every_n < 2 ^ 64 -> 0 <= every_n ->
  exists j L, durable (commands bs) j L (drains m0 bs).
Proof.
  intros Ht. induction bs as [|b bs IH] using rev_ind; intros Hio Hok Hn He.
  { exists 0%nat, 0%nat. apply durable_init. }
  apply Forall_app in Ht as [Ht Hb]. apply Forall_cons in Hb as [Hb _].
  unfold commands in *. rewrite bind_app in *. cbn [mbind list_bind] in *. rewrite app_nil_r in *.
  destruct IH as (j & L & Hd); try done.
  { by apply Forall_app in Hio as [? _]. } { by apply Forall_app in Hok as [? _]. }
  { rewrite length_app in Hn. lia. }
  unfold drains. rewrite foldl_app. cbn [foldl].
  destruct Hb as [Hmv Htr].
  destruct (drain_durable b _ _ _ _ Hmv ltac:(by rewrite Htr) Hd Hio Hok Hn He) as [_ H]. by apply H.
Qed.

(** ** Restarts *)

Lemma ids_fresh_app ps qs m : ids_fresh m (ps ++ qs) = true -> ids_fresh m ps = true.
Proof.
  revert m. induction ps as [|p ps IH]; intros m; [done|]. cbn [ids_fresh app].
  intros [-> H]%andb_true_iff. by apply IH.
Qed.

(** Every snapshot a run exports fits the file format. *)
Lemma run_export_fits ps seq :
  Forall (fun p => command_ok p.2) ps -> 1 + Z.of_nat (length ps) < 2 ^ 64 -> is_u64 seq ->
  snapshot_ok (export_snapshot seq (core_ (run m0 ps))).
Proof.
  intros Hok Hn Hs. assert (core_inv (core_ (run m0 ps))) as Hinv by (apply run_inv; [apply core_inv_init|done|cbn; lia]).
  apply export_fits; [done| | |done].
  - apply run_fits; [apply core_inv_init|apply core_fits_init|done|cbn; lia].
  - pose proof (ci_next _ Hinv) as Hpos. pose proof (run_next_id ps m0 core_inv_init Hok ltac:(cbn; lia)) as H.
    cbn in H. unfold is_u64. lia.
Qed.

Section restart.
Context (ps : list (Env * OrderCommand)).
Hypothesis Hio : writes_ok ps.
Hypothesis Hok : Forall (fun p => command_ok p.2) ps.
Hypothesis Hn : 1 + Z.of_nat (length ps) < 2 ^ 64.
Hypothesis Hids : ids_fresh m0 ps = true.

(** What a restart gives back: the live state after a prefix of the run that
    had logged [n] commands or more. *)
Definition restarts (fs : Files) (n : nat) : Prop :=
  exists m w pre post,
    gateway_start risk cfg now every_n true fs = Some m /\ ps = pre ++ post /\
    core_sim (core_ m) (core_ (run m0 pre)) /\
    wal_ m = Some w /\ w_seq w = Z.of_nat (length (logged pre)) /\ (n <= length (logged pre))%nat.

Lemma restart_shown j L f fs k :
  shows ps L f -> (j <= L)%nat ->
  (f_snapshot fs = Some f \/ refused (f_snapshot fs) /\ f_previous fs = Some f) ->
  f_wal fs = Some (take k (log_bytes (1 + Z.of_nat j) (drop j (logged ps)))) ->
  (k <= 47 * length (drop j (logged ps)))%nat -> restarts fs (j + k / 47).
Proof.
  intros (ps1 & ps2 & He & HL & Hf) Hj Hfs Hw Hk.
  pose proof Hio as Hio1. pose proof Hok as Hok1. pose proof Hn as Hn1. rewrite He in Hio1, Hok1, Hn1.
  rewrite length_app in Hn1. pose proof (length_logged ps1).
  destruct (run_live ps1 m0 1 [] (live_fresh risk now cfg true every_n)) as [(_ & w & Hw1 & _ & _ & Hs) _].
  { by apply Forall_app in Hio1 as [? _]. } { unfold numbered. cbn [length]. lia. }
  cbn [app] in Hs. assert (w_seq w = Z.of_nat L) as Hseq by lia.
  destruct (restart_behind risk cfg now every_n ps1 ps2 w fs j k) as (m & w' & pre & post & H1 & H2 & H3 & H4 & H5 & H6);
    rewrite <- ?He; try done.
  - apply (ids_fresh_app ps1 ps2). by rewrite <- He.
  - rewrite Hseq. apply run_export_fits; [by apply Forall_app in Hok1 as [? _]|lia|unfold is_u64; lia].
  - rewrite Hseq. unfold offers. fold m0. by rewrite <- Hf.
  - lia.
  - exists m, w', pre, post. split_and!; try done; [by rewrite He|lia].
Qed.

Lemma recoverable_restarts m w f k :
  recoverable ps m -> wal_ m = Some w -> (k <= length (w_file w))%nat ->
  (f = snap_file m \/ refused f /\ is_Some (snap_prev m)) ->
  restarts (mkFiles f (snap_prev m) (Some (take k (w_file w))))
    (length (logged ps) - (length (w_file w) - k + 46) / 47).
Proof.
  intros (j & L & w' & Hw' & Hfile & Hdisk) Hw Hk Hf. assert (w' = w) as -> by congruence.
  rewrite Hfile in *. rewrite length_log_bytes in *.
  assert (restarts (mkFiles f (snap_prev m) (Some (take k (log_bytes (1 + Z.of_nat j) (drop j (logged ps))))))
    (j + k / 47)) as (m' & w' & pre & post & H1 & H2 & H3 & H4 & H5 & H6).
  2: { exists m', w', pre, post. split_and!; try done. etrans; [|exact H6]. rewrite length_drop.
       pose proof (od_log _ _ _ _ _ Hdisk). pose proof (Nat.div_mod_eq k 47).
       pose proof (Nat.mod_upper_bound k 47 ltac:(done)).
       pose proof (Nat.div_mod_eq (47 * (length (logged ps) - j) - k + 46) 47).
       pose proof (Nat.mod_upper_bound (47 * (length (logged ps) - j) - k + 46) 47 ltac:(done)).
       rewrite length_drop in Hk. lia. }
  pose proof (od_log _ _ _ _ _ Hdisk) as Hj.
  destruct (snap_prev m) as [g|] eqn:Eprev; [|destruct Hf as [->|[_ [? ?]]]; [|done]].
  - destruct (od_prev _ _ _ _ _ Hdisk g eq_refl) as (L' & HL' & Hs & HN).
    destruct (decide (refused f)) as [Hr|Hr]; [apply (restart_shown j L' g); [done|done|by right|done|done]|].
    destruct Hf as [->|[? _]]; [|done]. destruct (snap_file m) as [h|] eqn:Efile; [|by destruct Hr; eexists].
    apply (restart_shown j L h); [by apply (od_file _ _ _ _ _ Hdisk)|lia|by left|done|done].
  - destruct (snap_file m) as [h|] eqn:Efile.
    + apply (restart_shown j L h); [by apply (od_file _ _ _ _ _ Hdisk)|lia|by left|done|done].
    + pose proof (od_none _ _ _ _ _ Hdisk eq_refl eq_refl) as HL.
      assert (j = 0)%nat as -> by lia. rewrite drop_0 in *.
      destruct (restart_log risk cfg now every_n ps k Hio Hok Hn Hk) as (m' & w' & pre & post & H1 & H2 & H3 & H4 & H5 & H6).
      exists m', w', pre, post. split_and!; try done; [by rewrite H4|by rewrite H3|lia].
Qed.

End restart.

End durable.

(** ** Claims *)

(** C3: [restart_any_time]. A gateway that is killed can be restarted. Take
    batches of commands processed by the matching thread, with snapshots and
    truncations in between, such that every write to the log succeeded, every
    snapshot found was moved aside, and every truncation went through, but for
    the last one, which may have failed at any step other than a read error in
    the middle of the log; any of the snapshots may have failed to be written.
    The fields of the commands fit their widths, there are fewer than 2^64 of
    them (the snapshot interval added), and no new order reuses a client id under which its session still has
    an order resting. Then take the files left, cut the log anywhere, and let
    the newest snapshot be damaged if there is one behind it: starting with
    [--recover] succeeds and gives the live state after some prefix of the
    commands, up to timestamps, with numbering resumed after it, and the
    commands missing are at most those whose records were cut off. (What a
    failed write, a failed move or a read error does instead is in the
    findings.) *)
Theorem restart_any_time (risk : RiskConfig) (cfg : WalConfig) (now every_n : Z) (bs : list Batch)
    (b : Batch) (w : Wal) (f : option (list Z)) (k : nat) :
  let ps := commands (bs ++ [b]) in
  file_ops_ok bs -> sio_rename (b_io b) = true -> whole_read (sio_truncate (b_io b)) = true ->
  writes_ok ps -> Forall (fun p => command_ok p.2) ps ->
  1 + Z.of_nat (length ps) + every_n < 2 ^ 64 -> 0 <= every_n ->
  let m0 := matching_thread0 risk (Some (wal_open [] now 0 cfg)) true every_n in
  ids_fresh m0 ps = true ->
  let m := drains m0 (bs ++ [b]) in
  wal_ m = Some w -> (k <= length (w_file w))%nat ->
  (f = snap_file m \/ refused f /\ is_Some (snap_prev m)) ->
  exists m' w' pre post,
    gateway_start risk cfg now every_n true (mkFiles f (snap_prev m) (Some (take k (w_file w)))) = Some m' /\
    ps = pre ++ post /\ core_sim (core_ m') (core_ (run m0 pre)) /\
    wal_ m' = Some w' /\ w_seq w' = Z.of_nat (length (logged pre)) /\
    (length (logged ps) - (length (w_file w) - k + 46) / 47 <= length (logged pre))%nat.
Proof.
  intros ps Ht Hmv Hrd Hio Hok Hn He m0 Hids m Hw Hk Hf.
  assert (ps = commands bs ++ b_commands b) as Hps.
  { unfold ps, commands. rewrite bind_app. cbn [mbind list_bind]. by rewrite app_nil_r. }
  destruct (drains_durable risk cfg now every_n bs) as (j & L & Hd); try done.
  { rewrite Hps in Hio. by apply Forall_app in Hio as [? _]. }
  { rewrite Hps in Hok. by apply Forall_app in Hok as [? _]. }
  { rewrite Hps, length_app in Hn. lia. }
  rewrite Hps in Hio, Hok, Hn, Hids |- *.
  destruct (drain_durable risk cfg now every_n b _ _ _ _ Hmv Hrd Hd Hio Hok Hn He) as [Hrec _].
  apply (recoverable_restarts risk cfg now every_n _ Hio Hok); [lia|done| |done|done|done].
  unfold m, drains. by rewrite foldl_app.
Qed.

(** Three batches with a snapshot after each: the second truncates the log, the
    third fails to. *)
Definition snap_ok : SnapIo := mkSnapIo true true TruncOk.
Definition sample_batches : list Batch :=
  [mkBatch [at_ 1 (session_opened 1 (Some 1) None); at_ 2 (buy 1 1 100 10)] 3 snap_ok;
   mkBatch [at_ 4 (sell 2 1 100 4); at_ 5 (buy 1 2 99 7)] 6 snap_ok].
Definition last_batch : Batch :=
  mkBatch [at_ 7 (cancel 1 1); at_ 8 (sell 2 2 101 5)] 9 (mkSnapIo true true TruncRewriteFails).

Definition sampled : MatchingThread :=
  drains (matching_thread0 risk_config0 (Some (wal_open [] 0 0 wal_config0)) true 2) (sample_batches ++ [last_batch]).
Definition sampled_log : Wal := default (wal_open [] 0 0 wal_config0) (wal_ sampled).

Lemma restart_any_time_witness :
  exists m' w' pre post,
    gateway_start risk_config0 wal_config0 0 2 true
      (mkFiles (Some [1; 2; 3]) (snap_prev sampled) (Some (take 120 (w_file sampled_log)))) = Some m' /\
    commands (sample_batches ++ [last_batch]) = pre ++ post /\
    core_sim (core_ m')
      (core_ (run (matching_thread0 risk_config0 (Some (wal_open [] 0 0 wal_config0)) true 2) pre)) /\
    wal_ m' = Some w' /\ w_seq w' = Z.of_nat (length (logged pre)) /\
    (length (logged (commands (sample_batches ++ [last_batch]))) -
       (length (w_file sampled_log) - 120 + 46) / 47 <= length (logged pre))%nat.
Proof.
  apply (restart_any_time risk_config0 wal_config0 0 2 sample_batches last_batch sampled_log (Some [1; 2; 3]) 120).
  - repeat constructor.
  - reflexivity.
  - reflexivity.
  - repeat constructor.
  - unfold commands. cbn [mbind list_bind app sample_batches last_batch b_commands].
    repeat constructor; vm_compute; done.
  - reflexivity.
  - lia.
  - vm_compute. reflexivity.
  - vm_compute. reflexivity.
  - vm_compute. lia.
  - right. split; [by eexists|vm_compute; by eexists].
Defined.
