(* ===== verification/Lifecycle.v ===== *)
(** The gateway from its command line to its exit (src/gateway_main.cpp): the
    wake-up pipes (the constructors of waiter.hpp and notifier.hpp), the
    listening socket (TcpServer::start and its destructor), recovery, the run of
    the matching thread and the shutdown; and that stopping it loses nothing. *)
From Stdlib Require Import String ZArith Lia.
From stdpp Require Import base numbers gmap list.
From S2P Require Import Prelude Types OrderBook BookFacts Engine Bytes Protocol Commands Wal.
From S2P Require Import WalProps Snapshot Egress RiskConfig MatchingThread Recovery Ownership.
From S2P Require Import CoreInv MatchProps RestoreProps Timeless Fits Gateway Text RiskFile GatewayArgs Durable.

(** ** Descriptors *)

(** The ends of a self-pipe: [None] when [pipe] fails. Setting them non-blocking
    is not checked by the source. *)
Definition open_pipe (p : option (Z * Z)) : Z * Z := default (-1, -1) p.

Definition pipe_valid (fds : Z * Z) : bool := (0 <=? fds.1) && (0 <=? fds.2).

(** The descriptors the destructor closes. *)
Definition close_pipe (fds : Z * Z) : list Z :=
  (if 0 <=? fds.1 then [fds.1] else []) ++ (if 0 <=? fds.2 then [fds.2] else []).

(** ** The listening socket *)

(** The answers of the calls [start] makes; [sc_name] is the port, in host
    order, when [getsockname] succeeds. *)
Record StartCalls := mkStartCalls {
  sc_socket : Z; sc_reuse : Z; sc_bind : Z; sc_name : option Z; sc_listen : Z; sc_getfl : Z; sc_setfl : Z;
}.

Inductive StartError := ErrSocket | ErrReuse | ErrBind | ErrListen | ErrNonblock.

Record Listener := mkListener {
  listen_fd_ : Z; bound_port_ : Z; last_error_ : option StartError; running_ : bool;
}.

Definition listener0 : Listener := mkListener (-1) 0 None false.

Definition set_nonblocking (getfl setfl : Z) : bool := if getfl <? 0 then false else setfl =? 0.

Definition start (k : StartCalls) (l : Listener) : bool * Listener :=
  let failed fd port e := (false, mkListener fd port (Some e) (running_ l)) in
  let fd := sc_socket k in
  if fd <? 0 then failed fd (bound_port_ l) ErrSocket else
  if sc_reuse k <? 0 then failed fd (bound_port_ l) ErrReuse else
  if sc_bind k <? 0 then failed fd (bound_port_ l) ErrBind else
  let port := default (bound_port_ l) (sc_name k) in
  if sc_listen k <? 0 then failed fd port ErrListen else
  if negb (set_nonblocking (sc_getfl k) (sc_setfl k)) then failed fd port ErrNonblock else
  (true, mkListener fd port (last_error_ l) true).

(** [stop], which the signal handler calls. *)
Definition stop (l : Listener) : Listener := mkListener (listen_fd_ l) (bound_port_ l) (last_error_ l) false.

(** The destructor: the descriptors closed, connections first. *)
Definition destroy_server (conn_fds : list Z) (l : Listener) : list Z :=
  filter (fun f => 0 <= f) conn_fds ++ (if 0 <=? listen_fd_ l then [listen_fd_ l] else []).

(** ** The program *)

(** What starting the process meets. *)
Record Startup := mkStartup {
  st_wake : option (Z * Z); st_egress : option (Z * Z); st_log_opens : bool; st_calls : StartCalls; st_now : Z;
}.

Inductive GatewayExit :=
  | ExitHelp | ExitArgs (a : ArgsOutcome) | ExitNoWakePipe | ExitNoEgressPipe | ExitSequenceGap | ExitNoLog
  | ExitNotStarted (e : option StartError) | ExitLoopError | ExitClean.

Definition gateway_code (x : GatewayExit) : Z := match x with ExitHelp | ExitClean => 0 | _ => 1 end.

(** [main] up to the event loop: an exit, or the matching thread to start and
    the socket to serve. The thread is the one [gateway_boot] makes: building it
    does not depend on the steps the source takes in between. *)
Definition gateway_up (files : text -> option text) (args : list text) (io : Startup) (fs : Files)
    : GatewayExit + MatchingThread * Listener :=
  match parse_args files args options0 with
  | ArgsHelp => inl ExitHelp
  | ArgsOk o =>
      if negb (pipe_valid (open_pipe (st_wake io))) then inl ExitNoWakePipe else
      if negb (pipe_valid (open_pipe (st_egress io))) then inl ExitNoEgressPipe else
      match gateway_boot o (st_now io) fs with
      | None => inl ExitSequenceGap
      | Some m =>
          if configured (opt_wal o) && negb (st_log_opens io) then inl ExitNoLog else
          match start (st_calls io) listener0 with
          | (false, l) => inl (ExitNotStarted (last_error_ l))
          | (true, l) => inr (m, l)
          end
      end
  | a => inl (ExitArgs a)
  end.

(** [MatchingThread::stop]: the final sweep applies what the network thread has
    queued. Leaving [main] then destroys the log, which closes it. *)
Definition gateway_down (last : Batch) (m : MatchingThread) : MatchingThread :=
  let m := (drain (b_commands last) (b_now last) (b_io last) m).2 in
  MatchingThread.set_wal (wal_close <$> wal_ m) m.

(** How [main] ends after the event loop, by the error the loop left. *)
Definition gateway_exit (loop_error : bool) : GatewayExit := if loop_error then ExitLoopError else ExitClean.

(** The files a stopped gateway leaves. *)
Definition files_left (m : MatchingThread) : Files := mkFiles (snap_file m) (snap_prev m) (w_file <$> wal_ m).

(** ** Starting *)

(** A start that goes on has its socket listening, and no error. *)
Lemma start_spec k l ok l' : start k l = (ok, l') -> last_error_ l = None ->
  listen_fd_ l' = sc_socket k /\ (ok = true <-> last_error_ l' = None) /\
  (ok = true -> running_ l' = true /\ 0 <= listen_fd_ l').
Proof.
  unfold start. intros E Hl.
  destruct (Z.ltb_spec (sc_socket k) 0); [injection E as <- <-; cbn; naive_solver|].
  repeat (case_match; [injection E as <- <-; cbn; naive_solver|]).
  injection E as <- <-. cbn. rewrite Hl. naive_solver.
Qed.

(** Nothing is leaked or closed twice: what the destructor closes is what was
    opened, a socket whose set-up failed included. *)
Lemma destroy_start k ok l conn_fds :
  start k listener0 = (ok, l) -> Forall (fun f => 0 <= f) conn_fds ->
  destroy_server conn_fds l = conn_fds ++ (if 0 <=? sc_socket k then [sc_socket k] else []).
Proof.
  intros E Hf. unfold destroy_server. destruct (start_spec _ _ _ _ E eq_refl) as (-> & _). f_equal.
  induction Hf as [|f fds H0 _ IH]; [done|]. rewrite filter_cons_True by done. by rewrite IH.
Qed.

(** ** The log is synced when it is closed *)

(** A log whose unsynced records are counted. *)
Definition counted (cfg : WalConfig) (m : MatchingThread) : Prop :=
  exists w, wal_ m = Some w /\ w_open w = true /\ group_commit w /\ w_cfg w = cfg.

Lemma dispatch_counted cfg c m : counted cfg m -> counted cfg (dispatch c m).
Proof. intros (w & Hw & H). exists w. destruct (dispatch_frame c m) as (_ & -> & _). done. Qed.

Lemma apply_counted_log cfg p m :
  sync_every_n cfg < 2 ^ 64 -> env_io p.1 = None -> counted cfg m -> counted cfg (apply_counted m p).
Proof.
  intros Hb Hio Hc. unfold apply_counted. change (counted cfg (MatchingThread.apply p.1 p.2 m)).
  unfold MatchingThread.apply. destruct (_ && _); [|by apply dispatch_counted].
  pose proof Hc as (w & Hw & Ho & Hg & Hcfg). rewrite Hw, Hio.
  destruct (wal_append_group p.2 (env_now p.1) w Ho ltac:(by rewrite Hcfg) Hg) as [Hg' Hcfg'].
  assert (w_open (wal_append p.2 (env_now p.1) None w).2 = true /\ (wal_append p.2 (env_now p.1) None w).1 = true) as [Ho' Hok].
  { unfold wal_append. rewrite Ho. cbn [negb write_all fst snd]. split; [|done].
    match goal with |- context [maybe_sync ?n ?w'] => destruct (maybe_sync_frame n w') as (-> & _) end. done. }
  destruct (wal_append _ _ _ _) as [ok w']. cbn [fst snd] in *. subst ok. apply dispatch_counted.
  exists w'. split_and!; try done. congruence.
Qed.

Lemma sync_group w : w_open w = true -> group_commit w ->
  group_commit (wal_sync w) /\ w_synced (wal_sync w) = length (w_file (wal_sync w)) /\ w_since_sync (wal_sync w) = 0 /\
  w_cfg (wal_sync w) = w_cfg w /\ w_file (wal_sync w) = w_file w.
Proof.
  intros Ho [H1 H2]. unfold wal_sync, group_commit. rewrite Ho. cbn [negb orb].
  destruct (Z.eqb_spec (w_since_sync w) 0) as [E|E]; cbn; [rewrite E in *|]; split_and!; try done; cbn; lia.
Qed.

Lemma close_synced w : w_open w = true -> group_commit w ->
  w_open (wal_close w) = false /\ w_synced (wal_close w) = length (w_file (wal_close w)) /\
  w_file (wal_close w) = w_file w /\ w_seq (wal_close w) = w_seq w.
Proof.
  intros Ho Hg. destruct (sync_group w Ho Hg) as (_ & Hs & _ & _ & Hf). unfold wal_close. rewrite Ho. cbn. split_and!; auto.
  unfold wal_sync. by destruct (_ || _).
Qed.

Lemma poll_group now w : w_open w = true -> group_commit w -> group_commit (poll_sync now w) /\ w_cfg (poll_sync now w) = w_cfg w.
Proof.
  intros Ho Hg. unfold poll_sync, maybe_sync. destruct (_ || _); [|done].
  destruct (sync_group w Ho Hg) as (Hg' & _ & _ & Hc & _). done.
Qed.

Lemma truncate_group seq w : w_open w = true -> group_commit w ->
  let w' := (truncate_before seq TruncOk w).2 in
  w_open w' = true -> group_commit w' /\ w_cfg w' = w_cfg w.
Proof.
  intros Ho Hg. unfold truncate_before. rewrite Ho. cbn [negb].
  destruct (sync_group w Ho Hg) as ([_ Hr] & _ & Hz & Hc & _). rewrite Hz in Hr.
  destruct (wr_error _); [done|]. destruct (rewrite_records _ _ _) as [out kept]. intros _.
  cbn [snd w_cfg]. split; [|done]. unfold group_commit. cbn. rewrite Hz. split; [cbn; lia|exact Hr].
Qed.

Lemma snapshot_counted cfg io m : sio_truncate io = TruncOk -> counted cfg m ->
  (forall w, wal_ (maybe_snapshot io m) = Some w -> w_open w = true) -> counted cfg (maybe_snapshot io m).
Proof.
  intros Ht (w & Hw & Ho & Hg & Hc) Hopen. unfold maybe_snapshot in *. rewrite Hw, Ht in *.
  destruct (_ || _); [by exists w|]. destruct (_ <? _); [by exists w|].
  destruct (move_aside _ _ _) as [path prev].
  destruct (write_snapshot _ _ _) as [ok path']. destruct (negb ok); [by exists w|].
  destruct (0 <? last_snapshot_seq_ (snap_ m)); [|by exists w].
  destruct (truncate_group (last_snapshot_seq_ (snap_ m)) w Ho Hg) as [Hg' Hc']; [by apply Hopen|].
  eexists. split_and!; [done|by apply Hopen|done|congruence].
Qed.

(** ** Stopping and starting again *)

Section life.
Context (risk : RiskConfig) (cfg : WalConfig) (now every_n : Z).
Let m0 : MatchingThread := matching_thread0 risk (Some (wal_open [] now 0 cfg)) true every_n.

Lemma drains_counted bs :
  sync_every_n cfg < 2 ^ 64 -> file_ops_ok bs -> writes_ok (commands bs) -> Forall (fun p => command_ok p.2) (commands bs) ->
  1 + Z.of_nat (length (commands bs)) + every_n < 2 ^ 64 -> 0 <= every_n -> counted cfg (drains m0 bs).
Proof.
  intros Hs Ht. induction bs as [|b bs IH] using rev_ind; intros Hio Hok Hn He.
  { eexists. split_and!; [reflexivity|done| |done]. unfold group_commit. cbn. lia. }
  destruct (drains_durable risk cfg now every_n (bs ++ [b]) Ht Hio Hok Hn He) as (j & L & [_ (_ & w & Hw & Ho & _) _ _ _ _]).
  pose proof Ht as [Ht1 [Hb _]%Forall_cons]%Forall_app. unfold commands in *. rewrite bind_app in *.
  apply Forall_app in Hio as [Hio1 Hio2]. apply Forall_app in Hok as [Hok1 _]. rewrite length_app in Hn.
  cbn [mbind list_bind] in Hio2. rewrite app_nil_r in Hio2.
  assert (counted cfg (drains m0 bs)) as Hc by (apply IH; try done; lia).
  unfold drains in *. rewrite foldl_app in *. cbn [foldl] in *. fold m0 in Hw. set (m := foldl _ m0 bs) in *.
  unfold drain in *. cbn [snd] in *. fold apply_counted in *.
  assert (counted cfg (foldl apply_counted m (b_commands b))) as Hc1.
  { clear Hw. revert Hc. generalize m. induction Hio2 as [|p ps Hp _ IHp]; intros m1 Hc; [done|]. cbn [foldl].
    apply IHp. by apply apply_counted_log. }
  apply snapshot_counted; [by destruct Hb| |].
  - destruct (negb _); [|done]. destruct Hc1 as (w1 & Hw1 & Ho1 & Hg1 & Hc1).
    destruct (poll_group (b_now b) w1 Ho1 Hg1) as [Hg2 Hc2]. exists (poll_sync (b_now b) w1). cbn [wal_ MatchingThread.set_wal].
    rewrite Hw1. split_and!; [done| |done|congruence].
    unfold poll_sync. destruct (maybe_sync_frame (b_now b) w1) as (-> & _). done.
  - intros w1 Hw1. rewrite Hw in Hw1. by simplify_eq.
Qed.

End life.

(** Recovery does not look at the log or at the clock. *)
Lemma recover_proper cs m m' : same m m' -> same (recover cs m) (recover cs m').
Proof.
  intros Hs. unfold recover, clear_log. apply on_core_proper.
  assert (forall m, same (set_replaying false (foldl (fun m c => MatchingThread.apply (mkEnv 0 None) c m) (set_replaying true m) cs))
    (replay (set_replaying true m) cs)) as H by (intros m1; rewrite <- replaying_apply by done; done).
  rewrite !H. by apply replay_proper.
Qed.

Lemma start_clock risk cfg now now' every_n r fs m :
  gateway_start risk cfg now every_n r fs = Some m ->
  exists m', gateway_start risk cfg now' every_n r fs = Some m' /\ same m' m /\ w_seq <$> wal_ m' = w_seq <$> wal_ m.
Proof.
  unfold gateway_start. destruct (if r then load_snapshot _ _ else _) as [have d].
  destruct (if r then plan_recovery _ _ _ else _) as [[pending resume]|]; [|done]. intros [= <-].
  eexists. split; [reflexivity|].
  destruct pending as [|c cs]; [by destruct have|]. rewrite !recover_wal. split; [|by destruct have].
  apply recover_proper. by destruct have.
Qed.

(** Every call of a start succeeds. *)
Definition startup_ok (io : Startup) : bool :=
  pipe_valid (open_pipe (st_wake io)) && pipe_valid (open_pipe (st_egress io)) && st_log_opens io &&
  (start (st_calls io) listener0).1.

(** A start with a log, a snapshot and [--recover] is recovery from the files. *)
Lemma gateway_up_start files args io fs o :
  parse_args files args options0 = ArgsOk o -> opt_wal o <> [] -> opt_snapshot o <> [] -> opt_recover o = true ->
  startup_ok io = true ->
  gateway_up files args io fs =
    match gateway_start (opt_risk o) (opt_wal_config o) (st_now io) (opt_snapshot_every o) true fs with
    | None => inl ExitSequenceGap
    | Some m => inr (m, (start (st_calls io) listener0).2)
    end.
Proof.
  intros Ha Hw Hs Hr [[[H1 H2]%andb_true_iff H3]%andb_true_iff H4]%andb_true_iff. unfold gateway_up.
  rewrite Ha, H1, H2, gateway_boot_start, Hr by done. cbn [negb]. destruct (gateway_start _ _ _ _ _ _); [|done].
  rewrite H3, andb_false_r. destruct (start _ _) as [ok l]. cbn in H4. by subst.
Qed.

Lemma nothing_cut (ps pre post : list (Env * OrderCommand)) :
  ps = pre ++ post -> (length (logged ps) <= length (logged pre))%nat -> logged pre = logged ps.
Proof.
  intros -> H. rewrite logged_app, length_app in *. destruct (logged post); [by rewrite app_nil_r|]. cbn in H. lia.
Qed.

(** The files of a run that came to rest give its whole state back. *)
Lemma restart_whole risk cfg now every_n now' bs w :
  let m0 := matching_thread0 risk (Some (wal_open [] now 0 cfg)) true every_n in
  let m := drains m0 bs in
  file_ops_ok bs -> writes_ok (commands bs) -> Forall (fun p => command_ok p.2) (commands bs) ->
  1 + Z.of_nat (length (commands bs)) + every_n < 2 ^ 64 -> 0 <= every_n -> ids_fresh m0 (commands bs) = true ->
  wal_ m = Some w ->
  exists m', gateway_start risk cfg now' every_n true (mkFiles (snap_file m) (snap_prev m) (Some (w_file w))) = Some m' /\
    core_sim (core_ m') (core_ m) /\ w_seq <$> wal_ m' = Some (w_seq w).
Proof.
  intros m0 m Ht Hwr Hok Hn He Hids Hw. set (ps := commands bs) in *.
  destruct (drains_durable risk cfg now every_n bs Ht Hwr Hok Hn He) as (j & L & Hd). fold ps m0 m in Hd.
  destruct (recoverable_restarts risk cfg now every_n ps Hwr Hok ltac:(lia) Hids m w (snap_file m) (length (w_file w))
    (durable_recoverable _ _ _ _ _ _ _ _ Hd) Hw (le_n _) (or_introl eq_refl))
    as (m1 & w1 & pre & post & Hst & Hps & Hsim & Hw1 & Hseq & Hlen).
  rewrite Nat.sub_diag in Hlen. change ((0 + 46) / 47)%nat with 0%nat in Hlen. rewrite Nat.sub_0_r in Hlen.
  pose proof (nothing_cut ps pre post Hps Hlen) as Hlog. rewrite firstn_all in Hst.
  destruct (start_clock _ _ _ now' _ _ _ _ Hst) as (m' & Hst' & [Hsame _] & Hseq').
  destruct (durable_shows risk cfg now every_n ps Hwr Hn He j L m w Hd Hw) as [Hws _].
  exists m'. split_and!; [done| |].
  - rewrite Hsame, (proj1 (du_same _ _ _ _ _ _ _ _ Hd)), <- Hlog. fold m0 in Hsim |- *.
    assert (writes_ok pre /\ (length pre <= length ps)%nat) as [Hpre Hl].
    { rewrite Hps in Hwr |- *. apply Forall_app in Hwr as [? _]. split; [done|]. rewrite length_app. lia. }
    destruct (run_live pre m0 1 [] (live_fresh _ _ _ _ _) Hpre) as [_ [<- _]]; [unfold numbered; cbn [length]; lia|]. exact Hsim.
  - rewrite Hseq', Hw1. cbn. by rewrite Hseq, Hlog, Hws.
Qed.

(** C4: [stop_loses_nothing]. A gateway that is stopped (SIGINT or SIGTERM) and
    started again on its files carries on. Started with a log, a snapshot and
    [--recover] on no files, let its matching thread process batches of
    commands, with snapshots and truncations in between, then the final sweep of
    what is still queued, and exit. Provided that every write to the log
    succeeded, every snapshot found was moved aside and every truncation went
    through (snapshots may have failed to be written), that the fields of the
    commands fit their widths, that there are fewer than 2^64 of them (the
    snapshot interval added), and that no new order reuses a client id under which its session still has an order
    resting: the log is closed with every byte handed to [fdatasync] (whose
    result the code discards), and a second start with the same command line, at
    any later time, goes on to serve with the very state the first had (up to
    timestamps) and the log's numbering resumed. *)
Theorem stop_loses_nothing (files : text -> option text) (args : list text) (o : GatewayOptions) (io1 io2 : Startup)
    (bs : list Batch) (last : Batch) :
  parse_args files args options0 = ArgsOk o -> opt_wal o <> [] -> opt_snapshot o <> [] -> opt_recover o = true ->
  startup_ok io1 = true -> startup_ok io2 = true ->
  let ps := commands (bs ++ [last]) in
  file_ops_ok (bs ++ [last]) -> writes_ok ps -> Forall (fun p => command_ok p.2) ps ->
  sync_every_n (opt_wal_config o) < 2 ^ 64 -> 0 <= opt_snapshot_every o ->
  1 + Z.of_nat (length ps) + opt_snapshot_every o < 2 ^ 64 ->
  exists m0 l, gateway_up files args io1 (mkFiles None None None) = inr (m0, l) /\
  (ids_fresh m0 ps = true ->
   let m := gateway_down last (drains m0 bs) in
   exists w m' l', wal_ m = Some w /\ w_open w = false /\ w_synced w = length (w_file w) /\
     gateway_up files args io2 (files_left m) = inr (m', l') /\ running_ l' = true /\
     core_sim (core_ m') (core_ m) /\ w_seq <$> wal_ m' = Some (w_seq w)).
Proof.
  intros Ha Hw Hs Hr Hio1 Hio2 ps Ht Hwr Hok Hsync He Hn.
  set (risk := opt_risk o). set (cfg := opt_wal_config o). set (every_n := opt_snapshot_every o). set (now := st_now io1).
  set (m0 := matching_thread0 risk (Some (wal_open [] now 0 cfg)) true every_n).
  exists m0, (start (st_calls io1) listener0).2. split.
  { rewrite (gateway_up_start files args io1 _ o) by done. reflexivity. }
  intros Hids m. assert (drains m0 (bs ++ [last]) = (drain (b_commands last) (b_now last) (b_io last) (drains m0 bs)).2) as Ed.
  { unfold drains. by rewrite foldl_app. }
  destruct (drains_counted risk cfg now every_n (bs ++ [last]) Hsync Ht Hwr Hok Hn He) as (w & Hwal & Ho & Hg & _).
  destruct (close_synced w Ho Hg) as (Hcl & Hsy & Hfile & Hseq).
  destruct (restart_whole risk cfg now every_n (st_now io2) (bs ++ [last]) w Ht Hwr Hok Hn He Hids Hwal) as (m' & Hst & Hsim & Hsq).
  fold m0 in Hwal, Hst, Hsim. rewrite Ed in Hwal, Hst, Hsim.
  assert (wal_ m = Some (wal_close w)) as Hwm by (unfold m, gateway_down; cbn [wal_ MatchingThread.set_wal]; by rewrite Hwal).
  exists (wal_close w), m', (start (st_calls io2) listener0).2. split_and!; try done.
  - rewrite (gateway_up_start files args io2 _ o) by done. unfold files_left. rewrite Hwm. cbn [fmap option_fmap option_map].
    rewrite Hfile. fold risk cfg every_n. change (snap_file m) with (snap_file (drain (b_commands last) (b_now last) (b_io last) (drains m0 bs)).2).
    change (snap_prev m) with (snap_prev (drain (b_commands last) (b_now last) (b_io last) (drains m0 bs)).2). by rewrite Hst.
  - apply andb_true_iff in Hio2 as [_ Hstart]. destruct (start (st_calls io2) listener0) as [ok l'] eqn:E. cbn in Hstart. subst ok.
    by destruct (start_spec _ _ _ _ E eq_refl) as (_ & _ & [? _]).
  - by rewrite Hseq.
Qed.

(** ** A life *)

Definition sample_line : list text :=
  [lit "--wal"; lit "w"; lit "--snapshot"; lit "s"; lit "--snapshot-every"; lit "2"; lit "--recover"].

Definition sample_options : GatewayOptions :=
  set_recover (set_snapshot_every 2 (set_snapshot (lit "s") (GatewayArgs.set_wal (lit "w") options0))).

Definition sample_io (now : Z) : Startup :=
  mkStartup (Some (3, 4)) (Some (5, 6)) true (mkStartCalls 7 0 0 (Some 9001) 0 2 0) now.

Definition sweep : Batch := mkBatch [at_ 7 (cancel 1 1); at_ 8 (sell 2 2 101 5)] 9 snap_ok.

Notation sample_m0 := (matching_thread0 risk_config0 (Some (wal_open [] 0 0 wal_config0)) true 2).

Lemma sample_first :
  gateway_up (fun _ => None) sample_line (sample_io 0) (mkFiles None None None) =
    inr (sample_m0, (start (st_calls (sample_io 0)) listener0).2).
Proof. vm_compute. reflexivity. Qed.

Lemma sample_ids : ids_fresh sample_m0 (commands (sample_batches ++ [sweep])) = true.
Proof. vm_compute. reflexivity. Qed.

Lemma sample_parsed : parse_args (fun _ => None) sample_line options0 = ArgsOk sample_options.
Proof. vm_compute. reflexivity. Qed.

Lemma sample_commands : Forall (fun p => command_ok p.2) (commands (sample_batches ++ [sweep])).
Proof. unfold commands. cbn [mbind list_bind app sample_batches sweep b_commands]. repeat constructor; vm_compute; done. Qed.

Lemma stop_loses_nothing_witness :
  exists w m' l', w_synced w = length (w_file w) /\
    gateway_up (fun _ => None) sample_line (sample_io 100) (files_left (gateway_down sweep (drains sample_m0 sample_batches))) = inr (m', l') /\
    core_sim (core_ m') (core_ (gateway_down sweep (drains sample_m0 sample_batches))).
Proof.
  assert (1 + Z.of_nat (length (commands (sample_batches ++ [sweep]))) + opt_snapshot_every sample_options < 2 ^ 64) as Hn
    by (vm_compute; reflexivity).
  destruct (stop_loses_nothing (fun _ => None) sample_line sample_options (sample_io 0) (sample_io 100) sample_batches sweep
    sample_parsed ltac:(discriminate) ltac:(discriminate) eq_refl eq_refl eq_refl ltac:(repeat constructor) ltac:(repeat constructor)
    sample_commands eq_refl ltac:(discriminate) Hn) as (m0 & l & E & H).
  rewrite sample_first in E. assert (sample_m0 = m0) as Em by congruence. subst m0.
  destruct (H sample_ids) as (w & m' & l' & _ & _ & Hs & Hu & _ & Hc & _).
  exists w, m', l'. split; [exact Hs|]. split; [exact Hu|exact Hc].
Defined.
