(* ===== verification/WalVerify.v ===== *)
(** The independent log verifier (tools/wal_verify.cpp): a second book with its
    own matching, replaying a log and printing a digest to compare with the
    engine's. A [std::map] of price levels is the list of its entries in
    iteration order (best price first); maps whose order is never observed are
    [gmap]s, and [owners_] is walked in ascending order of its keys. *)
From stdpp Require Import base numbers gmap list sorting.
From Stdlib Require Import ZArith Lia.
From S2P Require Import Prelude Types OrderBook BookFacts Bytes Protocol Commands Wal Snapshot.
From S2P Require Import RiskConfig.

Module verify.

Record VOrder := mkV { v_id : Z; v_session : Z; v_client_order_id : Z; v_quantity : Z }.

Definition v_set_quantity (o : VOrder) (q : Z) : VOrder :=
  mkV (v_id o) (v_session o) (v_client_order_id o) q.

(** Price levels, best first. *)
Definition VSide : Type := list (Z * list VOrder).

Record SimpleBook := mkSimple {
  bids : VSide;
  asks : VSide;
  loc_ : gmap Z (Z * bool);
  owners_ : gmap Z Z;
  client_ids_ : gmap Z Z;
  last_trade_ : Z;
}.

Definition simple_book0 : SimpleBook := mkSimple [] [] ∅ ∅ ∅ 0.

Definition vside (s : Side) (b : SimpleBook) : VSide :=
  match s with BID => bids b | ASK => asks b end.
Definition with_side (s : Side) (vs : VSide) (b : SimpleBook) : SimpleBook :=
  match s with
  | BID => mkSimple vs (asks b) (loc_ b) (owners_ b) (client_ids_ b) (last_trade_ b)
  | ASK => mkSimple (bids b) vs (loc_ b) (owners_ b) (client_ids_ b) (last_trade_ b)
  end.
Definition with_vloc (m : gmap Z (Z * bool)) (b : SimpleBook) : SimpleBook :=
  mkSimple (bids b) (asks b) m (owners_ b) (client_ids_ b) (last_trade_ b).

Definition is_bid_side (s : Side) : bool := match s with BID => true | ASK => false end.
Definition side_of_bool (is_bid : bool) : Side := if is_bid then BID else ASK.

(** ** The book *)

(** [m[px].push_back(o)], the comparator being the side's. *)
Fixpoint push_back (s : Side) (px : Z) (o : VOrder) (vs : VSide) : VSide :=
  match vs with
  | [] => [(px, [o])]
  | (p, dq) :: vs' =>
      if p =? px then (p, dq ++ [o]) :: vs'
      else if beforeb s px p then (px, [o]) :: vs
      else (p, dq) :: push_back s px o vs'
  end.

Definition add (px : Z) (is_bid : bool) (o : VOrder) (b : SimpleBook) : SimpleBook :=
  let s := side_of_bool is_bid in
  let b := with_side s (push_back s px o (vside s b)) b in
  with_vloc (<[v_id o := (px, is_bid)]> (loc_ b)) b.

(** The scan of one level's deque. *)
Fixpoint remove_from (id : Z) (dq : list VOrder) : option (list VOrder) :=
  match dq with
  | [] => None
  | o :: dq => if v_id o =? id then Some dq else cons o <$> remove_from id dq
  end.

(** [erase_from]: [None] where it returns false. *)
Fixpoint verase_from (px id : Z) (vs : VSide) : option VSide :=
  match vs with
  | [] => None
  | (p, dq) :: vs =>
      if p =? px then
        match remove_from id dq with
        | None => None
        | Some [] => Some vs
        | Some dq => Some ((p, dq) :: vs)
        end
      else cons (p, dq) <$> verase_from px id vs
  end.

Definition vcancel (id : Z) (b : SimpleBook) : bool * SimpleBook :=
  match loc_ b !! id with
  | None => (false, b)
  | Some (px, is_bid) =>
      let s := side_of_bool is_bid in
      match verase_from px id (vside s b) with
      | None => (false, b)
      | Some vs => (true, with_vloc (delete id (loc_ b)) (with_side s vs b))
      end
  end.

(** The front order gives up [qty]; at zero it is popped and an emptied level
    erased. Also the id of an order that left. *)
Definition take_front (qty : Z) (vs : VSide) : VSide * option Z :=
  match vs with
  | (p, o :: dq) :: vs' =>
      let q := u32 (v_quantity o - qty) in
      if q =? 0 then (match dq with [] => vs' | _ => (p, dq) :: vs' end, Some (v_id o))
      else ((p, v_set_quantity o q :: dq) :: vs', None)
  | _ => (vs, None)
  end.

Definition vloc_erase (gone : option Z) (m : gmap Z (Z * bool)) : gmap Z (Z * bool) :=
  match gone with Some id => delete id m | None => m end.

(** One turn of the loop of [cross], [None] where it is left. *)
Definition cross_step (b : SimpleBook) : option SimpleBook :=
  match bids b, asks b with
  | (bp, bo :: _) :: _, (ap, ao :: _) :: _ =>
      if bp <? ap then None else
      let qty := Z.min (v_quantity bo) (v_quantity ao) in
      let '(bs, bid_gone) := take_front qty (bids b) in
      let '(as_, ask_gone) := take_front qty (asks b) in
      Some (mkSimple bs as_ (vloc_erase ask_gone (vloc_erase bid_gone (loc_ b)))
              (owners_ b) (client_ids_ b) ap)
  | _, _ => None
  end.

Fixpoint cross (fuel : nat) (b : SimpleBook) : SimpleBook :=
  match fuel with
  | O => b
  | S fuel => match cross_step b with Some b => cross fuel b | None => b end
  end.

(** Every turn of [cross] and of the market loop removes an order or ends the
    loop: one more turn than there are orders is enough. *)
Definition vorders (vs : VSide) : list VOrder := vs ≫= snd.
Definition resting_orders (b : SimpleBook) : nat := length (vorders (bids b) ++ vorders (asks b)).

Definition is_bid (id : Z) (b : SimpleBook) : option bool := snd <$> loc_ b !! id.

Definition set_owner (id s : Z) (b : SimpleBook) : SimpleBook :=
  mkSimple (bids b) (asks b) (loc_ b) (<[id := s]> (owners_ b)) (client_ids_ b) (last_trade_ b).
Definition set_client_id (id coid : Z) (b : SimpleBook) : SimpleBook :=
  mkSimple (bids b) (asks b) (loc_ b) (owners_ b) (<[id := coid]> (client_ids_ b)) (last_trade_ b).
Definition set_last_trade (p : Z) (b : SimpleBook) : SimpleBook :=
  mkSimple (bids b) (asks b) (loc_ b) (owners_ b) (client_ids_ b) p.

Definition best_bid (b : SimpleBook) : option Z := fst <$> head (bids b).
Definition best_ask (b : SimpleBook) : option Z := fst <$> head (asks b).

(** The keys of [owners_] in ascending order. *)
Definition owner_ids (b : SimpleBook) : list Z := merge_sort Z.le (elements (dom (owners_ b))).

Definition names (s coid : Z) (b : SimpleBook) (id : Z) : bool :=
  bool_decide (owners_ b !! id = Some s) && bool_decide (client_ids_ b !! id = Some coid) &&
  bool_decide (is_Some (loc_ b !! id)).

Definition find_by_client (s coid : Z) (b : SimpleBook) : Z :=
  default 0 (head (filter (fun id => names s coid b id = true) (owner_ids b))).

(** ** The digest *)

Definition kFnvOffset : Z := 1469598103934665603.
Definition kFnvPrime : Z := 1099511628211.

Definition mix (h v : Z) : Z :=
  foldl (fun h i => u64 (Z.lxor h (Z.land (Z.shiftr v (8 * i)) 0xFF) * kFnvPrime))
    h [0; 1; 2; 3; 4; 5; 6; 7].

Definition level_total (dq : list VOrder) : Z := foldl (fun t o => u64 (t + v_quantity o)) 0 dq.

Definition mix_side (h : Z) (side : VSide) (tag : Z) : Z :=
  let h := mix h tag in
  let h := mix h (Z.of_nat (length side)) in
  foldl (fun h lvl =>
    let h := mix h (u64 lvl.1) in
    let h := mix h (level_total lvl.2) in
    mix h (Z.of_nat (length lvl.2))) h side.

Definition digest (b : SimpleBook) : Z := mix_side (mix_side kFnvOffset (bids b) 1) (asks b) 2.

(** ** Commands *)

Definition passes_risk (b : SimpleBook) (c : OrderCommand) (r : RiskConfig) : bool :=
  if (c_quantity c =? 0) || (max_order_qty r <? c_quantity c) then false else
  match c_order_type c with
  | protocol.Market => true
  | protocol.Limit =>
      if c_price_ticks c <=? 0 then false else
      if (1 <? tick_size r) && negb (Z.rem (c_price_ticks c) (tick_size r) =? 0) then false else
      if 0 <? price_band_bp r then
        let banded (ref : Z) :=
          let d := if ref <? c_price_ticks c then i64 (c_price_ticks c - ref)
                   else i64 (ref - c_price_ticks c) in
          negb (i64 (ref * price_band_bp r) <? i64 (d * 10000)) in
        if 0 <? last_trade_ b then banded (last_trade_ b) else
        match best_bid b, best_ask b with
        | Some bb, Some ba => banded (Z.quot (i64 (bb + ba)) 2)
        | _, _ => true
        end
      else true
  end.

(** The market loop over the passive side: after an order was popped, [cancel]
    is called with its id. *)
Fixpoint market_loop (fuel : nat) (passive : Side) (remaining : Z) (b : SimpleBook) : SimpleBook :=
  match fuel with
  | O => b
  | S fuel =>
      if 0 <? remaining then
        match vside passive b with
        | (p, o :: _) :: _ =>
            let take := Z.min remaining (v_quantity o) in
            let '(vs, gone) := take_front take (vside passive b) in
            let b := set_last_trade p (with_side passive vs b) in
            let b := match gone with Some rid => (vcancel rid b).2 | None => b end in
            market_loop fuel passive (u32 (remaining - take)) b
        | _ => b
        end
      else b
  end.

Definition apply_new (risk : RiskConfig) (c : OrderCommand) (st : SimpleBook * Z) : SimpleBook * Z :=
  let '(b, next_id) := st in
  if negb (passes_risk b c risk) then (b, next_id) else
  let id := next_id in
  let next_id := u64 (next_id + 1) in
  match c_order_type c with
  | protocol.Market =>
      let passive := match c_side c with protocol.Bid => ASK | protocol.Ask => BID end in
      (market_loop (S (length (vorders (vside passive b)))) passive (c_quantity c) b, next_id)
  | protocol.Limit =>
      let o := mkV id (c_session c) (c_client_order_id c) (c_quantity c) in
      let b := set_client_id id (c_client_order_id c) (set_owner id (c_session c) b) in
      let b := add (c_price_ticks c) (match c_side c with protocol.Bid => true | protocol.Ask => false end) o b in
      (cross (S (resting_orders b)) b, next_id)
  end.

(** The ids [CancelAllForSession] collects. *)
Definition ids_of_session (s : Z) (b : SimpleBook) : list Z :=
  v_id <$> filter (fun o => v_session o = s) (vorders (bids b) ++ vorders (asks b)).

Definition apply (risk : RiskConfig) (st : SimpleBook * Z) (c : OrderCommand) : SimpleBook * Z :=
  let '(b, next_id) := st in
  match c_type c with
  | CmdNewOrder => apply_new risk c st
  | CmdCancel =>
      let id := find_by_client (c_session c) (c_client_order_id c) b in
      if negb (id =? 0) then ((vcancel id b).2, next_id) else st
  | CmdModify =>
      let id := find_by_client (c_session c) (c_client_order_id c) b in
      if id =? 0 then st else
      match is_bid id b with
      | None => st
      | Some was_bid =>
          let rep := mkCommand CmdNewOrder (c_session c) (c_client_order_id c) (c_price_ticks c)
                       (c_quantity c) (if was_bid then protocol.Bid else protocol.Ask)
                       protocol.Limit (c_egress c) (c_md_queue c) in
          apply_new risk rep ((vcancel id b).2, next_id)
      end
  | CmdCancelAllForSession =>
      (foldl (fun b id => (vcancel id b).2) b (ids_of_session (c_session c) b), next_id)
  | CmdSessionOpened | CmdSubscribe => st
  end.

(** ** The program *)

Definition load_order (b : SimpleBook) (so : SnapshotOrder) : SimpleBook :=
  let o := mkV (so_exchange_id so) (so_session so) (so_client_order_id so) (so_quantity so) in
  let b := set_owner (so_exchange_id so) (so_session so) b in
  let b := set_client_id (so_exchange_id so) (so_client_order_id so) b in
  add (so_price_ticks so) (so_side so =? 0) o b.

(** Book, next id and [from_seq] after the snapshot step; [None]: no
    [--snapshot] given. *)
Definition load_start (snap : option (option (list Z))) : SimpleBook * Z * Z :=
  match snap with
  | None => (simple_book0, 1, 0)
  | Some file =>
      match read_snapshot file snapshot0 with
      | (None, d) =>
          (set_last_trade (sd_last_trade_ticks d) (foldl load_order simple_book0 (sd_orders d)),
           sd_next_exchange_id d, sd_last_seq d)
      | (Some _, _) => (simple_book0, 1, 0)
      end
  end.

(** The replay loop: only records past [from_seq] are applied, and counted. *)
Fixpoint replay_from (risk : RiskConfig) (from_seq seq : Z) (cs : list OrderCommand)
    (st : SimpleBook * Z) (applied : nat) : SimpleBook * Z * nat :=
  match cs with
  | [] => (st, applied)
  | c :: cs =>
      let '(st, applied) := if from_seq <? seq then (apply risk st c, S applied) else (st, applied) in
      replay_from risk from_seq (u64 (seq + 1)) cs st applied
  end.

Inductive Outcome :=
  (** no readable log *)
  | CannotRead
  | SequenceGap (after : Z)
  (** exit code 4 *)
  | Insane
  | Verified (applied : nat) (digest : Z).

Definition level_sane (lvl : Z * list VOrder) : bool :=
  match lvl.2 with [] => false | _ => true end &&
  forallb (fun o => negb (v_quantity o =? 0)) lvl.2.

Definition sane (b : SimpleBook) : bool :=
  match best_bid b, best_ask b with
  | Some bb, Some ba => bb <? ba
  | _, _ => true
  end && forallb level_sane (bids b) && forallb level_sane (asks b).

(** [main] with its arguments parsed and the risk file loaded. *)
Definition wal_verify (risk : RiskConfig) (snap : option (option (list Z))) (wal : option (list Z)) : Outcome :=
  let '(b, next_id, from_seq) := load_start snap in
  let rd := read_wal wal in
  if wr_error rd then CannotRead else
  if wr_sequence_gap rd then SequenceGap (wr_gap_after rd) else
  let '(b, _, applied) := replay_from risk from_seq (wr_first_seq rd) (wr_commands rd) (b, next_id) 0 in
  if negb (sane b) then Insane else Verified applied (digest b).

End verify.
