(* ===== verification/VerifyBook.v ===== *)
(** The verifier's book against the engine's: each operation of the one is the
    operation of the other on the levels it stands for. *)
From stdpp Require Import base numbers gmap list sorting.
From Stdlib Require Import ZArith Lia.
From S2P Require Import Prelude Types OrderBook BookFacts Engine Bytes Protocol Commands Wal.
From S2P Require Import Snapshot RiskConfig MatchingThread Recovery Ownership CoreInv RestoreProps.
From S2P Require Import Timeless WalVerify.
Import verify.

#[local] Arguments level_total : simpl never.

(** ** Levels *)

Definition to_order (s : Side) (p : Z) (o : VOrder) : Order := mkOrder (v_id o) p (v_quantity o) s LIMIT 0.
Definition to_level (s : Side) (lvl : Z * list VOrder) : PriceLevel :=
  mkLevel lvl.1 (level_total lvl.2) (to_order s lvl.1 <$> lvl.2).
Definition to_levels (s : Side) (vs : VSide) : list PriceLevel := to_level s <$> vs.

Lemma level_total_sum s p dq : level_total dq = sum_quantity (to_order s p <$> dq).
Proof.
  unfold level_total, sum_quantity. generalize 0.
  induction dq as [|o dq IH]; intros t; [done|]. cbn. apply IH.
Qed.

Lemma level_total_qsum s p dq : level_total dq = u64 (qsum (to_order s p <$> dq)).
Proof. by rewrite (level_total_sum s p), sum_quantity_eq. Qed.

Lemma to_levels_app s vs ws : to_levels s (vs ++ ws) = to_levels s vs ++ to_levels s ws.
Proof. apply fmap_app. Qed.

Lemma to_levels_app_inv s vs pre suf :
  to_levels s vs = pre ++ suf ->
  exists vpre vsuf, vs = vpre ++ vsuf /\ pre = to_levels s vpre /\ suf = to_levels s vsuf.
Proof. intros H. apply fmap_app_inv in H as (vpre & vsuf & -> & -> & ->). by exists vpre, vsuf. Qed.

(** A price that stands behind all of [vs] is passed over. *)
Lemma push_back_skip s px o vpre vs :
  Forall (fun l => before s (lvl_price_ticks l) px) (to_levels s vpre) ->
  push_back s px o (vpre ++ vs) = vpre ++ push_back s px o vs.
Proof.
  induction vpre as [|[p dq] vpre IH]; [done|]. cbn. intros [Hb Hr]%Forall_cons. cbn in Hb.
  destruct (Z.eqb_spec p px) as [->|_]; [by apply before_irrefl in Hb|].
  rewrite beforeb_false; [by rewrite IH|]. intros Hb'. by apply (before_irrefl s p), (before_trans s p px).
Qed.

Lemma push_back_levels s px o vs :
  side_wf s (to_levels s vs) -> is_u32 (v_quantity o) ->
  to_levels s (push_back s px o vs) = add_to_side s (to_order s px o) (to_levels s vs).
Proof.
  intros Hw Ho. destruct (find_level_view s px _ Hw) as [pre pl suf E Hf Hp Hpre Hsuf|pre suf E Hf Hpre Hsuf].
  - pose proof E as (vpre & vsuf & -> & -> & Es)%to_levels_app_inv.
    destruct vsuf as [|[p dq] vsuf]; [done|]. injection Es as -> ->.
    rewrite to_levels_app in *. cbn in Hp. subst p. rewrite push_back_skip by done.
    cbn [push_back]. rewrite Z.eqb_refl, to_levels_app.
    change (to_levels s ((px, dq) :: vsuf)) with (to_level s (px, dq) :: to_levels s vsuf) in *.
    rewrite add_to_side_found by done. cbn. f_equal. f_equal. unfold to_level. cbn.
    rewrite fmap_app. f_equal. unfold level_total. by rewrite foldl_app.
  - pose proof E as (vpre & vsuf & -> & -> & ->)%to_levels_app_inv. rewrite to_levels_app in *.
    rewrite push_back_skip, add_to_side_missing, to_levels_app by done. f_equal.
    destruct vsuf as [|[p dq] vsuf]; cbn.
    + unfold to_level, level_total. cbn. rewrite u64_id; [done|]. widths. lia.
    + apply Forall_cons in Hsuf as [Hb _]. cbn in Hb.
      destruct (Z.eqb_spec p px) as [->|_]; [by apply before_irrefl in Hb|].
      rewrite beforeb_true by done. cbn. unfold to_level at 1. unfold level_total at 1. cbn.
      rewrite u64_id; [done|]. widths. lia.
Qed.

Lemma remove_from_orders s p id dq :
  match remove_from id dq with
  | Some dq' => exists o, remove_id id (to_order s p <$> dq) = Some (o, to_order s p <$> dq')
  | None => remove_id id (to_order s p <$> dq) = None
  end.
Proof.
  induction dq as [|o dq IH]; [done|]. cbn. destruct (v_id o =? id); [by eexists|].
  destruct (remove_from id dq) as [dq'|]; cbn.
  - destruct IH as [x ->]. by eexists.
  - by rewrite IH.
Qed.

Lemma removed_total s p id dq o dq' :
  remove_id id (to_order s p <$> dq) = Some (o, to_order s p <$> dq') ->
  u64 (level_total dq - o_quantity o) = level_total dq'.
Proof.
  intros (l1 & l2 & H1 & H2 & _)%remove_id_some. rewrite !(level_total_qsum s p), H1, H2.
  rewrite !qsum_app, qsum_cons. unfold u64. rewrite Zminus_mod_idemp_l. f_equal. lia.
Qed.

Lemma verase_skip s px id vpre vs :
  Forall (fun l => before s (lvl_price_ticks l) px) (to_levels s vpre) ->
  verase_from px id (vpre ++ vs) = app vpre <$> verase_from px id vs.
Proof.
  induction vpre as [|[p dq] vpre IH]; [cbn; by destruct (verase_from px id vs)|]. cbn. intros [Hb Hr]%Forall_cons. cbn in Hb.
  destruct (Z.eqb_spec p px) as [->|_]; [by apply before_irrefl in Hb|].
  rewrite IH by done. by destruct (verase_from px id vs).
Qed.

Lemma verase_levels s px id vs :
  side_wf s (to_levels s vs) ->
  erase_from s px id (to_levels s vs) = to_levels s <$> verase_from px id vs.
Proof.
  intros Hw. unfold erase_from.
  destruct (find_level_view s px _ Hw) as [pre pl suf E Hf Hp Hpre Hsuf|pre suf E Hf Hpre Hsuf]; rewrite Hf.
  - pose proof E as (vpre & vsuf & -> & -> & Es)%to_levels_app_inv.
    destruct vsuf as [|[p dq] vsuf]; [done|]. injection Es as -> ->. cbn in Hp. subst p.
    rewrite to_levels_app. cbn [to_levels fmap list_fmap]. rewrite lookup_mid, (verase_skip s) by done.
    cbn. rewrite Z.eqb_refl. pose proof (remove_from_orders s px id dq) as Hr.
    destruct (remove_from id dq) as [dq'|]; [destruct Hr as [o Hr]|]; rewrite Hr; [|done].
    destruct dq' as [|x dq']; cbn.
    + by rewrite delete_mid, to_levels_app.
    + rewrite insert_mid, to_levels_app. f_equal. cbn. f_equal. unfold to_level. cbn. f_equal. f_equal.
      by apply (removed_total s px id dq o (x :: dq')).
  - pose proof E as (vpre & vsuf & -> & -> & ->)%to_levels_app_inv.
    rewrite (verase_skip s) by done. rewrite E.
    assert (verase_from px id vsuf = None) as ->.
    { clear -Hsuf. induction vsuf as [|[p dq] vsuf IH]; [done|]. apply Forall_cons in Hsuf as [Hb Hr]. cbn in *.
      destruct (Z.eqb_spec p px) as [->|_]; [by apply before_irrefl in Hb|]. by rewrite IH. }
    destruct (_ !! _) as [pl|] eqn:Hl; [|done]. by rewrite (missing_lookup _ _ _ _ _ Hsuf Hl).
Qed.

Lemma take_front_levels s qty p o dq vs :
  is_u32 (v_quantity o) -> 0 <= qty <= v_quantity o ->
  fill_front qty (to_levels s ((p, o :: dq) :: vs)) =
  (to_levels s (take_front qty ((p, o :: dq) :: vs)).1, (take_front qty ((p, o :: dq) :: vs)).2).
Proof.
  intros Ho Hq. cbn [to_levels fmap list_fmap fill_front to_level orders take_front fst snd].
  cbn [to_order o_quantity o_id]. rewrite u32_id by (widths; lia).
  assert (forall dq', qsum (to_order s p <$> dq') = qsum (to_order s p <$> o :: dq) - qty ->
    u64 (level_total (o :: dq) - qty) = level_total dq') as Ht.
  { intros dq' H. rewrite !(level_total_qsum s p), H. unfold u64. by rewrite Zminus_mod_idemp_l. }
  destruct (Z.eqb_spec (v_quantity o - qty) 0) as [Hz|Hz].
  - destruct dq as [|x dq]; [done|]. cbn. do 2 f_equal. unfold to_level. cbn. f_equal.
    apply Ht. rewrite (fmap_cons _ o), qsum_cons. cbn [to_order o_quantity]. lia.
  - cbn. do 2 f_equal. unfold to_level. cbn. f_equal. apply Ht.
    rewrite !fmap_cons, !qsum_cons. cbn [to_order v_set_quantity v_quantity o_quantity]. lia.
Qed.

(** A well-formed side has an order at its front, and it stands for one. *)
Lemma vside_front s vs :
  side_wf s (to_levels s vs) ->
  match vs with
  | [] => True
  | (p, dq) :: _ => exists o dq', dq = o :: dq' /\ is_u32 (v_quantity o) /\
      front_order (to_levels s vs) = Some (to_order s p o)
  end.
Proof.
  intros Hw. destruct vs as [|[p dq] vs]; [done|]. apply side_wf_cons_inv in Hw as ((Hne & _ & Hr) & _).
  destruct dq as [|o dq]; [done|]. exists o, dq. cbn in Hr. apply Forall_cons in Hr as [(_ & _ & _ & Hu) _]. done.
Qed.

(** ** Books *)

(** The verifier's book [v] stands for [b]. It may know places of orders that
    are long gone. *)
Record stands_for (v : SimpleBook) (b : OrderBook) : Prop := {
  sf_side s : levels s b = to_levels s (vside s v);
  sf_loc id s p : order_loc_ b !! id = Some (s, p) -> loc_ v !! id = Some (p, is_bid_side s);
}.

(** What matching leaves alone. *)
Definition vmeta (v : SimpleBook) : gmap Z Z * gmap Z Z := (owners_ v, client_ids_ v).

Lemma side_of_is_bid s : side_of_bool (is_bid_side s) = s.
Proof. by destruct s. Qed.
Lemma vside_with_side s s' vs v :
  vside s' (with_side s vs v) = if decide (s' = s) then vs else vside s' v.
Proof. by destruct s, s'. Qed.
Lemma levels_with_side s s' ls b :
  levels s' (with_levels s ls b) = if decide (s' = s) then ls else levels s' b.
Proof. by destruct s, s'. Qed.

(** Replacing one side on both. *)
Lemma stands_for_side v b s vs ls vm m :
  stands_for v b -> ls = to_levels s vs ->
  (forall id s p, m !! id = Some (s, p) -> vm !! id = Some (p, is_bid_side s)) ->
  stands_for (with_vloc vm (with_side s vs v)) (with_loc m (with_levels s ls b)).
Proof.
  intros [Hs _] Hls Hl. split; [|done]. intros s'. rewrite levels_with_loc, levels_with_side.
  change (vside s' (with_vloc vm (with_side s vs v))) with (vside s' (with_side s vs v)).
  rewrite vside_with_side. by destruct (decide (s' = s)) as [->|].
Qed.

Lemma add_stands_for v b s px o :
  book_wf b -> stands_for v b -> is_u32 (v_quantity o) ->
  stands_for (add px (is_bid_side s) o v) (addOrder (to_order s px o) b).
Proof.
  intros Hw Hv Ho. unfold add, addOrder. cbn [to_order o_type o_side o_id o_price_ticks].
  rewrite side_of_is_bid. pose proof (book_wf_side b s Hw) as Hsw. rewrite (sf_side _ _ Hv) in *.
  apply (stands_for_side v b); [done|by rewrite push_back_levels|].
  intros id s' p. destruct (decide (id = v_id o)) as [->|Hne].
  - rewrite !lookup_insert_eq. by intros [= -> ->].
  - rewrite !lookup_insert_ne by done. destruct s; apply (sf_loc _ _ Hv).
Qed.

Lemma vcancel_stands_for v b id :
  book_wf b -> stands_for v b -> is_Some (order_loc_ b !! id) ->
  (vcancel id v).1 = true /\ stands_for (vcancel id v).2 (cancelOrder id b).2.
Proof.
  intros Hw Hv [[s p] Hl]. pose proof (book_wf_side b s Hw) as Hsw.
  destruct (cancelOrder_hit b id s p Hw Hl) as (b' & _ & _ & _ & Hc & _).
  unfold vcancel. rewrite (sf_loc _ _ Hv _ _ _ Hl), side_of_is_bid.
  unfold cancelOrder in *. rewrite Hl in *. rewrite (sf_side _ _ Hv) in *.
  rewrite verase_levels in * by done. destruct (verase_from p id (vside s v)) as [vs|]; [|done]. cbn in *.
  split; [done|]. apply (stands_for_side v b); [done|done|].
  intros i s' p' [Hi Hi']%lookup_delete_Some. rewrite lookup_delete_ne by done. by apply (sf_loc _ _ Hv).
Qed.

(** Cancelling an order that is not in the book changes nothing. *)
Lemma vcancel_absent v b id :
  book_wf b -> stands_for v b -> order_loc_ b !! id = None -> vcancel id v = (false, v).
Proof.
  intros Hw Hv Hl. unfold vcancel. destruct (loc_ v !! id) as [[px ib]|]; [|done]. cbv zeta.
  set (s := side_of_bool ib). pose proof (book_wf_side b s Hw) as Hsw. rewrite (sf_side _ _ Hv) in Hsw.
  destruct (verase_from px id (vside s v)) as [vs|] eqn:E; [|done].
  pose proof (verase_levels s px id (vside s v) Hsw) as He. rewrite E in He. cbn in He.
  apply erase_from_some in He as (_ & l1 & o & l2 & Hf & _ & Hid); [|done].
  rewrite <- (sf_side _ _ Hv) in Hf.
  exfalso. apply (loc_none_absent s b id Hw Hl). unfold queue. rewrite Hf, <- Hid.
  apply list_elem_of_fmap_2, elem_of_app. right. by left.
Qed.

(** ** Crossing *)

(** Taking from the front of one side. *)
Lemma fill_stands_for v b s p o dq vs qty :
  book_wf b -> stands_for v b -> vside s v = (p, o :: dq) :: vs -> is_u32 (v_quantity o) ->
  0 <= qty <= v_quantity o ->
  let r := take_front qty (vside s v) in
  let b' := with_loc (loc_erase (fill_front qty (levels s b)).2 (order_loc_ b))
              (with_levels s (fill_front qty (levels s b)).1 b) in
  fill_front qty (levels s b) = (to_levels s r.1, r.2) /\ book_wf b' /\
  stands_for (with_vloc (vloc_erase r.2 (loc_ v)) (with_side s r.1 v)) b' /\
  stands_for (with_side s r.1 v) b'.
Proof.
  intros Hw Hv Hs Ho Hq r b'. pose proof (sf_side _ _ Hv s) as Hl. rewrite Hs in Hl.
  assert (fill_front qty (levels s b) = (to_levels s r.1, r.2)) as Hf.
  { unfold r. by rewrite Hs, Hl, take_front_levels. }
  assert (front_order (levels s b) = Some (to_order s p o)) as Hfr by by rewrite Hl.
  pose proof (fill_side_wf s b qty _ Hw Hfr Hq) as Hw'.
  split; [done|]. split; [done|]. unfold b'. rewrite Hf. cbn [fst snd].
  assert (forall id s p, loc_erase r.2 (order_loc_ b) !! id = Some (s, p) -> loc_ v !! id = Some (p, is_bid_side s)) as H1.
  { intros id s' p' Hi. apply (sf_loc _ _ Hv). destruct r.2; [|done]. cbn in Hi.
    by apply lookup_delete_Some in Hi as [_ ?]. }
  split.
  - apply (stands_for_side v b); [done|done|]. intros id s' p' Hi. specialize (H1 _ _ _ Hi).
    destruct r.2 as [i|]; [|done]. cbn in *. apply lookup_delete_Some in Hi as [? _]. by rewrite lookup_delete_ne.
  - replace (with_side s r.1 v) with (with_vloc (loc_ v) (with_side s r.1 v)) by by destruct s, v.
    by apply (stands_for_side v b).
Qed.

Lemma cross_step_stands_for v b :
  book_wf b -> stands_for v b ->
  match execute_top_cross b with
  | Some (t, b') => exists v', cross_step v = Some v' /\ book_wf b' /\ stands_for v' b' /\
      last_trade_ v' = t_price_ticks t /\ vmeta v' = vmeta v
  | None => cross_step v = None
  end.
Proof.
  intros Hw Hv.
  pose proof (sf_side _ _ Hv BID) as Hb. pose proof (sf_side _ _ Hv ASK) as Ha. cbn [levels vside] in Hb, Ha.
  pose proof (book_wf_side b BID Hw) as Hbw. pose proof (book_wf_side b ASK Hw) as Haw. cbn [levels] in Hbw, Haw.
  rewrite Hb in Hbw. rewrite Ha in Haw. pose proof (vside_front _ _ Hbw) as Hfb. pose proof (vside_front _ _ Haw) as Hfa.
  unfold cross_step, execute_top_cross.
  destruct (bids v) as [|[bp bdq] bs] eqn:Eb; [unfold is_crossed; by rewrite Hb|].
  destruct Hfb as (bo & bdq' & -> & Hbu & Hfb).
  destruct (asks v) as [|[ap adq] as_] eqn:Ea; [unfold is_crossed; by rewrite Hb, Ha|].
  destruct Hfa as (ao & adq' & -> & Hau & Hfa). rewrite <- Hb in Hfb. rewrite <- Ha in Hfa.
  assert (is_crossed b = (ap <=? bp)) as -> by (unfold is_crossed; by rewrite Hb, Ha).
  destruct (Z.ltb_spec bp ap) as [Hlt|Hle]; [by rewrite (proj2 (Z.leb_gt _ _)) by lia|].
  rewrite (proj2 (Z.leb_le _ _)), Hfb, Hfa by lia. cbn [to_order o_quantity o_id o_price_ticks o_timestamp].
  set (qty := Z.min _ _). assert (0 <= qty <= v_quantity bo /\ 0 <= qty <= v_quantity ao) as [Hq1 Hq2]
    by (subst qty; widths; lia).
  destruct (fill_stands_for v b BID bp bo bdq' bs qty Hw Hv Eb Hbu Hq1) as (F1 & Hw1 & Hv1 & _).
  cbn [levels vside] in F1, Hw1, Hv1. rewrite F1 in *. rewrite Eb in *.
  set (v1 := with_vloc _ _) in Hv1. set (b1 := with_loc _ _) in Hv1, Hw1.
  destruct (fill_stands_for v1 b1 ASK ap ao adq' as_ qty Hw1 Hv1 Ea Hau Hq2) as (F2 & Hw2 & Hv2 & _).
  change (levels ASK b1) with (asks_ b) in *. change (vside ASK v1) with (asks v) in *. rewrite F2 in *.
  rewrite Ea in *. cbn [fst snd] in *.
  destruct (take_front qty ((bp, bo :: bdq') :: bs)) as [vbs bgone].
  destruct (take_front qty ((ap, ao :: adq') :: as_)) as [vas agone]. cbn [fst snd] in *.
  eexists. split; [reflexivity|]. split; [exact Hw2|]. split; [|done]. by destruct Hv2.
Qed.

Lemma cross_stands_for fuel id rem b log v p0 rem' b' log' :
  cross_loop fuel id rem b log = (rem', b', log') -> is_crossed b' = false ->
  book_wf b -> stands_for v b -> last_trade_ v = last_price p0 log ->
  let v' := cross fuel v in
  stands_for v' b' /\ last_trade_ v' = last_price p0 log' /\ vmeta v' = vmeta v.
Proof.
  revert rem b log v. induction fuel as [|fuel IH]; intros rem b log v He Hc Hw Hv Hl; cbn in He |- *.
  { by simplify_eq. }
  pose proof (cross_step_stands_for v b Hw Hv) as Hs.
  assert (is_crossed b = false -> cross_step v = None) as Hstop.
  { intros H. unfold execute_top_cross in Hs. by rewrite H in Hs. }
  destruct (0 <? rem), (is_crossed b) eqn:Ec; cbn in He; try (simplify_eq; by rewrite Hstop).
  - destruct (execute_top_cross b) as [[t b1]|]; [|by simplify_eq; rewrite Hs].
    destruct Hs as (v1 & -> & Hw1 & Hv1 & Hl1 & Hm1).
    destruct (IH _ _ _ v1 He Hc Hw1 Hv1) as (H1 & H2 & H3).
    + rewrite Hl1. unfold last_price. by rewrite foldl_app.
    + by rewrite H3, Hm1.
  - simplify_eq; congruence.
Qed.

(** ** Market orders *)

Lemma with_levels_twice s ls ls' m m' b :
  with_loc m (with_levels s ls (with_loc m' (with_levels s ls' b))) = with_loc m (with_levels s ls b).
Proof. by destruct s. Qed.

Lemma with_levels_self s b : with_loc (order_loc_ b) (with_levels s (levels s b) b) = b.
Proof. by destruct s, b. Qed.

Lemma set_last_stands_for v b p : stands_for v b -> stands_for (set_last_trade p v) b.
Proof. intros [H1 H2]. split; [|done]. intros s. rewrite H1. by destruct s. Qed.

Lemma market_stands_for fuel id side ts q b tr v p0 q' ls' m' tr' :
  let s := opposite side in
  match_loop fuel id side ts q (levels s b) (order_loc_ b) tr = (q', ls', m', tr') ->
  book_wf b -> stands_for v b -> is_u32 q -> last_trade_ v = last_price p0 tr ->
  let v' := market_loop fuel s q v in
  stands_for v' (with_loc m' (with_levels s ls' b)) /\
  last_trade_ v' = last_price p0 tr' /\ vmeta v' = vmeta v.
Proof.
  intros s. revert q b tr v. induction fuel as [|fuel IH]; intros q b tr v He Hw Hv Hq Hl; cbn in He |- *.
  { simplify_eq. by rewrite with_levels_self. }
  destruct (Z.ltb_spec 0 q) as [Hpos|]; [|simplify_eq; by rewrite with_levels_self].
  pose proof (book_wf_side b s Hw) as Hsw. rewrite (sf_side _ _ Hv) in Hsw.
  pose proof (vside_front _ _ Hsw) as Hf. pose proof (sf_side _ _ Hv s) as Hls.
  destruct (vside s v) as [|[p dq] vs] eqn:Ev.
  { rewrite Hls in He. cbn in He. simplify_eq. rewrite <- (with_levels_self s b) in Hv. by rewrite Hls in Hv. }
  destruct Hf as (o & dq' & -> & Hou & Hfr). rewrite <- Hls in Hfr. rewrite Hfr in He.
  cbn [to_order o_quantity] in He. set (take := Z.min q (v_quantity o)) in *.
  assert (0 <= take <= v_quantity o) as Ht by (subst take; widths; lia).
  destruct (fill_stands_for v b s p o dq' vs take Hw Hv Ev Hou Ht) as (F & Hw' & _ & Hv').
  rewrite F in *. rewrite Ev in *. destruct (take_front take ((p, o :: dq') :: vs)) as [vs1 gone].
  cbn [fst snd] in *. set (b1 := with_loc _ _) in Hw', Hv'.
  set (v1 := set_last_trade p (with_side s vs1 v)).
  assert (stands_for v1 b1) as Hv1 by by apply set_last_stands_for.
  assert (match gone with Some rid => (vcancel rid v1).2 | None => v1 end = v1) as ->.
  { destruct gone as [rid|]; [|done]. rewrite (vcancel_absent v1 b1); [done..|].
    cbn. by rewrite lookup_delete_eq. }
  assert (levels s b1 = to_levels s vs1) as Hl1 by (unfold b1; by rewrite levels_with_loc, levels_with_levels).
  rewrite <- Hl1 in He. change (loc_erase gone (order_loc_ b)) with (order_loc_ b1) in He.
  destruct (IH _ b1 _ v1 He Hw' Hv1) as (H1 & H2 & H3); [apply u32_range| |].
  - unfold v1, last_price. rewrite foldl_app. cbn. unfold market_trade. by destruct side.
  - unfold b1 in H1. rewrite with_levels_twice in H1. split; [done|]. split; [done|].
    rewrite H3. unfold v1. by destruct s.
Qed.

(** ** Who owns what is in the book *)

Definition tag (o : VOrder) : Z * Z := (v_id o, v_session o).
Definition deque_tags (dq : list VOrder) : list (Z * Z) := tag <$> dq.
Definition tags (vs : VSide) : list (Z * Z) := deque_tags (vorders vs).
#[local] Typeclasses Opaque deque_tags tags.

Lemma deque_tags_cons o dq : deque_tags (o :: dq) = tag o :: deque_tags dq.
Proof. done. Qed.
Lemma deque_tags_app dq dq' : deque_tags (dq ++ dq') = deque_tags dq ++ deque_tags dq'.
Proof. apply fmap_app. Qed.
Lemma tags_cons p dq vs : tags ((p, dq) :: vs) = deque_tags dq ++ tags vs.
Proof. apply deque_tags_app. Qed.

(** Inclusions between lists of tags. *)
Ltac tag_solver :=
  rewrite ?tags_cons, ?deque_tags_app, ?deque_tags_cons;
  let x := fresh in intros x;
  repeat match goal with
  | H : _ ⊆ _ |- _ => specialize (H x); rewrite ?tags_cons, ?deque_tags_cons in H
  end;
  change (deque_tags []) with (@nil (Z * Z)) in *;
  rewrite ?elem_of_app, ?elem_of_cons, ?elem_of_app, ?elem_of_cons, ?elem_of_nil in *; tauto.

Lemma tags_push_back s px o vs : tags (push_back s px o vs) ⊆ tag o :: tags vs.
Proof.
  induction vs as [|[p dq] vs IH]; cbn [push_back]; [done|].
  destruct (p =? px); [|destruct (beforeb s px p)]; tag_solver.
Qed.

Lemma tags_remove id dq dq' : remove_from id dq = Some dq' -> deque_tags dq' ⊆ deque_tags dq.
Proof.
  revert dq'. induction dq as [|o dq IH]; intros dq'; cbn [remove_from]; [done|].
  destruct (v_id o =? id); [intros [= <-]; tag_solver|].
  destruct (remove_from id dq) as [dq1|]; [|done]. intros [= <-]. specialize (IH _ eq_refl). tag_solver.
Qed.

Lemma tags_verase px id vs vs' : verase_from px id vs = Some vs' -> tags vs' ⊆ tags vs.
Proof.
  revert vs'. induction vs as [|[p dq] vs IH]; intros vs'; cbn [verase_from]; [done|].
  destruct (p =? px).
  - destruct (remove_from id dq) as [dq1|] eqn:E; [|done]. apply tags_remove in E. clear IH.
    destruct dq1; intros [= <-]; tag_solver.
  - destruct (verase_from px id vs) as [vs1|]; [|done]. intros [= <-].
    specialize (IH _ eq_refl). tag_solver.
Qed.

Lemma tags_take_front qty vs : tags (take_front qty vs).1 ⊆ tags vs.
Proof.
  destruct vs as [|[p [|o dq]] vs]; [done..|]. unfold take_front. cbv zeta.
  destruct (_ =? 0); cbn [fst]; [destruct dq; cbn beta iota; tag_solver|].
  by rewrite !tags_cons, !deque_tags_cons.
Qed.

Definition book_tags (v : SimpleBook) : list (Z * Z) := tags (bids v) ++ tags (asks v).
#[local] Typeclasses Opaque book_tags.

Lemma book_tags_side s v : tags (vside s v) ⊆ book_tags v.
Proof. unfold book_tags. destruct s; tag_solver. Qed.

Lemma book_tags_with s vs v T :
  tags vs ⊆ T -> book_tags v ⊆ T -> book_tags (with_side s vs v) ⊆ T.
Proof. unfold book_tags. destruct s; cbn; intros ??; tag_solver. Qed.

Lemma add_tags px ib o v : book_tags (add px ib o v) ⊆ tag o :: book_tags v.
Proof.
  unfold add. cbv zeta. set (s := side_of_bool ib). apply (book_tags_with s); [|tag_solver].
  etrans; [apply tags_push_back|]. pose proof (book_tags_side s v). tag_solver.
Qed.

Lemma vcancel_tags id v : book_tags (vcancel id v).2 ⊆ book_tags v.
Proof.
  unfold vcancel. destruct (loc_ v !! id) as [[px ib]|]; [|done]. cbv zeta.
  destruct (verase_from px id _) as [vs|] eqn:E; [|done].
  apply book_tags_with; [|done]. etrans; [by eapply tags_verase|apply book_tags_side].
Qed.

Lemma cross_tags fuel v : book_tags (cross fuel v) ⊆ book_tags v.
Proof.
  revert v. induction fuel as [|fuel IH]; intros v; cbn; [done|].
  destruct (cross_step v) as [v'|] eqn:E; [|done]. etrans; [apply IH|]. unfold cross_step in E.
  destruct (bids v) as [|[bp [|bo bdq]] bs] eqn:Eb; [done..|].
  destruct (asks v) as [|[ap [|ao adq]] as_] eqn:Ea; [done..|]. destruct (bp <? ap); [done|].
  set (qty := Z.min _ _) in E.
  pose proof (tags_take_front qty ((bp, bo :: bdq) :: bs)) as H1.
  pose proof (tags_take_front qty ((ap, ao :: adq) :: as_)) as H2.
  destruct (take_front qty ((bp, _) :: _)), (take_front qty ((ap, _) :: _)). injection E as <-.
  unfold book_tags. cbn [bids asks fst] in *. rewrite Eb, Ea. tag_solver.
Qed.

Lemma market_tags fuel s q v : book_tags (market_loop fuel s q v) ⊆ book_tags v.
Proof.
  revert q v. induction fuel as [|fuel IH]; intros q v; cbn; [done|]. destruct (0 <? q); [|done].
  destruct (vside s v) as [|[p [|o dq]] vs] eqn:E; [done..|].
  pose proof (tags_take_front (Z.min q (v_quantity o)) ((p, o :: dq) :: vs)) as H.
  destruct (take_front _ _) as [vs1 gone]. cbn [fst] in H.
  set (v1 := set_last_trade p (with_side s vs1 v)).
  assert (book_tags v1 ⊆ book_tags v) as H1.
  { change (book_tags v1) with (book_tags (with_side s vs1 v)). apply book_tags_with; [|done].
    rewrite H, <- E. apply book_tags_side. }
  etrans; [apply IH|]. destruct gone as [rid|]; [|done]. etrans; [apply vcancel_tags|done].
Qed.
