(* ===== verification/VerifyProps.v ===== *)
(** The verifier agrees with the matching thread: command by command its book
    stands for the engine's, so that the digests of a recovered book and of the
    verifier's replay are equal. *)
From stdpp Require Import base numbers gmap list sorting.
From Stdlib Require Import ZArith Lia.
From S2P Require Import Prelude Types OrderBook BookFacts Engine Bytes Protocol Commands Wal WalProps.
From S2P Require Import Snapshot Egress RiskConfig MatchingThread Keys Recovery Ownership CoreInv MatchProps.
From S2P Require Import RestoreProps Timeless Fits Names Gateway Durable WalVerify VerifyBook.
Import verify.

#[local] Arguments level_total : simpl never.

(** ** The relation *)

(** The verifier's state [st] mirrors the core [k]. *)
Record mirrors (st : SimpleBook * Z) (k : Core) : Prop := {
  mi_book : stands_for st.1 (strip_book (core_book k));
  mi_last : last_trade_ st.1 = last_trade_ticks_ k;
  mi_next : st.2 = next_exchange_id_ k;
  mi_owner : owner_of_ (tables_ k) ⊆ owners_ st.1;
  mi_client : client_id_of_ (tables_ k) ⊆ client_ids_ st.1;
  mi_tags id s : (id, s) ∈ book_tags st.1 -> owners_ st.1 !! id = Some s;
  mi_ids id : is_Some (owners_ st.1 !! id) -> 0 < id < st.2;
}.

Lemma mirrors_init : mirrors (simple_book0, 1) core0.
Proof.
  split; cbn [fst snd].
  - split; [by intros []|done].
  - done.
  - done.
  - apply map_empty_subseteq.
  - apply map_empty_subseteq.
  - intros id s []%not_elem_of_nil.
  - intros id [s H]. by apply (lookup_empty_Some (M := gmap Z) id s) in H.
Qed.

(** ** Erasing timestamps keeps books well formed *)

Lemma side_wf_strip s ls : side_wf s ls -> side_wf s (strip_levels ls).
Proof.
  intros [Hs Hf]. split.
  - induction Hs as [|pl ls Hs IH Hl]; [constructor|]. apply Forall_cons in Hf as [_ Hf].
    cbn. constructor; [by apply IH|]. by apply Forall_fmap.
  - apply Forall_fmap. eapply Forall_impl; [exact Hf|]. intros pl (H1 & H2 & H3). cbn.
    split_and!; cbn.
    + by destruct (orders pl).
    + rewrite H2. f_equal. unfold qsum. by rewrite <- list_fmap_compose.
    + by apply Forall_fmap.
Qed.

Lemma book_wf_strip b : book_wf b -> book_wf (strip_book b).
Proof.
  intros (Hb & Ha & Hn & Hl). split_and!.
  - by apply side_wf_strip.
  - by apply side_wf_strip.
  - rewrite all_orders_strip, <- list_fmap_compose. exact Hn.
  - rewrite all_orders_strip, <- list_fmap_compose. exact Hl.
Qed.

(** ** The risk check *)

Lemma best_stands_for v b :
  stands_for v b -> best_bid v = best_bid_ticks b /\ best_ask v = best_ask_ticks b.
Proof.
  intros Hv. pose proof (sf_side _ _ Hv BID) as Hb. pose proof (sf_side _ _ Hv ASK) as Ha. cbn in Hb, Ha.
  unfold best_bid_ticks, best_ask_ticks. rewrite Hb, Ha. unfold best_bid, best_ask.
  by destruct (bids v), (asks v).
Qed.

Lemma passes_risk_mirrors st k risk c :
  mirrors st k -> passes_risk st.1 c risk = bool_decide (check_risk risk c k = NONE).
Proof.
  intros Hm. destruct (best_stands_for _ _ (mi_book _ _ Hm)) as [Hb Ha].
  destruct (best_ticks_strip (core_book k)) as [Eb Ea]. rewrite Eb in Hb. rewrite Ea in Ha.
  unfold passes_risk, check_risk, reference_price. fold (core_book k). rewrite Hb, Ha, (mi_last _ _ Hm).
  destruct (c_quantity c =? 0); [done|]. destruct (max_order_qty risk <? c_quantity c); [done|]. cbn [orb].
  destruct (c_order_type c); [done|]. destruct (c_price_ticks c <=? 0); [done|].
  destruct (_ && _); [done|]. destruct (0 <? price_band_bp risk); [|done]. cbv zeta.
  destruct (0 <? last_trade_ticks_ k).
  - by destruct (i64 (_ * price_band_bp risk) <? _).
  - destruct (best_bid_ticks _); [|done]. destruct (best_ask_ticks _); [|done].
    by destruct (i64 (_ * price_band_bp risk) <? _).
Qed.

(** ** New orders *)

(** Fills and cancels only remove entries of the tables. *)
Definition shrinks (t t' : Tables) : Prop :=
  owner_of_ t' ⊆ owner_of_ t /\ client_id_of_ t' ⊆ client_id_of_ t.

#[export] Instance shrinks_preorder : PreOrder shrinks.
Proof.
  split; [by split|]. intros t1 t2 t3 [H1 H2] [H3 H4]. split; by etrans.
Qed.

Lemma forget_shrinks id t : shrinks t (forget_order id t).
Proof.
  unfold forget_order. destruct (owner_of_ t !! id); split; cbn; try done; apply delete_subseteq.
Qed.

Lemma fill_shrinks id q t : shrinks t (fill_tables id q t).
Proof.
  unfold fill_tables. destruct (owner_of_ t !! id); [|done]. cbv zeta.
  destruct (_ =? 0); [|done]. exact (forget_shrinks id (set_remaining id _ t)).
Qed.

Lemma fills_shrinks ts t : shrinks t (foldl fill_tables_trade t ts).
Proof.
  revert t. induction ts as [|x ts IH]; intros t; [done|]. cbn [foldl]. rewrite <- IH.
  unfold fill_tables_trade. by rewrite <- !fill_shrinks.
Qed.

Lemma vorders_length v b s : stands_for v b -> length (vorders (vside s v)) = length (flat (levels s b)).
Proof.
  intros Hv. rewrite (sf_side _ _ Hv s). generalize (vside s v). intros vs.
  induction vs as [|[p dq] vs IH]; [done|]. unfold vorders, flat, to_levels in *. cbn.
  rewrite !length_app, IH. by rewrite length_fmap.
Qed.

Lemma resting_orders_length v b : stands_for v b -> resting_orders v = length (all_orders b).
Proof.
  intros Hv. unfold resting_orders, all_orders. rewrite !length_app.
  f_equal; [apply (vorders_length v b BID Hv)|apply (vorders_length v b ASK Hv)].
Qed.

(** The mirror of an accepted order: a matched book, new trades, and tables
    that shrank from those with the order recorded, or without it. *)
Lemma mirrors_accepted st k v b' ts t id n :
  mirrors st k ->
  stands_for v (strip_book b') -> last_trade_ v = last_price (last_trade_ticks_ k) (strip_trade <$> ts) ->
  owner_of_ t ⊆ owners_ v -> client_id_of_ t ⊆ client_ids_ v ->
  (forall i s, (i, s) ∈ book_tags v -> owners_ v !! i = Some s) ->
  (forall i, is_Some (owners_ v !! i) -> 0 < i < n) ->
  mirrors (v, n) (mkCore (mkEngine b' []) t (last_price (last_trade_ticks_ k) ts) n id).
Proof.
  intros Hm H1 H2 H3 H4 H5 H6. split; cbn [fst snd]; try done. cbn. rewrite H2.
  apply last_price_strip. rewrite <- list_fmap_compose. done.
Qed.

(** What the engine does to the erased book. *)
Lemma process_limit_strip o b r b' ts :
  o_type o = LIMIT -> processOrder o (mkEngine b []) = (r, mkEngine b' ts) ->
  let b1 := addOrder (strip o) (strip_book b) in
  exists rem, cross_loop (S (length (all_orders b1))) (o_id o) (o_quantity o) b1 [] =
    (rem, strip_book b', strip_trade <$> ts).
Proof.
  intros Ht Hp b1. pose proof (processOrder_strip o (mkEngine b [])) as H. rewrite Hp in H.
  unfold processOrder in H. cbn [strip o_type strip_engine book_ trade_log_ o_id o_quantity fst snd] in H.
  rewrite Ht in H. fold b1 in H. destruct (cross_loop _ _ _ b1 _) as [[rem b2] ts2].
  pose proof (f_equal (fun x => book_ x.2) H) as H1. pose proof (f_equal (fun x => trade_log_ x.2) H) as H2.
  cbn [snd book_ trade_log_ strip_engine] in H1, H2. exists rem. by rewrite H1, H2.
Qed.

Lemma process_market_strip o b r b' ts :
  o_type o = MARKET -> processOrder o (mkEngine b []) = (r, mkEngine b' ts) ->
  let s := opposite (o_side o) in
  let ls := levels s (strip_book b) in
  exists rem ls' m, match_loop (S (length (flat ls))) (o_id o) (o_side o) 0 (o_quantity o) ls
      (order_loc_ (strip_book b)) [] = (rem, ls', m, strip_trade <$> ts) /\
    strip_book b' = with_loc m (with_levels s ls' (strip_book b)).
Proof.
  intros Ht Hp s ls. pose proof (processOrder_strip o (mkEngine b [])) as H. rewrite Hp in H.
  unfold processOrder in H. cbn [strip o_type strip_engine book_ trade_log_ o_id o_quantity o_side o_timestamp fst snd] in H.
  rewrite Ht in H. unfold match_market in H. fold s ls in H.
  destruct (match_loop _ _ _ _ _ _ _ _) as [[[rem ls'] m] ts2].
  pose proof (f_equal (fun x => book_ x.2) H) as H1. pose proof (f_equal (fun x => trade_log_ x.2) H) as H2.
  cbn [snd book_ trade_log_ strip_engine] in H1, H2. exists rem, ls', m. by rewrite H1, H2.
Qed.

(** Forgetting an id takes the entry a record added out again. *)
Lemma forgotten_subset n s c t (own cli : gmap Z Z) :
  owner_of_ t ⊆ <[n := s]> own -> client_id_of_ t ⊆ <[n := c]> cli ->
  owner_of_ (forget_order n t) ⊆ own /\ client_id_of_ (forget_order n t) ⊆ cli.
Proof.
  intros H1 H2. assert (forall (m m' : gmap Z Z) x, m ⊆ <[n := x]> m' -> delete n m ⊆ m') as Hd.
  { intros m m' x H. etrans; [by apply delete_mono|]. rewrite delete_insert_eq. apply delete_subseteq. }
  split; [|by apply Hd in H2; unfold forget_order; destruct (owner_of_ t !! n)].
  assert (owner_of_ (forget_order n t) = delete n (owner_of_ t)) as -> by
    (unfold forget_order; destruct (owner_of_ t !! n) eqn:E; [done|cbn; by rewrite delete_id]).
  by apply Hd in H1.
Qed.

Section new_order.
Context (st : SimpleBook * Z) (m : MatchingThread) (c : OrderCommand).
Let k := core_ m.
Let o := order_of c k.
Hypothesis Hk : core_inv k.
Hypothesis Hc : command_ok c.
Hypothesis Hr : check_risk (risk_ m) c k = NONE.
Hypothesis Hm : mirrors st k.

Let s := engine_side (c_side c).

Lemma strip_order_of :
  c_order_type c = protocol.Limit ->
  strip o = to_order s (c_price_ticks c) (mkV st.2 (c_session c) (c_client_order_id c) (c_quantity c)).
Proof. intros Ht. unfold strip, o, order_of, to_order. cbn. by rewrite Ht, (mi_next _ _ Hm). Qed.

(** The book after adding and crossing. *)
Lemma limit_book v n r b' ts :
  st = (v, n) -> c_order_type c = protocol.Limit ->
  processOrder o (mkEngine (core_book k) []) = (r, mkEngine b' ts) -> is_crossed b' = false ->
  let vo := mkV n (c_session c) (c_client_order_id c) (c_quantity c) in
  let v1 := add (c_price_ticks c) (is_bid_side s) vo
              (set_client_id n (c_client_order_id c) (set_owner n (c_session c) v)) in
  let v' := cross (S (resting_orders v1)) v1 in
  stands_for v' (strip_book b') /\ last_trade_ v' = last_price (last_trade_ticks_ k) (strip_trade <$> ts) /\
  vmeta v' = (<[n := c_session c]> (owners_ v), <[n := c_client_order_id c]> (client_ids_ v)) /\
  book_tags v' ⊆ tag vo :: book_tags v.
Proof.
  intros Est Ht Hp Hinv vo v1. pose proof (strip_order_of Ht) as Hso. rewrite Est in Hso. cbn [snd] in Hso.
  destruct (order_of_acceptable _ _ _ Hk Hc Hr) as (_ & Hq & _ & Hf). fold o in Hq, Hf.
  pose proof (mi_next _ _ Hm) as Hn. pose proof (mi_book _ _ Hm) as Hb. pose proof (mi_last _ _ Hm) as Hl.
  rewrite Est in Hn, Hb, Hl. cbn [fst snd] in Hn, Hb, Hl.
  assert (o_type o = LIMIT) as Hty by (unfold o; cbn; by rewrite Ht).
  destruct (process_limit_strip o _ _ _ _ Hty Hp) as (rem & Hx). rewrite Hso in Hx. set (b1 := addOrder _ _) in Hx.
  pose proof (book_wf_strip _ (proj1 (ci_engine k Hk))) as Hw.
  assert (stands_for v1 b1) as Hv1 by (apply add_stands_for; [done|by destruct Hb|apply Hc]).
  assert (book_wf b1) as Hw1.
  { apply addOrder_wf; [done|done|apply Hc|]. unfold fresh. rewrite all_orders_strip, <- list_fmap_compose.
    cbn. rewrite Hn. exact Hf. }
  rewrite (resting_orders_length _ _ Hv1).
  destruct (cross_stands_for _ _ _ b1 [] v1 (last_trade_ticks_ k) _ _ _ Hx) as (Hv' & Hl' & Hmeta).
  { by rewrite is_crossed_strip. } { done. } { done. } { unfold v1. cbn. by destruct s. }
  split_and!; [done|done|rewrite Hmeta; unfold v1; by destruct s|].
  etrans; [apply cross_tags|].
  exact (add_tags _ _ vo (set_client_id n (c_client_order_id c) (set_owner n (c_session c) v))).
Qed.

(** Recorded and partly filled tables, against those of the verifier. *)
Lemma recorded_subset v n ts qty side :
  owner_of_ (tables_ k) ⊆ owners_ v -> client_id_of_ (tables_ k) ⊆ client_ids_ v ->
  let t := foldl fill_tables_trade (record_order n (c_session c) (c_client_order_id c) qty side (tables_ k)) ts in
  owner_of_ t ⊆ <[n := c_session c]> (owners_ v) /\ client_id_of_ t ⊆ <[n := c_client_order_id c]> (client_ids_ v).
Proof.
  intros H1 H2 t. destruct (fills_shrinks ts (record_order n (c_session c) (c_client_order_id c) qty side (tables_ k)))
    as [Hs1 Hs2].
  split; (etrans; [eassumption|]); by apply insert_mono.
Qed.

Lemma limit_mirrors r b' ts :
  id_room k -> c_order_type c = protocol.Limit ->
  processOrder o (mkEngine (core_book k) []) = (r, mkEngine b' ts) -> engine_inv b' ->
  mirrors (apply_new (risk_ m) c st) (accepted_core c b' ts k).
Proof.
  intros Hroom Ht Hp Hinv. pose proof (passes_risk_mirrors _ _ (risk_ m) c Hm) as Hrisk.
  rewrite Hr, bool_decide_eq_true_2 in Hrisk by done. set (v := st.1) in *. set (n := st.2).
  assert (st = (v, n)) as Est by apply surjective_pairing.
  destruct (limit_book v n r b' ts Est Ht Hp ltac:(apply Hinv)) as (Hb & Hl & Hmeta & Htags).
  unfold apply_new. rewrite Est, Hrisk, Ht. cbn [negb].
  assert (match c_side c with protocol.Bid => true | protocol.Ask => false end = is_bid_side s) as ->
    by by (unfold s; destruct (c_side c)).
  set (v' := cross _ _) in *. injection Hmeta as Ho' Hc'. pose proof Hm as [_ _ Hn M1 M2 M3 M4]. fold v n in Hn, M1, M2, M3, M4.
  unfold accepted_core. fold o. assert (o_type o = LIMIT) as -> by (unfold o; cbn; by rewrite Ht).
  change (o_id o) with (next_exchange_id_ k). rewrite <- Hn.
  destruct (recorded_subset v n ts (c_quantity c) (o_side o) M1 M2) as [Hs1 Hs2].
  pose proof (ci_next k Hk) as Hpos. unfold id_room in Hroom.
  apply (mirrors_accepted st); try done; rewrite ?Ho', ?Hc'; try done.
  - intros i s' Hi. apply Htags, elem_of_cons in Hi as [[= -> ->]|Hi]; [by rewrite lookup_insert_eq|].
    apply M3 in Hi. rewrite lookup_insert_ne; [done|]. intros <-. specialize (M4 n ltac:(by eexists)). lia.
  - intros i. rewrite lookup_insert_is_Some', u64_id by (unfold is_u64; lia).
    intros [<-|Hi]; [lia|]. specialize (M4 _ Hi). lia.
Qed.

Lemma market_mirrors r b' ts :
  id_room k -> c_order_type c = protocol.Market ->
  processOrder o (mkEngine (core_book k) []) = (r, mkEngine b' ts) -> engine_inv b' ->
  mirrors (apply_new (risk_ m) c st) (accepted_core c b' ts k).
Proof.
  intros Hroom Ht Hp Hinv. pose proof (passes_risk_mirrors _ _ (risk_ m) c Hm) as Hrisk.
  rewrite Hr, bool_decide_eq_true_2 in Hrisk by done. set (v := st.1) in *. set (n := st.2).
  assert (st = (v, n)) as Est by apply surjective_pairing.
  unfold apply_new. rewrite Est, Hrisk, Ht. cbn [negb]. pose proof Hm as [Hb Hl Hn M1 M2 M3 M4].
  fold v n in Hb, Hl, Hn, M1, M2, M3, M4.
  assert (match c_side c with protocol.Bid => ASK | protocol.Ask => BID end = opposite s) as ->
    by by (unfold s; destruct (c_side c)).
  assert (o_type o = MARKET) as Hty by (unfold o; cbn; by rewrite Ht).
  destruct (process_market_strip o _ _ _ _ Hty Hp) as (rem & ls' & m' & Hx & Hb').
  change (o_side o) with s in Hx, Hb'. rewrite <- (vorders_length v _ (opposite s) Hb) in Hx.
  destruct (market_stands_for _ _ _ _ _ _ [] v (last_trade_ticks_ k) _ _ _ _ Hx) as (Hv' & Hl' & Hmeta).
  { apply book_wf_strip, (ci_engine k Hk). } { done. } { apply Hc. } { done. }
  change (o_quantity o) with (c_quantity c) in Hv', Hl', Hmeta.
  pose proof (market_tags (S (length (vorders (vside (opposite s) v)))) (opposite s) (c_quantity c) v) as Htags.
  set (v' := market_loop _ _ _ v) in *. rewrite <- Hb' in Hv'. injection Hmeta as Ho' Hc'.
  unfold accepted_core. fold o. rewrite Hty. change (o_id o) with (next_exchange_id_ k). rewrite <- Hn.
  pose proof (ci_next k Hk) as Hpos. unfold id_room in Hroom.
  destruct (recorded_subset v n ts (c_quantity c) (o_side o) M1 M2) as [Hs1 Hs2].
  destruct (forgotten_subset n _ _ _ _ _ Hs1 Hs2) as [Hf1 Hf2].
  apply (mirrors_accepted st); try done; rewrite ?Ho', ?Hc'; try done.
  - intros i s' Hi. by apply M3, Htags.
  - intros i Hi. rewrite u64_id by (unfold is_u64; lia). specialize (M4 _ Hi). lia.
Qed.

End new_order.

(** A new order keeps the mirror. *)
Lemma apply_new_mirrors st m c :
  core_inv (core_ m) -> command_ok c -> id_room (core_ m) -> mirrors st (core_ m) ->
  mirrors (apply_new (risk_ m) c st) (core_ (apply_new_order c m)).
Proof.
  intros Hk Hc Hroom Hm. set (k := core_ m) in *.
  destruct (decide (check_risk (risk_ m) c k = NONE)) as [Hr|Hr].
  2: { rewrite apply_new_order_rejected by done. pose proof (passes_risk_mirrors _ _ (risk_ m) c Hm) as Hrisk.
       rewrite bool_decide_eq_false_2 in Hrisk by done. unfold apply_new. destruct st as [v n].
       cbn [fst] in Hrisk. by rewrite Hrisk. }
  destruct (order_of_acceptable _ _ _ Hk Hc Hr) as (Hok & Hq & Ht & Hf).
  destruct (process_new_map _ _ (ci_engine k Hk) Hok Hf Hq Ht) as (r & b' & ts & Hp & Ha & Hinv & _).
  rewrite (apply_new_order_accepted c m r b' ts Hr (ci_log k Hk) Hp Ha). fold k.
  destruct (c_order_type c) eqn:Ety; [by apply (market_mirrors st m c Hk Hc Hr Hm r)|by apply (limit_mirrors st m c Hk Hc Hr Hm r)].
Qed.

(** ** Finding an order *)

(** The orders resting on the verifier's side, and those it could mean. *)
Definition vall (v : SimpleBook) : list VOrder := vorders (bids v) ++ vorders (asks v).
Definition live_id (id : Z) (v : SimpleBook) : bool := existsb (fun o => v_id o =? id) (vall v).
Definition named_live (s coid : Z) (v : SimpleBook) : bool :=
  existsb (fun o => bool_decide (owners_ v !! v_id o = Some s) &&
                    bool_decide (client_ids_ v !! v_id o = Some coid)) (vall v).

(** A Cancel or Modify that the verifier resolves to an order long gone, where
    that matters: its location map keeps the orders market orders filled. *)
Definition misled (c : OrderCommand) (v : SimpleBook) : bool :=
  let id := find_by_client (c_session c) (c_client_order_id c) v in
  let stale := negb (id =? 0) && negb (live_id id v) in
  match c_type c with
  | CmdModify => stale
  | CmdCancel => stale && named_live (c_session c) (c_client_order_id c) v
  | _ => false
  end.

Lemma find_by_client_spec s coid v :
  (find_by_client s coid v = 0 /\ forall id, names s coid v id = false) \/
  names s coid v (find_by_client s coid v) = true.
Proof.
  unfold find_by_client. destruct (filter _ (owner_ids v)) as [|i l] eqn:E; cbn.
  - left. split; [done|]. intros id. apply not_true_iff_false. intros Hn.
    assert (id ∈ filter (fun id => names s coid v id = true) (owner_ids v)) as Hin.
    { apply list_elem_of_filter. split; [done|]. unfold owner_ids. rewrite merge_sort_Permutation.
      apply elem_of_elements, elem_of_dom. unfold names in Hn.
      apply andb_true_iff in Hn as [[Hn%bool_decide_eq_true _]%andb_true_iff _]. by eexists. }
    rewrite E in Hin. by apply not_elem_of_nil in Hin.
  - right. assert (i ∈ filter (fun id => names s coid v id = true) (owner_ids v)) as Hin by (rewrite E; by left).
    by apply list_elem_of_filter in Hin as [? _].
Qed.

Lemma names_true s coid v id :
  names s coid v id = true <->
  owners_ v !! id = Some s /\ client_ids_ v !! id = Some coid /\ is_Some (loc_ v !! id).
Proof. unfold names. rewrite !andb_true_iff, !bool_decide_eq_true. tauto. Qed.

(** Its ids are those of the book it stands for. *)
Lemma vall_ids v b : stands_for v b -> v_id <$> vall v = o_id <$> all_orders b.
Proof.
  intros Hv. unfold vall, all_orders. rewrite !fmap_app.
  change (bids_ b) with (levels BID b). change (asks_ b) with (levels ASK b). rewrite !(sf_side _ _ Hv).
  assert (forall s vs, v_id <$> vorders vs = o_id <$> flat (to_levels s vs)) as H.
  { intros s vs. induction vs as [|[p dq] vs IH]; [done|]. unfold vorders, flat, to_levels in *. cbn.
    rewrite !fmap_app, IH. f_equal. by rewrite <- list_fmap_compose. }
  f_equal; apply H.
Qed.

Lemma all_ids_strip b : o_id <$> all_orders (strip_book b) = o_id <$> all_orders b.
Proof. by rewrite all_orders_strip, <- list_fmap_compose. Qed.

Section find.
Context (st : SimpleBook * Z) (k : Core).
Hypothesis Hk : core_inv k.
Hypothesis Hkeys : keys_complete (tables_ k).
Hypothesis Hm : mirrors st k.
Let v := st.1.

Lemma vall_resting id : id ∈ (v_id <$> vall v) <-> is_Some (core_orders k !! id).
Proof.
  rewrite (vall_ids v _ (mi_book _ _ Hm)), all_ids_strip. unfold core_orders. split.
  - intros (o & -> & Ho)%list_elem_of_fmap. exists o.
    apply order_map_some; [apply book_ids_nodup, (ci_engine k Hk)|done].
  - intros [o Ho]. apply order_map_lookup in Ho as [Ho <-]. by apply list_elem_of_fmap_2.
Qed.

Lemma live_id_resting id : live_id id v = true <-> is_Some (core_orders k !! id).
Proof.
  rewrite <- vall_resting. unfold live_id. rewrite existsb_exists, list_elem_of_fmap. split.
  - intros (o & Ho & He). exists o. split; [lia|by apply list_elem_of_In].
  - intros (o & -> & Ho). exists o. split; [by apply list_elem_of_In|lia].
Qed.

(** What the tables say of a resting order, the verifier says too. *)
Lemma resting_names id s coid :
  owner_of_ (tables_ k) !! id = Some s -> client_id_of_ (tables_ k) !! id = Some coid ->
  names s coid v id = true.
Proof.
  intros Ho Hc. apply names_true. split_and!.
  - eapply lookup_weaken; [exact Ho|apply (mi_owner _ _ Hm)].
  - eapply lookup_weaken; [exact Hc|apply (mi_client _ _ Hm)].
  - assert (is_Some (core_orders k !! id)) as [o Hr] by (apply (ci_tables k Hk); by rewrite Ho).
    apply order_map_lookup in Hr as [Hr <-].
    destruct (ci_engine k Hk) as ((_ & _ & Hn & Hl) & _).
    assert (order_loc_ (core_book k) !! o_id o = Some (o_side o, o_price_ticks o)) as Hloc.
    { rewrite Hl. apply elem_of_list_to_map_1; [by rewrite key_fst|]. by apply (list_elem_of_fmap_2 key _ o). }
    eexists. apply (sf_loc _ _ (mi_book _ _ Hm)). exact Hloc.
Qed.

Context (s coid : Z).
Hypothesis Hs : 0 <= s < 2 ^ 24.
Hypothesis Hc : 0 <= coid < 2 ^ 40.
Hypothesis Hsmall : tables_in (fun s => 0 <= s < 2 ^ 24) (fun c => 0 <= c < 2 ^ 40) (tables_ k).

(** An order the tables find is resting under that very name. *)
Lemma found_named id :
  find_order s coid (tables_ k) = id -> id <> 0 ->
  owner_of_ (tables_ k) !! id = Some s /\ client_id_of_ (tables_ k) !! id = Some coid.
Proof.
  unfold find_order. destruct (by_client_id_ _ !! _) as [x|] eqn:E; cbn; [|done]. intros -> _.
  destruct (tw_by_client _ _ (ci_tables k Hk) _ _ E) as (s' & c' & H1 & H2 & H3).
  destruct Hsmall as [Ho Hcl]. specialize (Ho _ _ H1). specialize (Hcl _ _ H2).
  destruct (key_small_inj _ _ _ _ H3 Hs Ho Hc Hcl) as [-> ->]. done.
Qed.

Lemma find_live :
  live_id (find_by_client s coid v) v = true -> find_order s coid (tables_ k) = find_by_client s coid v.
Proof.
  intros Hl%live_id_resting. destruct (find_by_client_spec s coid v) as [[Hz _]|Hn].
  { rewrite Hz in Hl. pose proof (ci_ids k Hk 0 Hl). lia. }
  apply names_true in Hn as (Ho & Hcl & _). set (id := find_by_client s coid v) in *.
  assert (is_Some (owner_of_ (tables_ k) !! id)) as [s' Ho'] by by apply (ci_tables k Hk).
  assert (is_Some (client_id_of_ (tables_ k) !! id)) as [c' Hc'] by by apply (ci_tables k Hk).
  pose proof (lookup_weaken _ _ _ _ Ho' (mi_owner _ _ Hm)) as E1.
  pose proof (lookup_weaken _ _ _ _ Hc' (mi_client _ _ Hm)) as E2.
  fold v in E1, E2. assert (s' = s) as -> by congruence. assert (c' = coid) as -> by congruence.
  unfold find_order. by rewrite (Hkeys _ _ _ Ho' Hc').
Qed.

Lemma find_none :
  find_by_client s coid v = 0 \/ named_live s coid v = false -> find_order s coid (tables_ k) = 0.
Proof.
  intros H. destruct (decide (find_order s coid (tables_ k) = 0)) as [|Hne]; [done|].
  destruct (found_named _ eq_refl Hne) as [Ho Hcl]. pose proof (resting_names _ _ _ Ho Hcl) as Hn.
  set (id := find_order s coid (tables_ k)) in *. exfalso. destruct H as [Hz|Hnl].
  - destruct (find_by_client_spec s coid v) as [[_ Hall]|Hx]; [by rewrite Hall in Hn|].
    rewrite Hz in Hx. apply names_true in Hx as (Hx & _). pose proof (mi_ids _ _ Hm 0 ltac:(by eexists)). lia.
  - assert (id ∈ (v_id <$> vall v)) as (o & -> & Hin)%list_elem_of_fmap.
    { apply vall_resting, (ci_tables k Hk). by rewrite Ho. }
    apply names_true in Hn as (N1 & N2 & _).
    assert (named_live s coid v = true) as Ht; [|congruence].
    apply existsb_exists. exists o. split; [by apply list_elem_of_In|].
    by rewrite !bool_decide_eq_true_2.
Qed.

End find.

(** ** Cancels *)

Lemma loc_resting k id :
  core_inv k -> is_Some (core_orders k !! id) <-> is_Some (order_loc_ (strip_book (core_book k)) !! id).
Proof.
  intros Hk. destruct (ci_engine k Hk) as ((_ & _ & Hn & Hl) & _). cbn [strip_book order_loc_]. rewrite Hl.
  unfold core_orders, order_map. rewrite <- !elem_of_dom, !dom_list_to_map_L, !elem_of_list_to_set.
  rewrite key_fst, order_map_fst. done.
Qed.

(** Cancelling a resting order on both sides. *)
Lemma cancel_mirrors st k id :
  core_inv k -> mirrors st k -> is_Some (core_orders k !! id) ->
  mirrors ((vcancel id st.1).2, st.2) (cancelled_core id (cancelOrder id (core_book k)).2 k).
Proof.
  intros Hk Hm Hid. pose proof Hm as [H1 H2 H3 H4 H5 H6 H7].
  pose proof (book_wf_strip _ (proj1 (ci_engine k Hk))) as Hw.
  destruct (vcancel_stands_for st.1 _ id Hw H1) as [_ Hb]; [by apply loc_resting|].
  rewrite cancelOrder_strip in Hb. cbn [snd] in Hb.
  assert (last_trade_ (vcancel id st.1).2 = last_trade_ st.1 /\ vmeta (vcancel id st.1).2 = vmeta st.1) as [E1 E2].
  { unfold vcancel. repeat case_match; cbn; try done. all: by destruct (side_of_bool _). }
  injection E2 as E2 E3. destruct (forget_shrinks id (tables_ k)) as [S1 S2].
  split; cbn [fst snd]; rewrite ?E1, ?E2, ?E3; try done.
  - etrans; [exact S1|done].
  - etrans; [exact S2|done].
  - intros i s Hi. by apply H6, (vcancel_tags id st.1).
Qed.

Lemma filter_id {A} (P : A -> Prop) `{!forall x, Decision (P x)} (l : list A) :
  (forall x, x ∈ l -> P x) -> filter P l = l.
Proof.
  induction l as [|x l IH]; intros Hl; [done|]. rewrite filter_cons_True by (apply Hl; by left).
  f_equal. apply IH. intros y Hy. apply Hl. by right.
Qed.

(** A cancelled queue, and a book emptied of a list of ids. *)
Lemma cancelOrder_queue id b s :
  book_wf b -> queue s (cancelOrder id b).2 = filter (fun o => o_id o <> id) (queue s b).
Proof.
  intros Hw. destruct (order_loc_ b !! id) as [[s' p]|] eqn:Hl.
  - destruct (cancelOrder_hit b id s' p Hw Hl) as (b' & l1 & o & l2 & -> & _ & Hid & Hq & Hq' & Hop). cbn [snd].
    pose proof Hw as (_ & _ & Hn & _). rewrite (all_orders_perm s') in Hn.
    rewrite Hq, !fmap_app, fmap_cons in Hn. rewrite <- Hid.
    assert (forall l : list Order, o_id o ∉ (o_id <$> l) -> filter (fun x => o_id x <> o_id o) l = l) as Hf.
    { intros l Ho. apply filter_id. intros x Hx He. apply Ho. rewrite <- He. by apply list_elem_of_fmap_2. }
    apply NoDup_app in Hn as (Hn1 & Hd & _). apply NoDup_app in Hn1 as (_ & Hd1 & Hn2).
    apply NoDup_cons in Hn2 as [Hn2 _].
    destruct (decide (s = s')) as [->|Hs].
    + unfold queue in *. rewrite Hq, Hq', filter_app, filter_cons_False by (intros H; by apply H).
      rewrite !Hf; [done|done|]. intros Hin. apply (Hd1 _ Hin). by left.
    + assert (s = opposite s') as -> by (by destruct s, s'). unfold queue in *. rewrite Hop, Hf; [done|].
      apply Hd. rewrite elem_of_app. right. by left.
  - rewrite cancelOrder_miss by done. cbn [snd]. symmetry. apply filter_id. intros x Hx He.
    apply (loc_none_absent s b id Hw Hl). rewrite <- He. by apply list_elem_of_fmap_2.
Qed.

Definition cancel_book (b : OrderBook) (ids : list Z) : OrderBook :=
  foldl (fun b id => (cancelOrder id b).2) b ids.

Lemma cancel_book_wf ids b : book_wf b -> book_wf (cancel_book b ids).
Proof.
  revert b. induction ids as [|i ids IH]; intros b Hw; [done|]. cbn [cancel_book foldl].
  by apply IH, cancelOrder_wf.
Qed.

Lemma cancel_book_queue ids b s :
  book_wf b -> queue s (cancel_book b ids) = filter (fun o => o_id o ∉ ids) (queue s b).
Proof.
  revert b. induction ids as [|i ids IH]; intros b Hw.
  { symmetry. apply filter_id. intros o _. apply not_elem_of_nil. }
  cbn [cancel_book foldl]. fold (cancel_book (cancelOrder i b).2 ids).
  rewrite IH, cancelOrder_queue, list_filter_filter by (done || by apply cancelOrder_wf).
  apply list_filter_iff. intros o. rewrite not_elem_of_cons. tauto.
Qed.

(** The order of cancellation does not matter. *)
Lemma cancel_book_ext ids ids' b :
  book_wf b -> (forall id, id ∈ ids <-> id ∈ ids') -> cancel_book b ids = cancel_book b ids'.
Proof.
  intros Hw He. pose proof (cancel_book_wf ids b Hw) as H1. pose proof (cancel_book_wf ids' b Hw) as H2.
  assert (forall s, levels s (cancel_book b ids) = levels s (cancel_book b ids')) as Hs.
  { intros s. apply (flat_inj s); [by apply book_wf_side..|].
    change (queue s (cancel_book b ids) = queue s (cancel_book b ids')). rewrite !cancel_book_queue by done.
    apply list_filter_iff. intros o. by rewrite He. }
  apply book_wf_ext; [done|done|apply (Hs BID)|apply (Hs ASK)].
Qed.

Lemma cancel_book_strip ids b : cancel_book (strip_book b) ids = strip_book (cancel_book b ids).
Proof.
  revert b. induction ids as [|i ids IH]; intros b; [done|]. cbn [cancel_book foldl].
  rewrite cancelOrder_strip. apply IH.
Qed.

Lemma cancel_fold_book ids k : core_book (foldl cancel_one k ids) = cancel_book (core_book k) ids.
Proof.
  revert k. induction ids as [|i ids IH]; intros k; [done|]. cbn [cancel_book foldl].
  fold (cancel_book (cancelOrder i (core_book k)).2 ids). rewrite IH. f_equal.
  unfold cancel_one. destruct (processOrder _ _) as [r [b' ts]] eqn:E. by apply process_cancel_book in E.
Qed.

Lemma cancel_fold_rest ids k :
  shrinks (tables_ k) (tables_ (foldl cancel_one k ids)) /\
  last_trade_ticks_ (foldl cancel_one k ids) = last_trade_ticks_ k /\
  next_exchange_id_ (foldl cancel_one k ids) = next_exchange_id_ k.
Proof.
  revert k. induction ids as [|i ids IH]; intros k; [done|]. cbn [foldl].
  destruct (IH (cancel_one k i)) as (H1 & -> & ->). unfold cancel_one in *.
  destruct (processOrder _ _) as [r e]. split; [|done]. etrans; [|exact H1]. apply forget_shrinks.
Qed.

Definition vcancel_all (v : SimpleBook) (ids : list Z) : SimpleBook := foldl (fun v id => (vcancel id v).2) v ids.

Lemma vcancel_all_stands_for ids v b :
  book_wf b -> stands_for v b -> stands_for (vcancel_all v ids) (cancel_book b ids).
Proof.
  revert v b. induction ids as [|i ids IH]; intros v b Hw Hv; [done|]. cbn [cancel_book vcancel_all foldl].
  apply IH; [by apply cancelOrder_wf|]. destruct (order_loc_ b !! i) eqn:E.
  - by apply vcancel_stands_for.
  - rewrite (vcancel_absent v b), cancelOrder_miss by done. done.
Qed.

Lemma vcancel_rest id v :
  last_trade_ (vcancel id v).2 = last_trade_ v /\ vmeta (vcancel id v).2 = vmeta v.
Proof. unfold vcancel. repeat case_match; cbn; try done. all: by destruct (side_of_bool _). Qed.

Lemma vcancel_all_rest ids v :
  last_trade_ (vcancel_all v ids) = last_trade_ v /\ vmeta (vcancel_all v ids) = vmeta v /\
  book_tags (vcancel_all v ids) ⊆ book_tags v.
Proof.
  revert v. induction ids as [|i ids IH]; intros v; [done|]. cbn [vcancel_all foldl].
  destruct (IH (vcancel i v).2) as (H1 & H2 & H3). destruct (vcancel_rest i v) as [H4 H5].
  unfold vcancel_all in *. rewrite H1, H2. split_and!; [done|done|]. etrans; [exact H3|apply vcancel_tags].
Qed.

(** Both find the same orders of a session. *)
Lemma session_ids_agree st k s id :
  core_inv k -> mirrors st k -> id ∈ ids_of_session s st.1 <-> id ∈ session_ids s (tables_ k).
Proof.
  intros Hk Hm. unfold session_ids. rewrite elem_of_elements, (tw_sessions _ _ (ci_tables k Hk)).
  unfold ids_of_session. fold (vall st.1). rewrite list_elem_of_fmap. split.
  - intros (o & -> & [Hs Ho]%list_elem_of_filter).
    assert (is_Some (owner_of_ (tables_ k) !! v_id o)) as [s' Hs'].
    { apply (ci_tables k Hk), (vall_resting st k Hk Hm). by apply list_elem_of_fmap_2. }
    assert (owners_ st.1 !! v_id o = Some s) as He.
    { apply (mi_tags _ _ Hm). rewrite <- Hs. unfold book_tags, tags, deque_tags. rewrite <- fmap_app.
      by apply (list_elem_of_fmap_2 tag _ o). }
    pose proof (lookup_weaken _ _ _ _ Hs' (mi_owner _ _ Hm)). congruence.
  - intros Ho. assert (id ∈ (v_id <$> vall st.1)) as (o & -> & Hin)%list_elem_of_fmap.
    { apply (vall_resting st k Hk Hm), (ci_tables k Hk). by rewrite Ho. }
    exists o. split; [done|]. apply list_elem_of_filter. split; [|done].
    pose proof (lookup_weaken _ _ _ _ Ho (mi_owner _ _ Hm)) as H1.
    assert (owners_ st.1 !! v_id o = Some (v_session o)) as H2; [|congruence].
    apply (mi_tags _ _ Hm). unfold book_tags, tags, deque_tags. rewrite <- fmap_app.
    by apply (list_elem_of_fmap_2 tag _ o).
Qed.

Lemma cancel_all_mirrors st m c :
  core_inv (core_ m) -> mirrors st (core_ m) ->
  mirrors (vcancel_all st.1 (ids_of_session (c_session c) st.1), st.2) (core_ (apply_cancel_all c m)).
Proof.
  intros Hk Hm. set (k := core_ m) in *. pose proof Hm as [H1 H2 H3 H4 H5 H6 H7].
  rewrite cancel_all_core. cbv zeta. fold k. set (ids := session_ids (c_session c) (tables_ k)).
  set (vids := ids_of_session (c_session c) st.1).
  pose proof (book_wf_strip _ (proj1 (ci_engine k Hk))) as Hw.
  pose proof (vcancel_all_stands_for vids _ _ Hw H1) as Hb. rewrite cancel_book_strip in Hb.
  rewrite (cancel_book_ext vids ids) in Hb.
  2: { apply (ci_engine k Hk). } 2: { intros id. by apply session_ids_agree. }
  rewrite <- cancel_fold_book in Hb.
  destruct (vcancel_all_rest vids st.1) as (E1 & E2 & E3). injection E2 as E2 E4.
  destruct (cancel_fold_rest ids k) as ([S1 S2] & L1 & L2).
  split; cbn [fst snd]; rewrite ?E1, ?E2, ?E4; try done.
  - by rewrite H2, <- L1.
  - by rewrite H3, <- L2.
  - etrans; [exact S1|done].
  - etrans; [exact S2|done].
  - intros i s Hi. by apply H6, E3.
Qed.

(** ** Commands *)

Section dispatch.
Context (v : SimpleBook) (n : Z) (m : MatchingThread) (c : OrderCommand).
Let k := core_ m.
Hypothesis Ht : tidy k.
Hypothesis Hm : mirrors (v, n) k.
Hypothesis Hc : command_ok c.
Hypothesis Hs : small_names c.
Hypothesis Hroom : id_room k.

Let id := find_by_client (c_session c) (c_client_order_id c) v.
Let xoid := find_order (c_session c) (c_client_order_id c) (tables_ k).

Lemma found_live : live_id id v = true -> xoid = id.
Proof. destruct Ht. by apply (find_live (v, n)). Qed.

Lemma found_nothing : id = 0 \/ named_live (c_session c) (c_client_order_id c) v = false -> xoid = 0.
Proof. destruct Ht, Hs. by apply (find_none (v, n)). Qed.

(** The side of a live order. *)
Lemma live_side o : core_orders k !! id = Some o -> is_bid id v = Some (is_bid_side (o_side o)).
Proof.
  intros Ho. apply order_map_lookup in Ho as [Ho He].
  destruct (ci_engine k (td_inv k Ht)) as ((_ & _ & Hn & Hl) & _).
  assert (order_loc_ (core_book k) !! id = Some (o_side o, o_price_ticks o)) as Hloc.
  { rewrite Hl, <- He. apply elem_of_list_to_map_1; [by rewrite key_fst|]. by apply (list_elem_of_fmap_2 key _ o). }
  unfold is_bid. pose proof (sf_loc _ _ (mi_book _ _ Hm) _ _ _ Hloc) as E. cbn [fst] in E. by rewrite E.
Qed.

(** Cancelling an id that does not rest. *)
Lemma vcancel_gone i : live_id i v = false -> vcancel i v = (false, v).
Proof.
  intros Hl. pose proof (td_inv k Ht) as Hk.
  apply (vcancel_absent v (strip_book (core_book k))); [apply book_wf_strip, (ci_engine k Hk)|apply Hm|].
  apply eq_None_not_Some. rewrite <- loc_resting by done. intros Hr.
  apply (live_id_resting (v, n) k Hk Hm) in Hr. cbn [fst] in Hr. congruence.
Qed.

Lemma not_live_zero : live_id 0 v = false.
Proof.
  apply not_true_iff_false. intros H. apply (live_id_resting (v, n) k (td_inv k Ht) Hm) in H.
  pose proof (ci_ids k (td_inv k Ht) 0 H). lia.
Qed.

Lemma cancel_command_mirrors :
  c_type c = CmdCancel -> misled c v = false ->
  mirrors (apply (risk_ m) (v, n) c) (core_ (apply_cancel c m)).
Proof.
  intros Hty Hmis. pose proof (td_inv k Ht) as Hk. unfold apply, misled in *. rewrite Hty in *. fold id in Hmis |- *.
  destruct (live_id id v) eqn:El.
  - pose proof (found_live El) as Hx.
    assert (id <> 0) as Hne by (intros He; rewrite He in El; by rewrite not_live_zero in El).
    rewrite (proj2 (Z.eqb_neq _ _)) by done. cbn [negb].
    destruct (apply_cancel_core c m Hk) as [[Hz _]|(Hres & b' & [_ ->] & _ & -> & _)].
    + fold k xoid in Hz. congruence.
    + fold k xoid in Hres |- *. rewrite Hx in Hres |- *. by apply (cancel_mirrors (v, n)).
  - assert (xoid = 0) as Hx.
    { apply found_nothing. destruct (Z.eqb_spec id 0); [by left|]. right. exact Hmis. }
    destruct (apply_cancel_core c m Hk) as [[_ ->]|(Hres & _)].
    2: { fold k xoid in Hres. rewrite Hx in Hres. pose proof (ci_ids k Hk 0 Hres). lia. }
    destruct (negb (id =? 0)); [by rewrite vcancel_gone|done].
Qed.

Lemma modify_command_mirrors :
  c_type c = CmdModify -> misled c v = false ->
  mirrors (apply (risk_ m) (v, n) c) (core_ (apply_modify c m)).
Proof.
  intros Hty Hmis. pose proof (td_inv k Ht) as Hk. unfold apply, misled in *. rewrite Hty in *. fold id in Hmis |- *.
  destruct (Z.eqb_spec id 0) as [Hz|Hne].
  - assert (xoid = 0) as Hx by (apply found_nothing; by left).
    destruct (apply_modify_core c m Hk) as [[_ ->]|(o & _ & _ & Ho & _)]; [done|].
    fold k xoid in Ho. rewrite Hx in Ho. pose proof (ci_ids k Hk 0 ltac:(by rewrite Ho)). lia.
  - cbn [negb andb] in Hmis. apply negb_false_iff in Hmis. pose proof (found_live Hmis) as Hx.
    destruct (apply_modify_core c m Hk) as [[Hz _]|(o & b' & m' & Ho & [_ ->] & _ & He & Hinv & Hr%(f_equal risk_) & ->)];
      [fold k xoid in Hz; congruence|].
    fold k xoid in Ho, He. rewrite Hx in Ho, He. rewrite (live_side o Ho).
    assert (mirrors ((vcancel id v).2, n) (core_ m')) as Hm'.
    { rewrite He. apply (cancel_mirrors (v, n)); [done|done|by rewrite Ho]. }
    change (risk_ m' = risk_ m) in Hr. rewrite <- Hr. replace (mkCommand _ _ _ _ _ _ _ _ _) with (replacement_of c (o_side o))
      by (unfold replacement_of; by destruct (o_side o)).
    apply apply_new_mirrors; [done|done| |done]. unfold id_room. by rewrite He.
Qed.

Lemma dispatch_mirrors : misled c v = false -> mirrors (apply (risk_ m) (v, n) c) (core_ (dispatch c m)).
Proof.
  intros Hmis. unfold dispatch. destruct (c_type c) eqn:Hty.
  - unfold apply. by rewrite Hty.
  - unfold apply. rewrite Hty. destruct Ht. by apply apply_new_mirrors.
  - by apply cancel_command_mirrors.
  - by apply modify_command_mirrors.
  - unfold apply. rewrite Hty. by rewrite (core_proper _ _ (apply_subscribe_same c m)).
  - unfold apply. rewrite Hty. destruct Ht. by apply (cancel_all_mirrors (v, n)).
Qed.

End dispatch.

(** ** Replays *)

Fixpoint fresh_replay (m : MatchingThread) (cs : list OrderCommand) : bool :=
  match cs with
  | [] => true
  | c :: cs => id_fresh c (core_ m) && fresh_replay (dispatch c m) cs
  end.

Fixpoint never_misled (risk : RiskConfig) (st : SimpleBook * Z) (cs : list OrderCommand) : bool :=
  match cs with
  | [] => true
  | c :: cs => negb (misled c st.1) && never_misled risk (apply risk st c) cs
  end.

Lemma fresh_replay_proper cs m m' : same m m' -> fresh_replay m cs = fresh_replay m' cs.
Proof.
  revert m m'. induction cs as [|c cs IH]; intros m m' H; [done|]. cbn [fresh_replay].
  rewrite (proj1 H). f_equal. by apply IH, dispatch_proper.
Qed.

Lemma ids_fresh_replay ps m first cs :
  live m first cs -> writes_ok ps -> numbered first (length cs + length ps) ->
  ids_fresh m ps = true -> fresh_replay m (logged ps) = true.
Proof.
  intros Hlive Hio. revert m cs Hlive. induction Hio as [|p ps Hp Hio IH]; intros m cs Hlive Hn Hf; [done|].
  cbn [ids_fresh length] in *. apply andb_true_iff in Hf as [Hf1 Hf2]. unfold numbered in *.
  destruct (apply_live p.1 p.2 m first cs Hlive) as [Hl Hsame]; [unfold numbered; lia|done|].
  specialize (IH _ _ Hl). cbn [logged]. destruct (is_loggable (c_type p.2)).
  - cbn [fresh_replay]. rewrite Hf1. rewrite <- (fresh_replay_proper _ _ _ Hsame). apply IH; [|done].
    rewrite length_app. simpl. lia.
  - rewrite <- (fresh_replay_proper _ _ _ Hsame). apply IH; [lia|done].
Qed.

Lemma replay_mirrors cs risk st m :
  tidy (core_ m) -> mirrors st (core_ m) -> risk_ m = risk ->
  Forall command_ok cs -> Forall small_names cs ->
  next_exchange_id_ (core_ m) + Z.of_nat (length cs) < 2 ^ 64 ->
  fresh_replay m cs = true -> never_misled risk st cs = true ->
  mirrors (foldl (apply risk) st cs) (core_ (replay m cs)) /\ tidy (core_ (replay m cs)).
Proof.
  intros Ht Hm Hr Hok. revert st m Ht Hm Hr. induction Hok as [|c cs Hc Hok IH]; intros st m Ht Hm Hr Hsm Hn Hf Hmis;
    [done|].
  apply Forall_cons in Hsm as [Hs Hsm]. cbn [fresh_replay never_misled length replay foldl] in *.
  apply andb_true_iff in Hf as [Hf1 Hf2]. apply andb_true_iff in Hmis as [Hm1%negb_true_iff Hm2].
  destruct (dispatch_tidy c m Ht Hc Hs) as [Ht' Hn']; [unfold id_room; lia|done|].
  apply IH; [done| |rewrite <- Hr; apply dispatch_frame|done|lia|done|done].
  rewrite <- Hr. destruct st as [v n]. apply dispatch_mirrors; try done. unfold id_room. lia.
Qed.

(** ** Loading a snapshot *)

Lemma load_stands_for t os b v :
  book_wf b -> stands_for v b -> Forall (fun o => o_type o = LIMIT /\ is_u32 (o_quantity o)) os ->
  NoDup (o_id <$> (all_orders b ++ os)) ->
  stands_for (foldl load_order v (export_order t <$> os)) (add_orders (strip <$> os) b).
Proof.
  revert b v. induction os as [|o os IH]; intros b v Hw Hv Hos Hn; [done|].
  apply Forall_cons in Hos as [[Hty Hq] Hos]. cbn [fmap list_fmap foldl add_orders].
  assert ((o_id o ∉ (o_id <$> all_orders b)) /\ NoDup (o_id <$> ((o :: all_orders b) ++ os))) as [Hf Hn'].
  { rewrite !fmap_app, fmap_cons in Hn. rewrite fmap_app, fmap_cons. split.
    - apply NoDup_app in Hn as (_ & Hd & _). intros Hin. apply (Hd _ Hin). by left.
    - change ((o_id o :: (o_id <$> all_orders b)) ++ (o_id <$> os)) with (o_id o :: ((o_id <$> all_orders b) ++ (o_id <$> os))).
      by rewrite Permutation_middle. }
  assert (stands_for (load_order v (export_order t o)) (addOrder (strip o) b)) as Hv'.
  { unfold load_order. cbn [export_order so_exchange_id so_session so_client_order_id so_price_ticks so_quantity so_side].
    replace ((match o_side o with BID => 0 | ASK => 1 end) =? 0) with (is_bid_side (o_side o)) by by destruct (o_side o).
    set (vo := mkV _ _ _ _). replace (strip o) with (to_order (o_side o) (o_price_ticks o) vo)
      by (unfold strip, to_order; cbn; by rewrite Hty).
    apply add_stands_for; [done|by destruct Hv|done]. }
  apply IH; [by apply addOrder_wf|done|done|]. rewrite fmap_app, addOrder_all_orders by done.
  rewrite <- fmap_app. exact Hn'.
Qed.

Lemma load_owners sos v :
  owners_ (foldl load_order v sos) = insert_all so_exchange_id so_session sos (owners_ v) /\
  client_ids_ (foldl load_order v sos) = insert_all so_exchange_id so_client_order_id sos (client_ids_ v) /\
  book_tags (foldl load_order v sos) ⊆ ((fun so => (so_exchange_id so, so_session so)) <$> sos) ++ book_tags v.
Proof.
  revert v. induction sos as [|so sos IH]; intros v; [done|]. cbn [foldl insert_all].
  destruct (IH (load_order v so)) as (H1 & H2 & H3).
  assert (owners_ (load_order v so) = <[so_exchange_id so := so_session so]> (owners_ v) /\
    client_ids_ (load_order v so) = <[so_exchange_id so := so_client_order_id so]> (client_ids_ v)) as [E1 E2]
    by (unfold load_order, add; by destruct (side_of_bool _)).
  rewrite E1 in H1. rewrite E2 in H2. split_and!; [exact H1|exact H2|]. etrans; [exact H3|].
  assert (book_tags (load_order v so) ⊆ (so_exchange_id so, so_session so) :: book_tags v) as H4.
  { unfold load_order. etrans; [apply add_tags|]. done. }
  intros x. rewrite elem_of_app, fmap_cons. intros [Hx|Hx%H4]; apply elem_of_app.
  - left. by right.
  - apply elem_of_cons in Hx as [->|Hx]; [left; by left|by right].
Qed.

Lemma load_mirrors k seq :
  tidy k -> mirrors (set_last_trade (last_trade_ticks_ k) (foldl load_order simple_book0 (sd_orders (export_snapshot seq k))),
                     next_exchange_id_ k) k.
Proof.
  intros [Hk Hkeys _]. pose proof (ci_engine k Hk) as (Hw & _). cbn [export_snapshot sd_orders].
  fold (core_book k). set (os := all_orders (core_book k)). set (sos := export_order (tables_ k) <$> os).
  destruct (load_owners sos simple_book0) as (H1 & H2 & H3).
  change (owners_ simple_book0) with (∅ : gmap Z Z) in H1. change (client_ids_ simple_book0) with (∅ : gmap Z Z) in H2.
  rewrite (insert_all_exports k Hk (owner_of_ (tables_ k))) in H1 by (apply (ci_tables k Hk) || apply (exported_owner k Hk)).
  rewrite (insert_all_exports k Hk (client_id_of_ (tables_ k))) in H2 by (apply (ci_tables k Hk) || apply (exported_client k Hk)).
  split; cbn [fst snd].
  - apply set_last_stands_for. rewrite <- (add_orders_rebuild (strip_book (core_book k))) by by apply book_wf_strip.
    rewrite all_orders_strip. apply load_stands_for.
    + apply book_wf_empty.
    + split; [by intros []|done].
    + apply Forall_forall. intros o Ho. split; [by apply (all_orders_limit (core_book k))|by apply (all_orders_u32 (core_book k))].
    + apply Hw.
  - done.
  - done.
  - change (owners_ (set_last_trade _ ?v)) with (owners_ v). by rewrite H1.
  - change (client_ids_ (set_last_trade _ ?v)) with (client_ids_ v). by rewrite H2.
  - intros id s Hi. change (owners_ (set_last_trade _ ?v)) with (owners_ v). rewrite H1. apply H3 in Hi.
    rewrite app_nil_r in Hi. apply list_elem_of_fmap in Hi as (so & [= -> ->] & Hso). by apply (exported_owner k Hk).
  - intros id Hi. change (owners_ (set_last_trade _ ?v)) with (owners_ v) in Hi. rewrite H1 in Hi.
    apply (ci_ids k Hk), (ci_tables k Hk), Hi.
Qed.

(** ** Results *)

Lemma mix_eq : verify.mix = OrderBook.mix.
Proof. unfold verify.mix, OrderBook.mix, kFnvPrime, OrderBook.kFnvPrime. reflexivity. Qed.

Lemma digest_mirrors st k : mirrors st k -> digest st.1 = OrderBook.digest (core_book k).
Proof.
  intros Hm. pose proof (sf_side _ _ (mi_book _ _ Hm)) as Hs. pose proof (Hs BID) as Hb. pose proof (Hs ASK) as Ha.
  cbn [levels vside strip_book bids_ asks_] in Hb, Ha.
  assert (forall s h tag (ls : list PriceLevel) vs, strip_levels ls = to_levels s vs ->
    mix_side h vs tag = digest_side tag ls h) as H.
  { intros s h tag ls vs He. unfold mix_side, digest_side.
    rewrite mix_eq. assert (length vs = length ls) as ->.
    { apply (f_equal length) in He. unfold strip_levels, to_levels in He. by rewrite !length_fmap in He. }
    generalize (OrderBook.mix (OrderBook.mix h tag) (Z.of_nat (length ls))).
    revert vs He. induction ls as [|pl ls IH]; intros [|[p dq] vs] He h'; try done.
    pose proof (f_equal head He) as Hh. pose proof (f_equal tail He) as Htl. cbn in Hh, Htl.
    injection Hh as E1 E2 E3. cbn [foldl fst snd]. rewrite E1, E2.
    assert (length dq = length (orders pl)) as ->.
    { apply (f_equal length) in E3. by rewrite !length_fmap in E3. }
    by apply IH. }
  unfold digest, OrderBook.digest. by rewrite (H BID _ _ _ _ Hb), (H ASK _ _ _ _ Ha).
Qed.

Lemma sane_mirrors st k : core_inv k -> mirrors st k -> sane st.1 = true.
Proof.
  intros Hk Hm. pose proof (mi_book _ _ Hm) as Hv. destruct (ci_engine k Hk) as (Hw & Hx & Hpos).
  assert (forall s, forallb level_sane (vside s st.1) = true) as Hl.
  { intros s. apply forallb_forall. intros [p dq] Hin%list_elem_of_In.
    pose proof (book_wf_side _ s (book_wf_strip _ Hw)) as [_ Hf]. rewrite (sf_side _ _ Hv s) in Hf.
    rewrite Forall_forall in Hf. assert (level_wf s (to_level s (p, dq))) as (Hne & _).
    { apply Hf. by apply (list_elem_of_fmap_2 (to_level s) _ (p, dq)). }
    unfold level_sane. cbn [snd]. apply andb_true_iff. split; [by destruct dq|].
    apply forallb_forall. intros o Ho%list_elem_of_In.
    assert (0 < v_quantity o); [|lia]. assert (to_order s p o ∈ all_orders (strip_book (core_book k))) as Hall.
    { rewrite (all_orders_perm s). apply elem_of_app. left. unfold queue, flat. rewrite (sf_side _ _ Hv s).
      apply list_elem_of_bind. exists (to_level s (p, dq)). split.
      - by apply (list_elem_of_fmap_2 (to_order s p) _ o).
      - by apply (list_elem_of_fmap_2 (to_level s) _ (p, dq)). }
    rewrite all_orders_strip in Hall. apply list_elem_of_fmap in Hall as (x & He & Hx').
    unfold positive in Hpos. rewrite Forall_forall in Hpos. specialize (Hpos _ Hx').
    apply (f_equal o_quantity) in He. cbn in He. lia. }
  unfold sane. rewrite (Hl BID : forallb level_sane (bids st.1) = true), (Hl ASK : forallb level_sane (asks st.1) = true).
  rewrite !andb_true_r. destruct (best_stands_for _ _ Hv) as [-> ->].
  rewrite <- is_crossed_strip in Hx. unfold is_crossed in Hx. unfold best_bid_ticks, best_ask_ticks.
  destruct (bids_ (strip_book (core_book k))), (asks_ (strip_book (core_book k))); try done. cbn. lia.
Qed.

Lemma apply_without_pointers risk st c : apply risk st (without_pointers c) = apply risk st c.
Proof. unfold apply. destruct st as [v n], c as [ty]. by destruct ty. Qed.

Lemma misled_without_pointers c v : misled (without_pointers c) v = misled c v.
Proof. done. Qed.

Lemma fold_without_pointers risk st cs :
  foldl (apply risk) st (without_pointers <$> cs) = foldl (apply risk) st cs.
Proof.
  revert st. induction cs as [|c cs IH]; intros st; [done|]. cbn [fmap list_fmap foldl].
  by rewrite apply_without_pointers.
Qed.

(** The replay loop applies what the snapshot does not cover. *)
Lemma replay_from_pending risk from seq cs st n :
  replay_from risk from seq cs st n =
  (foldl (apply risk) st (pending_from true from seq cs), (n + length (pending_from true from seq cs))%nat).
Proof.
  revert seq st n. induction cs as [|c cs IH]; intros seq st n; cbn [replay_from pending_from].
  { by rewrite Nat.add_0_r. }
  cbn [negb orb]. destruct (from <? seq); rewrite IH; [|done]. cbn [foldl length]. by rewrite Nat.add_succ_r.
Qed.

Lemma never_misled_take risk st cs n :
  never_misled risk st cs = true -> never_misled risk st (take n cs) = true.
Proof.
  revert st n. induction cs as [|c cs IH]; intros st [|n]; try done. cbn [never_misled take].
  intros [-> H]%andb_true_iff. by apply IH.
Qed.

Lemma fresh_replay_take m cs n : fresh_replay m cs = true -> fresh_replay m (take n cs) = true.
Proof.
  revert m n. induction cs as [|c cs IH]; intros m [|n]; try done. cbn [fresh_replay take].
  intros [-> H]%andb_true_iff. by apply IH.
Qed.

Lemma core_sim_digest k k' : core_sim k k' -> OrderBook.digest (core_book k) = OrderBook.digest (core_book k').
Proof.
  intros [He _ _ _]. assert (forall b, OrderBook.digest b = OrderBook.digest (strip_book b)) as Hd.
  { intros b. unfold OrderBook.digest, digest_side. cbn [strip_book bids_ asks_].
    assert (forall ls h, foldl (fun h lvl => OrderBook.mix (OrderBook.mix (OrderBook.mix h (u64 (lvl_price_ticks lvl)))
      (total_qty lvl)) (Z.of_nat (length (orders lvl)))) h (strip_levels ls) =
      foldl (fun h lvl => OrderBook.mix (OrderBook.mix (OrderBook.mix h (u64 (lvl_price_ticks lvl)))
      (total_qty lvl)) (Z.of_nat (length (orders lvl)))) h ls) as Hf.
    { induction ls as [|pl ls IH]; intros h; [done|].
      cbn [strip_levels fmap list_fmap foldl]. rewrite <- IH. cbn [strip_level lvl_price_ticks total_qty orders].
      by rewrite length_fmap. }
    rewrite !Hf. unfold strip_levels. by rewrite !length_fmap. }
  rewrite (Hd (core_book k)), (Hd (core_book k')). f_equal. by apply (f_equal book_) in He.
Qed.

(** Verifying a log cut at both ends, from a mirror of the state at record
    [length cs1]. *)
Lemma verify_tail risk m1 v n (cs1 cs2 : list OrderCommand) (j k : nat) :
  tidy (core_ m1) -> mirrors (v, n) (core_ m1) -> risk_ m1 = risk ->
  Forall command_ok (cs1 ++ cs2) -> Forall small_names cs2 ->
  next_exchange_id_ (core_ m1) + Z.of_nat (length cs2) < 2 ^ 64 ->
  1 + Z.of_nat (length (cs1 ++ cs2)) < 2 ^ 64 ->
  fresh_replay m1 cs2 = true -> never_misled risk (v, n) cs2 = true ->
  (j <= length cs1)%nat -> (k <= 47 * length (drop j (cs1 ++ cs2)))%nat ->
  let tl := drop (length cs1 - j) (take (k / 47) (drop j (cs1 ++ cs2))) in
  let rd := read_wal (Some (take k (log_bytes (1 + Z.of_nat j) (drop j (cs1 ++ cs2))))) in
  wr_error rd = false /\ wr_sequence_gap rd = false /\
  exists st, replay_from risk (Z.of_nat (length cs1)) (wr_first_seq rd) (wr_commands rd) (v, n) 0 = (st, length tl) /\
    sane st.1 = true /\ digest st.1 = OrderBook.digest (core_book (core_ (replay m1 tl))).
Proof.
  intros Ht Hm Hr Hok Hsm Hn Hlen Hf Hmis Hj Hk tl rd.
  assert (rd = clean_read (1 + Z.of_nat j) (take (k / 47) (drop j (cs1 ++ cs2))) (k mod 47)) as Hrd.
  { apply read_cut_log; [|done]. split; [|by apply Forall_drop]. unfold numbered.
    rewrite length_drop, length_app in *. lia. }
  rewrite Hrd, wr_error_clean, wr_gap_clean, wr_commands_clean. split; [done|]. split; [done|].
  assert (exists q, tl = take q cs2) as [q Htl].
  { exists (k / 47 - (length cs1 - j))%nat. unfold tl.
    rewrite skipn_firstn_comm, drop_drop. replace (j + (length cs1 - j))%nat with (length cs1) by lia.
    by rewrite drop_app_length. }
  assert (pending_from true (Z.of_nat (length cs1))
    (wr_first_seq (clean_read (1 + Z.of_nat j) (take (k / 47) (drop j (cs1 ++ cs2))) (k mod 47)))
    (without_pointers <$> take (k / 47) (drop j (cs1 ++ cs2))) = without_pointers <$> tl) as Hp.
  { unfold tl. destruct (take (k / 47) (drop j (cs1 ++ cs2))) as [|c l] eqn:E; [by rewrite drop_nil|].
    cbn [clean_read wr_first_seq]. rewrite (pending_drop (length cs1) j).
    - by rewrite fmap_drop.
    - done.
    - done.
    - rewrite length_fmap, <- E, length_take, length_drop. rewrite length_app in *. lia. }
  rewrite replay_from_pending, Hp, fold_without_pointers, length_fmap.
  destruct (replay_mirrors tl risk (v, n) m1) as [Hmm Htt]; try done.
  - rewrite Htl. apply Forall_take. by apply Forall_app in Hok as [_ ?].
  - rewrite Htl. by apply Forall_take.
  - rewrite Htl, length_take. lia.
  - rewrite Htl. by apply fresh_replay_take.
  - rewrite Htl. by apply never_misled_take.
  - eexists. split; [reflexivity|]. split; [by apply (sane_mirrors _ _ (td_inv _ Htt))|by apply digest_mirrors].
Qed.

Lemma fresh_replay_app m cs ds :
  fresh_replay m (cs ++ ds) = true -> fresh_replay m cs = true /\ fresh_replay (replay m cs) ds = true.
Proof.
  revert m. induction cs as [|c cs IH]; intros m H; [done|]. cbn [fresh_replay app replay foldl] in *.
  apply andb_true_iff in H as [-> H]. by apply IH.
Qed.

Lemma replay_tidy cs m :
  tidy (core_ m) -> Forall command_ok cs -> Forall small_names cs ->
  next_exchange_id_ (core_ m) + Z.of_nat (length cs) < 2 ^ 64 -> fresh_replay m cs = true ->
  tidy (core_ (replay m cs)) /\
  next_exchange_id_ (core_ (replay m cs)) <= next_exchange_id_ (core_ m) + Z.of_nat (length cs).
Proof.
  intros Ht Hok. revert m Ht. induction Hok as [|c cs Hc Hok IH]; intros m Ht Hsm Hn Hf; [split; [done|cbn; lia]|].
  apply Forall_cons in Hsm as [Hs Hsm]. cbn [fresh_replay length replay foldl] in *.
  apply andb_true_iff in Hf as [Hf1 Hf2].
  destruct (dispatch_tidy c m Ht Hc Hs) as [Ht' Hn']; [unfold id_room; lia|done|].
  destruct (IH _ Ht' Hsm) as [H1 H2]; [lia|done|]. split; [exact H1|].
  change (next_exchange_id_ (core_ (replay (dispatch c m) cs)) <= next_exchange_id_ (core_ m) + Z.of_nat (S (length cs))). lia.
Qed.

Lemma small_logged ps : Forall (fun p => small_names p.2) ps -> Forall small_names (logged ps).
Proof. induction 1; [constructor|]. cbn [logged]. destruct (is_loggable _); [by constructor|done]. Qed.

(** The logged commands of a prefix are a prefix of those of the run. *)
Lemma logged_take pre post : logged pre = take (length (logged pre)) (logged (pre ++ post)).
Proof. by rewrite logged_app, take_app_length. Qed.

Section verifier.
Context (risk : RiskConfig) (cfg : WalConfig) (now every_n : Z) (ps1 ps2 : list (Env * OrderCommand)).
Let ps := ps1 ++ ps2.
Let m0 := matching_thread0 risk (Some (wal_open [] now 0 cfg)) true every_n.
Let L := length (logged ps1).
Hypothesis Hio : writes_ok ps.
Hypothesis Hok : Forall (fun p => command_ok p.2) ps.
Hypothesis Hsm : Forall (fun p => small_names p.2) ps.
Hypothesis Hn : 1 + Z.of_nat (length ps) < 2 ^ 64.
Hypothesis Hids : ids_fresh m0 ps = true.

Definition taken : SnapshotData := export_snapshot (Z.of_nat L) (core_ (run m0 ps1)).

(** A prefix of the run, live and replayed. *)
Lemma prefix_live pre post :
  ps = pre ++ post -> live (run m0 pre) 1 (logged pre) /\ same (run m0 pre) (replay m0 (logged pre)).
Proof.
  intros He. rewrite He in Hio, Hn. apply Forall_app in Hio as [Hio' _]. rewrite length_app in Hn.
  apply (run_live pre m0 1 [] (live_fresh _ _ _ _ _) Hio'). unfold numbered. cbn [length]. lia.
Qed.

Lemma taken_tidy :
  tidy (core_ (replay m0 (logged ps1))) /\
  next_exchange_id_ (core_ (replay m0 (logged ps1))) <= 1 + Z.of_nat L /\
  fresh_replay (replay m0 (logged ps1)) (logged ps2) = true.
Proof.
  assert (fresh_replay m0 (logged ps) = true) as Hf.
  { apply (ids_fresh_replay ps m0 1 []); [apply live_fresh|done|unfold numbered; cbn [length]; lia|done]. }
  unfold ps in Hf. rewrite logged_app in Hf. apply fresh_replay_app in Hf as [Hf1 Hf2].
  pose proof Hok as Hok1. pose proof Hsm as Hsm1. unfold ps in Hok1, Hsm1.
  apply Forall_app in Hok1 as [Hok1 _]. apply Forall_app in Hsm1 as [Hsm1 _].
  pose proof (length_logged ps1). unfold ps in Hn. rewrite length_app in Hn.
  destruct (replay_tidy (logged ps1) m0 tidy_init) as [H1 H2];
    [by apply command_ok_logged|by apply small_logged|cbn; lia|done|].
  split; [done|]. split; [exact H2|done].
Qed.

Lemma taken_mirrors :
  mirrors (set_last_trade (sd_last_trade_ticks taken) (foldl load_order simple_book0 (sd_orders taken)),
           sd_next_exchange_id taken) (core_ (replay m0 (logged ps1))).
Proof.
  destruct taken_tidy as [Ht _]. destruct (prefix_live ps1 ps2 eq_refl) as [_ [Hs _]].
  unfold taken. rewrite Hs. by apply load_mirrors.
Qed.

(** Where a gateway restarted on the same files stands. *)
Lemma restarted_core (j k : nat) m :
  (j <= L)%nat -> (k <= 47 * length (drop j (logged ps)))%nat ->
  (exists pre post, ps = pre ++ post /\ length (logged pre) = Nat.max L (j + k / 47) /\
     core_sim (core_ m) (core_ (run m0 pre))) ->
  core_sim (core_ m) (core_ (replay (replay m0 (logged ps1)) (drop (L - j) (take (k / 47) (drop j (logged ps)))))).
Proof.
  intros Hj Hk (pre & post & He & Hl & Hsim). rewrite Hsim. destruct (prefix_live pre post He) as [_ [Hs _]].
  rewrite Hs, <- replay_app. pose proof (logged_take pre post) as Hp. rewrite <- He, Hl in Hp. rewrite Hp.
  unfold ps. rewrite logged_app. unfold L in *. by rewrite tail_behind.
Qed.

(** The snapshot step of the verifier, from the snapshot or from nothing. *)
Lemma start_mirrors snap :
  (snap = Some (snapshot_bytes taken) \/ snap = None /\ ps1 = []) ->
  exists v n, load_start (Some <$> snap) = (v, n, Z.of_nat L) /\
    mirrors (v, n) (core_ (replay m0 (logged ps1))).
Proof.
  intros [-> |[-> Hps]].
  - assert (snapshot_ok taken) as Hd.
    { pose proof Hok as H. unfold ps in H. apply Forall_app in H as [H _]. pose proof (length_logged ps1).
      unfold ps in Hn. rewrite length_app in Hn. apply run_export_fits; [done|lia|unfold is_u64, L; lia]. }
    cbn [fmap option_fmap option_map load_start]. rewrite (read_written _ _ Hd).
    eexists _, _. split; [reflexivity|apply taken_mirrors].
  - unfold L. rewrite Hps. eexists _, _. split; [reflexivity|apply mirrors_init].
Qed.

(** The gateway started on the same files. *)
Lemma start_restarts snap (j k : nat) :
  (snap = Some (snapshot_bytes taken) \/ snap = None /\ ps1 = []) ->
  (j <= L)%nat -> (k <= 47 * length (drop j (logged ps)))%nat ->
  exists m, gateway_start risk cfg now every_n true
      (mkFiles snap None (Some (take k (log_bytes (1 + Z.of_nat j) (drop j (logged ps)))))) = Some m /\
    core_sim (core_ m)
      (core_ (replay (replay m0 (logged ps1)) (drop (L - j) (take (k / 47) (drop j (logged ps)))))).
Proof.
  intros Hsnap Hj Hk. destruct Hsnap as [-> |[-> Hps]].
  - destruct (prefix_live ps1 ps2 eq_refl) as [(_ & w & Hw & _ & _ & Hseq) _]. cbn [app] in Hseq.
    assert (w_seq w = Z.of_nat L) as Hs by (unfold L; lia).
    destruct (restart_behind risk cfg now every_n ps1 ps2 w
      (mkFiles (Some (snapshot_bytes taken)) None (Some (take k (log_bytes (1 + Z.of_nat j) (drop j (logged ps)))))) j k)
      as (m & w' & pre & post & H1 & H2 & H3 & H4 & _); try done.
    + by apply (ids_fresh_app ps1 ps2).
    + rewrite Hs. pose proof Hok as H. unfold ps in H. apply Forall_app in H as [H _].
      pose proof (length_logged ps1). unfold ps in Hn. rewrite length_app in Hn.
      apply run_export_fits; [done|lia|unfold is_u64, L; lia].
    + left. rewrite Hs. done.
    + exists m. split; [exact H1|]. apply restarted_core; [done|done|].
      by exists pre, post.
  - assert (L = 0%nat) as HL by (unfold L; by rewrite Hps). assert (j = 0%nat) as -> by lia.
    rewrite !drop_0 in *.
    destruct (restart_log risk cfg now every_n ps k) as (m & w' & pre & post & H1 & H2 & H3 & H4 & _); try done.
    exists m. split; [exact H1|]. pose proof (restarted_core 0 k m) as Hr. rewrite !drop_0 in Hr. apply Hr; [lia|done|].
    exists pre, post. split_and!; [done|lia|by rewrite H4].
Qed.

End verifier.

(** ** Logs without market orders *)

(** Every order the location map knows rests in the book. *)
Definition located (v : SimpleBook) : Prop := forall id, is_Some (loc_ v !! id) -> id ∈ (v_id <$> vall v).

Lemma vorders_cons p dq vs : vorders ((p, dq) :: vs) = dq ++ vorders vs.
Proof. done. Qed.

Lemma elem_of_ids_cons p dq vs i :
  i ∈ (v_id <$> vorders ((p, dq) :: vs)) <-> i ∈ (v_id <$> dq) \/ i ∈ (v_id <$> vorders vs).
Proof. by rewrite vorders_cons, fmap_app, elem_of_app. Qed.

Lemma ids_push_back s px o vs id :
  id = v_id o \/ id ∈ (v_id <$> vorders vs) -> id ∈ (v_id <$> vorders (push_back s px o vs)).
Proof.
  induction vs as [|[p dq] vs IH]; [intros [->|[]%not_elem_of_nil]; by left|]. cbn [push_back].
  destruct (p =? px); [|destruct (beforeb s px p)]; rewrite !elem_of_ids_cons;
    rewrite ?fmap_app, ?elem_of_app, ?list_fmap_singleton, ?list_elem_of_singleton; tauto.
Qed.

Lemma ids_remove_from id dq dq' i :
  remove_from id dq = Some dq' -> i <> id -> i ∈ (v_id <$> dq) -> i ∈ (v_id <$> dq').
Proof.
  revert dq'. induction dq as [|o dq IH]; intros dq' H Hi; [by intros []%not_elem_of_nil|]. cbn [remove_from] in H.
  rewrite fmap_cons, elem_of_cons. destruct (Z.eqb_spec (v_id o) id); [simplify_eq; naive_solver|].
  destruct (remove_from id dq) as [l|]; [|done]. simplify_eq/=. rewrite elem_of_cons. naive_solver.
Qed.

Lemma ids_erase_from px id vs vs' i :
  verase_from px id vs = Some vs' -> i <> id -> i ∈ (v_id <$> vorders vs) -> i ∈ (v_id <$> vorders vs').
Proof.
  revert vs'. induction vs as [|[p dq] vs IH]; intros vs' H Hi; [done|]. cbn [verase_from] in H.
  rewrite elem_of_ids_cons. destruct (p =? px).
  - destruct (remove_from id dq) as [l|] eqn:E; [|done]. pose proof (ids_remove_from _ _ _ i E Hi) as Hr.
    destruct l as [|o l]; simplify_eq; [|rewrite elem_of_ids_cons; tauto].
    intros [H|H]; [by apply Hr, not_elem_of_nil in H|done].
  - destruct (verase_from px id vs) as [l|]; [|done]. injection H as <-. rewrite elem_of_ids_cons. naive_solver.
Qed.

Lemma ids_take_front qty vs vs' gone i :
  take_front qty vs = (vs', gone) -> gone <> Some i ->
  i ∈ (v_id <$> vorders vs) -> i ∈ (v_id <$> vorders vs').
Proof.
  destruct vs as [|[p [|o dq]] vs]; cbn [take_front]; [by intros [= <- <-]..|].
  destruct (_ =? 0); intros [= <- <-] Hg; rewrite elem_of_ids_cons, fmap_cons, elem_of_cons.
  - intros [[?|?]|?]; [congruence| |]; destruct dq; [by apply not_elem_of_nil in H| |done|];
      rewrite elem_of_ids_cons; tauto.
  - by rewrite elem_of_ids_cons, fmap_cons, elem_of_cons.
Qed.

Lemma ids_vall v i : i ∈ (v_id <$> vall v) <-> exists s, i ∈ (v_id <$> vorders (vside s v)).
Proof.
  unfold vall. rewrite fmap_app, elem_of_app. split; [intros [H|H]; [by exists BID|by exists ASK]|].
  intros [[] H]; tauto.
Qed.

Lemma located_add px is_bid o v : located v -> located (add px is_bid o v).
Proof.
  intros Hl i Hi. rewrite ids_vall. unfold add in *. cbn [with_vloc loc_] in Hi.
  destruct (decide (i = v_id o)) as [->|Hne].
  - exists (side_of_bool is_bid). destruct is_bid; cbn; apply ids_push_back; by left.
  - rewrite lookup_insert_ne in Hi by congruence.
    assert (is_Some (loc_ v !! i)) as [s Hs]%Hl%ids_vall by (by destruct is_bid).
    exists s. destruct is_bid, s; cbn; try done; apply ids_push_back; by right.
Qed.

Lemma located_vcancel id v : located v -> located (vcancel id v).2.
Proof.
  intros Hl. unfold vcancel. destruct (loc_ v !! id) as [[px is_bid]|]; [|done].
  destruct (verase_from _ _ _) as [vs|] eqn:E; [|done]. intros i Hi. cbn in Hi.
  destruct (decide (i = id)) as [->|Hne]; [rewrite lookup_delete_eq in Hi; by destruct Hi|].
  rewrite lookup_delete_ne in Hi by congruence. apply Hl, ids_vall in Hi as [s Hs]. apply ids_vall.
  exists s. destruct is_bid, s; cbn in *; try done; by eapply ids_erase_from.
Qed.

Lemma vloc_erase_some gone m i : is_Some (vloc_erase gone m !! i) -> gone <> Some i /\ is_Some (m !! i).
Proof.
  destruct gone as [id|]; cbn; [|done]. destruct (decide (i = id)) as [->|Hne].
  - rewrite lookup_delete_eq. by intros [].
  - rewrite lookup_delete_ne by congruence. split; [congruence|done].
Qed.

Lemma located_cross fuel v : located v -> located (cross fuel v).
Proof.
  revert v. induction fuel as [|fuel IH]; intros v Hl; [done|]. cbn [cross].
  destruct (cross_step v) as [v'|] eqn:E; [|done]. apply IH. unfold cross_step in E.
  destruct (bids v) as [|[bp [|bo bq]] bs] eqn:Eb, (asks v) as [|[ap [|ao aq]] aa] eqn:Ea; try done.
  destruct (bp <? ap); [done|].
  destruct (take_front _ (_ :: bs)) as [bs' bg] eqn:Eb', (take_front _ (_ :: aa)) as [as' ag] eqn:Ea'.
  injection E as <-. intros i Hi. cbn [loc_] in Hi.
  apply vloc_erase_some in Hi as [Ha [Hb Hi]%vloc_erase_some]. apply Hl, ids_vall in Hi as [s Hs]. apply ids_vall.
  exists s. destruct s; cbn [vside bids asks] in *; rewrite ?Eb, ?Ea in Hs.
  - exact (ids_take_front _ _ _ _ _ Eb' Hb Hs).
  - exact (ids_take_front _ _ _ _ _ Ea' Ha Hs).
Qed.

Definition is_market (c : OrderCommand) : bool := match c_order_type c with protocol.Market => true | protocol.Limit => false end.

Lemma located_apply_new risk c st : is_market c = false -> located st.1 -> located (apply_new risk c st).1.
Proof.
  destruct st as [v n]. unfold is_market, apply_new. destruct (passes_risk _ _ _); cbn [negb]; [|done].
  destruct (c_order_type c); intros Hty Hl; [done|]. apply located_cross, located_add. exact Hl.
Qed.

(** Only a market order fills orders without forgetting where they were. *)
Lemma located_apply risk c st :
  (c_type c = CmdNewOrder -> is_market c = false) -> located st.1 -> located (apply risk st c).1.
Proof.
  intros Hc Hl. destruct st as [v n]. unfold apply. destruct (c_type c); try done.
  - by apply located_apply_new; [apply Hc|].
  - destruct (negb _); [by apply located_vcancel|done].
  - destruct (_ =? 0); [done|]. destruct (is_bid _ _); [|done].
    apply located_apply_new; [done|by apply located_vcancel].
  - cbn [fst]. generalize (ids_of_session (c_session c) v). intros ids. revert v Hl.
    induction ids as [|id ids IH]; intros v Hl; [done|]. apply IH. by apply located_vcancel.
Qed.

Lemma located_never_misled risk st cs :
  Forall (fun c => c_type c = CmdNewOrder -> is_market c = false) cs -> located st.1 ->
  never_misled risk st cs = true.
Proof.
  intros Hcs. revert st. induction Hcs as [|c cs Hc Hcs IH]; intros st Hl; [done|]. cbn [never_misled].
  rewrite IH by (by apply located_apply). rewrite andb_true_r. apply negb_true_iff.
  unfold misled. destruct (find_by_client_spec (c_session c) (c_client_order_id c) st.1) as [[H _]|H].
  - rewrite H. by destruct (c_type c).
  - apply names_true in H as (_ & _ & H). apply Hl in H. assert (live_id
      (find_by_client (c_session c) (c_client_order_id c) st.1) st.1 = true) as ->.
    { unfold live_id. apply existsb_exists. apply list_elem_of_fmap in H as (o & Ho & Hin).
      exists o. split; [by apply list_elem_of_In|]. rewrite Ho. apply Z.eqb_refl. }
    cbn [negb]. rewrite andb_false_r. by destruct (c_type c).
Qed.

Lemma located_start snap : located (load_start snap).1.1.
Proof.
  assert (located simple_book0) as H0 by (intros i [? H]; cbn in H; by rewrite lookup_empty in H).
  unfold load_start. destruct snap as [file|]; [|done]. destruct (read_snapshot file snapshot0) as [[]]; [done|].
  cbn [fst]. intros i. cbn [set_last_trade loc_]. revert i.
  change (located (foldl load_order simple_book0 (sd_orders s))).
  generalize simple_book0, H0. induction (sd_orders s) as [|o os IH]; intros v Hv; [done|].
  apply IH. unfold load_order. by apply located_add.
Qed.

(** ** Claims *)

(** C5: [verifier_agrees]. The independent verifier and the engine agree. Take
    the files of a run, a snapshot after any part of it (or none, with the
    whole log), the log truncated up to the snapshot and cut anywhere at its
    end: [wal_verify] accepts them, having applied exactly the commands past
    the snapshot, and prints the digest of the book a gateway started with
    [--recover] on the same files holds. The runs covered are those in which
    every write to the log succeeds, the fields of the commands fit their
    widths, there are fewer than 2^64 of them, session and client ids are below
    2^24 and 2^40 (so that the packed keys do not collide), no new order reuses
    a client id under which its session still has an order resting, and no
    command is misled by an order a market order filled. *)
Theorem verifier_agrees (risk : RiskConfig) (cfg : WalConfig) (now every_n : Z)
    (ps1 ps2 : list (Env * OrderCommand)) (snap : option (list Z)) (j k : nat) :
  let ps := ps1 ++ ps2 in
  let m0 := matching_thread0 risk (Some (wal_open [] now 0 cfg)) true every_n in
  writes_ok ps -> Forall (fun p => command_ok p.2) ps -> Forall (fun p => small_names p.2) ps ->
  1 + Z.of_nat (length ps) < 2 ^ 64 -> ids_fresh m0 ps = true ->
  (snap = Some (snapshot_bytes (export_snapshot (Z.of_nat (length (logged ps1))) (core_ (run m0 ps1)))) \/
   snap = None /\ ps1 = []) ->
  never_misled risk (load_start (Some <$> snap)).1 (logged ps2) = true ->
  (j <= length (logged ps1))%nat -> (k <= 47 * length (drop j (logged ps)))%nat ->
  let log := Some (take k (log_bytes (1 + Z.of_nat j) (drop j (logged ps)))) in
  exists m, gateway_start risk cfg now every_n true (mkFiles snap None log) = Some m /\
    wal_verify risk (Some <$> snap) log =
      Verified (j + k / 47 - length (logged ps1)) (OrderBook.digest (core_book (core_ m))).
Proof.
  intros ps m0 Hio Hok Hsm Hn Hids Hsnap Hmis Hj Hk log.
  destruct (start_restarts risk cfg now every_n ps1 ps2 Hio Hok Hn Hids snap j k Hsnap Hj Hk) as (m & Hg & Hsim).
  destruct (start_mirrors risk cfg now every_n ps1 ps2 Hio Hok Hsm Hn Hids snap Hsnap) as (v & n & Hv & Hm).
  destruct (taken_tidy risk cfg now every_n ps1 ps2 Hio Hok Hsm Hn Hids) as (Ht & Hnext & Hf).
  exists m. split; [exact Hg|]. unfold wal_verify. rewrite Hv in Hmis |- *. cbn [fst] in Hmis.
  pose proof (length_logged ps1). pose proof (length_logged ps2). fold m0 in Hm, Ht, Hnext, Hf, Hsim.
  unfold ps in Hn, Hk, Hsm, Hok. rewrite length_app in Hn. rewrite logged_app in Hk.
  destruct (verify_tail risk (replay m0 (logged ps1)) v n (logged ps1) (logged ps2) j k)
    as (He & Hgap & st & Hrep & Hsane & Hdig); try done.
  - apply replay_risk.
  - rewrite <- logged_app. by apply command_ok_logged.
  - apply Forall_app in Hsm as [_ ?]. by apply small_logged.
  - lia.
  - rewrite length_app. lia.
  - unfold log, ps. rewrite logged_app, He, Hgap, Hrep. destruct st as [b n']. cbn [fst] in *. rewrite Hsane.
    cbn [negb]. f_equal.
    + rewrite length_drop, length_take, length_drop. pose proof (Nat.div_mod_eq k 47).
      rewrite length_app in *. rewrite length_drop, length_app in Hk. lia.
    + rewrite Hdig. symmetry. apply core_sim_digest. unfold ps in Hsim. by rewrite logged_app in Hsim.
Qed.

Lemma verifier_agrees_witness :
  exists m, gateway_start risk_config0 wal_config0 0 0 true
      (mkFiles (f_previous surviving_files) None (f_wal surviving_files)) = Some m /\
    wal_verify risk_config0 (Some <$> f_previous surviving_files) (f_wal surviving_files) =
      Verified 1 (OrderBook.digest (core_book (core_ m))).
Proof.
  apply (verifier_agrees risk_config0 wal_config0 0 0 before_snapshot after_snapshot
    (f_previous surviving_files) 1 100).
  - repeat constructor.
  - repeat constructor; vm_compute; done.
  - repeat constructor; vm_compute; done.
  - reflexivity.
  - vm_compute. reflexivity.
  - left. reflexivity.
  - vm_compute. reflexivity.
  - vm_compute. lia.
  - vm_compute. lia.
Defined.
