(* ===== verification/System.v ===== *)
(** The two threads together: the network thread's handlers and the matching
    thread's [apply], interleaved, over the shared queues. The subject is the
    lifetime of a connection's queues: the matching thread holds raw pointers
    to them, the network thread frees them, and the SessionRetired tombstone is
    what keeps the one from outliving the other. *)
From stdpp Require Import base numbers gmap list.
From Stdlib Require Import ZArith Lia.
From S2P Require Import Prelude Types OrderBook BookFacts Engine Bytes Protocol FrameReader.
From S2P Require Import WriteBuffer Commands Wal Snapshot Egress RiskConfig Session TcpServer.
From S2P Require Import TcpProps MatchingThread Recovery Ownership CoreInv EventProps.
Import protocol tcp.

(** ** What the matching thread does to connections and queues *)

(** The event [e] waits on queue [p]. *)
Definition waiting (es : gmap Z EgressQueue) (p : Z) (e : OrderEvent) : Prop :=
  exists q, es !! p = Some q /\ e ∈ q_items q.

Definition has_tombstone (es : gmap Z EgressQueue) (p : Z) : Prop := exists e, waiting es p e /\ is_tombstone e.

Lemma has_tombstone_queue es p q : es !! p = Some q -> Exists is_tombstone (q_items q) -> has_tombstone es p.
Proof. intros Hq (e & He & Ht)%Exists_exists. exists e. split; [by exists q|done]. Qed.

(** The routing tables are kept, no queue appears or disappears, and a queue
    receives only events of the session it is registered for, no tombstone. *)
Record quiet (m m' : MatchingThread) : Prop := mkQuiet {
  qt_egress : egress_ m' = egress_ m;
  qt_md : md_ m' = md_ m;
  qt_dom : forall p, is_Some (egress_store m' !! p) <-> is_Some (egress_store m !! p);
  qt_dom_md : forall p, is_Some (md_store m' !! p) <-> is_Some (md_store m !! p);
  qt_events : forall p e, waiting (egress_store m') p e ->
    waiting (egress_store m) p e \/ ~ is_tombstone e /\ egress_for (e_session e) m = Some p;
}.

#[export] Instance quiet_preorder : PreOrder quiet.
Proof.
  split; [intros m; split; auto|]. intros m1 m2 m3 [E1 D1 A1 B1 T1] [E2 D2 A2 B2 T2].
  split; [congruence|congruence|..]; intros p; [by rewrite A2|by rewrite B2|].
  intros e He. destruct (T2 p e He) as [?|[H1 H2]]; [by apply T1|]. right. split; [done|].
  unfold egress_for in *. by rewrite <- E1.
Qed.

Lemma quiet_tombs m m' p : quiet m m' -> has_tombstone (egress_store m') p -> has_tombstone (egress_store m) p.
Proof. intros Hq (e & He & Ht). destruct (qt_events _ _ Hq p e He) as [?|[? _]]; [by exists e|done]. Qed.

(** Queues that are kept or replaced by shorter ones. *)
Lemma waiting_insert es p q q' p' e :
  es !! p = Some q -> waiting (<[p := q']> es) p' e -> waiting es p' e \/ p' = p /\ e ∈ q_items q'.
Proof.
  intros Hq (q0 & H0 & He). destruct (decide (p' = p)) as [->|Hne].
  - rewrite lookup_insert_eq in H0. simplify_eq. by right.
  - rewrite lookup_insert_ne in H0 by done. left. by exists q0.
Qed.

Lemma insert_dom {A} (st : gmap Z A) p x y :
  st !! p = Some x -> forall p', is_Some (<[p := y]> st !! p') <-> is_Some (st !! p').
Proof.
  intros Hp p'. destruct (decide (p' = p)) as [->|Hne]; [rewrite lookup_insert_eq, Hp; done|].
  by rewrite lookup_insert_ne.
Qed.

Lemma bounded_push_items {A} cap (x : A) l ok l' :
  bounded_push cap x l = (ok, l') -> l' = l \/ l' = l ++ [x].
Proof. unfold bounded_push. destruct (_ <? _); intros [= <- <-]; auto. Qed.

Lemma emit_quiet e m : ~ is_tombstone e -> quiet m (emit (egress_for (e_session e) m) e m).
Proof.
  intros He. unfold emit. destruct (replaying_ m); [done|]. destruct (egress_for _ m) as [p|] eqn:Hr; [|done].
  destruct (egress_store m !! p) as [q|] eqn:Hp; [|done].
  unfold egress_push. destruct (bounded_push _ _ _) as [ok l] eqn:Hb.
  set (q' := if ok then _ else _).
  assert (q_items q' = l) as Hq' by (unfold q'; by destruct ok).
  split; cbn; [done|done|by apply (insert_dom _ _ q)|done|].
  intros p' e' [?|[-> H]]%(waiting_insert _ _ q); [by left| |done]. rewrite Hq' in H.
  apply bounded_push_items in Hb as [->| ->]; [left; by exists q|].
  apply elem_of_app in H as [?|He'%list_elem_of_singleton]; [left; by exists q|subst e'; by right].
Qed.

(** The handlers emit on the queue they looked up before changing the core. *)
Lemma emit_quiet_from m e m1 : quiet m m1 -> ~ is_tombstone e -> quiet m (emit (egress_for (e_session e) m) e m1).
Proof.
  intros Hq He. etrans; [exact Hq|]. unfold egress_for. rewrite <- (qt_egress _ _ Hq). by apply emit_quiet.
Qed.

(** Anything else in the thread may change. *)
Lemma quiet_same m m' :
  egress_ m' = egress_ m -> md_ m' = md_ m -> egress_store m' = egress_store m -> md_store m' = md_store m ->
  quiet m m'.
Proof. intros E D A B. split; rewrite ?A, ?B; auto. Qed.

Ltac quiet_core := by apply quiet_same.

Lemma on_core_quiet f m : quiet m (on_core f m).
Proof. quiet_core. Qed.

Lemma publish_to_quiet snap m sub : quiet m (publish_to snap m sub).
Proof.
  unfold publish_to. destruct sub as [s depth]. destruct (md_ m !! s) as [[p|]|]; try done.
  destruct (md_store m !! p) as [q|] eqn:Hp; [|done]. destruct (md_push _ q) as [ok q'].
  split; cbn; auto. by apply (insert_dom _ _ q).
Qed.

Lemma publish_book_quiet m : quiet m (publish_book m).
Proof.
  unfold publish_book. destruct (replaying_ m); [done|]. destruct (bool_decide _); [done|]. cbv zeta.
  assert (forall subs snap m1, quiet m1 (foldl (publish_to snap) m1 subs)) as Hf.
  { induction subs as [|s subs IH]; intros snap m1; [done|]. cbn [foldl].
    etrans; [apply publish_to_quiet|apply IH]. }
  etrans; [|apply Hf]. quiet_core.
Qed.

Lemma publish_book_waiting m p e : waiting (egress_store (publish_book m)) p e <-> waiting (egress_store m) p e.
Proof. unfold waiting. change (egress_store ?x !! p) with (outbox p x). by rewrite publish_book_outbox. Qed.

Lemma route_fill_quiet x t m : quiet m (route_fill x t m).
Proof.
  unfold route_fill. destruct (owner_of_ _ !! x) as [s|]; [|done]. cbv zeta.
  match goal with |- context [emit ?eg ?ev ?m1] => assert (quiet m (emit eg ev m1)) as H end.
  { apply (emit_quiet_from m (ev_fill s _ _ _ _ _)); [quiet_core|done]. }
  destruct (_ =? 0); [|exact H]. etrans; [exact H|apply on_core_quiet].
Qed.

Lemma publish_trades_quiet from m : quiet m (publish_trades from m).
Proof.
  unfold publish_trades, clear_log. etrans; [|apply on_core_quiet].
  generalize (drop from (trade_log_ (engine_ (core_ m)))). intros ts. revert m.
  induction ts as [|t ts IH]; intros m; [done|]. cbn [foldl]. etrans; [|apply IH].
  unfold publish_trade. etrans; [|apply route_fill_quiet]. etrans; [|apply route_fill_quiet].
  apply on_core_quiet.
Qed.

Lemma apply_new_order_quiet c m : quiet m (apply_new_order c m).
Proof.
  unfold apply_new_order. destruct (negb _); [by apply (emit_quiet (ev_reject (c_session c) _ _))|]. cbv zeta.
  destruct (processOrder _ _) as [r e]. destruct (negb _).
  - apply (emit_quiet_from m (ev_reject (c_session c) _ _)); [quiet_core|done].
  - match goal with |- context [emit ?eg ?ev ?m1] => assert (quiet m (emit eg ev m1)) as H end.
    { apply (emit_quiet_from m (ev_ack (c_session c) _ _ _)); [quiet_core|done]. }
    destruct (o_type _); [etrans; [|apply on_core_quiet]|..];
      (etrans; [|apply publish_book_quiet]); (etrans; [exact H|apply publish_trades_quiet]).
Qed.

Lemma apply_cancel_quiet c m : quiet m (apply_cancel c m).
Proof.
  unfold apply_cancel. destruct (_ =? 0); [by apply (emit_quiet (ev_reject (c_session c) _ _))|].
  destruct (processOrder _ _) as [r e]. cbv zeta. destruct (negb _).
  - apply (emit_quiet_from m (ev_reject (c_session c) _ _)); [quiet_core|done].
  - etrans; [|apply publish_book_quiet]. apply (emit_quiet_from m (ev_ack (c_session c) _ _ _)); [quiet_core|done].
Qed.

Lemma apply_modify_quiet c m : quiet m (apply_modify c m).
Proof.
  unfold apply_modify. destruct (_ =? 0); [by apply (emit_quiet (ev_reject (c_session c) _ _))|]. cbv zeta.
  destruct (processOrder _ _) as [r e]. destruct (negb _).
  - apply (emit_quiet_from m (ev_reject (c_session c) _ _)); [quiet_core|done].
  - etrans; [|apply apply_new_order_quiet]. quiet_core.
Qed.

Lemma apply_subscribe_quiet c m : quiet m (apply_subscribe c m).
Proof.
  unfold apply_subscribe. cbv zeta. etrans; [|apply publish_book_quiet].
  apply (emit_quiet_from m (ev_ack (c_session c) _ _ _)); [quiet_core|done].
Qed.

(** ** The system *)

Record Sys := mkSys { conns : list Connection; net : Net; mt : MatchingThread }.

(** The matching thread sees the shared queues. *)
Definition attach (n : Net) (m : MatchingThread) : MatchingThread :=
  set_queues (book_seq_ m) (eg_store n) (mdq_store n) (stats_ m) m.

(** One turn of [MatchingThread::drain]: pop a command and apply it. *)
Definition match_one (env : Env) (s : Sys) : option Sys :=
  match inbound_ (net s) with
  | Some (cmd :: q) =>
      let m := MatchingThread.apply env cmd (attach (net s) (mt s)) in
      Some (mkSys (conns s)
        (set_stores (egress_store m) (md_store m) (set_inbound (Some q) (signals_ (net s)) (net s))) m)
  | _ => None
  end.

Section system.
Context (clock : nat -> Z) (cfg : TcpServerConfig) (waiter_set hook_set : bool).

Definition set_conn (i : nat) (c : Connection) (n : Net) (s : Sys) : Sys :=
  mkSys (<[i := c]> (conns s)) n (mt s).

(** Room for one more command. *)
Definition room (n : Net) : Prop :=
  exists q, inbound_ n = Some q /\ Z.of_nat (length q) < kInboundCapacity.

(** One handler of the network thread, or one command applied. A session is
    closed only while the inbound queue has room for its CancelAll. *)
Inductive sys_step : Sys -> Sys -> Prop :=
| Net_clock s : sys_step s (mkSys (conns s) (monotonic_now clock (net s)).2 (mt s))
| Net_pause t s : sys_step s (mkSys (conns s) (set_paused t (net s)) (mt s))
| Net_accept f s cs n :
    0 <= next_session_id_ (net s) < 2 ^ 64 - 1 ->
    accept_one clock cfg waiter_set f (conns s) (net s) = (cs, n) ->
    sys_step s (mkSys cs n (mt s))
| Net_timers now s : sys_step s (mkSys (service_timers now (conns s)) (net s) (mt s))
| Net_read i rs c c' n s :
    conns s !! i = Some c -> handle_readable clock cfg waiter_set rs c (net s) = (c', n) ->
    sys_step s (set_conn i c' n s)
| Net_write i ss c s :
    conns s !! i = Some c -> sys_step s (set_conn i (handle_writable ss c) (net s) s)
| Net_hangup i c s :
    conns s !! i = Some c -> sys_step s (set_conn i (close_now c) (net s) s)
| Net_drain_egress i c c' n s :
    conns s !! i = Some c -> drain_egress c (net s) = (c', n) -> sys_step s (set_conn i c' n s)
| Net_drain_md i c c' n s :
    conns s !! i = Some c -> drain_market_data c (net s) = (c', n) -> sys_step s (set_conn i c' n s)
| Net_close i s cs n :
    room (net s) -> close_connection waiter_set hook_set i (conns s) (net s) = (cs, n) ->
    sys_step s (mkSys cs n (mt s))
| Match env s s' : match_one env s = Some s' -> sys_step s s'.

(** ** References and the invariant *)

(** The matching thread holds [p] for session [x], or will once it has taken
    the command that registers it. *)
Definition refers (m : MatchingThread) (q : list OrderCommand) (x p : Z) : Prop :=
  egress_ m !! x = Some (Some p) \/ md_ m !! x = Some (Some p) \/
  exists cmd, cmd ∈ q /\ c_type cmd = CmdSessionOpened /\ c_session cmd = x /\
    (c_egress cmd = Some p \/ c_md_queue cmd = Some p).

Definition is_cancel_all (cmd : OrderCommand) : Prop := c_type cmd = CmdCancelAllForSession.

Definition conn_ok (n : Net) (c : Connection) : Prop :=
  conn_id c < next_session_id_ n /\ queues c < next_ptr n /\
  is_Some (eg_store n !! queues c) /\ is_Some (mdq_store n !! queues c).

Definition held (c : Connection) : Prop := state_ (c_session_ c) = Connected \/ retiring c = true.

(** No registration of a session waits behind the command that ends it. *)
Definition opens_before_ends (q : list OrderCommand) : Prop :=
  forall q1 c q2, q = q1 ++ c :: q2 -> is_cancel_all c ->
  forall d, d ∈ q2 -> c_type d = CmdSessionOpened -> c_session d <> c_session c.

Record life_inv (cs : list Connection) (n : Net) (m : MatchingThread) (q : list OrderCommand) : Prop :=
  mkLife {
  li_inbound : inbound_ n = Some q;
  li_conns : Forall (conn_ok n) cs;
  li_nodup : NoDup (queues <$> cs);
  li_refs : forall x p, refers m q x p -> exists c, c ∈ cs /\ conn_id c = x /\ queues c = p /\ held c;
  li_tombs : forall p, has_tombstone (eg_store n) p -> forall x, ~ refers m q x p;
  li_order : opens_before_ends q;
  li_ends : Forall (fun c => is_cancel_all c -> c_session c < next_session_id_ n) q;
}.

Definition safe (s : Sys) : Prop := exists q, life_inv (conns s) (net s) (mt s) q.

(** Appending commands that neither open nor end a session changes nothing. *)
Lemma refers_app m q cmds s x p :
  Forall (client_command s) cmds -> refers m (q ++ cmds) x p <-> refers m q x p.
Proof.
  intros Hc. unfold refers. split; (intros [?|[?|(cmd & Hin & Ht & H)]]; [by left|by right; left|]);
    right; right; exists cmd; (split; [|by split]).
  - apply elem_of_app in Hin as [?|Hin]; [done|].
    rewrite Forall_forall in Hc. destruct (Hc _ Hin) as [_ H']. by rewrite Ht in H'.
  - apply elem_of_app. by left.
Qed.

Lemma opens_before_ends_app q cmds s :
  Forall (client_command s) cmds -> opens_before_ends q -> opens_before_ends (q ++ cmds).
Proof.
  intros Hc Ho q1 c q2 He Hend d Hd Ht. rewrite Forall_forall in Hc.
  assert (forall e, e ∈ cmds -> c_type e <> CmdSessionOpened /\ ~ is_cancel_all e) as Hno.
  { intros e He'. destruct (Hc _ He') as [_ H]. unfold is_cancel_all. by destruct (c_type e). }
  apply app_eq_app in He as (l & [[-> He]|[-> He]]).
  - destruct l as [|c' l]; simplify_eq/=.
    + exfalso. apply (Hno c); [left|done].
    + apply elem_of_app in Hd as [Hd|Hd]; [|by destruct (Hno d Hd)].
      by apply (Ho q1 c' l).
  - exfalso. apply (Hno c); [|done]. subst. apply elem_of_app. right. left.
Qed.

Lemma held_same c c' : same_conn c c' -> held c -> held c'.
Proof. intros [? ? Hs Hr ?] [H|H]; [left|right]; congruence. Qed.

Lemma conn_ok_same n n' c c' :
  same_conn c c' -> next_session_id_ n' = next_session_id_ n -> next_ptr n' = next_ptr n ->
  (forall p, is_Some (eg_store n !! p) -> is_Some (eg_store n' !! p)) ->
  (forall p, is_Some (mdq_store n !! p) -> is_Some (mdq_store n' !! p)) ->
  conn_ok n c -> conn_ok n' c'.
Proof.
  intros [Hi Hq _ _ _] Hn Hp He Hm (H1 & H2 & H3 & H4). unfold conn_ok. rewrite Hi, Hq, Hn, Hp. auto.
Qed.

(** Replacing a connection by one with the same identity. *)
Lemma queues_insert (cs : list Connection) i c c' :
  cs !! i = Some c -> queues c' = queues c -> queues <$> <[i := c']> cs = queues <$> cs.
Proof.
  intros Hi Hq. rewrite list_fmap_insert, Hq. apply list_insert_id. by rewrite list_lookup_fmap, Hi.
Qed.

Lemma replaced (cs : list Connection) i c c' d :
  cs !! i = Some c -> d ∈ cs -> d ∈ <[i := c']> cs \/ d = c /\ c' ∈ <[i := c']> cs.
Proof.
  intros Hi Hd. apply list_elem_of_lookup in Hd as [j Hj].
  destruct (decide (i = j)) as [<-|Hne].
  - right. split; [congruence|]. apply list_elem_of_lookup. exists i.
    apply list_lookup_insert_eq. by eapply lookup_lt_Some.
  - left. apply list_elem_of_lookup. exists j. by rewrite list_lookup_insert_ne.
Qed.

(** A handler that replaces one connection, appends client commands, and at most
    shortens queues. Giving up a connection needs that nothing refers to it. *)
Lemma life_update cs n m q i c c' n' cmds s :
  life_inv cs n m q -> cs !! i = Some c ->
  conn_id c' = conn_id c -> queues c' = queues c ->
  (held c -> held c' \/ forall x, ~ refers m q x (queues c)) ->
  inbound_ n' = Some (q ++ cmds) -> Forall (client_command s) cmds ->
  next_session_id_ n' = next_session_id_ n -> next_ptr n' = next_ptr n ->
  (forall p, is_Some (eg_store n !! p) -> is_Some (eg_store n' !! p)) ->
  (forall p, is_Some (mdq_store n !! p) -> is_Some (mdq_store n' !! p)) ->
  (forall p, has_tombstone (eg_store n') p -> has_tombstone (eg_store n) p) ->
  life_inv (<[i := c']> cs) n' m (q ++ cmds).
Proof.
  intros [Hin Hcs Hnd Hrefs Htombs Hord Hends] Hi Hid Hq Hheld Hin' Hc Hn Hp He Hm Ht.
  assert (forall d, conn_ok n d -> conn_ok n' d) as Hok.
  { intros d (H1 & H2 & H3 & H4). unfold conn_ok. rewrite Hn, Hp. auto. }
  split.
  - done.
  - apply Forall_insert; [by eapply Forall_impl|]. rewrite Forall_lookup in Hcs.
    specialize (Hok c (Hcs i c Hi)). unfold conn_ok in *. by rewrite Hid, Hq.
  - by rewrite (queues_insert _ _ c).
  - intros x p Hr. rewrite (refers_app _ _ _ s) in Hr by done.
    destruct (Hrefs x p Hr) as (d & Hd & <- & <- & Hh).
    destruct (replaced _ _ c c' d Hi Hd) as [?|[-> Hc']]; [by exists d|].
    destruct (Hheld Hh) as [Hh'|Hno]; [by exists c'|]. by apply Hno in Hr.
  - intros p Hp' x. rewrite (refers_app _ _ _ s) by done. by apply Htombs, Ht.
  - by apply (opens_before_ends_app _ _ s).
  - rewrite Hn. apply Forall_app_2; [done|]. eapply Forall_impl; [exact Hc|].
    intros cmd [_ H] Hca. unfold is_cancel_all in Hca. by rewrite Hca in H.
Qed.

(** The handlers that only append client commands. *)
Lemma life_served cs n m q i c c' n' :
  life_inv cs n m q -> cs !! i = Some c -> served c n (c', n') ->
  exists q', life_inv (<[i := c']> cs) n' m q'.
Proof.
  intros Hl Hi (cmds & Hs & [A1 A2 A3 A4 A5] & Hc). cbn in *. exists (q ++ cmds).
  pose proof (li_inbound _ _ _ _ Hl) as Hin.
  eapply (life_update cs n m q i c c' n' cmds (conn_id c));
    [done|done|apply Hs|apply Hs|..]; try congruence; rewrite ?A1, ?A2, ?A3, ?Hin; try done.
  intros Hh. left. by eapply held_same.
Qed.

Lemma life_same cs n m q i c c' :
  life_inv cs n m q -> cs !! i = Some c -> same_conn c c' -> exists q', life_inv (<[i := c']> cs) n m q'.
Proof.
  intros Hl Hi Hs. eapply life_served; [done|done|]. eapply served_conn; [apply served_refl|done].
Qed.

(** Moving the clock and the counters. *)
Lemma life_net cs n n' m q :
  life_inv cs n m q -> inbound_ n' = inbound_ n -> eg_store n' = eg_store n ->
  mdq_store n' = mdq_store n -> next_ptr n' = next_ptr n ->
  next_session_id_ n' = next_session_id_ n -> life_inv cs n' m q.
Proof.
  intros [] H1 H2 H3 H4 H5. split; rewrite ?H1, ?H2, ?H5; try done.
  unfold conn_ok. by rewrite H2, H3, H4, H5.
Qed.

Lemma life_timers now cs n m q : life_inv cs n m q -> life_inv (service_timers now cs) n m q.
Proof.
  intros [Hin Hcs Hnd Hrefs Htombs Hord Hends]. unfold service_timers. split; try done.
  - rewrite Forall_fmap. eapply Forall_impl; [exact Hcs|]. intros c Hc.
    by eapply (conn_ok_same n n c); [apply service_timer_same|..].
  - rewrite <- list_fmap_compose. erewrite list_fmap_ext; [exact Hnd|].
    intros i c _. apply (service_timer_same now c).
  - intros x p Hr. destruct (Hrefs x p Hr) as (c & Hc & <- & <- & Hh). exists (service_timer now c).
    destruct (service_timer_same now c) as [E1 E2 _ _ _]. split_and!; [|done|done|].
    + apply list_elem_of_fmap. by exists c.
    + eapply held_same; [apply service_timer_same|done].
Qed.

Lemma life_drain_egress cs n m q i c c' n' :
  life_inv cs n m q -> cs !! i = Some c -> drain_egress c n = (c', n') ->
  exists q', life_inv (<[i := c']> cs) n' m q'.
Proof.
  intros Hl Hi. unfold drain_egress. destruct (eg_store n !! queues c) as [eq|] eqn:Hq.
  2: { intros [= <- <-]. by eapply life_same. }
  destruct (overflowed_ eq). { intros [= <- <-]. by eapply life_same. }
  pose proof (drain_events_spec (q_items eq) c) as Hd.
  destruct (drain_events (q_items eq) c) as [rest c1]. intros [= <- <-].
  destruct Hd as (H1 & H2 & H3 & _ & [pre Hpre] & H5). exists (q ++ []).
  eapply (life_update cs n m q i c c1 _ [] 0); [done|done|done|done|..]; try done.
  - intros [Hh|Hh]; [left; left; congruence|]. destruct H5 as [H5|[_ H5]]; [left; right; congruence|].
    right. intros x. apply (li_tombs _ _ _ _ Hl). by eapply has_tombstone_queue.
  - cbn. rewrite app_nil_r. apply Hl.
  - cbn. rewrite H2. intros p. by apply (insert_dom _ _ eq).
  - cbn. rewrite H2. intros p (e & He & Ht). exists e. split; [|done].
    apply (waiting_insert _ _ eq) in He as [?|[-> He]]; [done| |done].
    exists eq. split; [done|]. rewrite Hpre. apply elem_of_app. by right.
Qed.

Lemma life_drain_md cs n m q i c c' n' :
  life_inv cs n m q -> cs !! i = Some c -> drain_market_data c n = (c', n') ->
  exists q', life_inv (<[i := c']> cs) n' m q'.
Proof.
  intros Hl Hi. unfold drain_market_data. destruct (negb _). { intros [= <- <-]. by eapply life_same. }
  destruct (mdq_store n !! queues c) as [l|] eqn:Hq. 2: { intros [= <- <-]. by eapply life_same. }
  destruct (last l) as [latest|]. 2: { intros [= <- <-]. by eapply life_same. }
  intros [= <- <-]. exists (q ++ []).
  match goal with |- context [queue ?b c] => pose proof (queue_same b c) as Hs; set (c1 := queue b c) in * end.
  eapply (life_update cs n m q i c c1 _ [] 0); [done|done|apply Hs|apply Hs|..]; try done.
  - intros Hh. left. by eapply held_same.
  - cbn. rewrite app_nil_r. apply Hl.
  - cbn. intros p. by apply (insert_dom _ _ l).
Qed.

(** ** Accepting *)

Lemma refers_fresh cs n m q x p :
  life_inv cs n m q -> refers m q x p -> x < next_session_id_ n /\ p < next_ptr n.
Proof.
  intros Hl Hr. destruct (li_refs _ _ _ _ Hl x p Hr) as (c & Hc & <- & <- & _).
  pose proof (li_conns _ _ _ _ Hl) as Hcs. rewrite Forall_forall in Hcs. by destruct (Hcs c Hc) as (? & ? & _).
Qed.

Lemma refers_snoc m q cmd x p :
  refers m (q ++ [cmd]) x p -> refers m q x p \/
  c_type cmd = CmdSessionOpened /\ c_session cmd = x /\ (c_egress cmd = Some p \/ c_md_queue cmd = Some p).
Proof.
  intros [?|[?|(d & Hd & H)]]; [by left; left|by left; right; left|].
  apply elem_of_app in Hd as [Hd|Hd%list_elem_of_singleton].
  - left. right. right. by exists d.
  - subst d. by right.
Qed.

Lemma opens_before_ends_snoc q cmd :
  opens_before_ends q ->
  (c_type cmd = CmdSessionOpened -> Forall (fun c => is_cancel_all c -> c_session c <> c_session cmd) q) ->
  opens_before_ends (q ++ [cmd]).
Proof.
  intros Ho Hc q1 c q2 He Hend d Hd Ht. destruct q2 as [|c2 q2 _] using rev_ind; [by apply not_elem_of_nil in Hd|].
  rewrite app_comm_cons, app_assoc in He. apply app_inj_tail in He as [-> <-].
  apply elem_of_app in Hd as [Hd|Hd%list_elem_of_singleton]; [by apply (Ho q1 c q2)|subst d].
  specialize (Hc Ht). rewrite Forall_forall in Hc. intros Heq. apply (Hc c); [|done|done].
  apply elem_of_app. right. left.
Qed.

(** A connection with a fresh id and a fresh pointer, its registration queued
    or refused. *)
Lemma life_accepted cs n n' m q c q' :
  life_inv cs n m q -> conn_id c = next_session_id_ n -> queues c = next_ptr n ->
  state_ (c_session_ c) = Connected ->
  next_session_id_ n' = next_session_id_ n + 1 -> next_ptr n' = next_ptr n + 1 ->
  eg_store n' = <[queues c := egress_queue0]> (eg_store n) ->
  mdq_store n' = <[queues c := []]> (mdq_store n) -> inbound_ n' = Some q' ->
  q' = q \/ q' = q ++ [session_opened (conn_id c) (Some (queues c)) (Some (queues c))] ->
  life_inv (cs ++ [c]) n' m q'.
Proof.
  intros Hl Hid Hq Hst Hn Hp He Hm Hin Hq'.
  assert (forall x p, refers m q' x p -> refers m q x p \/ x = conn_id c /\ p = queues c) as Hrefers.
  { intros x p Hr. destruct Hq' as [->| ->]; [by left|].
    apply refers_snoc in Hr as [?|(_ & <- & [[= ->]|[= ->]])]; [by left|by right..]. }
  pose proof Hl as [Hin0 Hcs Hnd Hrefs Htombs Hord Hends].
  assert (Forall (fun d => queues d < next_ptr n) cs) as Hlt.
  { eapply Forall_impl; [exact Hcs|]. by intros d (_ & ? & _). }
  split.
  - done.
  - apply Forall_app_2; [eapply Forall_impl; [exact Hcs|]|apply Forall_singleton].
    + intros d (H1 & H2 & H3 & H4). unfold conn_ok. rewrite Hn, Hp, He, Hm.
      rewrite !lookup_insert_ne by lia. split_and!; [lia|lia|done|done].
    + unfold conn_ok. rewrite Hn, Hp, He, Hm, !lookup_insert_eq. split_and!; [lia|lia|done|done].
  - rewrite fmap_app. apply NoDup_app. split; [done|]. split; [|apply NoDup_singleton].
    intros p Hp1 Hp2%list_elem_of_singleton. cbn in Hp2. apply list_elem_of_fmap in Hp1 as (d & -> & Hd).
    rewrite Forall_forall in Hlt. specialize (Hlt d Hd). lia.
  - intros x p Hr. destruct (Hrefers x p Hr) as [Hr'|[-> ->]].
    + destruct (Hrefs x p Hr') as (d & Hd & H). exists d. split; [apply elem_of_app; by left|done].
    + exists c. split; [apply elem_of_app; right; left|]. split_and!; try done. by left.
  - intros p Hp' x Hr. rewrite He in Hp'. destruct Hp' as (e & (eq & Heq & Hin') & Ht).
    destruct (decide (p = queues c)) as [->|Hne].
    { rewrite lookup_insert_eq in Heq. simplify_eq. by apply not_elem_of_nil in Hin'. }
    rewrite lookup_insert_ne in Heq by done.
    destruct (Hrefers x p Hr) as [Hr'|[_ ->]]; [|done]. apply (Htombs p) in Hr'; [done|].
    exists e. split; [by exists eq|done].
  - destruct Hq' as [->| ->]; [done|]. apply opens_before_ends_snoc; [done|]. intros _.
    eapply Forall_impl; [exact Hends|]. intros d Hd Hca. specialize (Hd Hca). cbn. lia.
  - assert (Forall (fun d => is_cancel_all d -> c_session d < next_session_id_ n') q) as Hq1.
    { eapply Forall_impl; [exact Hends|]. intros d Hd Hca. specialize (Hd Hca). lia. }
    destruct Hq' as [->| ->]; [done|]. apply Forall_app_2; [done|]. by constructor.
Qed.

Lemma life_accept cs n m q f cs' n' :
  life_inv cs n m q -> 0 <= next_session_id_ n < 2 ^ 64 - 1 ->
  accept_one clock cfg waiter_set f cs n = (cs', n') -> exists q', life_inv cs' n' m q'.
Proof.
  intros Hl Hn. pose proof (li_inbound _ _ _ _ Hl) as Hin. unfold accept_one, monotonic_now.
  cbv beta iota zeta. cbn [inbound_ set_ticks set_stores set_alloc]. rewrite Hin.
  set (c := connection _ _ _ _ _ _ _). set (n1 := set_ticks _ _).
  assert (u64 (next_session_id_ n + 1) = next_session_id_ n + 1) as Hu.
  { apply u64_id. unfold is_u64. lia. }
  destruct (submit_cases waiter_set (session_opened (next_session_id_ n) (Some (next_ptr n)) (Some (next_ptr n)))
    c n1) as [(n2 & -> & [A1 A2 A3 A4 A5])| ->]; [by exists q| |]; intros [= <- <-].
  - exists (q ++ [session_opened (conn_id c) (Some (queues c)) (Some (queues c))]).
    apply (life_accepted _ n _ _ q c); rewrite ?A2, ?A3, ?A4, ?A5; try done; [|by right].
    rewrite A1. change (inbound_ n1) with (inbound_ n). by rewrite Hin.
  - exists q. match goal with |- context [send_reject ?a ?b c] => pose proof (send_reject_same a b c) as Hs;
      set (c1 := send_reject a b c) in * end. destruct Hs as [S1 S2 S3 S4 S5].
    apply (life_accepted _ n _ _ q c1); rewrite ?S1, ?S2, ?S3; try done. by left.
Qed.

(** ** Closing *)

Lemma kill_session_dead c n :
  state_ (c_session_ c) = Dead -> kill_session waiter_set hook_set c n = (c, n).
Proof. intros Hd. unfold kill_session, mark_dead. rewrite Hd. cbn. by destruct c. Qed.

(** With room, closing a live session queues its CancelAll and holds the
    connection. *)
Lemma kill_session_alive c n :
  state_ (c_session_ c) = Connected -> room n ->
  exists c' n', kill_session waiter_set hook_set c n = (c', n') /\
    conn_id c' = conn_id c /\ queues c' = queues c /\ retiring c' = true /\
    net_appends [cancel_all (conn_id c)] n n'.
Proof.
  intros Ha (q & Hq & Hr). unfold kill_session, mark_dead. rewrite Ha. cbn [fst snd negb].
  set (c1 := set_session _ c). set (n1 := if hook_set then _ else n).
  assert (inbound_ n1 = Some q) as Hq1 by (unfold n1; by destruct hook_set).
  rewrite Hq1. destruct (submit_ok waiter_set (cancel_all (conn_id c1)) c1 n1 q Hq1 Hr)
    as (n2 & -> & [A1 A2 A3 A4 A5] & _).
  eexists _, _. split; [reflexivity|]. split_and!; try done.
  rewrite Hq1 in A1. split; [by rewrite A1, Hq|..].
  - rewrite A2. unfold n1. by destruct hook_set.
  - rewrite A3. unfold n1. by destruct hook_set.
  - rewrite A4. unfold n1. by destruct hook_set.
  - rewrite A5. unfold n1. by destruct hook_set.
Qed.

(** Ending a session: its CancelAll joins the queue, the connection retires. *)
Lemma life_retire cs n m q i c c' n' :
  life_inv cs n m q -> cs !! i = Some c -> conn_id c' = conn_id c -> queues c' = queues c ->
  retiring c' = true -> net_appends [cancel_all (conn_id c)] n n' ->
  exists q', life_inv (<[i := c']> cs) n' m q'.
Proof.
  intros Hl Hi Hid Hq Hr [A1 A2 A3 A4 A5]. pose proof Hl as [Hin Hcs Hnd Hrefs Htombs Hord Hends].
  exists (q ++ [cancel_all (conn_id c)]). rewrite Hin in A1.
  assert (forall x p, refers m (q ++ [cancel_all (conn_id c)]) x p -> refers m q x p) as Hrefers.
  { intros x p Hx. by apply refers_snoc in Hx as [?|[? _]]. }
  assert (conn_ok n c) as Hc by by apply (Forall_lookup_1 _ cs i).
  split.
  - done.
  - apply Forall_insert.
    + eapply Forall_impl; [exact Hcs|]. intros d. unfold conn_ok. by rewrite A2, A3, A4, A5.
    + unfold conn_ok in *. by rewrite Hid, Hq, A2, A3, A4, A5.
  - by rewrite (queues_insert _ _ c).
  - intros x p Hx. destruct (Hrefs x p (Hrefers x p Hx)) as (d & Hd & <- & <- & Hh).
    destruct (replaced _ _ c c' d Hi Hd) as [?|[-> Hc']]; [by exists d|].
    exists c'. split_and!; try done. by right.
  - rewrite A2. intros p Hp x Hx. by apply (Htombs p Hp x), Hrefers.
  - by apply opens_before_ends_snoc.
  - rewrite A5. apply Forall_app_2; [done|]. constructor; [|constructor]. intros _. apply Hc.
Qed.

(** A connection that is neither alive nor retiring may be destroyed. *)
Lemma life_free cs n m q i c :
  life_inv cs n m q -> cs !! i = Some c -> ~ held c ->
  life_inv (delete i cs) (free_queues (queues c) n) m q.
Proof.
  intros [Hin Hcs Hnd Hrefs Htombs Hord Hends] Hi Hnh.
  pose proof (delete_Permutation cs i c Hi) as Hperm.
  assert (NoDup (queues c :: (queues <$> delete i cs))) as [Hother Hnd']%NoDup_cons.
  { by rewrite <- fmap_cons, <- Hperm. }
  assert (forall d, d ∈ cs <-> d = c \/ d ∈ delete i cs) as Hin'.
  { intros d. by rewrite Hperm at 1; rewrite elem_of_cons. }
  split; try done.
  - rewrite Forall_forall in *. intros d Hd.
    destruct (Hcs d) as (H1 & H2 & H3 & H4); [by apply Hin'; right|].
    assert (queues c <> queues d).
    { intros Heq. apply Hother. rewrite Heq. apply list_elem_of_fmap. by exists d. }
    unfold conn_ok. cbn. by rewrite !lookup_delete_ne.
  - intros x p Hr. destruct (Hrefs x p Hr) as (d & Hd & <- & <- & Hh).
    exists d. split; [|done]. by apply Hin' in Hd as [->|?].
  - intros p (e & (eq & Heq & He) & Ht). cbn in Heq. apply lookup_delete_Some in Heq as [_ Heq].
    apply Htombs. exists e. split; [by exists eq|done].
Qed.

Lemma life_close cs n m q i cs' n' :
  life_inv cs n m q -> room n -> close_connection waiter_set hook_set i cs n = (cs', n') ->
  exists q', life_inv cs' n' m q'.
Proof.
  intros Hl Hroom. unfold close_connection. destruct (cs !! i) as [c|] eqn:Hi.
  2: { intros [= <- <-]. by exists q. }
  destruct (state_ (c_session_ c)) eqn:Hst.
  - destruct (kill_session_alive c n Hst Hroom) as (c1 & n1 & -> & H1 & H2 & H3 & H4).
    cbn [retiring set_fd]. rewrite H3. intros [= <- <-]. by eapply life_retire.
  - rewrite kill_session_dead by done. cbn [retiring set_fd]. destruct (retiring c) eqn:Hr.
    + intros [= <- <-]. exists (q ++ []). eapply (life_update cs n m q i c _ n [] 0); try done.
      * intros _. left. by right.
      * rewrite app_nil_r. apply Hl.
    + intros [= <- <-]. exists q. apply life_free; [done|done|]. intros [?|?]; congruence.
Qed.

(** ** Applying a command *)

(** What [apply] does to routing and queues. *)
Inductive routed (cmd : OrderCommand) (m m' : MatchingThread) : Prop :=
| R_quiet : c_type cmd <> CmdSessionOpened -> quiet m m' -> routed cmd m m'
| R_opened :
    c_type cmd = CmdSessionOpened ->
    egress_ m' = <[c_session cmd := c_egress cmd]> (egress_ m) ->
    md_ m' = <[c_session cmd := c_md_queue cmd]> (md_ m) ->
    egress_store m' = egress_store m -> md_store m' = md_store m -> routed cmd m m'
| R_retired :
    is_cancel_all cmd ->
    egress_ m' = delete (c_session cmd) (egress_ m) -> md_ m' = delete (c_session cmd) (md_ m) ->
    (forall p, is_Some (egress_store m' !! p) <-> is_Some (egress_store m !! p)) ->
    (forall p, is_Some (md_store m' !! p) <-> is_Some (md_store m !! p)) ->
    (forall p e, waiting (egress_store m') p e ->
       waiting (egress_store m) p e \/ egress_ m !! c_session cmd = Some (Some p) /\ e_session e = c_session cmd) ->
    routed cmd m m'.

(** Pushing the tombstone adds one to the session's own queue at most. *)
Lemma push_tombstone_spec x m :
  let m' := push_tombstone x m in
  egress_ m' = egress_ m /\ md_ m' = md_ m /\ md_store m' = md_store m /\
  (forall p, is_Some (egress_store m' !! p) <-> is_Some (egress_store m !! p)) /\
  (forall p e, waiting (egress_store m') p e ->
     waiting (egress_store m) p e \/ egress_ m !! x = Some (Some p) /\ e_session e = x).
Proof.
  intros m'. unfold m', push_tombstone, egress_for.
  destruct (egress_ m !! x) as [[p|]|] eqn:Hx; cbn [default from_option id];
    try (split_and!; try done; by left).
  destruct (egress_store m !! p) as [q|] eqn:Hp; [|split_and!; try done; by left].
  cbn. split_and!; try done; [by apply (insert_dom _ _ q)|].
  unfold egress_push. destruct (bounded_push _ _ _) as [ok l] eqn:Hb. cbn [snd].
  intros p' e [?|[-> H]]%(waiting_insert _ _ q); [by left| |done]. cbn [q_items] in H.
  apply bounded_push_items in Hb as [->| ->]; [left; by exists q|].
  apply elem_of_app in H as [?|He%list_elem_of_singleton]; [left; by exists q|subst e; by right].
Qed.

Lemma apply_cancel_all_routed cmd m : is_cancel_all cmd -> routed cmd m (apply_cancel_all cmd m).
Proof.
  intros Hc. unfold apply_cancel_all. cbv zeta.
  set (m1 := clear_log _). pose proof (push_tombstone_spec (c_session cmd) m1) as (T1 & T2 & T3 & T4 & T5).
  set (m2 := push_tombstone _ m1) in *. set (m3 := set_stats _ _).
  destruct (publish_book_quiet m3) as [E D A B T]. apply R_retired; [done|..].
  - rewrite E. cbn. by rewrite T1.
  - rewrite D. cbn. by rewrite T2.
  - intros p. rewrite A. apply T4.
  - intros p. rewrite B. cbn. by rewrite T3.
  - intros p e He. destruct (publish_book_waiting m3 p e) as [H _]. by apply T5, H.
Qed.

Lemma dispatch_routed cmd m : routed cmd m (MatchingThread.dispatch cmd m).
Proof.
  unfold MatchingThread.dispatch. destruct (c_type cmd) eqn:Ht.
  - by apply R_opened.
  - apply R_quiet; [congruence|apply apply_new_order_quiet].
  - apply R_quiet; [congruence|apply apply_cancel_quiet].
  - apply R_quiet; [congruence|apply apply_modify_quiet].
  - apply R_quiet; [congruence|apply apply_subscribe_quiet].
  - by apply apply_cancel_all_routed.
Qed.

Lemma apply_routed env cmd m : routed cmd m (MatchingThread.apply env cmd m).
Proof.
  unfold MatchingThread.apply. destruct (negb (replaying_ m) && is_loggable (c_type cmd)) eqn:Hlog;
    [|apply dispatch_routed].
  destruct (wal_ m) as [w|]; [|apply dispatch_routed].
  destruct (wal_append _ _ _ _) as [ok w']. destruct (negb ok).
  - apply R_quiet; [|quiet_core]. intros Ht. rewrite Ht in Hlog. by destruct (negb _) in Hlog.
  - destruct (dispatch_routed cmd (set_wal (Some w') m)) as [H Hq|H|H].
    + apply R_quiet; [done|]. etrans; [|exact Hq]. quiet_core.
    + by apply R_opened.
    + by apply R_retired.
Qed.

(** After a command is taken, only what was referred to before still is; a
    queue that just received a tombstone is not. *)
Lemma routed_refers cmd m m' q x p :
  routed cmd m m' -> refers m' q x p -> refers m (cmd :: q) x p.
Proof.
  intros Hr Hx. assert (forall d, d ∈ q -> d ∈ cmd :: q) as Hq by (intros; by right).
  destruct Hr as [_ [E D _ _ _]|Ht E D _ _|_ E D _ _ _]; destruct Hx as [H|[H|(d & Hd & H)]];
    try (by right; right; exists d; split; [apply Hq|]).
  - left. congruence.
  - right. left. congruence.
  - rewrite E in H. apply lookup_insert_Some in H as [[<- H]|[_ H]]; [|by left].
    right. right. exists cmd. split; [left|]. by split_and!; [..|left].
  - rewrite D in H. apply lookup_insert_Some in H as [[<- H]|[_ H]]; [|by right; left].
    right. right. exists cmd. split; [left|]. by split_and!; [..|right].
  - rewrite E in H. apply lookup_delete_Some in H as [_ H]. by left.
  - rewrite D in H. apply lookup_delete_Some in H as [_ H]. by right; left.
Qed.

(** A queue belongs to one connection. *)
Lemma queue_owner (cs : list Connection) c d :
  NoDup (queues <$> cs) -> c ∈ cs -> d ∈ cs -> queues c = queues d -> c = d.
Proof.
  intros Hnd Hc Hd Heq. apply list_elem_of_lookup in Hc as [i Hi]. apply list_elem_of_lookup in Hd as [j Hj].
  assert (i = j) as <-; [|congruence]. eapply NoDup_lookup; [exact Hnd|..].
  - by rewrite list_lookup_fmap, Hi.
  - rewrite list_lookup_fmap, Hj. cbn. congruence.
Qed.

Lemma life_apply cs n m cmd q m' :
  life_inv cs n m (cmd :: q) -> routed cmd (attach n m) m' ->
  life_inv cs (set_stores (egress_store m') (md_store m') (set_inbound (Some q) (signals_ n) n)) m' q.
Proof.
  intros [Hin Hcs Hnd Hrefs Htombs Hord Hends] Hr.
  assert (forall x p, refers m' q x p -> refers m (cmd :: q) x p) as Hrefers.
  { intros x p. apply (routed_refers cmd (attach n m) m' q x p Hr). }
  assert ((forall p, is_Some (egress_store m' !! p) <-> is_Some (eg_store n !! p)) /\
    forall p, is_Some (md_store m' !! p) <-> is_Some (mdq_store n !! p)) as [Hd1 Hd2].
  { destruct Hr as [_ [_ _ A B _]|_ _ _ A B|_ _ _ A B _]; [done|by rewrite A, B|done]. }
  split.
  - done.
  - eapply Forall_impl; [exact Hcs|]. intros c (H1 & H2 & H3 & H4). unfold conn_ok. cbn.
    by rewrite Hd1, Hd2.
  - done.
  - intros x p Hx. by apply Hrefs, Hrefers.
  - cbn. intros p Hp x Hx. pose proof (Hrefers x p Hx) as Hx0.
    destruct Hr as [_ Hquiet|_ _ _ A _|Hca E D _ _ T].
    + by apply (Htombs p (quiet_tombs _ _ p Hquiet Hp) x).
    + rewrite A in Hp. by apply (Htombs p Hp x).
    + destruct Hp as (ev & Hev & Htomb). destruct (T p ev Hev) as [Hp0|[He _]];
        [by apply (Htombs p ltac:(by exists ev) x)|]. cbn in He.
      destruct (Hrefs x p Hx0) as (c & Hc & <- & Hcp & _).
      destruct (Hrefs (c_session cmd) p) as (d & Hd & Hds & Hdp & _); [by left|].
      assert (c = d) as <- by (apply (queue_owner cs); congruence).
      destruct Hx as [H|[H|(e & He' & Ht & Hs & _)]].
      * rewrite E in H. apply lookup_delete_Some in H as [? _]. done.
      * rewrite D in H. apply lookup_delete_Some in H as [? _]. done.
      * apply (Hord [] cmd q eq_refl Hca e He' Ht). congruence.
  - intros q1 c q2 He. apply (Hord (cmd :: q1) c q2). by rewrite He.
  - by inversion Hends.
Qed.

(** ** Every step *)

Lemma step_safe s s' : safe s -> sys_step s s' -> safe s'.
Proof.
  intros [q Hl] Hs. unfold safe.
  destruct Hs as [s|t s|f s cs n Hn Ha|now s|i rs c c' n s Hi Hr|i ss c s Hi|i c s Hi|i c c' n s Hi Hd
    |i c c' n s Hi Hd|i s cs n Hroom Hc|env s s' Hm]; cbn [set_conn conns net mt].
  - exists q. by eapply life_net.
  - exists q. by eapply life_net.
  - by eapply life_accept.
  - exists q. by apply life_timers.
  - eapply life_served; [done|done|]. rewrite <- Hr. apply handle_readable_served.
    rewrite (li_inbound _ _ _ _ Hl). done.
  - eapply life_same; [done|done|]. apply handle_writable_same.
  - by eapply life_same.
  - by eapply life_drain_egress.
  - by eapply life_drain_md.
  - by eapply life_close.
  - unfold match_one in Hm. rewrite (li_inbound _ _ _ _ Hl) in Hm. destruct q as [|cmd q]; [done|].
    injection Hm as <-. exists q. eapply life_apply; [exact Hl|]. apply apply_routed.
Qed.

Lemma steps_safe s s' : rtc sys_step s s' -> safe s -> safe s'.
Proof. induction 1 as [|s1 s2 s3 H12 _ IH]; [done|]. intros Hs. by eapply IH, step_safe. Qed.

(** Before the first connection: whatever book was recovered, no routing. *)
Definition fresh_sys (m : MatchingThread) : Sys := mkSys [] (net0 true) m.

Lemma fresh_safe m : egress_ m = ∅ -> md_ m = ∅ -> safe (fresh_sys m).
Proof.
  intros He Hm. exists []. split; try done.
  - constructor.
  - intros x p [H|[H|(d & Hd & _)]]; [..|by apply not_elem_of_nil in Hd]; cbn in H;
      [rewrite He in H|rewrite Hm in H]; by rewrite lookup_empty in H.
  - intros p (e & (q & Hq & _) & _). cbn in Hq. by rewrite lookup_empty in Hq.
  - intros q1 c q2 He'. by destruct q1.
Qed.

(** ** The event loop is made of these steps *)

(** The inbound queue only grows while the network thread runs. *)
Definition grows (n n' : Net) : Prop :=
  is_Some (inbound_ n) -> is_Some (inbound_ n') /\ (room n' -> room n).

#[local] Instance grows_preorder : PreOrder grows.
Proof. unfold grows. split; [by intros n H|]. intros a b c H1 H2 H. destruct (H1 H). destruct (H2 ltac:(done)). auto. Qed.

Lemma grows_appends cmds n n' : net_appends cmds n n' -> grows n n'.
Proof.
  intros [A1 _ _ _ _] [q Hq]. rewrite Hq in A1. split; [by rewrite A1|].
  intros (q' & Hq' & Hl). rewrite A1 in Hq'. cbn in Hq'. injection Hq' as <-.
  exists q. split; [done|]. rewrite length_app in Hl. lia.
Qed.

Lemma grows_inbound n n' : inbound_ n' = inbound_ n -> grows n n'.
Proof. intros H Hin. split; [by rewrite H|]. intros (q & Hq & Hl). exists q. by rewrite <- H. Qed.

Lemma submit_grows cmd c n ok c' n' : submit waiter_set cmd c n = (ok, (c', n')) -> grows n n'.
Proof.
  destruct (inbound_ n) as [q|] eqn:Hq.
  - destruct (submit_cases waiter_set cmd c n) as [(n2 & -> & Ha)| ->]; [by rewrite Hq| |]; intros [= <- <- <-].
    + by eapply grows_appends.
    + done.
  - unfold submit. rewrite Hq. by intros [= <- <- <-].
Qed.

Lemma kill_session_grows c n c' n' : kill_session waiter_set hook_set c n = (c', n') -> grows n n'.
Proof.
  unfold kill_session. destruct (mark_dead _) as [[] s]; cbn [negb]; [|by intros [= <- <-]].
  set (n1 := if hook_set then _ else n).
  assert (grows n n1) as H1 by (apply grows_inbound; unfold n1; by destruct hook_set).
  destruct (inbound_ n1); [|by intros [= <- <-]].
  destruct (submit _ _ _ _) as [ok [c1 n2]] eqn:Hs. intros [= <- <-].
  etrans; [exact H1|]. by eapply submit_grows.
Qed.

Lemma close_connection_grows i cs n cs' n' :
  close_connection waiter_set hook_set i cs n = (cs', n') -> grows n n'.
Proof.
  unfold close_connection. destruct (cs !! i) as [c|]; [|by intros [= <- <-]].
  destruct (kill_session _ _ _ _) as [c1 n1] eqn:Hk. apply kill_session_grows in Hk.
  destruct (retiring _); intros [= <- <-]; [done|]. etrans; [exact Hk|]. by apply grows_inbound.
Qed.

Abbreviation steps := (rtc sys_step).

(** [f] turns [(cs, n)] into [(cs', n')] by steps, if there is room at its end. *)
Definition by_steps (cs : list Connection) (n : Net) (r : list Connection * Net) : Prop :=
  grows n r.2 /\
  forall m, is_Some (inbound_ n) -> room r.2 -> steps (mkSys cs n m) (mkSys r.1 r.2 m).

Lemma by_steps_refl cs n : by_steps cs n (cs, n).
Proof. by split. Qed.

Lemma by_steps_trans cs n cs1 n1 r : by_steps cs n (cs1, n1) -> by_steps cs1 n1 r -> by_steps cs n r.
Proof.
  intros [G1 S1] [G2 S2]. split; [by etrans|]. intros m Hin Hr.
  destruct (G1 Hin) as [Hin1 _]. destruct (G2 Hin1) as [_ Hr1].
  etrans; [|by apply S2]. by apply S1; [|apply Hr1].
Qed.

Lemma by_steps_one cs n cs' n' :
  grows n n' -> (forall m, is_Some (inbound_ n) -> room n' -> sys_step (mkSys cs n m) (mkSys cs' n' m)) ->
  by_steps cs n (cs', n').
Proof. intros Hg Hs. split; [done|]. intros m Hin Hr. by apply rtc_once, Hs. Qed.

Lemma close_by_steps i cs n : by_steps cs n (close_connection waiter_set hook_set i cs n).
Proof.
  destruct (close_connection _ _ _ _ _) as [cs' n'] eqn:Hc. pose proof (close_connection_grows _ _ _ _ _ Hc) as Hg.
  apply by_steps_one; [done|]. intros m Hin Hr. by apply (Net_close i (mkSys cs n m)); [apply Hg|].
Qed.

Lemma tick_by_steps cs n : by_steps cs n (cs, (monotonic_now clock n).2).
Proof. apply by_steps_one; [by apply grows_inbound|]. intros m _ _. exact (Net_clock (mkSys cs n m)). Qed.

Lemma close_if_ready_by_steps i c cs n :
  by_steps (<[i := c]> cs) n (close_if_ready clock waiter_set hook_set i c cs n).
Proof.
  unfold close_if_ready, monotonic_now. cbv zeta.
  eapply by_steps_trans; [apply tick_by_steps|]. cbn [snd monotonic_now].
  destruct (ready_to_close _ c); [apply close_by_steps|apply by_steps_refl].
Qed.

(** A step on the connection at [i], the list holding its current version. *)
Lemma conn_by_steps i c c' cs n n' :
  is_Some (cs !! i) -> grows n n' ->
  (forall m, sys_step (mkSys (<[i := c]> cs) n m) (set_conn i c' n' (mkSys (<[i := c]> cs) n m))) ->
  by_steps (<[i := c]> cs) n (<[i := c']> cs, n').
Proof.
  intros Hi Hg Hs. apply by_steps_one; [done|]. intros m Hin _. specialize (Hs m).
  unfold set_conn in Hs. cbn in Hs. by rewrite list_insert_insert_eq in Hs.
Qed.

Lemma current (cs : list Connection) i c : is_Some (cs !! i) -> <[i := c]> cs !! i = Some c.
Proof. intros [d Hd]. apply list_lookup_insert_eq. by eapply lookup_lt_Some. Qed.

Lemma by_steps_engine cs n r : (is_Some (inbound_ n) -> by_steps cs n r) -> by_steps cs n r.
Proof.
  intros H. split.
  - intros Hin. by apply (H Hin).
  - intros m Hin. by apply (H Hin).
Qed.

Lemma readable_by_steps i rs c cs n c' n' :
  is_Some (cs !! i) -> handle_readable clock cfg waiter_set rs c n = (c', n') ->
  by_steps (<[i := c]> cs) n (<[i := c']> cs, n').
Proof.
  intros Hi Hr. apply by_steps_engine. intros Hin. apply conn_by_steps; [done|..].
  - pose proof (handle_readable_served clock cfg waiter_set rs c n Hin) as (cmds & _ & Ha & _).
    rewrite Hr in Ha. by eapply grows_appends.
  - intros m. eapply (Net_read i rs c); [by apply current|done].
Qed.

Lemma writable_by_steps i ss c cs n :
  is_Some (cs !! i) -> by_steps (<[i := c]> cs) n (<[i := handle_writable ss c]> cs, n).
Proof. intros Hi. apply conn_by_steps; [done|done|]. intros m. apply Net_write. by apply current. Qed.

Lemma hangup_by_steps i c cs n : is_Some (cs !! i) -> by_steps (<[i := c]> cs) n (<[i := close_now c]> cs, n).
Proof. intros Hi. apply conn_by_steps; [done|done|]. intros m. apply Net_hangup. by apply current. Qed.

Lemma serve_one_by_steps io i cs n :
  by_steps cs n (serve_one clock cfg waiter_set hook_set io i cs n).
Proof.
  unfold serve_one. destruct (cs !! i) as [c|] eqn:Hi; [|apply by_steps_refl].
  assert (is_Some (cs !! i)) as His by by rewrite Hi.
  set (io' := if retiring c then no_io else io).
  destruct (r_err io'); [apply close_by_steps|]. rewrite <- (list_insert_id cs i c Hi) at 1.
  set (c1 := if r_out io' then _ else c).
  eapply (by_steps_trans _ _ (<[i := c1]> cs) n).
  { unfold c1. destruct (r_out io'); [by apply writable_by_steps|apply by_steps_refl]. }
  destruct (if r_in io' then _ else (c1, n)) as [c2 n2] eqn:Hr.
  eapply (by_steps_trans _ _ (<[i := c2]> cs) n2).
  { destruct (r_in io'); [by eapply readable_by_steps|]. injection Hr as <- <-. apply by_steps_refl. }
  set (c3 := if r_hup io' then _ else c2).
  eapply (by_steps_trans _ _ (<[i := c3]> cs) n2); [|apply close_if_ready_by_steps].
  unfold c3. destruct (r_hup io'); [by apply hangup_by_steps|apply by_steps_refl].
Qed.

Lemma drain_one_by_steps sends i cs n :
  by_steps cs n (drain_one clock waiter_set hook_set sends i cs n).
Proof.
  unfold drain_one. destruct (cs !! i) as [c|] eqn:Hi; [|apply by_steps_refl].
  assert (is_Some (cs !! i)) as His by by rewrite Hi.
  rewrite <- (list_insert_id cs i c Hi) at 1.
  destruct (drain_egress c n) as [c1 n1] eqn:H1.
  eapply (by_steps_trans _ _ (<[i := c1]> cs) n1).
  { apply conn_by_steps; [done|..].
    - apply grows_inbound. unfold drain_egress in H1. repeat case_match; by simplify_eq.
    - intros m. eapply (Net_drain_egress i c); [by apply current|done]. }
  destruct (drain_market_data c1 n1) as [c2 n2] eqn:H2.
  eapply (by_steps_trans _ _ (<[i := c2]> cs) n2).
  { apply conn_by_steps; [done|..].
    - apply grows_inbound. unfold drain_market_data in H2. repeat case_match; by simplify_eq.
    - intros m. eapply (Net_drain_md i c1); [by apply current|done]. }
  set (c3 := if _ && _ then _ else c2).
  eapply (by_steps_trans _ _ (<[i := c3]> cs) n2); [|apply close_if_ready_by_steps].
  unfold c3. destruct (_ && _); [by apply writable_by_steps|apply by_steps_refl].
Qed.

Lemma serve_all_by_steps polled io i cs n :
  by_steps cs n (serve_all clock cfg waiter_set hook_set polled io i cs n).
Proof.
  revert cs n. induction i as [|i IH]; intros cs n; [apply by_steps_refl|]. cbn [serve_all].
  destruct (polled <=? i)%nat; [apply IH|].
  pose proof (serve_one_by_steps (io i) i cs n) as H. destruct (serve_one _ _ _ _ _ _ _ _) as [cs1 n1].
  by eapply by_steps_trans.
Qed.

Lemma drain_all_by_steps sends i cs n :
  by_steps cs n (drain_all clock waiter_set hook_set sends i cs n).
Proof.
  revert cs n. induction i as [|i IH]; intros cs n; [apply by_steps_refl|]. cbn [drain_all].
  pose proof (drain_one_by_steps (sends i) i cs n) as H. destruct (drain_one _ _ _ _ _ _ _) as [cs1 n1].
  by eapply by_steps_trans.
Qed.

Lemma accept_one_grows f cs n cs' n' : accept_one clock cfg waiter_set f cs n = (cs', n') ->
  grows n n' /\ next_session_id_ n' = u64 (next_session_id_ n + 1).
Proof.
  unfold accept_one, monotonic_now. cbv beta iota zeta. set (n1 := set_ticks _ _).
  assert (grows n n1) as H1 by by apply grows_inbound.
  destruct (inbound_ n1) as [q|] eqn:Hq; [|by intros [= <- <-]].
  destruct (submit_cases waiter_set (session_opened (next_session_id_ n) (Some (next_ptr n)) (Some (next_ptr n)))
    (connection f (next_session_id_ n) (max_write_buffer cfg)
      (clock (ticks_ n)) (cfg_session cfg) (cfg_risk cfg) (next_ptr n)) n1)
    as [(n2 & Hs & Ha)|Hs]; [by rewrite Hq|..]; cbn in Hs |- *; rewrite Hs; intros [= <- <-].
  - split; [etrans; [exact H1|by eapply grows_appends]|]. by rewrite (na_next _ _ _ Ha).
  - done.
Qed.

Lemma accept_new_by_steps rs cs n :
  0 <= next_session_id_ n -> next_session_id_ n + Z.of_nat (length rs) < 2 ^ 64 ->
  by_steps cs n (accept_new clock cfg waiter_set rs cs n).
Proof.
  revert cs n. induction rs as [|r rs IH]; intros cs n H0 Hn; [apply by_steps_refl|].
  cbn [length] in Hn. destruct r as [f []| | | |]; cbn [accept_new]; try apply by_steps_refl;
    try (apply IH; lia).
  - destruct (accept_one _ _ _ _ _ _) as [cs1 n1] eqn:Ha. destruct (accept_one_grows _ _ _ _ _ Ha) as [Hg Hid].
    rewrite u64_id in Hid by (unfold is_u64; lia).
    eapply by_steps_trans; [|apply IH; lia]. apply by_steps_one; [done|]. intros m _ _.
    apply (Net_accept f (mkSys cs n m)); [cbn; lia|done].
  - eapply by_steps_trans; [apply tick_by_steps|]. apply by_steps_one; [by apply grows_inbound|].
    intros m _ _. apply (Net_pause _ (mkSys cs (set_ticks (S (ticks_ n)) n) m)).
Qed.

Lemma timers_by_steps now cs n : by_steps cs n (service_timers now cs, n).
Proof. apply by_steps_one; [done|]. intros m _ _. apply (Net_timers now (mkSys cs n m)). Qed.

(** One turn of the loop is a sequence of steps, if it leaves room. *)
Lemma run_once_steps pr accepts io sends cs n cs' n' m :
  run_once clock cfg waiter_set hook_set pr accepts io sends cs n = Some (cs', n') ->
  is_Some (inbound_ n) -> room n' ->
  0 <= next_session_id_ n -> next_session_id_ n + Z.of_nat (length accepts) < 2 ^ 64 ->
  steps (mkSys cs n m) (mkSys cs' n' m).
Proof.
  intros Hrun Hin Hroom H0 Hn.
  assert (by_steps cs n (cs', n')) as [_ H]; [|by apply H].
  unfold run_once, monotonic_now in Hrun. cbv beta iota zeta in Hrun.
  eapply by_steps_trans; [apply tick_by_steps|]. cbn [monotonic_now snd].
  set (n1 := set_ticks (S (ticks_ n)) n) in *. destruct pr as [| |lin]; [|done|].
  { injection Hrun as <- <-. apply by_steps_refl. }
  destruct (if _ && lin then _ else (cs, n1)) as [cs2 n2] eqn:Ha.
  eapply (by_steps_trans _ _ cs2 n2).
  { destruct (_ && lin); [rewrite <- Ha; apply accept_new_by_steps; cbn; lia|].
    injection Ha as <- <-. apply by_steps_refl. }
  eapply by_steps_trans; [apply tick_by_steps|]. cbn [monotonic_now snd].
  eapply by_steps_trans; [apply (timers_by_steps (clock (ticks_ n2)))|].
  set (cs3 := service_timers _ cs2) in *. set (n3 := set_ticks _ n2) in *.
  pose proof (serve_all_by_steps (length cs) io (length cs3) cs3 n3) as Hs.
  destruct (serve_all _ _ _ _ _ _ _ cs3 n3) as [cs4 n4]. eapply by_steps_trans; [exact Hs|].
  injection Hrun as Hrun. rewrite <- Hrun. apply drain_all_by_steps.
Qed.

End system.

Definition idle_thread : MatchingThread := matching_thread0 risk_config0 None false 0.

(** A client has connected. *)
Definition connected : option (list Connection * Net) :=
  run_once clock0 tcp_config0 true false (PollOk true) [AFd 5 true] (fun _ => no_io) (fun _ => [])
    [] (net0 true).

Definition sys_of (r : option (list Connection * Net)) (m : MatchingThread) : Sys :=
  match r with Some (cs, n) => mkSys cs n m | None => fresh_sys m end.

Definition just_connected : Sys := Eval vm_compute in sys_of connected idle_thread.

(** ... and the matching thread has taken its registration. *)
Definition registered : Sys :=
  Eval vm_compute in default just_connected (match_one (mkEnv 0 None) just_connected).

Lemma registered_reached : rtc (sys_step clock0 tcp_config0 true false) (fresh_sys idle_thread) registered.
Proof.
  etrans.
  - apply (run_once_steps clock0 tcp_config0 true false (PollOk true) [AFd 5 true] (fun _ => no_io)
      (fun _ => []) [] (net0 true) (conns just_connected) (net just_connected) idle_thread);
      try (vm_compute; congruence).
    + by eexists.
    + eexists. split; [reflexivity|]. vm_compute. reflexivity.
  - apply rtc_once. apply (Match _ _ _ _ (mkEnv 0 None)). vm_compute. reflexivity.
Qed.

(** C6: [no_dangling_queue]. No use after free across the two threads. From a
    start with no connections, under any interleaving of the network thread's
    handlers with commands applied by the matching thread, every queue pointer
    the matching thread holds, or will pick up from a registration still in the
    inbound queue, points to a queue that has not been freed and belongs to a
    connection of that session, provided sessions are closed only while the
    inbound queue has room for the CancelAll. *)
Theorem no_dangling_queue (clock : nat -> Z) (cfg : TcpServerConfig) (waiter_set hook_set : bool)
    (m : MatchingThread) (s : Sys) :
  egress_ m = ∅ -> md_ m = ∅ -> rtc (sys_step clock cfg waiter_set hook_set) (fresh_sys m) s ->
  exists q, inbound_ (net s) = Some q /\
  forall x p, refers (mt s) q x p ->
    is_Some (eg_store (net s) !! p) /\ is_Some (mdq_store (net s) !! p) /\
    exists c, c ∈ conns s /\ conn_id c = x /\ queues c = p.
Proof.
  intros He Hm Hr.
  assert (safe s) as [q Hl].
  { eapply steps_safe; [exact Hr|]. by apply fresh_safe. }
  exists q. split; [apply Hl|]. intros x p Hx.
  destruct (li_refs _ _ _ _ Hl x p Hx) as (c & Hc & <- & <- & _).
  pose proof (li_conns _ _ _ _ Hl) as Hcs. rewrite Forall_forall in Hcs.
  destruct (Hcs c Hc) as (_ & _ & H1 & H2). split; [done|]. split; [done|]. by exists c.
Qed.

Lemma no_dangling_queue_witness :
  exists q, inbound_ (net registered) = Some q /\
  forall x p, refers (mt registered) q x p ->
    is_Some (eg_store (net registered) !! p) /\ is_Some (mdq_store (net registered) !! p) /\
    exists c, c ∈ conns registered /\ conn_id c = x /\ queues c = p.
Proof.
  apply (no_dangling_queue clock0 tcp_config0 true false idle_thread registered).
  - reflexivity.
  - reflexivity.
  - apply registered_reached.
Defined.

Example registered_refers : refers (mt registered) [] 1 1.
Proof. left. reflexivity. Qed.

(** ** Market data *)

Lemma fill_prefix k vs :
  (k <= length vs <= protocol.kMaxBookDepth)%nat -> take k (fill_array vs) = take k vs.
Proof. intros Hk. unfold fill_array. rewrite take_take, Nat.min_l by lia. rewrite take_app_le by lia. done. Qed.

Definition level_of (l : Z * Z) : protocol.BookLevel := protocol.mkBookLevel l.1 l.2.

Lemma zip_levels ls : zip_with protocol.mkBookLevel (fst <$> ls) (snd <$> ls) = level_of <$> ls.
Proof. induction ls as [|[p q] ls IH]; [done|]. cbn. by f_equal. Qed.

(** The stored arrays, cut at the depth asked for, are the levels. *)
Lemma sized_levels depth (ls : list (Z * Z)) :
  (length ls <= protocol.kMaxBookDepth)%nat -> 0 <= depth ->
  levels_of (if depth <? u8 (Z.of_nat (length ls)) then depth else u8 (Z.of_nat (length ls)))
    (fill_array (fst <$> ls)) (fill_array (snd <$> ls)) = level_of <$> take (Z.to_nat depth) ls.
Proof.
  intros Hl Hd. unfold protocol.kMaxBookDepth in Hl.
  rewrite u8_id by (unfold is_u8; lia).
  set (k := if depth <? Z.of_nat (length ls) then depth else Z.of_nat (length ls)). unfold levels_of.
  rewrite !fill_prefix, <- !fmap_take, zip_levels.
  - f_equal. unfold k. destruct (Z.ltb_spec depth (Z.of_nat (length ls))); [done|].
    rewrite Nat2Z.id, !take_ge by lia. done.
  - unfold k, protocol.kMaxBookDepth. rewrite length_fmap. destruct (Z.ltb_spec depth (Z.of_nat (length ls))); lia.
  - unfold k, protocol.kMaxBookDepth. rewrite length_fmap. destruct (Z.ltb_spec depth (Z.of_nat (length ls))); lia.
Qed.

Definition top_of_book (seq depth : Z) (b : OrderBook) : protocol.BookUpdate :=
  protocol.mkBookUpdate seq
    (level_of <$> take (Z.to_nat depth) (bid_levels_ticks protocol.kMaxBookDepth b))
    (level_of <$> take (Z.to_nat depth) (ask_levels_ticks protocol.kMaxBookDepth b)).

(** C30: [subscriber_sees_book]. What a publication puts in a subscriber's queue
    is the top of the book at the moment of publication, cut at the depth it
    asked for; and whatever older snapshots wait before it, draining sends that
    one alone: its BookUpdate frame, the number of skipped updates counted, the
    queue emptied. *)
Theorem subscriber_sees_book (seq depth x p : Z) (b : OrderBook) (m : MatchingThread) (q : MarketDataQueue) :
  md_ m !! x = Some (Some p) -> md_store m !! p = Some q ->
  Z.of_nat (length q) < kMarketDataCapacity -> 0 <= depth ->
  let m' := publish_to (make_book_snapshot seq b) m (x, depth) in
  forall (c : Connection) (n : Net), mdq_store n = md_store m' -> queues c = p -> subscribed c = true ->
  exists n', drain_market_data c n =
    (queue (protocol.encode_frame protocol.TBookUpdate (top_of_book seq depth b)) c, n') /\
    mdq_store n' !! p = Some [] /\ conflated_ n' = u64 (conflated_ n + Z.of_nat (length q)).
Proof.
  intros Hx Hp Hroom Hd m' c n Hst Hc Hsub. unfold m', publish_to in Hst. rewrite Hx, Hp in Hst.
  unfold md_push, bounded_push in Hst. rewrite (proj2 (Z.ltb_lt _ _)) in Hst by done. cbn in Hst.
  unfold drain_market_data. rewrite Hsub, Hst, Hc, lookup_insert_eq. cbn [negb]. rewrite last_snoc.
  eexists. split; [|split].
  - f_equal. f_equal. f_equal. unfold book_update_of, top_of_book. cbn [bs_seq bs_n_bids bs_n_asks bs_bid_ticks
      bs_bid_qty bs_ask_ticks bs_ask_qty].
    f_equal; apply sized_levels; try done; unfold bid_levels_ticks, ask_levels_ticks;
      rewrite length_fmap, length_take; lia.
  - cbn. by rewrite lookup_insert_eq.
  - cbn [conflated_ set_counters set_stores]. rewrite length_app. cbn [length]. do 3 f_equal. lia.
Qed.

Definition attached : MatchingThread := attach (net registered) (mt registered).

Definition subscriber : Connection := set_subscribed true (default sample_conn (head (conns registered))).

Definition published : Net :=
  set_stores (eg_store (net registered))
    (md_store (publish_to (make_book_snapshot 1 empty_book) attached (1, 5))) (net registered).

Lemma subscriber_sees_book_witness :
  exists n', drain_market_data subscriber published =
    (queue (encode_frame TBookUpdate (top_of_book 1 5 empty_book)) subscriber, n') /\
    mdq_store n' !! 1 = Some [] /\ conflated_ n' = u64 (conflated_ published + 0).
Proof.
  apply (subscriber_sees_book 1 5 1 1 empty_book attached []).
  - reflexivity.
  - reflexivity.
  - reflexivity.
  - discriminate.
  - reflexivity.
  - reflexivity.
  - reflexivity.
Defined.

(** ** Where the lifetime protocol fails *)

(** [full_queue_close_frees]. When the inbound queue is full at the moment a
    live session is closed, its CancelAll is dropped and the connection, queues
    included, is destroyed at once: the matching thread, if it was registered,
    keeps the pointer, and the session's orders stay in the book. *)
Theorem full_queue_close_frees (waiter_set hook_set : bool) (i : nat) (c : Connection)
    (cs : list Connection) (n : Net) (q : list OrderCommand) :
  cs !! i = Some c -> state_ (c_session_ c) = Connected -> retiring c = false ->
  inbound_ n = Some q -> kInboundCapacity <= Z.of_nat (length q) ->
  exists n', close_connection waiter_set hook_set i cs n = (delete i cs, n') /\
    inbound_ n' = Some q /\ eg_store n' !! queues c = None /\ mdq_store n' !! queues c = None.
Proof.
  intros Hi Ha Hr Hq Hl. unfold close_connection, kill_session, mark_dead. rewrite Hi, Ha. cbn [fst snd negb].
  set (n1 := if hook_set then _ else n).
  assert (inbound_ n1 = Some q) as Hq1 by (unfold n1; by destruct hook_set). rewrite Hq1.
  rewrite (submit_full waiter_set _ _ n1 q Hq1 Hl).
  match goal with |- context [send_reject ?a ?b ?d] => pose proof (send_reject_same a b d) as [S1 S2 _ S4 _];
    set (c1 := send_reject a b d) in * end.
  cbn [retiring set_fd]. rewrite S4. cbn [retiring set_session]. rewrite Hr. eexists. split; [reflexivity|].
  split; [done|]. cbn [queues set_fd free_queues eg_store mdq_store set_stores]. rewrite S2.
  cbn [queues set_session]. by rewrite !lookup_delete_eq.
Qed.

(** A registered client hangs up while 8192 commands wait. *)
Theorem full_queue_leaves_pointer :
  let q := replicate (Z.to_nat kInboundCapacity) (subscribe 1 5) in
  exists cs n, close_connection true false 0 (conns registered) (set_inbound (Some q) 0 (net registered)) = (cs, n) /\
    cs = [] /\ egress_ (mt registered) !! 1 = Some (Some 1) /\ eg_store n !! 1 = None.
Proof.
  intros q.
  destruct (full_queue_close_frees true false 0 (default sample_conn (head (conns registered)))
    (conns registered) (set_inbound (Some q) 0 (net registered)) q) as (n' & He & _ & Hn & _);
    [reflexivity|reflexivity|reflexivity|reflexivity| |].
  - unfold q. rewrite length_replicate. vm_compute. discriminate.
  - eexists _, _. split; [exact He|]. split; [reflexivity|]. split; [reflexivity|exact Hn].
Qed.

(** [overflowed_connection_stuck]. Once a session's event queue has overflowed,
    the network thread stops popping it: a retiring connection never sees its
    tombstone, is never destroyed, and, since its queue stays non-empty, the
    event loop never blocks in [poll] again. *)
Theorem overflowed_connection_stuck (clock : nat -> Z) (waiter_set hook_set : bool)
    (sends : list SendResult) (i : nat) (c : Connection) (cs : list Connection) (n : Net) (q : EgressQueue) :
  cs !! i = Some c -> state_ (c_session_ c) = Dead -> retiring c = true -> fd c = -1 ->
  eg_store n !! queues c = Some q -> overflowed_ q = true -> q_items q <> [] ->
  exists c' cs' n', drain_one clock waiter_set hook_set sends i cs n = (cs', n') /\
    cs' !! i = Some c' /\ state_ (c_session_ c') = Dead /\ retiring c' = true /\ fd c' = -1 /\
    queues c' = queues c /\ eg_store n' !! queues c' = Some q /\ work_pending cs' n' = true.
Proof.
  intros Hi Hd Hr Hf Hq Ho Hne. unfold drain_one. rewrite Hi. unfold drain_egress. rewrite Hq, Ho.
  set (c0 := close_now c).
  assert (exists c1 n1, drain_market_data c0 n = (c1, n1) /\ same_conn c0 c1 /\ eg_store n1 = eg_store n /\
    close_mode c1 = Immediate) as (c1 & n1 & -> & Hs & He & Hm).
  { unfold drain_market_data. repeat case_match; (eexists _, _; split; [reflexivity|]; split_and!; try done).
    - apply queue_same.
    - unfold queue. by destruct (write_buffer.append _ _) as [[] ?]. }
  destruct Hs as [S1 S2 S3 S4 S5].
  assert (fd c1 = -1) as Hf1 by (rewrite S5; done). rewrite Hf1, andb_false_r.
  unfold close_if_ready, monotonic_now, ready_to_close. rewrite Hm.
  assert (<[i := c1]> cs !! i = Some c1) as Hi1 by (apply current; by rewrite Hi).
  unfold close_connection. rewrite Hi1.
  assert (state_ (c_session_ c1) = Dead) as Hd1 by (rewrite S3; done).
  rewrite (kill_session_dead waiter_set hook_set c1 _ Hd1). cbn [retiring set_fd].
  assert (retiring c1 = true) as Hr1 by (rewrite S4; done). rewrite Hr1.
  set (c2 := set_close CloseNone _ _). set (n2 := set_ticks _ n1).
  exists c2, (<[i := c2]> (<[i := c1]> cs)), n2.
  assert (<[i := c2]> (<[i := c1]> cs) !! i = Some c2) as Hi2 by (apply current; by rewrite Hi1).
  assert (queues c2 = queues c) as Hq2 by exact S2.
  assert (eg_store n2 !! queues c2 = Some q) as He2 by (rewrite Hq2; cbn; rewrite He; done).
  split_and!; try done. unfold work_pending. apply existsb_exists. exists c2.
  split; [by apply list_elem_of_In, list_elem_of_lookup; exists i|]. rewrite He2.
  unfold egress_empty. rewrite bool_decide_eq_false_2 by done. by rewrite orb_true_r.
Qed.

(** [refused_registration]. A connection accepted while the inbound queue is
    full is kept although its registration was refused: the matching thread
    never learns its queues. *)
Theorem refused_registration (clock : nat -> Z) (cfg : TcpServerConfig) (waiter_set : bool) (f : Z)
    (cs : list Connection) (n : Net) (q : list OrderCommand) :
  inbound_ n = Some q -> kInboundCapacity <= Z.of_nat (length q) ->
  exists c n', accept_one clock cfg waiter_set f cs n = (cs ++ [c], n') /\
    state_ (c_session_ c) = Connected /\ inbound_ n' = Some q.
Proof.
  intros Hq Hl. unfold accept_one, monotonic_now. cbv beta iota zeta. set (n1 := set_ticks _ _).
  assert (inbound_ n1 = Some q) as Hq1 by done. rewrite Hq1, (submit_full waiter_set _ _ n1 q Hq1 Hl).
  eexists _, _. split; [reflexivity|]. split; [|done]. by rewrite (sc_state _ _ (send_reject_same _ _ _)).
Qed.
