(* ===== verification/Privacy.v ===== *)
(** Events reach their owner: whatever the two threads do, an event for a
    session waits on that session's connection and on no other, so nobody is
    told about somebody else's orders. *)
From stdpp Require Import base numbers gmap list.
From Stdlib Require Import ZArith Lia.
From S2P Require Import Prelude Types Bytes Protocol Commands Wal Egress RiskConfig Session TcpServer TcpProps.
From S2P Require Import MatchingThread EventProps System.
Import tcp.

(** The events on a connection's queue carry its session. *)
Definition private (cs : list Connection) (es : gmap Z EgressQueue) : Prop :=
  forall c e, c ∈ cs -> waiting es (queues c) e -> e_session e = conn_id c.

(** Connections keep their identity or go, and queues only lose events. *)
Lemma private_mono cs es cs' es' :
  private cs es ->
  (forall c', c' ∈ cs' -> exists c, c ∈ cs /\ conn_id c' = conn_id c /\ queues c' = queues c) ->
  (forall p e, waiting es' p e -> waiting es p e) -> private cs' es'.
Proof.
  intros Hp Hc He c' e H' Hw. destruct (Hc c' H') as (c & Hin & -> & Hq). rewrite Hq in Hw. apply Hp; auto.
Qed.

Lemma replaced_identity (cs : list Connection) i c c' :
  cs !! i = Some c -> conn_id c' = conn_id c -> queues c' = queues c ->
  forall d', d' ∈ <[i := c']> cs -> exists d, d ∈ cs /\ conn_id d' = conn_id d /\ queues d' = queues d.
Proof.
  intros Hi Hid Hq d' Hd. apply list_elem_of_lookup in Hd as [j Hj].
  apply list_lookup_insert_Some in Hj as [(_ & -> & _)|[_ Hj]].
  - exists c. split; [|done]. apply list_elem_of_lookup. by exists i.
  - exists d'. split; [|done]. apply list_elem_of_lookup. by exists j.
Qed.

Lemma private_served cs n i c c' n' :
  private cs (eg_store n) -> cs !! i = Some c -> served c n (c', n') -> private (<[i := c']> cs) (eg_store n').
Proof.
  intros Hp Hi (cmds & [H1 H2 _ _ _] & [_ A _ _ _] & _). cbn in *.
  eapply private_mono; [exact Hp|by eapply replaced_identity|]. by rewrite A.
Qed.

Lemma private_same cs es i c c' :
  private cs es -> cs !! i = Some c -> same_conn c c' -> private (<[i := c']> cs) es.
Proof. intros Hp Hi [H1 H2 _ _ _]. eapply private_mono; [exact Hp|by eapply replaced_identity|done]. Qed.

(** ** The handlers *)

Lemma private_drain_egress cs n i c c' n' :
  private cs (eg_store n) -> cs !! i = Some c -> drain_egress c n = (c', n') ->
  private (<[i := c']> cs) (eg_store n').
Proof.
  intros Hp Hi. unfold drain_egress. destruct (eg_store n !! queues c) as [q|] eqn:Hq.
  2: { intros [= <- <-]. by eapply private_same. }
  destruct (overflowed_ q). { intros [= <- <-]. by eapply private_same. }
  pose proof (drain_events_spec (q_items q) c) as Hd. destruct (drain_events (q_items q) c) as [rest c1].
  intros [= <- <-]. destruct Hd as (H1 & H2 & _ & _ & [pre Hpre] & _).
  eapply private_mono; [exact Hp|by eapply replaced_identity|]. cbn. rewrite H2. intros p e He.
  apply (waiting_insert _ _ q) in He as [?|[-> He]]; [done| |done]. exists q. split; [done|].
  rewrite Hpre. apply elem_of_app. by right.
Qed.

Lemma private_drain_md cs n i c c' n' :
  private cs (eg_store n) -> cs !! i = Some c -> drain_market_data c n = (c', n') ->
  private (<[i := c']> cs) (eg_store n').
Proof.
  intros Hp Hi. unfold drain_market_data. repeat case_match; intros [= <- <-]; try (by eapply private_same).
  eapply private_same; [exact Hp|exact Hi|apply queue_same].
Qed.

Section system.
Context (clock : nat -> Z) (cfg : TcpServerConfig) (waiter_set hook_set : bool).

(** A new connection starts with an empty queue of its own. *)
Lemma private_accept cs n m q f cs' n' :
  life_inv cs n m q -> private cs (eg_store n) -> accept_one clock cfg waiter_set f cs n = (cs', n') ->
  private cs' (eg_store n').
Proof.
  intros Hl Hp. pose proof (li_inbound _ _ _ _ Hl) as Hin. unfold accept_one, monotonic_now.
  cbv beta iota zeta. cbn [inbound_ set_ticks set_stores set_alloc]. rewrite Hin.
  set (c := connection _ _ _ _ _ _ _). set (n1 := set_ticks _ _).
  assert (forall c1, queues c1 = queues c -> private (cs ++ [c1]) (<[queues c := egress_queue0]> (eg_store n))) as H.
  { intros c1 Hq d e [Hd|Hd%list_elem_of_singleton]%elem_of_app (eq & Heq & He).
    - pose proof (li_conns _ _ _ _ Hl) as Hcs. rewrite Forall_forall in Hcs. destruct (Hcs d Hd) as (_ & Hlt & _).
      rewrite lookup_insert_ne in Heq by (unfold c; cbn; lia). apply Hp; [done|]. by exists eq.
    - subst d. rewrite Hq, lookup_insert_eq in Heq. simplify_eq. by apply not_elem_of_nil in He. }
  destruct (submit_cases waiter_set (session_opened (next_session_id_ n) (Some (next_ptr n)) (Some (next_ptr n)))
    c n1) as [(n2 & -> & [A1 A2 A3 A4 A5])| ->]; [by exists q| |]; intros [= <- <-].
  - rewrite A2. by apply H.
  - apply H. apply (send_reject_same _ _ c).
Qed.

Lemma private_close cs n i cs' n' :
  private cs (eg_store n) -> room n -> close_connection waiter_set hook_set i cs n = (cs', n') ->
  private cs' (eg_store n').
Proof.
  intros Hp Hroom. unfold close_connection. destruct (cs !! i) as [c|] eqn:Hi; [|by intros [= <- <-]].
  destruct (state_ (c_session_ c)) eqn:Hst.
  - destruct (kill_session_alive waiter_set hook_set c n Hst Hroom) as (c1 & n1 & -> & H1 & H2 & H3 & [_ A _ _ _]).
    cbn [retiring set_fd]. rewrite H3. intros [= <- <-].
    eapply private_mono; [exact Hp|by eapply replaced_identity|]. by rewrite A.
  - rewrite kill_session_dead by done. cbn [retiring set_fd]. destruct (retiring c); intros [= <- <-].
    + eapply private_mono; [exact Hp|by eapply replaced_identity|done].
    + eapply private_mono; [exact Hp|..].
      * intros d Hd. exists d. split; [|done]. rewrite (delete_Permutation cs i c Hi). by right.
      * cbn. intros p e (q & [_ Hq]%lookup_delete_Some & He). by exists q.
Qed.

(** What the matching thread adds, it adds to the queue registered for the session. *)
Lemma routed_waiting cmd m m' p e :
  routed cmd m m' -> waiting (egress_store m') p e ->
  waiting (egress_store m) p e \/ egress_ m !! e_session e = Some (Some p).
Proof.
  intros [_ Hq|_ _ _ A _|_ _ _ _ _ T] Hw.
  - destruct (qt_events _ _ Hq p e Hw) as [?|[_ H]]; [by left|right].
    unfold egress_for in H. by destruct (egress_ m !! e_session e) as [[]|]; simplify_eq/=.
  - left. by rewrite <- A.
  - destruct (T p e Hw) as [?|[H ->]]; [by left|by right].
Qed.

Lemma private_match cs n m q cmd m' :
  life_inv cs n m q -> private cs (eg_store n) -> routed cmd (attach n m) m' -> private cs (egress_store m').
Proof.
  intros Hl Hp Hr c e Hc Hw. destruct (routed_waiting _ _ _ _ _ Hr Hw) as [?|H]; [by apply Hp|].
  destruct (li_refs _ _ _ _ Hl (e_session e) (queues c)) as (d & Hd & <- & Hq & _); [by left|].
  f_equal. by apply (queue_owner cs); [apply Hl|..].
Qed.

Lemma step_private s s' :
  safe s -> private (conns s) (eg_store (net s)) -> sys_step clock cfg waiter_set hook_set s s' ->
  private (conns s') (eg_store (net s')).
Proof.
  intros [q Hl] Hp Hs.
  destruct Hs as [s|t s|f s cs n Hn Ha|now s|i rs c c' n s Hi Hr|i ss c s Hi|i c s Hi|i c c' n s Hi Hd
    |i c c' n s Hi Hd|i s cs n Hroom Hc|env s s' Hm]; cbn [set_conn conns net mt] in *.
  - done.
  - done.
  - by eapply private_accept.
  - eapply private_mono; [exact Hp| |done]. intros c' (c & -> & Hc)%list_elem_of_fmap. exists c.
    split; [done|]. split; apply (service_timer_same now c).
  - eapply private_served; [exact Hp|exact Hi|]. rewrite <- Hr. apply handle_readable_served. by rewrite (li_inbound _ _ _ _ Hl).
  - eapply private_same; [exact Hp|exact Hi|apply handle_writable_same].
  - by eapply private_same.
  - by eapply private_drain_egress.
  - by eapply private_drain_md.
  - by eapply private_close.
  - unfold match_one in Hm. rewrite (li_inbound _ _ _ _ Hl) in Hm. destruct q as [|cmd q]; [done|].
    injection Hm as <-. cbn [conns net eg_store set_stores]. eapply private_match; [exact Hl|exact Hp|apply apply_routed].
Qed.

Lemma steps_private s s' :
  rtc (sys_step clock cfg waiter_set hook_set) s s' -> safe s -> private (conns s) (eg_store (net s)) ->
  private (conns s') (eg_store (net s')).
Proof.
  induction 1 as [|s1 s2 s3 H12 _ IH]; [done|]. intros Hs Hp. apply IH; [by eapply step_safe|by eapply step_private].
Qed.

End system.

(** C7: [events_reach_owner]. Nobody sees another session's events. From a start
    with no connections, under any interleaving of the network thread's handlers
    (accepting, reading, writing, draining, timers, hung_up) with commands
    applied by the matching thread, every event that waits on a connection's
    queue is addressed to that connection's session, sessions being closed while
    the inbound queue has room for the CancelAll. *)
Theorem events_reach_owner (clock : nat -> Z) (cfg : TcpServerConfig) (waiter_set hook_set : bool)
    (m : MatchingThread) (s : Sys) :
  egress_ m = ∅ -> md_ m = ∅ -> rtc (sys_step clock cfg waiter_set hook_set) (fresh_sys m) s ->
  forall c q, c ∈ conns s -> eg_store (net s) !! queues c = Some q ->
  Forall (fun e => e_session e = conn_id c) (q_items q).
Proof.
  intros He Hm Hr c q Hc Hq. apply Forall_forall. intros e Hin.
  apply (steps_private clock cfg waiter_set hook_set (fresh_sys m) s Hr); [by apply fresh_safe| |done|by exists q].
  intros d e' Hd. by apply not_elem_of_nil in Hd.
Qed.

(** The first client is disconnected, and the matching thread has retired its
    session: the tombstone waits on its queue. *)
Definition hung_up : Sys := Eval vm_compute in
  let r := close_connection true false 0 (conns registered) (net registered) in mkSys r.1 r.2 (mt registered).
Definition retired : Sys := Eval vm_compute in default hung_up (match_one (mkEnv 0 None) hung_up).

Lemma retired_reached : rtc (sys_step clock0 tcp_config0 true false) (fresh_sys idle_thread) retired.
Proof.
  etrans; [apply registered_reached|]. apply (rtc_l _ _ hung_up).
  - apply (Net_close _ _ _ _ 0 registered (conns hung_up) (net hung_up)); [|vm_compute; reflexivity].
    exists []. by vm_compute.
  - apply rtc_once, (Match _ _ _ _ (mkEnv 0 None)). vm_compute. reflexivity.
Qed.

Lemma events_reach_owner_witness :
  exists c, c ∈ conns retired /\ conn_id c = 1 /\
  eg_store (net retired) !! queues c = Some (mkEgress [ev_session_retired 1] false) /\
  Forall (fun e => e_session e = conn_id c) [ev_session_retired 1].
Proof.
  exists (default sample_conn (head (conns retired))). split; [left|]. split; [reflexivity|]. split; [reflexivity|].
  apply (events_reach_owner clock0 tcp_config0 true false idle_thread retired eq_refl eq_refl retired_reached
    (default sample_conn (head (conns retired))) (mkEgress [ev_session_retired 1] false)).
  - left.
  - reflexivity.
Defined.
