(* ===== verification/WireProps.v ===== *)
(** Properties of the wire: every message codec, the reassembly of frames from
    arbitrary chunks, the bounded write buffer. *)
From stdpp Require Import base numbers list.
From Stdlib Require Import ZArith Lia.
From S2P Require Import Prelude Types Bytes Protocol FrameReader WriteBuffer.
Import protocol.

(** ** The messages of the protocol as one type

    What travels: a message with the type tag its frame carries. *)

Inductive AnyMessage :=
  | MNewOrder (m : NewOrder) | MCancel (m : Cancel) | MModify (m : Modify)
  | MSubscribe (m : Subscribe) | MAck (m : Ack) | MReject (m : Reject)
  | MFill (m : Fill) | MBookUpdate (m : BookUpdate) | MHeartbeat (m : Heartbeat).

Definition any_type (m : AnyMessage) : MessageType :=
  match m with
  | MNewOrder _ => TNewOrder | MCancel _ => TCancel | MModify _ => TModify
  | MSubscribe _ => TSubscribe | MAck _ => TAck | MReject _ => TReject
  | MFill _ => TFill | MBookUpdate _ => TBookUpdate | MHeartbeat _ => THeartbeat
  end.

Definition any_payload (m : AnyMessage) : list Z :=
  match m with
  | MNewOrder m => encode [] m | MCancel m => encode [] m | MModify m => encode [] m
  | MSubscribe m => encode [] m | MAck m => encode [] m | MReject m => encode [] m
  | MFill m => encode [] m | MBookUpdate m => encode [] m | MHeartbeat m => encode [] m
  end.

Definition any_frame (m : AnyMessage) : list Z :=
  match m with
  | MNewOrder m => encode_frame TNewOrder m | MCancel m => encode_frame TCancel m
  | MModify m => encode_frame TModify m | MSubscribe m => encode_frame TSubscribe m
  | MAck m => encode_frame TAck m | MReject m => encode_frame TReject m
  | MFill m => encode_frame TFill m | MBookUpdate m => encode_frame TBookUpdate m
  | MHeartbeat m => encode_frame THeartbeat m
  end.

(** [decode<T>] of the type the tag names. *)
Definition decode_any (t : MessageType) (bs : list Z) : option AnyMessage :=
  match t with
  | TNewOrder => MNewOrder <$> decode bs | TCancel => MCancel <$> decode bs
  | TModify => MModify <$> decode bs | TSubscribe => MSubscribe <$> decode bs
  | TAck => MAck <$> decode bs | TReject => MReject <$> decode bs
  | TFill => MFill <$> decode bs | TBookUpdate => MBookUpdate <$> decode bs
  | THeartbeat => MHeartbeat <$> decode bs
  end.

(** Every field in the range of its C++ type, at most ten levels a side. *)
Definition any_ok (m : AnyMessage) : Prop :=
  match m with
  | MNewOrder m => NewOrder_ok m
  | MCancel m => is_u64 (ca_client_order_id m)
  | MModify m => is_u64 (mo_client_order_id m) /\ is_i64 (mo_new_price_ticks m) /\
                 is_u32 (mo_new_quantity m)
  | MSubscribe m => is_u8 (su_depth m)
  | MAck m => is_u64 (ak_client_order_id m) /\ is_u64 (ak_exchange_order_id m)
  | MReject m => is_u64 (re_client_order_id m) /\ reason_ok (re_reason m)
  | MFill m => is_u64 (fi_exchange_order_id m) /\ is_i64 (fi_price_ticks m) /\
               is_u32 (fi_quantity m) /\ is_u32 (fi_remaining_quantity m)
  | MBookUpdate m => BookUpdate_ok m
  | MHeartbeat m => is_u64 (hb_timestamp_ns m)
  end.

(** Decode a whole frame: an unknown tag decodes to nothing. *)
Definition decode_frame (f : Frame) : option AnyMessage :=
  match mtype_of (h_type (f_header f)) with
  | Some t => decode_any t (f_payload f)
  | None => None
  end.

Lemma any_bytes m : any_ok m -> bytes (any_payload m).
Proof. destruct m; cbn [any_ok any_payload]; intros H; by apply encode_bytes. Qed.

Lemma any_decode_encode m : any_ok m -> decode_any (any_type m) (any_payload m) = Some m.
Proof.
  destruct m; cbn [any_ok any_type any_payload decode_any]; intros H;
    rewrite decode_encode by done; done.
Qed.

Lemma length_level_bytes ls : length (level_bytes ls) = (16 * length ls)%nat.
Proof.
  induction ls as [|l ls IH]; [done|]. unfold level_bytes in *.
  rewrite bind_cons, !length_app, !length_le_bytes, IH. simpl. lia.
Qed.

(** No payload comes near the 64 KiB a header may announce. *)
Lemma any_small m : (length (any_payload m) <= 330)%nat.
Proof.
  destruct m as [m|m|m|m|m|m|m|m|m]; cbn [any_payload]; cbv [encode NewOrder_msg Cancel_msg Modify_msg
    Subscribe_msg Ack_msg Reject_msg Fill_msg BookUpdate_msg Heartbeat_msg].
  8: { rewrite encode_BookUpdate_eq, app_nil_l, length_app, length_le_bytes. cbn [length].
       rewrite length_app, !length_level_bytes, !length_take. unfold kMaxBookDepth. lia. }
  all: unfold encode_NewOrder, encode_Cancel, encode_Modify, encode_Subscribe, encode_Ack,
    encode_Reject, encode_Fill, encode_Heartbeat; puts;
    repeat (rewrite ?length_app, ?length_le_bytes; cbn [length]); lia.
Qed.

(** The frame [any_frame] writes. *)
Definition frame_of (m : AnyMessage) : Frame :=
  mkFrame (mkHeader (Z.of_nat (length (any_payload m))) (mtype_code (any_type m)) kVersion)
    (any_payload m).

Lemma any_frame_eq m : any_frame m = frame_bytes (frame_of m).
Proof.
  pose proof (any_small m).
  assert (u32 (Z.of_nat (length (any_payload m))) = Z.of_nat (length (any_payload m))) as Hu.
  { apply u32_id. zwlia. }
  unfold frame_of, frame_bytes. cbn [f_header f_payload]. rewrite <- Hu.
  destruct m; simpl any_frame; by rewrite encode_frame_eq.
Qed.

Lemma frame_of_ok m : any_ok m -> frame_ok (frame_of m).
Proof.
  intros Hm. pose proof (any_small m). unfold frame_ok, frame_of, header_ok, kMaxPayloadSize.
  cbn [f_header f_payload h_length h_type h_version]. split_and!; [lia..| |done|by apply any_bytes|done].
  apply mtype_code_u16.
Qed.

Lemma decode_frame_of m : any_ok m -> decode_frame (frame_of m) = Some m.
Proof.
  intros Hm. unfold decode_frame, frame_of. cbn [f_header f_payload h_type].
  rewrite mtype_of_code. by apply any_decode_encode.
Qed.

Lemma any_frames_eq ms : ms ≫= any_frame = (frame_of <$> ms) ≫= frame_bytes.
Proof.
  induction ms as [|m ms IH]; [done|]. by rewrite fmap_cons, !bind_cons, any_frame_eq, IH.
Qed.

Lemma frames_of_ok ms : Forall any_ok ms -> Forall frame_ok (frame_of <$> ms).
Proof. induction 1; [constructor|]. constructor; [by apply frame_of_ok|done]. Qed.

Lemma decode_frames_of ms :
  Forall any_ok ms -> decode_frame <$> (frame_of <$> ms) = Some <$> ms.
Proof. induction 1; [done|]. rewrite !fmap_cons. by rewrite decode_frame_of, IHForall. Qed.

(** ** Claims *)

(** C28: [codec_roundtrip]. Every message of every type, with fields in the
    range of their C++ types, is decoded from its own encoding: the payload
    has at most 330 bytes, is made of bytes and [decode<T>] of the tagged type
    gives the message back. *)
Theorem codec_roundtrip (m : AnyMessage) :
  any_ok m ->
  (length (any_payload m) <= 330)%nat /\ bytes (any_payload m) /\
  decode_any (any_type m) (any_payload m) = Some m.
Proof. intros Hm. split; [apply any_small|]. split; [by apply any_bytes|by apply any_decode_encode]. Qed.

Definition sample_new_order : NewOrder := mkNewOrder 7 (-12345) 100 Ask Limit.
Definition sample_update : BookUpdate :=
  mkBookUpdate 3 [mkBookLevel 100 5; mkBookLevel 99 2] [mkBookLevel 101 9].

Lemma codec_roundtrip_witness :
  decode_any TNewOrder (any_payload (MNewOrder sample_new_order)) = Some (MNewOrder sample_new_order).
Proof. apply (codec_roundtrip (MNewOrder sample_new_order)). simpl. unfold NewOrder_ok. vm_decide. Defined.

(** C29: [codec_canonical]. A decoder accepts nothing but encodings: whatever
    byte string is accepted as a message is exactly the encoding of the message
    it decodes to, whose fields are in range. So there is no second spelling of
    a message, no trailing garbage, no out-of-range enumerator or depth. *)
Theorem codec_canonical (t : MessageType) (bs : list Z) (m : AnyMessage) :
  bytes bs -> decode_any t bs = Some m ->
  any_type m = t /\ any_ok m /\ any_payload m = bs.
Proof.
  intros Hb. destruct t; cbn [decode_any]; intros (x & Hx & ->)%fmap_Some_1;
    destruct (encode_decode bs x Hb Hx); done.
Qed.

Lemma codec_canonical_witness :
  any_payload (MCancel (mkCancel 513)) = [1; 2; 0; 0; 0; 0; 0; 0].
Proof.
  apply (codec_canonical TCancel [1; 2; 0; 0; 0; 0; 0; 0] (MCancel (mkCancel 513)));
    [unfold bytes; vm_decide|vm_compute; reflexivity].
Defined.

(** [book_update_truncates]. A book update deeper than ten levels a side
    is still sent, and the receiver decodes its best ten levels a side. *)
Theorem book_update_truncates (m : BookUpdate) :
  is_u64 (bu_seq m) -> Forall level_ok (bu_bids m) -> Forall level_ok (bu_asks m) ->
  decode_BookUpdate (encode_BookUpdate [] m) =
  Some (mkBookUpdate (bu_seq m) (take 10 (bu_bids m)) (take 10 (bu_asks m))).
Proof.
  intros Hs Hb Ha. rewrite encode_truncate. apply BookUpdate_roundtrip.
  unfold BookUpdate_ok, truncate, kMaxBookDepth. cbn [bu_seq bu_bids bu_asks].
  rewrite !length_take. split_and!; [done|lia|lia|by apply Forall_take|by apply Forall_take].
Qed.

Definition deep_update : BookUpdate :=
  mkBookUpdate 1 ((fun i => mkBookLevel (100 - Z.of_nat i) 1) <$> seq 0 12) [].

Lemma book_update_truncates_witness :
  decode_BookUpdate (encode_BookUpdate [] deep_update) =
  Some (mkBookUpdate 1 (take 10 (bu_bids deep_update)) []).
Proof.
  apply (book_update_truncates deep_update); unfold level_ok; vm_decide.
Defined.

(** [reassembly_chunking]. The reader yields the frames of the byte
    stream, however [recv] cuts it: two chunkings of the same bytes give the
    same frames, the same failure flag and, when framing is intact, the same
    unread remainder. *)
Theorem reassembly_chunking (cs ds : list (list Z)) :
  bytes (mjoin cs) -> mjoin cs = mjoin ds ->
  (feed_all frame_reader0 cs).1 = (feed_all frame_reader0 ds).1 /\
  reader_abs (feed_all frame_reader0 cs).2 = reader_abs (feed_all frame_reader0 ds).2.
Proof.
  intros Hb He. pose proof (feed_all_parses cs Hb) as H1. rewrite He in Hb.
  pose proof (feed_all_parses ds Hb) as H2. rewrite <- He in H2. by eapply parses_det.
Qed.

Definition two_messages : list AnyMessage :=
  [MCancel (mkCancel 9); MHeartbeat (mkHeartbeat 77)].
Definition wire_of (ms : list AnyMessage) : list Z := ms ≫= any_frame.

Lemma reassembly_chunking_witness :
  (feed_all frame_reader0 [take 5 (wire_of two_messages); drop 5 (wire_of two_messages)]).1 =
  (feed_all frame_reader0 ((fun b => [b]) <$> wire_of two_messages)).1.
Proof.
  apply (reassembly_chunking
    [take 5 (wire_of two_messages); drop 5 (wire_of two_messages)]
    ((fun b => [b]) <$> wire_of two_messages)).
  - unfold bytes. vm_decide.
  - vm_compute. reflexivity.
Defined.

(** C14: [stream_delivers_messages]. End to end: any sequence of well-formed
    messages, framed by [encode_frame], concatenated, and cut into chunks in
    any way, is delivered as exactly those messages in order, with the reader
    neither failed nor holding a byte. *)
Theorem stream_delivers_messages (ms : list AnyMessage) (chunks : list (list Z)) :
  Forall any_ok ms -> mjoin chunks = ms ≫= any_frame ->
  decode_frame <$> (feed_all frame_reader0 chunks).1 = Some <$> ms /\
  failed_ (feed_all frame_reader0 chunks).2 = false /\
  buffered (feed_all frame_reader0 chunks).2 = 0%nat.
Proof.
  intros Hms Hc. rewrite any_frames_eq in Hc. pose proof (frames_of_ok ms Hms) as Hok.
  assert (bytes (mjoin chunks)) as Hb by (rewrite Hc; by apply frames_bytes).
  pose proof (feed_all_parses chunks Hb) as H1.
  pose proof (parses_frames _ [] Hok ltac:(constructor) eq_refl) as H2.
  rewrite app_nil_r, <- Hc in H2. destruct (parses_det _ _ _ _ _ H1 H2) as [-> Ha].
  split; [by apply decode_frames_of|]. unfold reader_abs in Ha.
  destruct (failed_ _); [done|]. injection Ha as Ha. split; [done|].
  by rewrite <- length_unread, Ha.
Qed.

Lemma stream_delivers_messages_witness :
  decode_frame <$>
    (feed_all frame_reader0 [take 11 (wire_of two_messages); []; drop 11 (wire_of two_messages)]).1
  = Some <$> two_messages.
Proof.
  apply (stream_delivers_messages two_messages).
  - unfold two_messages. repeat constructor; simpl; done.
  - vm_compute. reflexivity.
Defined.

(** [framing_loss_latches]. A header announcing more than 64 KiB loses
    framing for good: the frames before it are delivered, the reader fails, and
    nothing that follows is ever delivered, however the bytes are chunked. *)
Theorem framing_loss_latches (fs : list Frame) (h : MessageHeader) (tl : list Z)
    (chunks : list (list Z)) :
  Forall frame_ok fs -> is_u32 (h_length h) -> is_u16 (h_type h) -> is_u16 (h_version h) ->
  kMaxPayloadSize < h_length h -> bytes tl ->
  mjoin chunks = (fs ≫= frame_bytes) ++ encode_header [] h ++ tl ->
  (feed_all frame_reader0 chunks).1 = fs /\ failed_ (feed_all frame_reader0 chunks).2 = true.
Proof.
  intros Hfs Hl Ht Hv Hbig Htl Hc.
  assert (step (encode_header [] h ++ tl) = Bad) as Hbad.
  { unfold step. destruct (Nat.ltb_spec (length (encode_header [] h ++ tl)) kHeaderSize) as [Hlt|_].
    { rewrite length_app, length_header in Hlt. lia. }
    destruct (decode_header (encode_header [] h ++ tl)) as [h'|] eqn:E; [|done].
    destruct (decode_header_sound _ _ ltac:(apply Forall_app; split; [apply header_bytes|done]) E)
      as [(Hh' & _) [tl' Heq]].
    apply app_inj_1 in Heq as [Heq _]; [|by rewrite !length_header].
    rewrite !encode_header_eq, !app_nil_l in Heq.
    apply app_inj_1 in Heq as [Heq _]; [|by rewrite !length_le_bytes].
    apply (f_equal le_decode) in Heq. rewrite !le_decode_bytes in Heq. unfold kMaxPayloadSize in *.
    rewrite !Z.mod_small in Heq; [lia|zwlia..]. }
  assert (bytes (mjoin chunks)) as Hb.
  { rewrite Hc. apply Forall_app. split; [by apply frames_bytes|].
    apply Forall_app. split; [apply header_bytes|done]. }
  pose proof (feed_all_parses chunks Hb) as H1. rewrite Hc in H1, Hb.
  assert (parses ((fs ≫= frame_bytes) ++ encode_header [] h ++ tl) fs None) as H2.
  { clear H1 Hc. induction Hfs as [|f fs Hf Hfs IH]; [by constructor|].
    rewrite bind_cons, <- app_assoc in Hb |- *. apply bytes_app in Hb as [_ Hb].
    eapply P_got; [by apply step_frame|by apply IH]. }
  destruct (parses_det _ _ _ _ _ H1 H2) as [-> Ha]. split; [done|].
  unfold reader_abs in Ha. by destruct (failed_ _).
Qed.

Lemma framing_loss_latches_witness :
  (feed_all frame_reader0
     [frame_bytes (frame_of (MCancel (mkCancel 9)));
      encode_header [] (mkHeader 65537 2 1); frame_bytes (frame_of (MCancel (mkCancel 9)))]).1
  = [frame_of (MCancel (mkCancel 9))].
Proof.
  apply (framing_loss_latches [frame_of (MCancel (mkCancel 9))] (mkHeader 65537 2 1)
    (frame_bytes (frame_of (MCancel (mkCancel 9))))).
  - constructor; [|constructor]. apply frame_of_ok. simpl. done.
  - vm_decide.
  - vm_decide.
  - vm_decide.
  - vm_compute. reflexivity.
  - unfold bytes. vm_decide.
  - vm_compute. reflexivity.
Defined.

(** [write_buffer_stream]. Over any history of appends and partial sends,
    the bytes sent followed by the bytes pending are exactly the bytes
    accepted, so nothing is lost, duplicated, reordered or truncated; and the
    memory held, the consumed prefix included, never exceeds the capacity. *)
Theorem write_buffer_stream (capacity : Z) (ops : list write_buffer.WOp) :
  let t := write_buffer.wrun capacity ops in
  write_buffer.wt_in t = write_buffer.wt_out t ++ write_buffer.data (write_buffer.wt_buf t) /\
  Z.of_nat (length (write_buffer.buf_ (write_buffer.wt_buf t))) <= Z.max 0 capacity.
Proof.
  destruct (write_buffer.wrun_inv capacity ops) as ([_ Hm] & Hc & Hd).
  rewrite Hc in Hm. done.
Qed.

(** [write_buffer_append]. [append] accepts exactly what fits beside the
    pending bytes: it refuses iff the data is not empty and would exceed the
    capacity, a refusal changes nothing, and an acceptance adds the whole data
    behind the pending bytes, compacting instead of refusing. *)
Theorem write_buffer_append (capacity : Z) (ops : list write_buffer.WOp) (bs : list Z) :
  let b := write_buffer.wt_buf (write_buffer.wrun capacity ops) in
  let '(ok, b') := write_buffer.append bs b in
  ok = ((length bs =? 0)%nat || (Z.of_nat (write_buffer.pending b + length bs) <=? capacity)) /\
  (if ok then write_buffer.data b' = write_buffer.data b ++ bs else b' = b).
Proof.
  destruct (write_buffer.wrun_inv capacity ops) as (Hw & Hc & _).
  pose proof (write_buffer.append_spec bs _ Hw) as Ha. rewrite Hc in Ha.
  cbv zeta. destruct (write_buffer.append bs _) as [ok b']. destruct Ha as (_ & _ & Hok & Hd & Hr).
  split; [done|]. destruct ok; [done|by apply Hr].
Qed.
