(* ===== verification/OrderFlow.v ===== *)
(** An order through the whole system: the bytes of a NewOrder frame arrive on a
    connection, the network thread queues the command, the matching thread logs
    and applies it, the network thread drains the events, and the client decodes
    an Ack and the Fills of its own session from what is written back. *)
From stdpp Require Import base numbers gmap list relations.
From Stdlib Require Import ZArith Lia.
From S2P Require Import Prelude Types OrderBook BookFacts Engine Bytes Protocol FrameReader WriteBuffer Commands Spsc.
From S2P Require Import Wal Snapshot Egress RiskConfig Session TcpServer TcpProps MatchingThread Recovery Ownership.
From S2P Require Import CoreInv MatchProps EventProps System WireProps.
Import protocol tcp.

(** ** Reading the frame *)

Section read.
Context (clock : nat -> Z) (cfg : TcpServerConfig) (w : bool).

(** A reader with no bytes waiting. *)
Definition idle (r : FrameReader) : Prop := fr_wf r /\ reader_abs r = Some [].

Lemma idle_next r : idle r -> next_frame r = (None, r).
Proof.
  intros [Hw Ha]. unfold reader_abs in Ha. destruct (failed_ r) eqn:Hf; [done|]. injection Ha as Ha.
  destruct (next_frame_step r Hw Hf) as [_ Hs]. by rewrite Ha in Hs.
Qed.

(** One frame arrives on an idle reader. *)
Lemma arrive f r :
  frame_ok f -> idle r ->
  exists r', next_frame (fr_append (frame_bytes f) r) = (Some f, r') /\ idle r' /\
    (1 <= FrameReader.buffered (fr_append (frame_bytes f) r))%nat.
Proof.
  intros Hf [Hw Ha]. unfold reader_abs in Ha. destruct (failed_ r) eqn:Hfail; [done|]. injection Ha as Ha.
  destruct (fr_append_unread r (frame_bytes f) Hw Hfail) as (Hw1 & Hf1 & Hu). rewrite Ha in Hu. cbn [app] in Hu.
  destruct (next_frame_step _ Hw1 Hf1) as [Hw2 Hs].
  pose proof (step_frame f [] Hf ltac:(constructor)) as Hst. rewrite app_nil_r in Hst. rewrite Hu, Hst in Hs.
  destruct (next_frame _) as [o r']. cbn [fst snd] in *. destruct Hs as [-> Hr].
  exists r'. split; [done|]. split; [done|]. rewrite <- length_unread, Hu. unfold frame_bytes.
  rewrite length_app, length_header. unfold kHeaderSize. lia.
Qed.

Lemma read_order m c n b :
  idle (reader c) -> close_mode c = CloseNone -> 0 <= max_read_buffer cfg ->
  NewOrder_ok m -> no_quantity m <> 0 -> no_client_order_id m ∉ live_orders_ (c_session_ c) ->
  allow (clock (S (ticks_ n))) (bucket c) = (true, b) -> inbound_ n = Some [] ->
  exists c1, handle_readable clock cfg w [RData (encode_frame TNewOrder m)] c n =
      (c1, queued w (new_order (conn_id c) m) [] (set_ticks (S (ticks_ n)) n)) /\
    writer c1 = writer c /\ close_mode c1 = CloseNone /\ queues c1 = queues c /\ conn_id c1 = conn_id c /\ idle (reader c1).
Proof.
  intros Hidle Hmode Hmax Hm Hq Hfree Hb Hin.
  pose proof (frame_of_ok (MNewOrder m) Hm) as Hok. pose proof (any_frame_eq (MNewOrder m)) as Hfr.
  change (any_frame (MNewOrder m)) with (encode_frame TNewOrder m) in Hfr.
  change (frame_of (MNewOrder m)) with (order_frame m) in *.
  destruct (arrive (order_frame m) (reader c) Hok Hidle) as (r & Hnext & Hr & Hlen). rewrite Hfr.
  assert (length (frame_bytes (order_frame m)) <= 338)%nat as Hl.
  { unfold frame_bytes. rewrite length_app, length_header. pose proof (any_small (MNewOrder m)) as Hs. cbn [any_payload] in Hs.
    change (f_payload (order_frame m)) with (encode [] m). unfold kHeaderSize. lia. }
  destruct (frame_bytes (order_frame m)) as [|b0 bs] eqn:Ebs; [by rewrite <- Hfr in Ebs|]. cbn [handle_readable].
  unfold monotonic_now. cbv beta iota zeta. set (c1 := set_session _ _). set (n1 := set_ticks _ n).
  change (reader c1) with (fr_append (b0 :: bs) (reader c)).
  destruct (FrameReader.buffered (fr_append (b0 :: bs) (reader c))) as [|k] eqn:Ek; [lia|].
  cbn [dispatch_frames]. change (reader c1) with (fr_append (b0 :: bs) (reader c)). rewrite Hnext.
  rewrite (dispatch_order clock w m (set_reader r c1) n1 [] b) by done.
  set (c2 := ordered _ _ _). set (n2 := queued _ _ _ n1).
  assert (closing c2 = false) as -> by (unfold closing; cbn; by rewrite Hmode).
  change (reader c2) with r. rewrite (idle_next r Hr). cbn [reader set_reader].
  destruct Hr as [Hrw Hra]. pose proof Hra as Hra'. unfold reader_abs in Hra'.
  destruct (failed_ r) eqn:Hf; [done|]. injection Hra' as Hu.
  assert (FrameReader.buffered r = 0)%nat as -> by (by rewrite <- length_unread, Hu).
  rewrite (proj2 (Z.ltb_ge _ _)) by lia.
  rewrite (proj2 (Z.ltb_lt _ _)) by (unfold kRecvBuffer; lia).
  eexists. split; [reflexivity|]. split_and!; done.
Qed.
End read.

(** ** Writing the answers *)

(** The message an event is delivered as. *)
Definition event_message (e : OrderEvent) : list AnyMessage :=
  match e_type e with
  | EvAck => [MAck (mkAck (e_client_order_id e) (e_exchange_order_id e))]
  | EvReject => [MReject (mkReject (e_client_order_id e) (e_reason e))]
  | EvFill => [MFill (mkFill (e_exchange_order_id e) (e_price_ticks e) (e_quantity e) (e_remaining_quantity e))]
  | EvSessionRetired => []
  end.

Definition event_bytes (evs : list OrderEvent) : list Z := (evs ≫= event_message) ≫= any_frame.

Lemma event_bytes_cons e evs : event_bytes (e :: evs) = (event_message e ≫= any_frame) ++ event_bytes evs.
Proof. unfold event_bytes. by rewrite bind_cons, bind_app. Qed.

(** Room in the write buffer for [k] more bytes. *)
Definition writes_fit (c : Connection) (k : nat) : Prop :=
  write_buffer.wb_wf (writer c) /\
  Z.of_nat (write_buffer.pending (writer c) + k) <= write_buffer.capacity_ (writer c).

(** [c'] is [c] with [bs] more to write, and live ids at most changed. *)
Definition wrote (bs : list Z) (c c' : Connection) : Prop :=
  write_buffer.data (writer c') = write_buffer.data (writer c) ++ bs /\ close_mode c' = close_mode c /\
  queues c' = queues c /\ conn_id c' = conn_id c /\
  forall k, writes_fit c (length bs + k) -> writes_fit c' k.

Lemma queue_wrote bs c : bs <> [] -> writes_fit c (length bs) -> wrote bs c (queue bs c).
Proof.
  intros Hbs [Hw Hf]. unfold queue. pose proof (write_buffer.append_spec bs (writer c) Hw) as H.
  destruct (write_buffer.append bs (writer c)) as [ok wb]. destruct H as (Hw' & Hcap & Hok & Hd & _).
  rewrite (proj2 (Z.leb_le _ _)), orb_true_r in Hok by done. subst ok. split_and!; try done.
  intros k [_ Hk]. split; [done|]. cbn [writer set_writer]. rewrite Hcap.
  rewrite <- write_buffer.length_data, Hd, length_app, write_buffer.length_data. lia.
Qed.

Lemma wrote_session bs s c c' : wrote bs (set_session s c) c' -> id_ s = conn_id c -> wrote bs c c'.
Proof. intros (H1 & H2 & H3 & H4 & H5) Hs. split_and!; try done. by rewrite H4. Qed.

Lemma any_frame_nonempty m : any_frame m <> [].
Proof. rewrite any_frame_eq. intros H. apply (f_equal length) in H. unfold frame_bytes in H. rewrite length_app, length_header in H. done. Qed.

Lemma deliver_wrote e c :
  ~ is_tombstone e -> writes_fit c (length (event_message e ≫= any_frame)) ->
  wrote (event_message e ≫= any_frame) c (deliver e c).
Proof.
  intros Ht Hf. unfold deliver, event_message, is_tombstone in *.
  destruct (e_type e); [| | |done]; rewrite bind_singleton in *.
  - destruct (e_closes_order e); [apply (wrote_session _ (forget_live (e_client_order_id e) (c_session_ c)).2 c); [|done]|]; apply queue_wrote; try done; apply (any_frame_nonempty (MAck _)).
  - apply (wrote_session _ (forget_live (e_client_order_id e) (c_session_ c)).2 c); [|done].
    apply queue_wrote; [apply (any_frame_nonempty (MReject _))|done].
  - destruct (e_closes_order e); [apply (wrote_session _ (forget_live (e_client_order_id e) (c_session_ c)).2 c); [|done]|]; apply queue_wrote; try done; apply (any_frame_nonempty (MFill _)).
Qed.

Lemma wrote_trans b1 b2 c c1 c2 : wrote b1 c c1 -> wrote b2 c1 c2 -> wrote (b1 ++ b2) c c2.
Proof.
  intros (H1 & H2 & H3 & H4 & H5) (K1 & K2 & K3 & K4 & K5). split_and!; try congruence.
  - by rewrite K1, H1, app_assoc.
  - intros k Hk. apply K5, H5. by rewrite length_app, <- Nat.add_assoc in Hk.
Qed.

Lemma drain_events_wrote evs c :
  Forall (fun e => ~ is_tombstone e) evs -> close_mode c = CloseNone -> writes_fit c (length (event_bytes evs)) ->
  exists c', drain_events evs c = ([], c') /\ wrote (event_bytes evs) c c'.
Proof.
  intros Hall. revert c. induction Hall as [|e evs He Hall IH]; intros c Hm Hf; cbn [drain_events].
  { exists c. split; [done|]. split_and!; try done. by rewrite app_nil_r. }
  rewrite event_bytes_cons in Hf |- *.
  destruct (deliver_wrote e c He) as (H1 & H2 & H3 & H4 & H5).
  { destruct Hf as [Hw Hl]. rewrite length_app in Hl. split; [done|lia]. }
  assert (close_mode (deliver e c) = CloseNone) as Hm1 by congruence. rewrite Hm1.
  rewrite bool_decide_eq_false_2 by done. cbn [andb].
  destruct (IH (deliver e c) Hm1) as (c' & -> & Hw); [apply H5; by rewrite length_app in Hf|].
  exists c'. split; [done|]. eapply wrote_trans; [|done]. split_and!; done.
Qed.

(** ** The whole way *)

(** A connected client with nothing in flight: session registered, queues and
    reader empty, the matching thread idle. *)
Record open_session (s : Sys) (i : nat) (c : Connection) : Prop := {
  os_conn : conns s !! i = Some c;
  os_reader : idle (reader c);
  os_mode : close_mode c = CloseNone;
  os_inbound : inbound_ (net s) = Some [];
  os_egress : eg_store (net s) !! queues c = Some (mkEgress [] false);
  os_route : egress_for (conn_id c) (mt s) = Some (queues c);
  os_core : core_inv (core_ (mt s));
  os_live : replaying_ (mt s) = false;
}.

(** The events the session of queue [p] gets for an order. *)
Definition answers (p : Z) (cmd : OrderCommand) (m : MatchingThread) : list OrderEvent :=
  let k := core_ m in
  let o := order_of cmd k in
  let t := record_order (o_id o) (c_session cmd) (c_client_order_id cmd) (c_quantity cmd) (o_side o) (tables_ k) in
  ev_ack (c_session cmd) (c_client_order_id cmd) (o_id o) false ::
  for_queue p (fill_events (fun s => egress_for s m) t (trades_of cmd k)).

Lemma answers_no_tombstone p cmd m : Forall (fun e => ~ is_tombstone e) (answers p cmd m).
Proof.
  constructor; [done|]. apply (for_queue_forall (fun e => ~ is_tombstone e)).
  eapply Forall_impl; [apply fill_events_fills|]. intros x [Hx _]. unfold is_tombstone. by rewrite Hx.
Qed.

(** The matching thread's part, on the thread as it sees the queues. *)
Lemma apply_order env cmd m p :
  core_inv (core_ m) -> replaying_ m = false -> command_ok cmd -> c_type cmd = CmdNewOrder ->
  check_risk (risk_ m) cmd (core_ m) = NONE -> logs env cmd m = true ->
  egress_for (c_session cmd) m = Some p -> EventProps.room (1 + 2 * length (trades_of cmd (core_ m))) m ->
  let m' := MatchingThread.apply env cmd m in
  outbox p m' = grown (answers p cmd m) <$> outbox p m /\
  core_book (core_ m') = book_ (processOrder (order_of cmd (core_ m)) (engine_ (core_ m))).2.
Proof.
  intros Hk Hrep Hok Ht Hr Hlog Hp Hroom.
  destruct (order_of_acceptable _ _ _ Hk Hok Hr) as (Ha & Hq & Hty & Hf).
  destruct (process_new_map _ _ (ci_engine _ Hk) Ha Hf Hq Hty) as (r & b' & ts & Hpr & Hacc & _).
  assert (engine_ (core_ m) = mkEngine (core_book (core_ m)) []) as He.
  { rewrite (engine_eta _ (ci_log _ Hk)) at 1. done. }
  unfold answers, trades_of in *. rewrite He, Hpr in *. cbn [snd trade_log_ book_] in *.
  destruct (apply_logged env cmd m Hlog) as [w ->]. unfold MatchingThread.dispatch. rewrite Ht.
  split.
  - pose proof (new_order_outbox cmd (set_wal w m) r b' ts p Hr (ci_log _ Hk) Hpr Hacc Hrep Hroom) as Ho.
    rewrite Ho. unfold order_events. cbn [for_queue].
    change (egress_for (c_session cmd) (set_wal w m)) with (egress_for (c_session cmd) m).
    rewrite Hp, decide_True by done. done.
  - by rewrite (apply_new_order_accepted cmd (set_wal w m) r b' ts Hr (ci_log _ Hk) Hpr Hacc).
Qed.

(** C8: [order_round_trip]. An order all the way through. A client is connected
    with nothing in flight; the bytes of an encodable NewOrder arrive that its
    rate limit, its live ids, the risk limits and the log admit, and the queues
    and the write buffer have room for what it causes. Then the threads' steps
    (the read, the matching thread's turn, the drain) lead to a state where the
    book is the engine's book after that order with the exchange's next id, and
    the connection has exactly this added to its write buffer: the frame of the
    Ack with both ids, and behind it a Fill frame for each side of each trade
    the client's session took part in, in trade order. *)
Theorem order_round_trip (clock : nat -> Z) (cfg : TcpServerConfig) (w h : bool) (env : Env) (s : Sys) (i : nat)
    (c : Connection) (b : TokenBucket) (m : NewOrder) :
  let cmd := new_order (conn_id c) m in
  open_session s i c -> 0 <= max_read_buffer cfg ->
  NewOrder_ok m -> is_u64 (conn_id c) -> no_quantity m <> 0 -> no_client_order_id m ∉ live_orders_ (c_session_ c) ->
  allow (clock (S (ticks_ (net s)))) (bucket c) = (true, b) ->
  check_risk (risk_ (mt s)) cmd (core_ (mt s)) = NONE -> logs env cmd (mt s) = true ->
  EventProps.room (1 + 2 * length (trades_of cmd (core_ (mt s)))) (attach (net s) (mt s)) ->
  writes_fit c (length (event_bytes (answers (queues c) cmd (mt s)))) ->
  exists s' c', rtc (sys_step clock cfg w h) s s' /\ conns s' !! i = Some c' /\
    write_buffer.data (writer c') =
      write_buffer.data (writer c) ++ event_bytes (answers (queues c) cmd (mt s)) /\
    core_book (core_ (mt s')) = book_ (processOrder (order_of cmd (core_ (mt s))) (engine_ (core_ (mt s)))).2 /\
    inbound_ (net s') = Some [] /\ eg_store (net s') !! queues c = Some (mkEgress [] false).
Proof.
  intros cmd [Hc Hrd Hmode Hin Heg Hroute Hk Hlive] Hmax Hm Hid Hq Hfree Hb Hr Hlog Hroom Hfit.
  destruct (read_order clock cfg w m c (net s) b Hrd Hmode Hmax Hm Hq Hfree Hb Hin)
    as (c1 & Hread & Hw1 & Hm1 & Hq1 & Hid1 & _).
  fold cmd in Hread. set (n1 := queued w cmd [] _) in *. set (s1 := set_conn i c1 n1 s).
  assert (command_ok cmd) as Hok by (destruct Hm as (? & ? & ?); by split_and!).
  destruct (apply_order env cmd (attach (net s) (mt s)) (queues c) Hk Hlive Hok eq_refl Hr Hlog Hroute Hroom) as [Hout Hbook].
  set (m' := MatchingThread.apply env cmd (attach (net s) (mt s))) in *.
  assert (match_one env s1 = Some (mkSys (conns s1) (set_stores (egress_store m') (md_store m')
    (set_inbound (Some []) (signals_ n1) n1)) m')) as Hmatch by done.
  set (n2 := set_stores _ _ _) in Hmatch. set (s2 := mkSys _ n2 m') in Hmatch.
  assert (eg_store n2 !! queues c = Some (mkEgress (answers (queues c) cmd (mt s)) false)) as Heg2.
  { change (eg_store n2 !! queues c) with (outbox (queues c) m'). rewrite Hout. unfold outbox.
    change (egress_store (attach (net s) (mt s))) with (eg_store (net s)). by rewrite Heg. }
  destruct (drain_events_wrote (answers (queues c) cmd (mt s)) c1 (answers_no_tombstone _ _ _) Hm1) as (c3 & Hdr & Hw3).
  { unfold writes_fit in *. by rewrite Hw1. }
  destruct Hw3 as (D3 & _ & Q3 & _).
  assert (exists n3, drain_egress c1 n2 = (c3, n3) /\ inbound_ n3 = Some [] /\
    eg_store n3 !! queues c = Some (mkEgress [] false)) as (n3 & Hdrain & Hin3 & Heg3).
  { unfold drain_egress. rewrite Hq1, Heg2. cbn [overflowed_ q_items]. rewrite Hdr. eexists. split; [reflexivity|].
    split; [done|]. cbn [eg_store set_stores]. rewrite Q3, Hq1. apply lookup_insert_eq. }
  assert (conns s1 !! i = Some c1) as Hc1.
  { apply list_lookup_insert_eq. by apply lookup_lt_is_Some_1; exists c. }
  exists (set_conn i c3 n3 s2), c3. split_and!.
  - eapply rtc_l; [eapply (Net_read _ _ _ _ i); [exact Hc|exact Hread]|]. fold s1.
    eapply rtc_l; [eapply (Match _ _ _ _ env); exact Hmatch|].
    apply rtc_once. apply (Net_drain_egress _ _ _ _ i c1); [exact Hc1|exact Hdrain].
  - apply list_lookup_insert_eq. apply lookup_lt_is_Some_1. exists c1. exact Hc1.
  - by rewrite D3, Hw1.
  - exact Hbook.
  - exact Hin3.
  - exact Heg3.
Qed.

(** A first order on the connection of the system example. *)
Definition first_conn : Connection := default sample_conn (head (conns registered)).

Lemma first_session : open_session registered 0 first_conn.
Proof.
  split; [reflexivity| |reflexivity..| |reflexivity].
  - split; [apply Nat.le_refl|reflexivity].
  - exact core_inv_init.
Qed.

Lemma first_room :
  EventProps.room (1 + 2 * length (trades_of (new_order (conn_id first_conn) sample_order) (core_ (mt registered))))
    (attach (net registered) (mt registered)).
Proof.
  assert (length (trades_of (new_order (conn_id first_conn) sample_order) (core_ (mt registered))) = 0%nat) as ->
    by (vm_compute; reflexivity).
  change (map_Forall (fun _ q => Z.of_nat (length (q_items q)) + Z.of_nat (1 + 2 * 0) <= kEgressCapacity)
    (eg_store (net registered))). vm_decide.
Qed.

Lemma order_round_trip_witness :
  exists s' c', rtc (sys_step clock0 tcp_config0 true false) registered s' /\ conns s' !! 0%nat = Some c' /\
    write_buffer.data (writer c') = encode_frame TAck (mkAck 7 1) /\
    o_id <$> all_orders (core_book (core_ (mt s'))) = [1].
Proof.
  destruct (order_round_trip clock0 tcp_config0 true false (mkEnv 0 None) registered 0 first_conn
    (allow (clock0 (S (ticks_ (net registered)))) (bucket first_conn)).2 sample_order) as (s' & c' & Hs & Hc & Hw & Hb & _).
  - exact first_session.
  - vm_compute. discriminate.
  - vm_compute. done.
  - vm_compute. done.
  - discriminate.
  - apply not_elem_of_empty.
  - vm_compute. reflexivity.
  - vm_compute. reflexivity.
  - vm_compute. reflexivity.
  - exact first_room.
  - split; [unfold write_buffer.wb_wf; vm_compute; split; [lia|discriminate]|vm_compute; discriminate].
  - exists s', c'. split; [exact Hs|]. split; [exact Hc|]. split.
    + rewrite Hw. vm_compute. reflexivity.
    + rewrite Hb. vm_compute. reflexivity.
Defined.
