(* ===== verification/JsonViews.v ===== *)
(** The text views of the exchange: one JSON object per protocol message
    (include/ome/protocol_json.hpp) and one line per book state
    (include/ome/book_jsonl.hpp). *)
From Stdlib Require Import ZArith Lia String.
From stdpp Require Import base numbers list.
From S2P Require Import Prelude Types Bytes Protocol Text WireProps.
Import protocol.

(** ** Book records *)

Definition BookLevels : Type := list (Z * Z).

Definition write_level (l : Z * Z) : text := lit "[" ++ dec l.1 ++ lit "," ++ dec l.2 ++ lit "]".

(** The loop, from its second turn on. *)
Fixpoint more_levels (ls : BookLevels) : text :=
  match ls with
  | [] => []
  | l :: ls => lit "," ++ write_level l ++ more_levels ls
  end.

Definition write_levels (ls : BookLevels) : text :=
  lit "[" ++ match ls with [] => [] | l :: ls => write_level l ++ more_levels ls end ++ lit "]".

Definition write_book_record (t_ns seq : Z) (bids asks : BookLevels) : text :=
  qlit "{'t':" ++ dec t_ns ++ qlit ",'seq':" ++ dec seq ++ qlit ",'bids':" ++
  write_levels bids ++ qlit ",'asks':" ++ write_levels asks ++ lit "}" ++ [ch_newline].

(** ** Protocol messages *)

Definition side_name (s : Side) : text := match s with Bid => lit "BID" | Ask => lit "ASK" end.
Definition order_type_name (t : OrderType) : text := match t with Market => lit "MARKET" | Limit => lit "LIMIT" end.

Definition json_levels (ls : list BookLevel) : text :=
  write_levels ((fun l => (bl_price_ticks l, bl_quantity l)) <$> ls).

Definition json_new_order (m : NewOrder) : text :=
  qlit "{'type':'NewOrder','client_order_id':" ++ dec (no_client_order_id m) ++
  qlit ",'price_ticks':" ++ dec (no_price_ticks m) ++ qlit ",'quantity':" ++ dec (no_quantity m) ++
  qlit ",'side':'" ++ side_name (no_side m) ++ qlit "','order_type':'" ++
  order_type_name (no_order_type m) ++ qlit "'}".

Definition json_cancel (m : Cancel) : text :=
  qlit "{'type':'Cancel','client_order_id':" ++ dec (ca_client_order_id m) ++ lit "}".

Definition json_modify (m : Modify) : text :=
  qlit "{'type':'Modify','client_order_id':" ++ dec (mo_client_order_id m) ++
  qlit ",'new_price_ticks':" ++ dec (mo_new_price_ticks m) ++
  qlit ",'new_quantity':" ++ dec (mo_new_quantity m) ++ lit "}".

Definition json_subscribe (m : Subscribe) : text :=
  qlit "{'type':'Subscribe','depth':" ++ dec (su_depth m) ++ lit "}".

Definition json_ack (m : Ack) : text :=
  qlit "{'type':'Ack','client_order_id':" ++ dec (ak_client_order_id m) ++
  qlit ",'exchange_order_id':" ++ dec (ak_exchange_order_id m) ++ lit "}".

Definition json_reject (m : Reject) : text :=
  qlit "{'type':'Reject','client_order_id':" ++ dec (re_client_order_id m) ++
  qlit ",'reason':'" ++ lit (reason_to_string (re_reason m)) ++
  qlit "','reason_code':" ++ dec (reason_code (re_reason m)) ++ lit "}".

Definition json_fill (m : Fill) : text :=
  qlit "{'type':'Fill','exchange_order_id':" ++ dec (fi_exchange_order_id m) ++
  qlit ",'price_ticks':" ++ dec (fi_price_ticks m) ++ qlit ",'quantity':" ++ dec (fi_quantity m) ++
  qlit ",'remaining_quantity':" ++ dec (fi_remaining_quantity m) ++ lit "}".

Definition json_book_update (m : BookUpdate) : text :=
  qlit "{'type':'BookUpdate','seq':" ++ dec (bu_seq m) ++ qlit ",'bids':" ++ json_levels (bu_bids m) ++
  qlit ",'asks':" ++ json_levels (bu_asks m) ++ lit "}".

Definition json_heartbeat (m : Heartbeat) : text :=
  qlit "{'type':'Heartbeat','timestamp_ns':" ++ dec (hb_timestamp_ns m) ++ lit "}".

(** The overloads of [to_json] together. *)
Definition to_json (m : AnyMessage) : text :=
  match m with
  | MNewOrder m => json_new_order m
  | MCancel m => json_cancel m
  | MModify m => json_modify m
  | MSubscribe m => json_subscribe m
  | MAck m => json_ack m
  | MReject m => json_reject m
  | MFill m => json_fill m
  | MBookUpdate m => json_book_update m
  | MHeartbeat m => json_heartbeat m
  end.

(** ** Numbers and lists end where they end *)

Lemma dec_inj x y s t :
  dec x ++ s = dec y ++ t -> starts_digit s = false -> starts_digit t = false -> x = y /\ s = t.
Proof.
  intros H Hs Ht. apply (f_equal read_int) in H. rewrite !read_int_dec in H by done.
  injection H as Hsg Habs Hr. split; [|done]. destruct (Z.ltb_spec x 0), (Z.ltb_spec y 0); try done; lia.
Qed.

(** Takes equal texts apart from the left. *)
Ltac text_step :=
  match goal with
  | H : ?l ++ _ = ?l ++ _ |- _ => apply app_inv_head in H
  | H : dec _ ++ _ = dec _ ++ _ |- _ => apply dec_inj in H as [? H]; [|reflexivity..]
  end.
Ltac text_cut := repeat text_step.

Lemma write_level_inj x y s t : write_level x ++ s = write_level y ++ t -> x = y /\ s = t.
Proof.
  unfold write_level. rewrite <- !app_assoc. intros H. text_cut. destruct x, y. cbn in *. by simplify_eq.
Qed.

Lemma more_levels_inj xs ys s t :
  more_levels xs ++ lit "]" ++ s = more_levels ys ++ lit "]" ++ t -> xs = ys /\ s = t.
Proof.
  revert ys. induction xs as [|x xs IH]; intros [|y ys]; cbn [more_levels]; rewrite <- ?app_assoc; intros H; try done.
  - by text_cut.
  - text_cut. apply write_level_inj in H as [-> H]. apply IH in H as [-> ->]. done.
Qed.

Lemma write_levels_inj xs ys s t : write_levels xs ++ s = write_levels ys ++ t -> xs = ys /\ s = t.
Proof.
  unfold write_levels. rewrite <- !app_assoc. intros H. text_cut.
  destruct xs as [|x xs], ys as [|y ys]; rewrite <- ?app_assoc in H; try done.
  - by text_cut.
  - apply write_level_inj in H as [-> H]. apply more_levels_inj in H as [-> ->]. done.
Qed.

Lemma json_levels_inj xs ys s t : json_levels xs ++ s = json_levels ys ++ t -> xs = ys /\ s = t.
Proof.
  intros [H ->]%write_levels_inj. split; [|done]. revert H. apply list_fmap_eq_inj. intros [] [] [= -> ->]. done.
Qed.

(** ** The type of a message *)

Definition type_name (t : MessageType) : text :=
  match t with
  | TNewOrder => lit "NewOrder" | TCancel => lit "Cancel" | TModify => lit "Modify"
  | TSubscribe => lit "Subscribe" | TAck => lit "Ack" | TReject => lit "Reject"
  | TFill => lit "Fill" | TBookUpdate => lit "BookUpdate" | THeartbeat => lit "Heartbeat"
  end.

Lemma to_json_type m : exists body, to_json m = qlit "{'type':'" ++ type_name (any_type m) ++ 34 :: body.
Proof. destruct m; eexists; reflexivity. Qed.

Lemma type_name_inj t t' : type_name t = type_name t' -> t = t'.
Proof. by destruct t, t'. Qed.

Lemma type_name_quote t : 34 ∉ type_name t.
Proof. destruct t; apply (bool_decide_unpack _); vm_compute; exact I. Qed.

Lemma to_json_same_type m m' : to_json m = to_json m' -> any_type m = any_type m'.
Proof.
  destruct (to_json_type m) as [b ->], (to_json_type m') as [b' ->]. intros H. text_cut.
  apply (f_equal (cut_at 34)) in H. rewrite !cut_at_found in H by apply type_name_quote.
  apply type_name_inj. by apply (f_equal fst) in H.
Qed.

Lemma side_name_inj a b s t : side_name a ++ s = side_name b ++ t -> a = b /\ s = t.
Proof. destruct a, b; intros H; try done; by apply app_inv_head in H. Qed.

Lemma order_type_name_inj a b s t : order_type_name a ++ s = order_type_name b ++ t -> a = b /\ s = t.
Proof. destruct a, b; intros H; try done; by apply app_inv_head in H. Qed.

Lemma reason_quote r : 34 ∉ lit (reason_to_string r).
Proof. destruct r; apply (bool_decide_unpack _); vm_compute; exact I. Qed.

Lemma reason_inj r r' :
  lit (reason_to_string r) = lit (reason_to_string r') -> reason_code r = reason_code r' -> r = r'.
Proof. destruct r, r'; intros H; try done. cbn. by intros ->. Qed.

Lemma json_reject_inj m m' : json_reject m = json_reject m' -> m = m'.
Proof.
  unfold json_reject. intros H. text_cut.
  change (qlit "','reason_code':") with (34 :: qlit ",'reason_code':") in H. cbn [app] in H.
  apply (f_equal (cut_at 34)) in H. rewrite !cut_at_found in H by apply reason_quote.
  pose proof (f_equal fst H) as Hn. apply (f_equal snd) in H. cbn [fst snd] in Hn, H. injection H as H.
  text_cut. destruct m, m'. cbn in *. f_equal; [done|by apply reason_inj].
Qed.

Lemma json_new_order_inj m m' : json_new_order m = json_new_order m' -> m = m'.
Proof.
  unfold json_new_order. intros H. text_cut. apply side_name_inj in H as [? H]. text_cut.
  apply order_type_name_inj in H as [? _]. destruct m, m'. cbn in *. by simplify_eq.
Qed.

Lemma json_book_update_inj m m' : json_book_update m = json_book_update m' -> m = m'.
Proof.
  unfold json_book_update. intros H. text_cut. apply json_levels_inj in H as [? H]. text_cut.
  apply json_levels_inj in H as [? _]. destruct m, m'. cbn in *. by simplify_eq.
Qed.

Lemma book_record_inj t s b a r t' s' b' a' r' :
  write_book_record t s b a ++ r = write_book_record t' s' b' a' ++ r' ->
  t = t' /\ s = s' /\ b = b' /\ a = a' /\ r = r'.
Proof.
  unfold write_book_record. rewrite <- !app_assoc. intros H. text_cut.
  apply write_levels_inj in H as [? H]. text_cut. apply write_levels_inj in H as [? H]. by text_cut.
Qed.

(** ** Claims *)

(** [json_unambiguous]. Different messages are never rendered as the same
    JSON text. *)
Theorem json_unambiguous (m m' : AnyMessage) : to_json m = to_json m' <-> m = m'.
Proof.
  split; [|by intros ->]. intros H. pose proof (to_json_same_type m m' H) as Ht.
  destruct m, m'; try done; cbn [to_json] in H; f_equal.
  - by apply json_new_order_inj.
  - unfold json_cancel in H. text_cut. destruct m, m0. cbn in *. by simplify_eq.
  - unfold json_modify in H. text_cut. destruct m, m0. cbn in *. by simplify_eq.
  - unfold json_subscribe in H. text_cut. destruct m, m0. cbn in *. by simplify_eq.
  - unfold json_ack in H. text_cut. destruct m, m0. cbn in *. by simplify_eq.
  - by apply json_reject_inj.
  - unfold json_fill in H. text_cut. destruct m, m0. cbn in *. by simplify_eq.
  - by apply json_book_update_inj.
  - unfold json_heartbeat in H. text_cut. destruct m, m0. cbn in *. by simplify_eq.
Qed.

(** [records_unambiguous]. A file of book records determines its records: their
    times, sequence numbers and levels, in order. *)
Theorem records_unambiguous (rs rs' : list (Z * Z * BookLevels * BookLevels)) :
  let file (rs : list (Z * Z * BookLevels * BookLevels)) : text :=
    rs ≫= fun '(t, s, b, a) => write_book_record t s b a in
  file rs = file rs' <-> rs = rs'.
Proof.
  intros file. split; [|by intros ->].
  assert (forall t s b a rs, file ((t, s, b, a) :: rs) = write_book_record t s b a ++ file rs) as Hc by done.
  revert rs'. induction rs as [|[[[t s] b] a] rs IH]; intros [|[[[t' s'] b'] a'] rs'] H; try done.
  rewrite !Hc in H. apply book_record_inj in H as (-> & -> & -> & -> & H). f_equal. by apply IH.
Qed.
