(* ===== verification/LobsterParser.v ===== *)
(** The LOBSTER message reader (src/lobster_parser.cpp): rows of a CSV file
    become messages; rows that do not parse are skipped. [long double] is the
    80-bit format of x86-64, and [std::llround] out of range gives the smallest
    [long long], as it does there. *)
From Stdlib Require Import ZArith Lia SpecFloat String.
From stdpp Require Import base numbers list.
From S2P Require Import Prelude Types Text.

(** ** long double *)

Definition ld_prec : Z := 64.
Definition ld_emax : Z := 16384.

Definition is_hex (c : Z) : bool := is_digit c || ((97 <=? c) && (c <=? 102)) || ((65 <=? c) && (c <=? 70)).
Definition hex_value (c : Z) : Z := if is_digit c then c - 48 else if 97 <=? c then c - 87 else c - 55.

Fixpoint read_hex_frac (acc : Z) (n : nat) (s : text) : Z * nat * text :=
  match s with
  | c :: r => if is_hex c then read_hex_frac (16 * acc + hex_value c) (S n) r else (acc, n, s)
  | [] => (acc, n, [])
  end.

Definition read_hex_mantissa (s : text) : Z * nat * nat * text :=
  let '(m, n, s) := read_hex_frac 0 0 s in
  match s with
  | c :: r =>
      if c =? ch_dot then let '(m', k, r) := read_hex_frac m 0 r in (m', k, (n + k)%nat, r) else (m, 0%nat, n, s)
  | [] => (m, 0%nat, n, [])
  end.

(** The binary exponent after [p] or [P]. *)
Definition read_hex_exponent (s : text) : Z :=
  match s with
  | c :: r =>
      if (c =? 112) || (c =? 80) then
        let '(neg, r) := read_sign r in
        match r with
        | d :: _ => if is_digit d then let '(v, _) := read_digits 0 r in if neg then - v else v else 0
        | [] => 0
        end
      else 0
  | [] => 0
  end.

(** What a conversion reads: a decimal number [m * 10 ^ e], a binary one
    [m * 2 ^ e], or one that is not finite. *)
Inductive Numeral :=
  | Decimal (m e : Z)
  | Binary (m e : Z)
  | Infinite
  | NotANumber.

Definition lower (c : Z) : Z := if (65 <=? c) && (c <=? 90) then c + 32 else c.
Definition starts (w s : text) : bool := bool_decide (lower <$> take (length w) s = w).

Definition read_decimal (s : text) : option Numeral :=
  let '(m, frac, n, s) := read_mantissa s in
  if (n =? 0)%nat then None else
  let '(e, _) := read_exponent s in
  Some (Decimal m (e - Z.of_nat frac)).

(** [strtold] after white space and sign. *)
Definition read_numeral (s : text) : option Numeral :=
  if starts (lit "inf") s then Some Infinite else
  if starts (lit "nan") s then Some NotANumber else
  if starts (lit "0x") s then
    let '(m, frac, n, s) := read_hex_mantissa (drop 2 s) in
    if (n =? 0)%nat then Some (Decimal 0 0)
    else Some (Binary m (read_hex_exponent s - 4 * Z.of_nat frac))
  else read_decimal s.

Definition numeral_float (emax : Z) (neg : bool) (x : Numeral) : spec_float :=
  match x with
  | Decimal m e => decimal_float ld_prec emax neg m e
  | Binary m e =>
      let v := binary_normalize ld_prec emax m e false in if neg then SFopp v else v
  | Infinite => S754_infinity neg
  | NotANumber => S754_nan
  end.

(** Whether a finite result is the number written. *)
Definition numeral_exact (x : Numeral) (f : spec_float) : bool :=
  let pos z := Z.max z 0 in
  let same (b m e : Z) :=
    match f with
    | S754_finite _ p q => m * b ^ pos e * 2 ^ pos (- q) =? Zpos p * 2 ^ pos q * b ^ pos (- e)
    | S754_zero _ => m =? 0
    | _ => false
    end in
  match x with Decimal m e => same 10 m e | Binary m e => same 2 m e | _ => true end.

(** Below the smallest normal number, rounded as if exponents were unbounded. *)
Definition tiny (neg : bool) (x : Numeral) : bool :=
  SFltb (SFabs (numeral_float (2 ^ 60) neg x)) (S754_finite false 1 (-16382)).

Definition out_of_range (neg : bool) (x : Numeral) : bool :=
  match x with
  | Infinite | NotANumber => false
  | _ =>
      let f := numeral_float ld_emax neg x in
      match f with
      | S754_infinity _ => true
      | _ => tiny neg x && negb (numeral_exact x f)
      end
  end.

(** [std::stold]; [None] where it throws. *)
Definition stold (s : text) : option spec_float :=
  let '(neg, s) := read_sign (drop_while isspace s) in
  match read_numeral s with
  | None => None
  | Some x => if out_of_range neg x then None else Some (numeral_float ld_emax neg x)
  end.

Definition ld_finite (f : spec_float) : bool :=
  match f with S754_finite _ _ _ | S754_zero _ => true | _ => false end.

(** Half away from zero. *)
Definition llround (f : spec_float) : Z :=
  match f with
  | S754_zero _ => 0
  | S754_finite s m e =>
      let n := if 0 <=? e then Zpos m * 2 ^ e else (Zpos m + 2 ^ (- e - 1)) / 2 ^ (- e) in
      let z := if s then - n else n in
      if (- 2 ^ 63 <=? z) && (z <? 2 ^ 63) then z else - 2 ^ 63
  | _ => - 2 ^ 63
  end.

Definition kMicro : spec_float := binary_normalize ld_prec ld_emax 1000000 0 false.

(** [parse_timestamp]; a [long double] holds every [long long] exactly. *)
Definition parse_timestamp (field : text) : option Z :=
  match stold field with
  | None => None
  | Some t =>
      if negb (ld_finite t) || SFltb t (S754_zero false) then None else
      let micro := llround (SFmul ld_prec ld_emax t kMicro) in
      if (micro <? 0) || (2 ^ 64 - 1 <? micro) then None else Some micro
  end.

(** ** Messages *)

Record LobsterMessage := mkMessage {
  m_timestamp_us : Z;
  m_type : Z;
  m_order_id : Z;
  m_size : Z;
  m_price_ticks : Z;
  m_direction : Z;
}.

Definition trim_in_place : text -> text := trim_by isspace.

Definition split_csv_line (line : text) : list text := trim_in_place <$> getlines ch_comma line.

Definition map_message_type (code : Z) : option OrderType :=
  if code =? 1 then Some LIMIT else
  if (code =? 2) || (code =? 3) then Some CANCEL else
  if (code =? 4) || (code =? 5) then Some MARKET else
  None.

(** A trading halt: every field has a default. *)
Definition parse_halt (ts : Z) (f2 f3 f4 f5 : text) : LobsterMessage :=
  mkMessage ts 7 (default 0 (stoull f2)) (default 0 (u32 <$> stoull f3))
    (default (-1) (stoll f4)) (default (-1) (stoi f5)).

Definition parse_row_message (fields : list text) : option LobsterMessage :=
  match fields with
  | [f0; f1; f2; f3; f4; f5] =>
      ts ← parse_timestamp f0;
      msg_type ← stoi f1;
      if (msg_type <? 1) || ((5 <? msg_type) && negb (msg_type =? 7)) then None else
      if msg_type =? 7 then Some (parse_halt ts f2 f3 f4 f5) else
      order_id ← stoull f2;
      if (order_id =? 0) && negb (msg_type =? 4) && negb (msg_type =? 5) then None else
      size ← stoull f3;
      if 2 ^ 32 - 1 <? size then None else
      price ← stoll f4;
      if price <? 0 then None else
      dir ← stoi f5;
      if negb (dir =? 1) && negb (dir =? -1) then None else
      Some (mkMessage ts msg_type order_id size price dir)
  | _ => None
  end.

Definition side_of_direction (d : Z) : Side := if d =? 1 then BID else ASK.

Definition parse_row (fields : list text) : option Order :=
  m ← parse_row_message fields;
  ty ← map_message_type (m_type m);
  Some (mkOrder (m_order_id m) (m_price_ticks m) (m_size m) (side_of_direction (m_direction m)) ty
          (m_timestamp_us m)).

Definition line_all_whitespace (line : text) : bool := forallb isspace line.

(** The loop over the lines of the file. *)
Definition parse_lines {A} (row : list text -> option A) (input : text) : list A :=
  omap (fun line =>
    if bool_decide (line = []) || line_all_whitespace line then None
    else row (split_csv_line line)) (getlines ch_newline input).

Definition parse (input : text) : list Order := parse_lines parse_row input.
Definition parse_messages (input : text) : list LobsterMessage := parse_lines parse_row_message input.

Definition parse_file (file : option text) : list Order :=
  match file with Some input => parse input | None => [] end.
Definition parse_messages_file (file : option text) : list LobsterMessage :=
  match file with Some input => parse_messages input | None => [] end.

(** ** What a parsed message satisfies *)

Definition is_i32 (z : Z) : Prop := - 2 ^ 31 <= z < 2 ^ 31.

(** The fields fit the record, the type is one the format has, and outside of
    halts the price is not negative, the direction is a side, and only
    executions may leave the order id out. *)
Definition message_ok (m : LobsterMessage) : Prop :=
  0 <= m_timestamp_us m < 2 ^ 63 /\ (1 <= m_type m <= 5 \/ m_type m = 7) /\
  is_u64 (m_order_id m) /\ is_u32 (m_size m) /\ is_i64 (m_price_ticks m) /\ is_i32 (m_direction m) /\
  (m_type m <> 7 -> 0 <= m_price_ticks m /\ (m_direction m = 1 \/ m_direction m = -1) /\
     (m_order_id m = 0 -> m_type m = 4 \/ m_type m = 5)).

#[export] Instance message_ok_dec m : Decision (message_ok m).
Proof. unfold message_ok, is_u64, is_u32, is_i64, is_i32. apply _. Defined.

Lemma llround_range f : - 2 ^ 63 <= llround f < 2 ^ 63.
Proof.
  unfold llround. destruct f; try lia.
  destruct (_ && _) eqn:E; [|lia]. apply andb_true_iff in E as [E1%Z.leb_le E2%Z.ltb_lt]. done.
Qed.

Lemma parse_timestamp_range s ts : parse_timestamp s = Some ts -> 0 <= ts < 2 ^ 63.
Proof.
  unfold parse_timestamp. destruct (stold s) as [t|]; [|done]. destruct (_ || SFltb t _); [done|].
  pose proof (llround_range (SFmul ld_prec ld_emax t kMicro)) as Hr.
  destruct (_ || _) eqn:E; [done|]. apply orb_false_iff in E as [E%Z.ltb_ge _]. intros [= <-]. lia.
Qed.

Lemma stoi_range s z : stoi s = Some z -> is_i32 z.
Proof. apply (sto_signed_range 32). Qed.
Lemma stoll_range s z : stoll s = Some z -> is_i64 z.
Proof. apply (sto_signed_range 64). Qed.

Lemma parse_halt_ok ts f2 f3 f4 f5 : 0 <= ts < 2 ^ 63 -> message_ok (parse_halt ts f2 f3 f4 f5).
Proof.
  intros Hts. unfold message_ok, parse_halt. cbn [m_timestamp_us m_type m_order_id m_size m_price_ticks m_direction].
  split_and!; [lia..|by right| | | | |done].
  - destruct (stoull f2) eqn:E; [by apply stoull_range in E|done].
  - destruct (stoull f3); [apply u32_range|done].
  - destruct (stoll f4) eqn:E; [by apply stoll_range in E|done].
  - destruct (stoi f5) eqn:E; [by apply stoi_range in E|done].
Qed.

Lemma parse_row_ok fields m : parse_row_message fields = Some m -> message_ok m.
Proof.
  unfold parse_row_message. destruct fields as [|f0 [|f1 [|f2 [|f3 [|f4 [|f5 [|? ?]]]]]]]; try done.
  intros H. apply bind_Some in H as (ts & Hts%parse_timestamp_range & H).
  apply bind_Some in H as (ty & Hty & H). destruct (_ || _) eqn:Et; [done|].
  destruct (Z.eqb_spec ty 7); [injection H as <-; by apply parse_halt_ok|].
  apply bind_Some in H as (id & Hid%stoull_range & H). destruct ((id =? 0) && _ && _) eqn:Ei; [done|].
  apply bind_Some in H as (sz & Hsz%stoull_range & H). destruct (Z.ltb_spec (2 ^ 32 - 1) sz); [done|].
  apply bind_Some in H as (px & Hpx%stoll_range & H). destruct (Z.ltb_spec px 0); [done|].
  apply bind_Some in H as (d & Hd%stoi_range & H). destruct (negb (d =? 1) && _) eqn:Ed; [done|].
  injection H as <-. unfold message_ok, is_u64, is_u32 in *. cbn.
  split_and!; try done; lia.
Qed.

Lemma parse_lines_in {A} (row : list text -> option A) input x :
  x ∈ parse_lines row input -> exists fields, row fields = Some x.
Proof.
  unfold parse_lines. rewrite list_elem_of_omap. intros (line & _ & H).
  destruct (_ || _); [done|]. by eexists.
Qed.

(** ** Printing *)

(** A row as LOBSTER writes it, the time being given as text. *)
Definition render_message (time : text) (m : LobsterMessage) : text :=
  time ++ ch_comma :: dec (m_type m) ++ ch_comma :: dec (m_order_id m) ++ ch_comma :: dec (m_size m) ++
  ch_comma :: dec (m_price_ticks m) ++ ch_comma :: dec (m_direction m).

(** A time column: what it stands for, and no separators or blanks in it. *)
Definition time_ok (time : text) (ts : Z) : bool :=
  bool_decide (parse_timestamp time = Some ts) &&
  forallb (fun c => negb (isspace c) && negb (c =? ch_comma)) time.

Lemma trim_dec z : trim_in_place (dec z) = dec z.
Proof. apply trim_by_none. eapply Forall_impl; [apply dec_shape|]. apply is_dec_not_space. Qed.

Lemma dec_no_comma z : ch_comma ∉ dec z.
Proof. by apply dec_not_in. Qed.

Lemma split_rendered time m :
  Forall (fun c => negb (isspace c) && negb (c =? ch_comma) = true) time ->
  split_csv_line (render_message time m) =
  [time; dec (m_type m); dec (m_order_id m); dec (m_size m); dec (m_price_ticks m); dec (m_direction m)].
Proof.
  intros Ht. unfold split_csv_line, render_message.
  rewrite getlines_cons.
  2: { intros Hin. rewrite Forall_forall in Ht. apply Ht in Hin. by rewrite andb_false_r in Hin. }
  rewrite !getlines_cons by apply dec_no_comma.
  rewrite getlines_last; [|apply dec_no_comma|destruct (dec_cons (m_direction m)) as (? & ? & -> & _); done].
  cbn [fmap list_fmap]. rewrite !trim_dec. f_equal. apply trim_by_none. eapply Forall_impl; [exact Ht|].
  intros c [H _]%andb_true_iff. by apply negb_true_iff in H.
Qed.

Lemma stoull_print z : is_u64 z -> stoull (dec z) = Some z.
Proof. intros H. rewrite <- (app_nil_r (dec z)). by apply stoull_dec. Qed.
Lemma stoll_print z : is_i64 z -> stoll (dec z) = Some z.
Proof. intros H. rewrite <- (app_nil_r (dec z)). by apply (sto_signed_dec 64). Qed.
Lemma stoi_print z : is_i32 z -> stoi (dec z) = Some z.
Proof. intros H. rewrite <- (app_nil_r (dec z)). by apply (sto_signed_dec 32). Qed.

Lemma parse_rendered_fields time m :
  parse_timestamp time = Some (m_timestamp_us m) -> message_ok m ->
  parse_row_message
    [time; dec (m_type m); dec (m_order_id m); dec (m_size m); dec (m_price_ticks m); dec (m_direction m)] = Some m.
Proof.
  intros Ht (Hts & Hty & Hid & Hsz & Hpx & Hd & Hreg). unfold parse_row_message. rewrite Ht. cbn [mbind option_bind].
  assert (is_u64 (m_size m)) as Hsz' by (unfold is_u64, is_u32 in *; lia).
  rewrite (stoi_print (m_type m)) by (unfold is_i32; lia). cbn [mbind option_bind].
  destruct (_ || _) eqn:E1; [exfalso; lia|].
  destruct (Z.eqb_spec (m_type m) 7) as [E7|E7].
  - unfold parse_halt. rewrite stoull_print, stoull_print, stoll_print, stoi_print by done. cbn.
    rewrite u32_id by done. rewrite <- E7. by destruct m.
  - destruct (Hreg E7) as (Hp & Hdir & H0).
    rewrite (stoull_print (m_order_id m)) by done. cbn [mbind option_bind].
    destruct ((m_order_id m =? 0) && _ && _) eqn:E2; [exfalso; lia|].
    rewrite (stoull_print (m_size m)) by done. cbn [mbind option_bind].
    rewrite (proj2 (Z.ltb_ge _ _)) by (unfold is_u32 in *; lia).
    rewrite stoll_print by done. cbn [mbind option_bind]. rewrite (proj2 (Z.ltb_ge _ _)) by lia.
    rewrite stoi_print by done. cbn [mbind option_bind].
    destruct (negb _ && _) eqn:E3; [exfalso; lia|]. by destruct m.
Qed.

Lemma time_ok_spec time ts :
  time_ok time ts = true ->
  parse_timestamp time = Some ts /\ Forall (fun c => negb (isspace c) && negb (c =? ch_comma) = true) time.
Proof. intros [H%bool_decide_eq_true Ht%forallb_all]%andb_true_iff. done. Qed.

Lemma message_no_newline time ts m : time_ok time ts = true -> ch_newline ∉ render_message time m.
Proof.
  intros [_ Ht]%time_ok_spec. unfold render_message. assert (forall z, ch_newline ∉ dec z) as Hd by (intros; by apply dec_not_in).
  rewrite !elem_of_app, !elem_of_cons, !elem_of_app, !elem_of_cons, !elem_of_app, !elem_of_cons, !elem_of_app,
    !elem_of_cons, !elem_of_app, !elem_of_cons.
  intros [H|H]; [|naive_solver]. rewrite Forall_forall in Ht. by apply Ht in H.
Qed.

Lemma parse_rendered_line time m :
  time_ok time (m_timestamp_us m) = true -> message_ok m ->
  (if bool_decide (render_message time m = []) || line_all_whitespace (render_message time m) then None
   else parse_row_message (split_csv_line (render_message time m))) = Some m.
Proof.
  intros [Ht Hc]%time_ok_spec Hm. assert (ch_comma ∈ render_message time m) as Hin.
  { unfold render_message. apply elem_of_app. right. apply elem_of_cons. by left. }
  rewrite bool_decide_false, orb_false_l by (intros E; rewrite E in Hin; by apply not_elem_of_nil in Hin).
  destruct (line_all_whitespace _) eqn:E.
  { apply forallb_all in E. rewrite Forall_forall in E. by apply E in Hin. }
  rewrite split_rendered by done. by apply parse_rendered_fields.
Qed.

(** ** Claims *)

(** C40: [parsed_messages_ok]. Whatever the file contains, every message read
    from it has a known type and fields that fit the record, and outside of
    halts a price that is not negative, a direction that is a side, and an order
    id unless it is an execution. *)
Theorem parsed_messages_ok (input : text) : Forall message_ok (parse_messages input).
Proof.
  apply Forall_forall. intros m [fields H]%parse_lines_in. by eapply parse_row_ok.
Qed.

(** [messages_roundtrip]. Messages written as LOBSTER writes them, one row
    per line, are read back exactly and in order; the time column may be any
    text that converts to the message's microseconds. *)
Theorem messages_roundtrip (rows : list (text * LobsterMessage)) :
  Forall (fun r => time_ok r.1 (m_timestamp_us r.2) = true /\ message_ok r.2) rows ->
  parse_messages (rows ≫= fun r => render_message r.1 r.2 ++ [ch_newline]) = snd <$> rows.
Proof.
  intros H. unfold parse_messages, parse_lines.
  replace (rows ≫= fun r => render_message r.1 r.2 ++ [ch_newline]) with
    (((fun r => render_message r.1 r.2) <$> rows) ≫= fun l => l ++ [ch_newline])
    by (clear H; induction rows as [|r rows IH]; [done|]; cbn; by rewrite IH).
  rewrite getlines_lines.
  - induction H as [|r rows [Ht Hm] H IH]; [done|]. rewrite !fmap_cons. cbn [omap list_omap].
    rewrite parse_rendered_line by done. by f_equal.
  - apply Forall_fmap. eapply Forall_impl; [exact H|]. intros r [Ht _]. by eapply message_no_newline.
Qed.

Lemma messages_roundtrip_witness :
  let m1 := mkMessage 34200017460 5 0 1 2238200 (-1) in
  let m2 := mkMessage 34200189608 1 11885113 21 2238100 1 in
  parse_messages (([(lit "34200.017459617", m1); (lit "34200.18960767", m2)] : list (text * LobsterMessage))
    ≫= fun r => render_message r.1 r.2 ++ [ch_newline]) = [m1; m2].
Proof.
  apply (messages_roundtrip [(lit "34200.017459617", mkMessage 34200017460 5 0 1 2238200 (-1));
    (lit "34200.18960767", mkMessage 34200189608 1 11885113 21 2238100 1)]).
  do 2 (constructor; [split; [vm_compute; reflexivity|vm_decide]|]). constructor.
Defined.
