(* ===== verification/LobsterReplay.v ===== *)
(** Checking the book against LOBSTER reference data: the order book converter
    (src/lobster_orderbook_converter.cpp), the validator
    (src/lobster_validator.cpp) and the command that runs them
    (src/lobster_replay.cpp). Files are the text they hold; [None] is a file
    that cannot be opened. *)
From Stdlib Require Import ZArith Lia String.
From stdpp Require Import base numbers list gmap.
From S2P Require Import Prelude Types OrderBook BookFacts Engine EngineProps Text.
From S2P Require Import RiskConfig JsonViews LobsterParser.

Definition line_of (s : text) : text := s ++ [ch_newline].

(** ** The converter *)

Definition split_csv (line : text) : list text := trim_by isspace <$> getlines ch_comma line.

(** One level of a side: the price and size columns at [i]. *)
Definition convert_level (f : list text) (L off i : nat) : option text :=
  if (L <=? i)%nat then Some (line_of (lit "0,0")) else
  px ← stoll (f !!! (4 * i + off)%nat);
  sz ← stoull (f !!! (4 * i + off + 1)%nat);
  Some (line_of (if (px <=? 0) || (sz =? 0) then lit "0,0" else dec px ++ ch_comma :: dec sz)).

Definition convert_side (f : list text) (L off levels : nat) : option text :=
  mjoin <$> mapM (convert_level f L off) (seq 0 levels).

(** [None] where the function returns false. *)
Definition write_validator_snapshot_from_lobster_orderbook_row (csv_line : text) (levels : nat) : option text :=
  let f := split_csv csv_line in
  if (length f <? 4)%nat || negb (length f mod 4 =? 0)%nat then None else
  let L := Nat.min levels (length f / 4) in
  bids ← convert_side f L 2 levels;
  asks ← convert_side f L 0 levels;
  Some (bids ++ asks).

(** The lines that count, trimmed. *)
Definition logical_lines (file : text) : list text :=
  omap (fun line =>
    if bool_decide (line = []) then None else
    match trim_by isspace line with
    | [] => None
    | c :: r => if c =? ch_hash then None else Some (c :: r)
    end) (getlines ch_newline file).

Definition read_orderbook_line_at_index (file : option text) (line_index : Z) : option text :=
  f ← file; logical_lines f !! Z.to_nat line_index.

(** ** The validator *)

Record SnapshotLevel := mkSnapLevel { sl_price_ticks : Z; sl_size : Z }.

Definition snap_level0 : SnapshotLevel := mkSnapLevel 0 0.

Definition parse_snapshot_line (line : text) : option SnapshotLevel :=
  match line with
  | [] => None
  | _ =>
      let s := trim_by isspace (cut_at ch_hash line).1 in
      match s with
      | [] => None
      | _ =>
          match cut_at ch_comma s with
          | (_, None) => None
          | (ps, Some sz) =>
              price ← stoll ps;
              size ← stoull sz;
              Some (mkSnapLevel price size)
          end
      end
  end.

(** The reading loop: at most [room] rows, with what it logs. *)
Fixpoint load_rows (room : nat) (lines : list text) : list SnapshotLevel * text :=
  match room, lines with
  | O, _ | _, [] => ([], [])
  | S room', line :: lines =>
      if bool_decide (line = []) || bool_decide (head line = Some ch_hash) then load_rows room lines else
      match parse_snapshot_line line with
      | None =>
          let '(ls, log) := load_rows room lines in
          (ls, line_of (lit "snapshot: skipped malformed line") ++ log)
      | Some lvl => let '(ls, log) := load_rows room' lines in (lvl :: ls, log)
      end
  end.

(** Bids, asks, log. *)
Definition load_snapshot (input : text) : list SnapshotLevel * list SnapshotLevel * text :=
  let '(rows, log) := load_rows 20 (getlines ch_newline input) in
  let log :=
    if (length rows <? 20)%nat
    then log ++ line_of (lit "snapshot: fewer than 20 data rows; padded remaining with zeros") else log in
  let rows := rows ++ replicate (20 - length rows) snap_level0 in
  (take 10 rows, drop 10 rows, log).

Definition on_book (f : OrderBook -> OrderBook) (e : MatchingEngine) : MatchingEngine :=
  mkEngine (f (book_ e)) (trade_log_ e).

Definition apply_message (e : MatchingEngine) (m : LobsterMessage) : MatchingEngine :=
  let side := side_of_direction (m_direction m) in
  if m_type m =? 1 then
    (processOrder (mkOrder (m_order_id m) (m_price_ticks m) (m_size m) side LIMIT (m_timestamp_us m)) e).2
  else if m_type m =? 2 then
    on_book (fun b => (replace_remaining_quantity (m_order_id m) (m_size m) b).2) e
  else if m_type m =? 3 then
    on_book (fun b =>
      let '(removed, b') := cancelOrder (m_order_id m) b in
      if removed then b'
      else (reduce_level_after_lobster_execution side (m_price_ticks m) (m_size m) true b').2) e
  else if (m_type m =? 4) || (m_type m =? 5) then
    on_book (fun b => (reduce_level_after_lobster_execution side (m_price_ticks m) (m_size m) true b).2) e
  else e.

Definition side_word (bid : bool) : text := if bid then lit "bid" else lit "ask".

Definition level_equal (bid : bool) (rank : nat) (exp : SnapshotLevel) (ours : list (Z * Z)) : bool * text :=
  let prefix := side_word bid ++ lit " rank " ++ dec (Z.of_nat rank) in
  if sl_size exp =? 0 then
    match ours !! rank with
    | None => (true, [])
    | Some (p, q) => (false, line_of (prefix ++ lit ": expected empty level, got tick " ++ dec p ++ lit " size " ++ dec q))
    end
  else
    match ours !! rank with
    | None =>
        (false, line_of (prefix ++ lit ": missing level, expected tick " ++ dec (sl_price_ticks exp) ++
                         lit " size " ++ dec (sl_size exp)))
    | Some (p, q) =>
        if negb (p =? sl_price_ticks exp) || negb (q =? sl_size exp) then
          (false, line_of (prefix ++ lit ": expected tick " ++ dec (sl_price_ticks exp) ++ lit " size " ++
                           dec (sl_size exp) ++ lit " got tick " ++ dec p ++ lit " size " ++ dec q))
        else (true, [])
    end.

(** Seeding one side; [inl] is the log line of a level too large. *)
Fixpoint seed_side (bid : bool) (i : nat) (ls : list SnapshotLevel) (synth : Z) (e : MatchingEngine)
    : text + (Z * MatchingEngine) :=
  match ls with
  | [] => inr (synth, e)
  | l :: ls =>
      if (sl_size l =? 0) || (sl_price_ticks l <=? 0) then seed_side bid (S i) ls synth e else
      if 2 ^ 32 - 1 <? sl_size l then
        inl (line_of (lit "seed: " ++ side_word bid ++ lit " level " ++ dec (Z.of_nat i) ++ lit " size overflow"))
      else
        let o := mkOrder synth (sl_price_ticks l) (u32 (sl_size l)) (if bid then BID else ASK) LIMIT 0 in
        seed_side bid (S i) ls (u64 (synth - 1)) (on_book (addOrder o) e)
  end.

(** The engine, or the failure, with what was logged. *)
Definition seed_book_from_snapshot (input : text) (e : MatchingEngine) : option MatchingEngine * text :=
  let '(bids, asks, log) := load_snapshot input in
  match seed_side true 0 bids (2 ^ 64 - 1) e with
  | inl err => (None, log ++ err)
  | inr (synth, e) =>
      match seed_side false 0 asks synth e with
      | inl err => (None, log ++ err)
      | inr (_, e) => (Some e, log)
      end
  end.

Record Result := mkLobsterResult {
  total_events : nat;
  accuracy_percent : double;
  first_mismatch_level_index : option nat;
  mismatch_log : text;
}.

(** The two comparison loops: matched so far, first bad index, detail. *)
Fixpoint compare_side (bid : bool) (base i : nat) (exp : list SnapshotLevel) (ours : list (Z * Z))
    (st : nat * option nat * text) : nat * option nat * text :=
  match exp with
  | [] => st
  | l :: exp =>
      let '(matched, bad, detail) := st in
      let '(ok, t) := level_equal bid i l ours in
      let st := if ok then (S matched, bad, detail ++ t)
                else (matched, Some (default (base + i)%nat bad), detail ++ t) in
      compare_side bid base (S i) exp ours st
  end.

Definition kTotalLevels : Z := 20.

Definition accuracy (matched : nat) : double :=
  SpecFloat.SFdiv dbl_prec dbl_emax
    (SpecFloat.SFmul dbl_prec dbl_emax (double_of_Z (Z.of_nat matched)) (double_of_Z 100))
    (double_of_Z kTotalLevels).

(** The replay loop from message number [i], with the records it writes. *)
Fixpoint replay_messages (i : nat) (ms : list LobsterMessage) (e : MatchingEngine) : MatchingEngine * text :=
  match ms with
  | [] => (e, [])
  | m :: ms =>
      let e := apply_message e m in
      let record := write_book_record (u64 (m_timestamp_us m * 1000)) (Z.of_nat i)
                      (bid_levels_ticks 10 (book_ e)) (ask_levels_ticks 10 (book_ e)) in
      let '(e, out) := replay_messages (S i) ms e in (e, record ++ out)
  end.

Definition mismatch_notes (bad use_n : nat) : text :=
  line_of (lit "first mismatch at combined level index " ++ dec (Z.of_nat bad) ++
    lit " (0-9 bids best-first, 10-19 asks best-first); divergence observed after replaying " ++
    dec (Z.of_nat use_n) ++ lit " events") ++
  line_of (lit "note: locating the exact culprit event needs per-event golden snapshots or a diff trace;") ++
  line_of (lit "this tool compares end state after n events to the provided snapshot only.").

(** The comparison of the final book with the reference. *)
Definition verdict (use_n : nat) (log : text) (snap_bids snap_asks : list SnapshotLevel) (b : OrderBook) : Result :=
  let st := compare_side true 0 0 snap_bids (bid_levels_ticks 10 b) (0%nat, None, []) in
  let '(matched, bad, detail) := compare_side false 10 0 snap_asks (ask_levels_ticks 10 b) st in
  let log := match bad with Some i => log ++ mismatch_notes i use_n | None => log end in
  mkLobsterResult use_n (accuracy matched) bad (log ++ detail).

(** [LobsterValidator::validate]: the result, and the records for [jsonl_out]. *)
Definition lobster_validate (messages snapshot : text) (n_events : Z) (snapshot_initial : option text)
    : Result * text :=
  let all := parse_messages messages in
  let use_n := Z.to_nat (Z.min n_events (Z.of_nat (length all))) in
  let log :=
    if Z.of_nat use_n <? n_events then
      line_of (lit "messages: requested " ++ dec n_events ++ lit " events but only " ++
               dec (Z.of_nat (length all)) ++ lit " valid rows")
    else [] in
  let '(snap_bids, snap_asks, log_snap) := load_snapshot snapshot in
  let log := log ++ log_snap in
  let run first_msg log e :=
    let '(e, out) := replay_messages first_msg (drop first_msg (take use_n all)) e in
    (verdict use_n log snap_bids snap_asks (book_ e), out) in
  match snapshot_initial with
  | None => run 0%nat log empty_engine
  | Some input =>
      match seed_book_from_snapshot input empty_engine with
      | (None, log_seed) => (mkLobsterResult use_n (double_of_Z 0) None (log ++ log_seed), [])
      | (Some e, log_seed) => run 1%nat (log ++ log_seed) e
      end
  end.

(** ** The command *)

Definition has_flag (argv : list text) (key : text) : bool := bool_decide (key ∈ drop 1 argv).

Fixpoint find_value (key : text) (args : list text) : option text :=
  match args with
  | a :: ((v :: _) as rest) => if decide (a = key) then Some v else find_value key rest
  | _ => None
  end.
Definition get_str (argv : list text) (key : text) : option text := find_value key (drop 1 argv).

(** What the command ends with. *)
Inductive ReplayOutcome :=
  | Help | Usage
  | BadEvents | ZeroEvents | BadOrderbookLine
  | NoOrderbookLine | BadOrderbookRow
  | CannotOpenMessages | CannotOpenJsonl | JsonlWriteFailed
  | Replayed (r : Result) (jsonl : option text).

Definition exit_code (o : ReplayOutcome) : Z :=
  match o with
  | Help => 0
  | Replayed r _ => match first_mismatch_level_index r with Some _ => 1 | None => 0 end
  | _ => 1
  end.

(** The files by path, which paths can be opened for writing, and whether the
    writes to them succeed. *)
Record ReplayEnv := mkReplayEnv {
  re_files : text -> option text;
  re_can_open : text -> bool;
  re_flushes : text -> bool;
}.

Definition seed_file (env : ReplayEnv) (argv : list text) (book_path : text) : option text :=
  if has_flag argv (lit "--seed-orderbook-zero") then
    row ← read_orderbook_line_at_index (re_files env book_path) 0;
    write_validator_snapshot_from_lobster_orderbook_row row 10
  else None.

(** From the parsed arguments on. *)
Definition replay_files (env : ReplayEnv) (argv : list text) (msg_path book_path : text)
    (n_events orderbook_line : Z) : ReplayOutcome :=
  match read_orderbook_line_at_index (re_files env book_path) orderbook_line with
  | None => NoOrderbookLine
  | Some order_row =>
      match write_validator_snapshot_from_lobster_orderbook_row order_row 10 with
      | None => BadOrderbookRow
      | Some snap =>
          let seed := seed_file env argv book_path in
          match re_files env msg_path with
          | None => CannotOpenMessages
          | Some msgs =>
              let '(r, out) := lobster_validate msgs snap n_events seed in
              match get_str argv (lit "--jsonl") with
              | None => Replayed r None
              | Some p =>
                  if negb (re_can_open env p) then CannotOpenJsonl else
                  if negb (re_flushes env p) then JsonlWriteFailed else Replayed r (Some out)
              end
          end
      end
  end.

Definition lobster_replay (env : ReplayEnv) (argv : list text) : ReplayOutcome :=
  if bool_decide (argv !! 1%nat = Some (lit "--help")) then Help else
  match get_str argv (lit "--messages"), get_str argv (lit "--orderbook"), get_str argv (lit "--events") with
  | Some msg_path, Some book_path, Some events_str =>
      match stoull events_str with
      | None => BadEvents
      | Some n_events =>
          if n_events =? 0 then ZeroEvents else
          match get_str argv (lit "--orderbook-line") with
          | None => replay_files env argv msg_path book_path n_events (n_events - 1)
          | Some s =>
              match stoull s with
              | None => BadOrderbookLine
              | Some l => replay_files env argv msg_path book_path n_events l
              end
          end
      end
  | _, _, _ => Usage
  end.
