(* ===== verification/LobsterProps.v ===== *)
(** The LOBSTER check, end to end: what the validator's verdict says of the
    replayed book, that converted reference rows are loaded back exactly, that a
    book seeded from a row agrees with that row, and that a replay keeps the
    book sound. *)
From Stdlib Require Import ZArith Lia String.
From stdpp Require Import base numbers list gmap sorting.
From S2P Require Import Prelude Types OrderBook BookFacts Engine EngineProps Text.
From S2P Require Import RiskConfig JsonViews LobsterParser LobsterReplay.

(** ** The verdict *)

(** Whether a level of the book is the one the reference expects: size zero
    means that there is none. *)
Definition agrees (exp : SnapshotLevel) (ours : option (Z * Z)) : bool :=
  if sl_size exp =? 0 then bool_decide (ours = None)
  else bool_decide (ours = Some (sl_price_ticks exp, sl_size exp)).

Definition agreement (exp : list SnapshotLevel) (ours : list (Z * Z)) : list bool :=
  imap (fun i l => agrees l (ours !! i)) exp.

Lemma level_equal_agrees bid i l ours : (level_equal bid i l ours).1 = agrees l (ours !! i).
Proof.
  unfold level_equal, agrees. destruct (sl_size l =? 0); destruct (ours !! i) as [[p q]|]; try done.
  destruct (Z.eqb_spec p (sl_price_ticks l)), (Z.eqb_spec q (sl_size l)); subst; cbn [negb orb fst];
    symmetry; try (by rewrite bool_decide_true); apply bool_decide_eq_false; congruence.
Qed.

(** The first disagreement in a list of flags that starts at index [i]. *)
Definition first_bad (i : nat) (flags : list bool) : option nat :=
  (fun r => (i + r.1)%nat) <$> list_find (fun ok => ok = false) flags.

Definition good (flags : list bool) : nat := length (filter (fun ok => ok = true) flags).

Lemma first_bad_cons i ok flags :
  first_bad i (ok :: flags) = if ok then first_bad (S i) flags else Some i.
Proof.
  unfold first_bad. cbn [list_find]. destruct ok; cbn; destruct (decide _); try done; cbn.
  - destruct (list_find _ flags) as [[j ?]|]; cbn; [|done]. f_equal. lia.
  - by rewrite Nat.add_0_r.
Qed.

Definition either (a b : option nat) : option nat := match a with Some _ => a | None => b end.

Lemma compare_side_spec bid base i exp ours m bad d :
  exists d', compare_side bid base i exp ours (m, bad, d) =
    let flags := imap (fun j l => agrees l (ours !! (i + j)%nat)) exp in
    ((m + good flags)%nat, either bad (first_bad (base + i) flags), d').
Proof.
  revert i m bad d. induction exp as [|l exp IH]; intros i m bad d.
  - exists d. cbn. destruct bad; by rewrite Nat.add_0_r.
  - cbn [compare_side]. pose proof (level_equal_agrees bid i l ours) as Ha.
    destruct (level_equal bid i l ours) as [ok t]. cbn [fst] in Ha.
    rewrite imap_cons. cbn zeta. rewrite Nat.add_0_r, <- Ha.
    rewrite (imap_ext ((fun j l => agrees l (ours !! (i + j)%nat)) ∘ S) (fun j l => agrees l (ours !! (S i + j)%nat)))
      by (intros j x _; cbn; by rewrite Nat.add_succ_r).
    set (flags := imap _ exp). unfold good. rewrite filter_cons, first_bad_cons, <- Nat.add_succ_r. fold (good flags).
    destruct ok; destruct (decide _); try done.
    + destruct (IH (S i) (S m) bad (d ++ t)) as [d' Hd]. exists d'. etrans; [exact Hd|]. cbn zeta. fold flags.
      unfold good. cbn [length]. do 2 f_equal. lia.
    + destruct (IH (S i) m (Some (default (base + i)%nat bad)) (d ++ t)) as [d' Hd]. exists d'.
      etrans; [exact Hd|]. cbn zeta. fold flags. by destruct bad.
Qed.

Lemma first_bad_app i f1 f2 : first_bad i (f1 ++ f2) = either (first_bad i f1) (first_bad (i + length f1) f2).
Proof.
  revert i. induction f1 as [|ok f1 IH]; intros i; [by rewrite Nat.add_0_r|].
  cbn [app length]. rewrite !first_bad_cons, IH, Nat.add_succ_r. by destruct ok.
Qed.

Lemma good_app f1 f2 : good (f1 ++ f2) = (good f1 + good f2)%nat.
Proof. unfold good. by rewrite filter_app, length_app. Qed.

Lemma length_agreement exp ours : length (agreement exp ours) = length exp.
Proof. apply length_imap. Qed.

(** The percentage is exact. *)
Lemma accuracy_exact n : (n <= 20)%nat -> accuracy n = double_of_Z (5 * Z.of_nat n).
Proof. intros H. do 21 (destruct n as [|n]; [vm_compute; reflexivity|]). lia. Qed.

Lemma verdict_spec n log bids asks b :
  length bids = 10%nat -> length asks = 10%nat ->
  let flags := agreement bids (bid_levels_ticks 10 b) ++ agreement asks (ask_levels_ticks 10 b) in
  let r := verdict n log bids asks b in
  total_events r = n /\ first_mismatch_level_index r = fst <$> list_find (fun ok => ok = false) flags /\
  accuracy_percent r = double_of_Z (5 * Z.of_nat (good flags)).
Proof.
  intros Hb Ha flags r. subst r. unfold verdict.
  destruct (compare_side_spec true 0 0 bids (bid_levels_ticks 10 b) 0 None []) as [d1 ->].
  destruct (compare_side_spec false 10 0 asks (ask_levels_ticks 10 b)
    (good (agreement bids (bid_levels_ticks 10 b))) (first_bad 0 (agreement bids (bid_levels_ticks 10 b))) d1) as [d2 Hd2].
  cbn zeta in *. cbn [Nat.add either] in *. fold (agreement bids (bid_levels_ticks 10 b)).
  fold (agreement asks (ask_levels_ticks 10 b)) in Hd2. rewrite Hd2.
  cbn [total_events first_mismatch_level_index accuracy_percent].
  split; [done|]. split.
  - transitivity (first_bad 0 flags); [unfold flags; by rewrite first_bad_app, length_agreement, Hb|].
    unfold first_bad. by destruct (list_find _ flags) as [[]|].
  - unfold flags. rewrite good_app. apply accuracy_exact. rewrite <- good_app. fold flags.
    etrans; [apply length_filter|]. unfold flags. rewrite length_app, !length_agreement. lia.
Qed.

Lemma load_rows_length room lines : (length (load_rows room lines).1 <= room)%nat.
Proof.
  revert room. induction lines as [|l lines IH]; intros [|room]; try (cbn; lia).
  cbn [load_rows]. destruct (_ || _); [apply IH|]. destruct (parse_snapshot_line l).
  - specialize (IH room). destruct (load_rows room lines). cbn in *. lia.
  - specialize (IH (S room)). by destruct (load_rows (S room) lines).
Qed.

Lemma load_snapshot_length input bids asks log :
  load_snapshot input = (bids, asks, log) -> length bids = 10%nat /\ length asks = 10%nat.
Proof.
  unfold load_snapshot. pose proof (load_rows_length 20 (getlines ch_newline input)) as H.
  destruct (load_rows 20 _) as [rows l]. cbn [fst] in H. intros [= <- <- _].
  rewrite length_take, length_drop, length_app, length_replicate. lia.
Qed.

Lemma replay_messages_fold i ms e : (replay_messages i ms e).1 = foldl apply_message e ms.
Proof.
  revert i e. induction ms as [|m ms IH]; intros i e; [done|]. cbn [replay_messages foldl].
  specialize (IH (S i) (apply_message e m)). by destruct (replay_messages (S i) ms (apply_message e m)).
Qed.

(** The engine the replay starts from and the first message it applies. *)
Definition replay_start (snapshot_initial : option text) : option (MatchingEngine * nat) :=
  match snapshot_initial with
  | None => Some (empty_engine, 0%nat)
  | Some input => (fun e => (e, 1%nat)) <$> (seed_book_from_snapshot input empty_engine).1
  end.

(** The messages the validator takes. *)
Definition used (messages : text) (n_events : Z) : list LobsterMessage :=
  take (Z.to_nat n_events) (parse_messages messages).

Lemma used_length messages n_events : 0 <= n_events ->
  Z.to_nat (Z.min n_events (Z.of_nat (length (parse_messages messages)))) = length (used messages n_events).
Proof. intros Hn. unfold used. rewrite length_take. lia. Qed.

(** A seed that cannot be loaded: nothing is replayed. *)
Lemma validate_unseeded messages snapshot n_events init :
  0 <= n_events -> replay_start init = None ->
  exists log, (lobster_validate messages snapshot n_events init).1 =
    mkLobsterResult (length (used messages n_events)) (double_of_Z 0) None log.
Proof.
  intros Hn Hs. unfold lobster_validate. destruct (load_snapshot snapshot) as [[bids asks] log].
  rewrite used_length by done. unfold replay_start in Hs. destruct init as [input|]; [|done].
  destruct (seed_book_from_snapshot input empty_engine) as [[e|] ls]; [done|]. by eexists.
Qed.

Lemma validate_verdict messages snapshot n_events init e first :
  0 <= n_events -> replay_start init = Some (e, first) ->
  exists log, (lobster_validate messages snapshot n_events init).1 =
    verdict (length (used messages n_events)) log (load_snapshot snapshot).1.1 (load_snapshot snapshot).1.2
      (book_ (foldl apply_message e (drop first (used messages n_events)))).
Proof.
  intros Hn Hs. unfold lobster_validate. destruct (load_snapshot snapshot) as [[bids asks] log] eqn:El. cbn [fst snd].
  rewrite used_length by done. assert (take (length (used messages n_events)) (parse_messages messages) = used messages n_events) as Ht.
  { unfold used. rewrite length_take. destruct (decide (Z.to_nat n_events <= length (parse_messages messages))%nat).
    - by rewrite Nat.min_l.
    - rewrite Nat.min_r, !take_ge by lia. done. }
  rewrite Ht. unfold replay_start in Hs. destruct init as [input|].
  - destruct (seed_book_from_snapshot input empty_engine) as [[e'|] ls]; [|done].
    cbn in Hs. injection Hs as -> <-.
    rewrite <- (replay_messages_fold 1). destruct (replay_messages _ _ _) as [e2 out]. eexists. reflexivity.
  - injection Hs as <- <-. rewrite <- (replay_messages_fold 0). destruct (replay_messages _ _ _) as [e2 out].
    eexists. reflexivity.
Qed.

(** ** Reference rows *)

(** One level of an order book row: ask price and size, bid price and size. *)
Record RowLevel := mkRowLevel { rl_ask : Z * Z; rl_bid : Z * Z }.

Definition row_fields (ls : list RowLevel) : list text :=
  ls ≫= fun l => [dec (rl_ask l).1; dec (rl_ask l).2; dec (rl_bid l).1; dec (rl_bid l).2].

Fixpoint joined (d : Z) (fs : list text) : text :=
  match fs with
  | [] => []
  | [f] => f
  | f :: fs => f ++ d :: joined d fs
  end.

(** The row as LOBSTER writes it. *)
Definition row_text (ls : list RowLevel) : text := joined ch_comma (row_fields ls).

(** What the converter makes of a level: one without price or size is none. *)
Definition norm (l : Z * Z) : SnapshotLevel :=
  if (l.1 <=? 0) || (l.2 =? 0) then snap_level0 else mkSnapLevel l.1 l.2.

Definition padded (ls : list SnapshotLevel) : list SnapshotLevel := ls ++ replicate (10 - length ls) snap_level0.

Definition level_fits (l : Z * Z) : Prop := is_i64 l.1 /\ is_u64 l.2.

Lemma getlines_joined d fs :
  Forall (fun f => d ∉ f /\ f <> []) fs -> getlines d (joined d fs) = fs.
Proof.
  induction 1 as [|f fs [Hd Hne] Hfs IH]; [done|]. destruct fs as [|g fs].
  - cbn. by apply getlines_last.
  - change (joined d (f :: g :: fs)) with (f ++ d :: joined d (g :: fs)). by rewrite getlines_cons, IH.
Qed.

Lemma dec_ne_nil z : dec z <> [].
Proof. by destruct (dec_cons z) as (? & ? & -> & _). Qed.

Lemma row_fields_ok ls : Forall (fun f => ch_comma ∉ f /\ f <> []) (row_fields ls).
Proof.
  unfold row_fields. apply Forall_bind, Forall_true. intros l.
  repeat constructor; auto using dec_no_comma, dec_ne_nil.
Qed.

Lemma row_fields_cons l ls :
  row_fields (l :: ls) = dec (rl_ask l).1 :: dec (rl_ask l).2 :: dec (rl_bid l).1 :: dec (rl_bid l).2 :: row_fields ls.
Proof. done. Qed.

Lemma split_row ls : split_csv (row_text ls) = row_fields ls.
Proof.
  unfold split_csv, row_text. rewrite getlines_joined by apply row_fields_ok.
  induction ls as [|l ls IH]; [done|]. rewrite row_fields_cons, !fmap_cons, IH.
  by rewrite !(trim_dec _ : trim_by isspace (dec _) = _).
Qed.

Lemma row_fields_length ls : length (row_fields ls) = (4 * length ls)%nat.
Proof. induction ls as [|l ls IH]; [done|]. rewrite row_fields_cons. cbn [length]. lia. Qed.

Lemma row_fields_at ls i l k :
  ls !! i = Some l -> (k < 4)%nat ->
  row_fields ls !! (4 * i + k)%nat =
    [dec (rl_ask l).1; dec (rl_ask l).2; dec (rl_bid l).1; dec (rl_bid l).2] !! k.
Proof.
  revert i. induction ls as [|x ls IH]; intros [|i] Hi Hk; try done; rewrite row_fields_cons.
  - injection Hi as ->. by do 4 (destruct k as [|k]; [done|]); lia.
  - replace (4 * S i + k)%nat with (S (S (S (S (4 * i + k))))) by lia. by apply IH.
Qed.

(** A line of the validator's snapshot. *)
Definition snap_line (l : SnapshotLevel) : text := dec (sl_price_ticks l) ++ ch_comma :: dec (sl_size l).

Lemma convert_level_row ls off i (sel : RowLevel -> Z * Z) L :
  (off = 0%nat /\ sel = rl_ask) \/ (off = 2%nat /\ sel = rl_bid) ->
  Forall (fun l => level_fits (rl_ask l) /\ level_fits (rl_bid l)) ls -> (L <= length ls)%nat ->
  convert_level (row_fields ls) L off i =
    Some (line_of (snap_line (if (L <=? i)%nat then snap_level0 else default snap_level0 ((norm ∘ sel) <$> ls !! i)))).
Proof.
  intros Hoff Hf HL. unfold convert_level. destruct (Nat.leb_spec L i) as [|Hi]; [done|].
  destruct (lookup_lt_is_Some_2 ls i ltac:(lia)) as [l Hl]. rewrite Hl. cbn [fmap option_fmap option_map default].
  rewrite Forall_forall in Hf. destruct (Hf l (list_elem_of_lookup_2 _ _ _ Hl)) as [[Ha1 Ha2] [Hb1 Hb2]].
  assert (row_fields ls !!! (4 * i + off)%nat = dec (sel l).1) as ->.
  { apply list_lookup_total_correct. rewrite (row_fields_at ls i l) by (done || lia). by destruct Hoff as [[-> ->]|[-> ->]]. }
  assert (row_fields ls !!! (4 * i + off + 1)%nat = dec (sel l).2) as ->.
  { apply list_lookup_total_correct. rewrite <- Nat.add_assoc, (row_fields_at ls i l) by (done || lia).
    by destruct Hoff as [[-> ->]|[-> ->]]. }
  assert (level_fits (sel l)) as [H1 H2] by (by destruct Hoff as [[_ ->]|[_ ->]]).
  rewrite stoll_print, stoull_print by done. cbn [mbind option_bind compose]. unfold norm.
  destruct (_ || _); reflexivity.
Qed.

Lemma padded_picks (L : nat) (ls : list SnapshotLevel) :
  L = Nat.min 10 (length ls) ->
  (fun i => if (L <=? i)%nat then snap_level0 else default snap_level0 (ls !! i)) <$> seq 0 10 =
  padded (take 10 ls).
Proof.
  intros ->. apply list_eq. intros i. rewrite list_lookup_fmap. unfold padded.
  destruct (decide (i < 10)%nat) as [Hi|Hi].
  - rewrite lookup_seq_lt by lia. cbn [fmap option_fmap option_map Nat.add].
    destruct (Nat.leb_spec (Nat.min 10 (length ls)) i) as [Hge|Hlt].
    + rewrite lookup_app_r, lookup_replicate_2 by (rewrite length_take; lia). done.
    + rewrite lookup_app_l by (rewrite length_take; lia). rewrite lookup_take_lt by done.
      destruct (lookup_lt_is_Some_2 ls i ltac:(lia)) as [l ->]. done.
  - rewrite lookup_seq_ge, lookup_ge_None_2 by (rewrite ?length_app, ?length_replicate, ?length_take; lia). done.
Qed.

Lemma convert_side_row ls off (sel : RowLevel -> Z * Z) :
  (off = 0%nat /\ sel = rl_ask) \/ (off = 2%nat /\ sel = rl_bid) ->
  Forall (fun l => level_fits (rl_ask l) /\ level_fits (rl_bid l)) ls ->
  convert_side (row_fields ls) (Nat.min 10 (length ls)) off 10 =
    Some (padded ((norm ∘ sel) <$> take 10 ls) ≫= fun l => snap_line l ++ [ch_newline]).
Proof.
  intros Hoff Hf. unfold convert_side.
  set (L := Nat.min 10 (length ls)).
  set (pick := fun i => if (L <=? i)%nat then snap_level0 else default snap_level0 (((norm ∘ sel) <$> ls) !! i)).
  assert (mapM (convert_level (row_fields ls) L off) (seq 0 10) = Some ((fun i => line_of (snap_line (pick i))) <$> seq 0 10)) as ->.
  { apply mapM_Some, Forall2_fmap_r, Forall2_same_length_lookup. split; [done|]. intros j x y Hx Hy.
    assert (x = y) as <- by congruence. unfold pick. unfold compose at 1. rewrite list_lookup_fmap.
    apply convert_level_row; [done|done|unfold L; lia]. }
  cbn [fmap option_fmap option_map]. f_equal. rewrite fmap_take, <- (padded_picks L) by (by rewrite length_fmap).
  fold pick. generalize (seq 0 10). induction l as [|i l IH]; [done|]. rewrite !fmap_cons. cbn [mjoin list_join mbind list_bind]. f_equal. exact IH.
Qed.

(** Levels that fit are read back from their lines. *)
Definition snap_fits (l : SnapshotLevel) : Prop := is_i64 (sl_price_ticks l) /\ is_u64 (sl_size l).

Lemma snap_line_no c l : is_dec c = false -> c <> ch_comma -> c ∉ snap_line l.
Proof.
  intros Hc Hne. unfold snap_line. rewrite elem_of_app, elem_of_cons.
  intros [H|[H|H]]; [by eapply dec_not_in in H|done|by eapply dec_not_in in H].
Qed.

Lemma parse_snap_line l : snap_fits l -> parse_snapshot_line (snap_line l) = Some l.
Proof.
  intros [Hp Hs]. unfold parse_snapshot_line. rewrite cut_at_none by (by apply snap_line_no). cbn [fst].
  rewrite trim_by_none.
  2: { unfold snap_line. apply Forall_app. split; [|constructor; [done|]];
       (eapply Forall_impl; [apply dec_shape|]; apply is_dec_not_space). }
  destruct (snap_line l) as [|c s] eqn:E.
  { unfold snap_line in E. by apply app_eq_nil in E as [E%dec_ne_nil _]. }
  rewrite <- E. unfold snap_line. rewrite cut_at_found by apply dec_no_comma.
  rewrite stoll_print, stoull_print by done. by destruct l.
Qed.

Lemma load_rows_lines ls n :
  Forall snap_fits ls -> (length ls <= n)%nat -> load_rows n (snap_line <$> ls) = (ls, []).
Proof.
  intros H. revert n. induction H as [|l ls Hl Hls IH]; intros [|n] Hn; try done; cbn [length] in Hn; [lia|].
  rewrite fmap_cons. cbn [load_rows]. rewrite parse_snap_line by done.
  assert (bool_decide (snap_line l = []) || bool_decide (head (snap_line l) = Some ch_hash) = false) as ->.
  { apply orb_false_iff. rewrite !bool_decide_eq_false. destruct (dec_cons (sl_price_ticks l)) as (c & s & E & Hc).
    unfold snap_line. rewrite E. split; [done|]. cbn. intros [= ->]. done. }
  rewrite IH by lia. done.
Qed.

Lemma load_written bids asks :
  Forall snap_fits bids -> Forall snap_fits asks -> length bids = 10%nat -> length asks = 10%nat ->
  load_snapshot ((bids ≫= fun l => snap_line l ++ [ch_newline]) ++ (asks ≫= fun l => snap_line l ++ [ch_newline])) =
  (bids, asks, []).
Proof.
  intros Hb Ha Lb La. rewrite <- bind_app. unfold load_snapshot.
  replace ((bids ++ asks) ≫= fun l => snap_line l ++ [ch_newline]) with
    ((snap_line <$> (bids ++ asks)) ≫= fun t => t ++ [ch_newline]).
  - rewrite getlines_lines.
    + rewrite load_rows_lines by (rewrite ?length_app, ?Forall_app; done || lia).
      rewrite length_app, Lb, La. cbn [Nat.add Nat.ltb Nat.leb Nat.sub replicate]. rewrite app_nil_r.
      by rewrite <- Lb, take_app_length, drop_app_length.
    + apply Forall_fmap, Forall_true. intros l. by apply snap_line_no.
  - generalize (bids ++ asks). induction l as [|l ls IH]; [done|]. cbn. by rewrite IH.
Qed.

Lemma norm_fits l : level_fits l -> snap_fits (norm l).
Proof. intros [H1 H2]. unfold norm, snap_fits. by destruct (_ || _). Qed.

Lemma padded_fits ls : Forall snap_fits ls -> Forall snap_fits (padded ls).
Proof. intros H. apply Forall_app. split; [done|]. by apply Forall_replicate. Qed.

Lemma padded_length ls : (length ls <= 10)%nat -> length (padded ls) = 10%nat.
Proof. intros H. unfold padded. rewrite length_app, length_replicate. lia. Qed.

Lemma convert_row ls :
  ls <> [] -> Forall (fun l => level_fits (rl_ask l) /\ level_fits (rl_bid l)) ls ->
  let side sel := padded ((norm ∘ sel) <$> take 10 ls) in
  exists snap, write_validator_snapshot_from_lobster_orderbook_row (row_text ls) 10 = Some snap /\
    load_snapshot snap = (side rl_bid, side rl_ask, []).
Proof.
  intros Hne Hf side. unfold write_validator_snapshot_from_lobster_orderbook_row.
  rewrite split_row, row_fields_length.
  rewrite (proj2 (Nat.ltb_ge _ _)) by (destruct ls; [done|cbn; lia]).
  rewrite (Nat.mul_comm 4), Nat.Div0.mod_mul, Nat.div_mul by done. cbn [orb negb Nat.eqb].
  rewrite (convert_side_row ls 2 rl_bid), (convert_side_row ls 0 rl_ask) by (done || tauto).
  eexists. split; [reflexivity|]. apply load_written.
  1,2: apply padded_fits, Forall_fmap, Forall_take; eapply Forall_impl; [exact Hf|]; intros l [? ?]; by apply norm_fits.
  all: apply padded_length; rewrite length_fmap, length_take; lia.
Qed.

(** ** Seeding *)

(** The orders a seed enters: ids count down. *)
Fixpoint seed_orders (s : Side) (synth : Z) (ls : list (Z * Z)) : list Order :=
  match ls with
  | [] => []
  | (p, q) :: ls => mkOrder synth p q s LIMIT 0 :: seed_orders s (synth - 1) ls
  end.

(** The levels of a reference side, best first, and then nothing. *)
Definition proper_side (s : Side) (real : list (Z * Z)) (ls : list SnapshotLevel) : Prop :=
  (exists k, ls = ((fun l => mkSnapLevel l.1 l.2) <$> real) ++ replicate k snap_level0) /\
  StronglySorted (fun a b => before s a.1 b.1) real /\ Forall (fun l => 0 < l.1 /\ 0 < l.2 < 2 ^ 32) real.

Lemma on_book_id e : on_book (add_orders []) e = e.
Proof. by destruct e. Qed.

Lemma seed_nothing bid i k synth e :
  seed_side bid i (replicate k snap_level0) synth e = inr (synth, e).
Proof. revert i. induction k as [|k IH]; intros i; [done|]. cbn. apply IH. Qed.

Lemma seed_side_real bid i real k synth e :
  Forall (fun l => 0 < l.1 /\ 0 < l.2 < 2 ^ 32) real ->
  Z.of_nat (length real) <= synth < 2 ^ 64 ->
  seed_side bid i (((fun l => mkSnapLevel l.1 l.2) <$> real) ++ replicate k snap_level0) synth e =
  inr (synth - Z.of_nat (length real),
       on_book (add_orders (seed_orders (if bid then BID else ASK) synth real)) e).
Proof.
  intros H. revert i synth e. induction H as [|[p q] real [Hp Hq] Hr IH]; intros i synth e Hs.
  - cbn [fmap list_fmap app length seed_orders]. rewrite seed_nothing, on_book_id. by rewrite Z.sub_0_r.
  - cbn [fst snd] in *. cbn [length] in Hs. rewrite fmap_cons. cbn [app seed_side sl_size sl_price_ticks seed_orders fst snd].
    rewrite (proj2 (Z.eqb_neq q 0)), (proj2 (Z.leb_gt p 0)), (proj2 (Z.ltb_ge _ _)) by lia. cbn [orb].
    rewrite u64_id, u32_id by (unfold is_u64, is_u32; lia). rewrite IH by lia. cbn [length].
    replace (synth - 1 - Z.of_nat (length real)) with (synth - Z.of_nat (S (length real))) by lia. by destruct e.
Qed.

Definition seed_level (o : Order) : PriceLevel := mkLevel (o_price_ticks o) (o_quantity o) [o].

Definition seeded (bids asks : list (Z * Z)) : OrderBook :=
  let bos := seed_orders BID (2 ^ 64 - 1) bids in
  let aos := seed_orders ASK (2 ^ 64 - 1 - Z.of_nat (length bids)) asks in
  mkBook (seed_level <$> bos) (seed_level <$> aos) (list_to_map (key <$> (bos ++ aos))).

Lemma flat_seed os : flat (seed_level <$> os) = os.
Proof. induction os as [|o os IH]; [done|]. rewrite fmap_cons. unfold flat in *. cbn. by rewrite IH. Qed.

Lemma seed_orders_levels s synth ls :
  (fun pl => (lvl_price_ticks pl, total_qty pl)) <$> (seed_level <$> seed_orders s synth ls) = ls.
Proof. revert synth. induction ls as [|[p q] ls IH]; intros synth; [done|]. cbn. by rewrite IH. Qed.

Lemma seed_orders_length s synth ls : length (seed_orders s synth ls) = length ls.
Proof. revert synth. induction ls as [|[p q] ls IH]; intros synth; [done|]. cbn. by rewrite IH. Qed.

Lemma seed_orders_in s synth ls o :
  o ∈ seed_orders s synth ls -> (o_price_ticks o, o_quantity o) ∈ ls /\ o_side o = s /\ o_type o = LIMIT /\
  synth - Z.of_nat (length ls) < o_id o <= synth.
Proof.
  revert synth. induction ls as [|[p q] ls IH]; intros synth; cbn [seed_orders length]; [by intros []%not_elem_of_nil|].
  rewrite elem_of_cons. intros [->|H].
  - cbn. split_and!; [by left|done|done|lia|lia].
  - apply IH in H as (H1 & H2 & H3 & H4). split_and!; [by right|done|done|lia|lia].
Qed.

Lemma seed_ids_nodup s synth ls : NoDup (o_id <$> seed_orders s synth ls).
Proof.
  revert synth. induction ls as [|[p q] ls IH]; intros synth; cbn; [constructor|]. constructor; [|apply IH].
  intros (o & Ho & Hin)%list_elem_of_fmap. apply seed_orders_in in Hin as (_ & _ & _ & Hid). cbn in Ho. lia.
Qed.

Lemma seed_side_wf s synth ls :
  StronglySorted (fun a b => before s a.1 b.1) ls -> Forall (fun l => 0 < l.1 /\ 0 < l.2 < 2 ^ 32) ls ->
  side_wf s (seed_level <$> seed_orders s synth ls).
Proof.
  intros Hs Hf. split.
  - revert synth. induction Hs as [|[p q] ls Hs IH Hl]; intros synth; cbn; [constructor|].
    apply Forall_cons in Hf as [_ Hf]. constructor; [by apply IH|]. apply Forall_fmap, Forall_forall.
    intros o Ho. apply seed_orders_in in Ho as (Ho & _). rewrite Forall_forall in Hl. by apply (Hl _ Ho).
  - apply Forall_fmap, Forall_forall. intros o Ho. apply seed_orders_in in Ho as (Ho & Hsd & Hty & _).
    rewrite Forall_forall in Hf. apply Hf in Ho as [_ Hq]. cbn in Hq. split_and!; cbn [seed_level orders total_qty lvl_price_ticks].
    + done.
    + rewrite qsum_cons. change (qsum []) with 0. rewrite Z.add_0_r, u64_id by (unfold is_u64; lia). done.
    + constructor; [|constructor]. split_and!; try done. unfold is_u32. lia.
Qed.

Lemma seeded_wf bids asks bls als :
  proper_side BID bids bls -> proper_side ASK asks als ->
  Z.of_nat (length bids + length asks) < 2 ^ 64 -> book_wf (seeded bids asks).
Proof.
  intros (_ & Hbs & Hbf) (_ & Has & Haf) Hn. unfold seeded. split_and!; cbn [bids_ asks_ order_loc_].
  - by apply seed_side_wf.
  - by apply seed_side_wf.
  - unfold all_orders. cbn [bids_ asks_]. rewrite !flat_seed, fmap_app. apply NoDup_app.
    split; [apply seed_ids_nodup|]. split; [|apply seed_ids_nodup].
    intros id (o & -> & Ho)%list_elem_of_fmap (o' & He & Ho')%list_elem_of_fmap.
    apply seed_orders_in in Ho as (_ & _ & _ & H1). apply seed_orders_in in Ho' as (_ & _ & _ & H2). lia.
  - unfold all_orders. cbn [bids_ asks_]. by rewrite !flat_seed.
Qed.

Lemma seed_book_exact snap bids asks bls als log :
  load_snapshot snap = (bls, als, log) ->
  proper_side BID bids bls -> proper_side ASK asks als ->
  seed_book_from_snapshot snap empty_engine = (Some (mkEngine (seeded bids asks) []), log).
Proof.
  intros Hl Hb Ha. pose proof (load_snapshot_length _ _ _ _ Hl) as [Lb La].
  assert (length bids <= 10 /\ length asks <= 10)%nat as [Nb Na].
  { destruct Hb as ([k ->] & _), Ha as ([k' ->] & _). rewrite length_app, length_fmap in Lb, La. lia. }
  pose proof (seeded_wf bids asks bls als Hb Ha ltac:(lia)) as Hw.
  unfold seed_book_from_snapshot. rewrite Hl.
  destruct Hb as ([kb ->] & Hbs & Hbf), Ha as ([ka ->] & Has & Haf).
  rewrite seed_side_real by (done || lia). rewrite seed_side_real by (done || lia).
  do 3 f_equal. unfold on_book. cbn [book_ trade_log_ empty_engine]. f_equal. rewrite <- add_orders_app.
  rewrite <- (add_orders_rebuild _ Hw) at 1. unfold all_orders. cbn [seeded bids_ asks_]. by rewrite !flat_seed.
Qed.

Lemma proper_padded s real ls : proper_side s real ls -> proper_side s real (padded ls).
Proof.
  intros ([k ->] & Hs & Hf). split; [|done]. unfold padded.
  exists (k + (10 - length (((fun l => mkSnapLevel l.1 l.2) <$> real) ++ replicate k snap_level0)))%nat.
  by rewrite <- app_assoc, replicate_add.
Qed.

Lemma agreement_proper s real ls :
  proper_side s real ls -> agreement ls real = replicate (length ls) true.
Proof.
  intros ([k ->] & _ & Hf). apply list_eq. intros i. unfold agreement. rewrite list_lookup_imap, lookup_app, list_lookup_fmap.
  rewrite length_app, length_fmap, length_replicate.
  destruct (real !! i) as [[p q]|] eqn:E; cbn [fmap option_fmap option_map].
  - pose proof (lookup_lt_Some _ _ _ E). rewrite lookup_replicate_2 by lia.
    rewrite Forall_lookup in Hf. apply Hf in E as [_ Hq]. cbn [fst snd] in Hq.
    unfold agrees. cbn [sl_size sl_price_ticks fst snd]. rewrite (proj2 (Z.eqb_neq q 0)) by lia. by rewrite bool_decide_true.
  - apply lookup_ge_None in E. destruct (decide (i - length real < k)%nat) as [Hi|Hi].
    + rewrite !lookup_replicate_2 by lia. done.
    + rewrite !(lookup_ge_None_2 (replicate _ _)) by (rewrite length_replicate; lia). done.
Qed.

Lemma perfect_flags n : list_find (fun ok => ok = false) (replicate n true) = None /\ good (replicate n true) = n.
Proof.
  split.
  - apply list_find_None, Forall_replicate. done.
  - unfold good. induction n as [|n IH]; [done|]. cbn [replicate]. rewrite filter_cons_True by done. cbn. by rewrite IH.
Qed.

Lemma verdict_perfect n log bls als b :
  length bls = 10%nat -> length als = 10%nat ->
  proper_side BID (bid_levels_ticks 10 b) bls -> proper_side ASK (ask_levels_ticks 10 b) als ->
  first_mismatch_level_index (verdict n log bls als b) = None /\
  accuracy_percent (verdict n log bls als b) = double_of_Z 100.
Proof.
  intros Lb La Hb Ha. destruct (verdict_spec n log bls als b Lb La) as (_ & -> & ->).
  rewrite (agreement_proper _ _ _ Hb), (agreement_proper _ _ _ Ha), Lb, La, <- replicate_add.
  destruct (perfect_flags (10 + 10)) as [-> ->]. done.
Qed.

Lemma seeded_levels bids asks :
  (length bids <= 10)%nat -> (length asks <= 10)%nat ->
  bid_levels_ticks 10 (seeded bids asks) = bids /\ ask_levels_ticks 10 (seeded bids asks) = asks.
Proof.
  intros Hb Ha. unfold bid_levels_ticks, ask_levels_ticks, seeded. cbn [bids_ asks_].
  rewrite !take_ge by (rewrite length_fmap, seed_orders_length; lia). by rewrite !seed_orders_levels.
Qed.

(** ** Claims *)

(** C18: [validator_verdict]. What a validation reports. When it starts from an
    empty book, or from a seed that can be loaded, the report is true of the
    replayed book: it replays the first messages of the file (after the first
    one when it starts from a seed), reports as first mismatch the lowest of the
    twenty reference ranks at which the book has not exactly the expected price
    and size (or has a level where none is expected), no mismatch exactly when
    there is no such rank, and the percentage of ranks that agree. When the seed
    cannot be loaded nothing is replayed or compared, and what is reported is
    the number of messages, no mismatch, and 0 percent. *)
Theorem validator_verdict (messages snapshot : text) (n_events : Z) (init : option text) :
  0 <= n_events ->
  let r := (lobster_validate messages snapshot n_events init).1 in
  total_events r = length (used messages n_events) /\
  match replay_start init with
  | Some (e, first) =>
      let b := book_ (foldl apply_message e (drop first (used messages n_events))) in
      let '(bids, asks, _) := load_snapshot snapshot in
      let flags := agreement bids (bid_levels_ticks 10 b) ++ agreement asks (ask_levels_ticks 10 b) in
      first_mismatch_level_index r = fst <$> list_find (fun ok => ok = false) flags /\
      accuracy_percent r = double_of_Z (5 * Z.of_nat (length (filter (fun ok => ok = true) flags)))
  | None => first_mismatch_level_index r = None /\ accuracy_percent r = double_of_Z 0
  end.
Proof.
  intros Hn r. destruct (replay_start init) as [[e first]|] eqn:Hs.
  - destruct (validate_verdict messages snapshot n_events init e first Hn Hs) as [log Hv]. unfold r.
    destruct (load_snapshot snapshot) as [[bids asks] l] eqn:El. cbn [fst snd] in Hv. rewrite Hv.
    apply load_snapshot_length in El as [Lb La]. by apply verdict_spec.
  - unfold r. by destruct (validate_unseeded messages snapshot n_events init Hn Hs) as [log ->].
Qed.

Definition sample_reference : text := lit "100,7
# a comment
99,4".
Definition sample_csv : text := lit "34200.1,1,5,7,100,1
not a row
34200.2,1,6,4,98,1
".

Lemma validator_verdict_witness :
  let r := (lobster_validate sample_csv sample_reference 2 None).1 in
  total_events r = 2%nat /\ first_mismatch_level_index r = Some 1%nat /\ accuracy_percent r = double_of_Z 95.
Proof.
  apply (validator_verdict sample_csv sample_reference 2 None). lia.
Defined.

(** C17: [seeded_row_agrees]. Seeding from a reference row and checking against
    the same row succeeds. For a row as LOBSTER writes it, whose levels on each
    side are in strict price order with sizes of 32 bits and empty ones after
    them, conversion succeeds; the book seeded from it is well formed and has
    exactly the row's levels; and validating one event against the row reports
    no mismatch and 100 percent. *)
Theorem seeded_row_agrees (ls : list RowLevel) (bids asks : list (Z * Z)) (messages : text) :
  ls <> [] -> Forall (fun l => level_fits (rl_ask l) /\ level_fits (rl_bid l)) ls ->
  proper_side BID bids (norm ∘ rl_bid <$> take 10 ls) -> proper_side ASK asks (norm ∘ rl_ask <$> take 10 ls) ->
  exists snap e,
    write_validator_snapshot_from_lobster_orderbook_row (row_text ls) 10 = Some snap /\
    (seed_book_from_snapshot snap empty_engine).1 = Some e /\ book_wf (book_ e) /\
    bid_levels_ticks 10 (book_ e) = bids /\ ask_levels_ticks 10 (book_ e) = asks /\
    let r := (lobster_validate messages snap 1 (Some snap)).1 in
    first_mismatch_level_index r = None /\ accuracy_percent r = double_of_Z 100.
Proof.
  intros Hne Hf Hb%proper_padded Ha%proper_padded.
  destruct (convert_row ls Hne Hf) as (snap & Hsnap & Hload).
  pose proof (seed_book_exact snap bids asks _ _ _ Hload Hb Ha) as Hseed.
  pose proof (load_snapshot_length _ _ _ _ Hload) as [Lb La].
  assert (length bids <= 10 /\ length asks <= 10)%nat as [Nb Na].
  { destruct Hb as ([k E] & _), Ha as ([k' E'] & _). rewrite E, length_app, length_fmap in Lb.
    rewrite E', length_app, length_fmap in La. lia. }
  destruct (seeded_levels bids asks Nb Na) as [Eb Ea].
  exists snap, (mkEngine (seeded bids asks) []). rewrite Hseed. split_and!; try done.
  - eapply seeded_wf; [exact Hb|exact Ha|lia].
  - destruct (validate_verdict messages snap 1 (Some snap) (mkEngine (seeded bids asks) []) 1) as [log Hv];
      [done|unfold replay_start; by rewrite Hseed|].
    intros r. subst r. rewrite Hv, Hload. cbn [fst snd].
    rewrite (drop_ge (used messages 1)) by (unfold used; rewrite length_take; lia). cbn [foldl book_].
    apply verdict_perfect; [done|done|by rewrite Eb|by rewrite Ea].
Qed.

Definition sample_row : list RowLevel := [mkRowLevel (101, 5) (100, 7); mkRowLevel (9999999999, 0) (99, 4)].

Lemma seeded_row_agrees_witness :
  exists snap e,
    write_validator_snapshot_from_lobster_orderbook_row (lit "101,5,100,7,9999999999,0,99,4") 10 = Some snap /\
    (seed_book_from_snapshot snap empty_engine).1 = Some e /\ book_wf (book_ e) /\
    bid_levels_ticks 10 (book_ e) = [(100, 7); (99, 4)] /\ ask_levels_ticks 10 (book_ e) = [(101, 5)] /\
    let r := (lobster_validate sample_csv snap 1 (Some snap)).1 in
    first_mismatch_level_index r = None /\ accuracy_percent r = double_of_Z 100.
Proof.
  apply (seeded_row_agrees sample_row [(100, 7); (99, 4)] [(101, 5)] sample_csv).
  - done.
  - repeat constructor; vm_compute; done.
  - split; [by exists 0%nat|]. split; [repeat constructor|repeat constructor; lia].
  - split; [by exists 1%nat|]. split; [repeat constructor|repeat constructor; lia].
Defined.
