(* ===== verification/LobsterRefine.v ===== *)
(** A LOBSTER replay refines the two priority queues of Engine.v: what each
    message does to the queues of resting orders, and the proof that
    [apply_message] does exactly that to the book. *)
From Stdlib Require Import ZArith Lia String.
From stdpp Require Import base numbers list gmap sorting.
From S2P Require Import Prelude Types OrderBook BookFacts Engine EngineProps Text.
From S2P Require Import LobsterParser LobsterReplay.

(** ** Messages on queues *)

Definition spec_cancel (id : Z) (q : QBook) : bool * QBook :=
  let '(r, q, _) := spec_process (mkOrder id 0 0 BID CANCEL 0) q in (accepted r, q).

(** A new remaining quantity; the place in the queue is kept. *)
Definition set_remaining (id n : Z) (os : list Order) : list Order :=
  (fun o => if o_id o =? id then set_quantity o n else o) <$> os.

Definition spec_replace (id n : Z) (q : QBook) : QBook :=
  if n =? 0 then (spec_cancel id q).2
  else mkQ (set_remaining id n (bidq q)) (set_remaining id n (askq q)).

(** [n] taken from the orders at price [p], oldest first. *)
Fixpoint take_at (p n : Z) (os : list Order) : list Order :=
  match os with
  | [] => []
  | o :: os' =>
      if o_price_ticks o =? p then
        if 0 <? n then
          if o_quantity o <=? n then take_at p (n - o_quantity o) os'
          else set_quantity o (o_quantity o - n) :: os'
        else o :: os'
      else o :: take_at p n os'
  end.

Definition at_price (p : Z) (os : list Order) : list Order := filter (fun o => o_price_ticks o = p) os.

(** Nothing happens where less than [n] is resting at that price. *)
Definition spec_reduce (s : Side) (p n : Z) (q : QBook) : QBook :=
  if (n =? 0) || (qsum (at_price p (qside s q)) <? n) then q
  else mkSides s (take_at p n (qside s q)) (qside (opposite s) q).

Definition order_of_message (m : LobsterMessage) : Order :=
  mkOrder (m_order_id m) (m_price_ticks m) (m_size m) (side_of_direction (m_direction m)) LIMIT (m_timestamp_us m).

Definition spec_message (q : QBook) (m : LobsterMessage) : QBook :=
  let s := side_of_direction (m_direction m) in
  if m_type m =? 1 then (spec_process (order_of_message m) q).1.2
  else if m_type m =? 2 then spec_replace (m_order_id m) (m_size m) q
  else if m_type m =? 3 then
    let '(removed, q') := spec_cancel (m_order_id m) q in
    if removed then q' else spec_reduce s (m_price_ticks m) (m_size m) q'
  else if (m_type m =? 4) || (m_type m =? 5) then spec_reduce s (m_price_ticks m) (m_size m) q
  else q.

(** ** Cancels *)

Lemma cancelOrder_refines id b :
  engine_inv b ->
  let '(ok, q) := spec_cancel id (abs b) in
  exists b', cancelOrder id b = (ok, b') /\ abs b' = q /\ engine_inv b'.
Proof.
  intros Hi. unfold spec_cancel.
  pose proof (process_refines_lemma (mkOrder id 0 0 BID CANCEL 0) b [] Hi I) as H.
  destruct (spec_process _ _) as [[r q] ts]. destruct H as (b' & Hp & Ha & Hi').
  unfold processOrder in Hp. cbn [o_type o_id book_ trade_log_] in Hp.
  destruct (cancelOrder id b) as [removed b1]. exists b'.
  pose proof (f_equal (fun x => book_ x.2) Hp) as Hb. pose proof (f_equal (fun x => accepted x.1) Hp) as Hr.
  cbn in Hb, Hr. by rewrite Hb, Hr.
Qed.

(** ** Replacing a quantity *)

Lemma touch_id_none id n os : touch_id id n os = None -> remove_id id os = None.
Proof.
  induction os as [|o os IH]; [done|]. cbn [touch_id remove_id]. destruct (o_id o =? id); [done|].
  destruct (touch_id id n os) as [[]|]; [done|]. intros _. by rewrite IH.
Qed.

Lemma touch_none s p id n ls : touch s p id n ls = None -> erase_from s p id ls = None.
Proof.
  unfold touch, erase_from. destruct (ls !! find_level s p ls) as [pl|]; [|done].
  destruct (lvl_price_ticks pl =? p); [|done].
  destruct (touch_id id n (orders pl)) as [[]|] eqn:E; [done|]. by rewrite (touch_id_none _ _ _ E).
Qed.

Lemma set_remaining_absent id n os : id ∉ (o_id <$> os) -> set_remaining id n os = os.
Proof.
  induction os as [|o os IH]; intros H; [done|]. rewrite fmap_cons in H. apply not_elem_of_cons in H as [Hne H].
  unfold set_remaining in *. rewrite fmap_cons, IH by done. by rewrite (proj2 (Z.eqb_neq _ _)) by congruence.
Qed.

Lemma set_remaining_split id n l1 o l2 :
  o_id o = id -> id ∉ (o_id <$> l1) -> id ∉ (o_id <$> l2) ->
  set_remaining id n (l1 ++ o :: l2) = l1 ++ set_quantity o n :: l2.
Proof.
  intros Ho H1 H2. unfold set_remaining. rewrite fmap_app, fmap_cons. fold (set_remaining id n l1) (set_remaining id n l2).
  rewrite !set_remaining_absent by done. by rewrite Ho, Z.eqb_refl.
Qed.

Lemma positive_set l1 o l2 n : 0 < n -> positive (l1 ++ o :: l2) -> positive (l1 ++ set_quantity o n :: l2).
Proof. unfold positive. rewrite !Forall_app, !Forall_cons. naive_solver. Qed.

Lemma uncrossedq_set s l1 o l2 n opp :
  uncrossedq s (l1 ++ o :: l2) opp -> uncrossedq s (l1 ++ set_quantity o n :: l2) opp.
Proof. by destruct l1, opp. Qed.

Lemma mkSides_abs s b own opp : queue s b = own -> queue (opposite s) b = opp -> abs b = mkSides s own opp.
Proof. intros <- <-. apply abs_sides. Qed.

Lemma set_remaining_sides s id n q :
  mkQ (set_remaining id n (bidq q)) (set_remaining id n (askq q)) =
  mkSides s (set_remaining id n (qside s q)) (set_remaining id n (qside (opposite s) q)).
Proof. by destruct s. Qed.

(** An order split out of its queue is the only one with its id. *)
Lemma split_unique s b l1 o l2 :
  book_wf b -> queue s b = l1 ++ o :: l2 ->
  o_id o ∉ (o_id <$> l1) /\ o_id o ∉ (o_id <$> l2) /\ o_id o ∉ (o_id <$> queue (opposite s) b).
Proof.
  intros (_ & _ & Hn & _) Hq. rewrite (all_orders_perm s) in Hn. fold (queue s b) (queue (opposite s) b) in Hn.
  rewrite Hq, !fmap_app, fmap_cons, <- app_assoc in Hn. cbn [app] in Hn.
  apply NoDup_app in Hn as (_ & Hd & Hn). apply NoDup_cons in Hn as [Hn _]. rewrite elem_of_app in Hn.
  split; [|tauto]. intros Hin. apply (Hd _ Hin). by left.
Qed.

Lemma replace_refines id n b :
  engine_inv b -> is_u32 n ->
  let b' := (replace_remaining_quantity id n b).2 in
  abs b' = spec_replace id n (abs b) /\ engine_inv b'.
Proof.
  intros Hi Hn b'. pose proof Hi as (Hw & _ & _). unfold spec_replace.
  pose proof (replace_remaining_quantity_wf id n b Hw Hn) as Hw'. fold b' in Hw'.
  unfold b', replace_remaining_quantity in *. destruct (Z.eqb_spec n 0) as [->|Hz].
  { pose proof (cancelOrder_refines id b Hi) as H. destruct (spec_cancel id (abs b)) as [ok q].
    destruct H as (b1 & -> & Ha & Hi'). done. }
  destruct (order_loc_ b !! id) as [[s p]|] eqn:Hl.
  2: { split; [|done]. cbn [abs bidq askq snd].
       by rewrite !set_remaining_absent by (by apply loc_none_absent). }
  destruct (touch s p id n (levels s b)) as [ls|] eqn:Ht.
  - destruct (touch_some _ _ _ _ _ _ (book_wf_side b s Hw) Hn Ht) as (_ & l1 & o & l2 & Hf & Hf' & Ho).
    cbn [snd] in *. destruct (split_unique s b l1 o l2 Hw Hf) as (U1 & U2 & U3). rewrite Ho in U1, U2, U3.
    assert (queue s (with_levels s ls b) = l1 ++ set_quantity o n :: l2) as Hq
      by (unfold queue; by rewrite levels_with_levels).
    assert (queue (opposite s) (with_levels s ls b) = queue (opposite s) b) as Hq'
      by (unfold queue; by rewrite levels_with_levels_opp).
    split.
    + rewrite (mkSides_abs s _ _ _ Hq Hq'), (set_remaining_sides s), !qside_abs.
      f_equal; [|by rewrite set_remaining_absent]. unfold queue. rewrite Hf. by rewrite set_remaining_split.
    + split; [done|]. split.
      * apply (uncrossed_intro s); [done|]. rewrite Hq, Hq'. apply uncrossedq_set. rewrite <- Hf.
        by apply engine_inv_uncrossed.
      * apply (positive_sides s); [|rewrite Hq'; by apply engine_inv_positive].
        rewrite Hq. apply positive_set; [unfold is_u32 in Hn; lia|]. rewrite <- Hf. by apply engine_inv_positive.
  - exfalso. apply touch_none in Ht. apply erase_from_none in Ht; [|by apply book_wf_side].
    destruct (loc_elem b id s p Hw Hl) as (o & Ho & Hid & Hp). rewrite Forall_forall in Ht. by apply (Ht o Ho Hp).
Qed.

(** ** Reducing a level *)

Lemma take_at_other p n os : Forall (fun o => o_price_ticks o <> p) os -> take_at p n os = os.
Proof.
  induction 1 as [|o os Ho Hos IH]; [done|]. cbn [take_at]. by rewrite (proj2 (Z.eqb_neq _ _) Ho), IH.
Qed.

Lemma take_at_skip p n l1 l2 :
  Forall (fun o => o_price_ticks o <> p) l1 -> take_at p n (l1 ++ l2) = l1 ++ take_at p n l2.
Proof.
  induction 1 as [|o os Ho Hos IH]; [done|]. cbn [take_at app]. by rewrite (proj2 (Z.eqb_neq _ _) Ho), IH.
Qed.

Lemma take_at_level p n os suf :
  Forall (fun o => o_price_ticks o = p) os -> Forall (fun o => o_price_ticks o <> p) suf ->
  take_at p n (os ++ suf) = take_qty n os ++ suf.
Proof.
  intros H Hs. revert n. induction H as [|o os Ho Hos IH]; intros n; [by apply take_at_other|].
  cbn [take_at app take_qty]. rewrite Ho, Z.eqb_refl. destruct (0 <? n); [|done].
  destruct (o_quantity o <=? n); [apply IH|done].
Qed.

Lemma at_price_none p os : Forall (fun o => o_price_ticks o <> p) os -> at_price p os = [].
Proof. unfold at_price. induction 1 as [|o os Ho Hos IH]; [done|]. by rewrite filter_cons_False. Qed.

Lemma at_price_all p os : Forall (fun o => o_price_ticks o = p) os -> at_price p os = os.
Proof. unfold at_price. induction 1 as [|o os Ho Hos IH]; [done|]. by rewrite filter_cons_True, IH. Qed.

Lemma at_price_app p l k : at_price p (l ++ k) = at_price p l ++ at_price p k.
Proof. apply filter_app. Qed.

(** The orders of a level and those around it, by price. *)
Lemma level_prices s pre pl suf :
  side_wf s (pre ++ pl :: suf) ->
  Forall (fun o => o_price_ticks o <> lvl_price_ticks pl) (flat pre) /\
  Forall (fun o => o_price_ticks o = lvl_price_ticks pl) (orders pl) /\
  Forall (fun o => o_price_ticks o <> lvl_price_ticks pl) (flat suf).
Proof.
  intros Hw. pose proof Hw as [_ Hf]. apply Forall_app in Hf as [Hfp [Hpl Hfs]%Forall_cons].
  apply side_wf_app in Hw as (_ & (_ & _ & Hlt)%side_wf_cons_inv & Hx). split_and!.
  - apply (Forall_flat _ (fun l => before s (lvl_price_ticks l) (lvl_price_ticks pl)) s); [done| |].
    + apply Forall_forall. intros l Hl. apply (Hx l pl Hl). by left.
    + intros l o Hb (-> & _) He. rewrite He in Hb. by eapply before_irrefl.
  - destruct Hpl as (_ & _ & Hr). eapply Forall_impl; [exact Hr|]. by intros o (? & _).
  - apply (Forall_flat _ (fun l => before s (lvl_price_ticks pl) (lvl_price_ticks l)) s); [done|exact Hlt|].
    intros l o Hb (-> & _) He. rewrite He in Hb. by eapply before_irrefl.
Qed.

Lemma take_qty_positive n os : positive os -> positive (take_qty n os).
Proof.
  unfold positive. intros H. revert n. induction H as [|o os Ho Hos IH]; intros n; [constructor|].
  cbn [take_qty]. destruct (0 <? n); [|by constructor]. destruct (Z.leb_spec (o_quantity o) n); [apply IH|].
  constructor; [cbn; lia|done].
Qed.

Lemma take_qty_prices n os o :
  o ∈ take_qty n os -> exists x, x ∈ os /\ o_price_ticks x = o_price_ticks o.
Proof.
  revert n. induction os as [|y os IH]; intros n; cbn [take_qty]; [by intros []%not_elem_of_nil|].
  destruct (0 <? n).
  - destruct (o_quantity y <=? n).
    + intros (x & Hx & Hp)%IH. exists x. split; [by right|done].
    + rewrite elem_of_cons. intros [->|Ho]; [exists y; split; [by left|done]|exists o; split; [by right|done]].
  - intros Ho. by exists o.
Qed.

(** A queue with no new prices is no closer to the other side. *)
Lemma uncrossedq_incl s q q' opp :
  StronglySorted (prio_le s) q -> (forall o, o ∈ q' -> exists x, x ∈ q /\ o_price_ticks x = o_price_ticks o) ->
  uncrossedq s q opp -> uncrossedq s q' opp.
Proof.
  intros Hs Hin Hu. destruct q' as [|o q'], opp as [|y opp]; try done. cbn.
  destruct (Hin o ltac:(by left)) as (x & Hx & Hp). destruct q as [|h q]; [by apply not_elem_of_nil in Hx|].
  cbn in Hu. rewrite <- Hp. apply elem_of_cons in Hx as [->|Hx]; [done|].
  apply StronglySorted_inv in Hs as [_ Hf]. rewrite Forall_forall in Hf.
  eapply crossesb_worse_own; [exact Hu|]. exact (Hf x Hx).
Qed.

Lemma reduce_refines s p n allow b :
  engine_inv b -> is_u32 n -> Z.of_nat (length (all_orders b)) <= 2 ^ 32 ->
  let b' := (reduce_level_after_lobster_execution s p n allow b).2 in
  abs b' = spec_reduce s p n (abs b) /\ engine_inv b'.
Proof.
  intros Hi Hn Hlen b'. pose proof Hi as (Hw & _ & _). pose proof (book_wf_side b s Hw) as Hsw.
  assert (forall pl, pl ∈ levels s b -> qsum (orders pl) < 2 ^ 64) as Hbound.
  { intros pl Hpl. pose proof (list_elem_of_split _ _ Hpl) as (pre & suf & Hls).
    pose proof Hsw as [_ Hf]. rewrite Hls in Hf. apply Forall_app in Hf as [_ [(_ & _ & Hr) _]%Forall_cons].
    assert (Forall (fun o => is_u32 (o_quantity o)) (orders pl)) as Hu
      by (eapply Forall_impl; [exact Hr|]; by intros o (_ & _ & _ & ?)).
    pose proof (qsum_bound _ Hu) as Hq. rewrite (Permutation_length (all_orders_perm s b)), length_app in Hlen.
    rewrite Hls, flat_app, flat_cons, !length_app in Hlen. nia. }
  pose proof (reduce_level_correct s p n allow b Hw Hn Hbound) as H. cbv zeta in H. fold b' in H.
  unfold b', spec_reduce. rewrite !qside_abs. destruct (n =? 0) eqn:En; [rewrite H; done|]. cbn [orb].
  destruct (list_find _ (levels s b)) as [[i pl]|] eqn:Ef.
  - apply list_find_Some in Ef as (Hi' & Hp & _). pose proof (take_drop_middle _ _ _ Hi') as Hsplit.
    destruct (level_prices s (take i (levels s b)) pl (drop (S i) (levels s b))) as (H1 & H2 & H3);
      [by rewrite Hsplit|]. rewrite Hp in H1, H2, H3.
    assert (queue s b = flat (take i (levels s b)) ++ orders pl ++ flat (drop (S i) (levels s b))) as Hq.
    { unfold queue. rewrite <- Hsplit at 1. by rewrite flat_app, flat_cons. }
    assert (at_price p (queue s b) = orders pl) as ->.
    { rewrite Hq, !at_price_app, at_price_none, at_price_all, at_price_none by done. apply app_nil_r. }
    destruct (qsum (orders pl) <? n); [by rewrite H|].
    destruct H as (b1 & -> & Hw1 & Hq1 & Ho1). cbn [snd].
    assert (queue (opposite s) b1 = queue (opposite s) b) as Hopp by (unfold queue; by rewrite Ho1).
    split.
    + rewrite (mkSides_abs s _ _ _ Hq1 Hopp), Hq. by rewrite take_at_skip, take_at_level.
    + split; [done|]. split.
      * apply (uncrossed_intro s); [done|]. rewrite Hopp, Hq1.
        apply (uncrossedq_incl s (queue s b)); [by apply queue_sorted| |by apply engine_inv_uncrossed].
        intros o. rewrite Hq. setoid_rewrite elem_of_app. setoid_rewrite elem_of_app.
        intros [Ho|[Ho|Ho]]; [by exists o; auto| |by exists o; auto].
        apply take_qty_prices in Ho as (x & Hx & He). exists x. auto.
      * apply (positive_sides s); [|rewrite Hopp; by apply engine_inv_positive].
        pose proof (engine_inv_positive s b Hi) as Hpos. rewrite Hq in Hpos. rewrite Hq1. unfold positive in *.
        rewrite !Forall_app in *. destruct Hpos as (? & ? & ?). split_and!; try done. by apply take_qty_positive.
  - apply list_find_None in Ef. rewrite H. cbn [snd]. split; [|done].
    rewrite at_price_none.
    2: { unfold queue. destruct Hsw as [_ Hf]. apply (Forall_flat _ (fun l => lvl_price_ticks l <> p) s); [done|done|].
         intros l o Hl (-> & _). done. }
    change (qsum []) with 0. rewrite (proj2 (Z.ltb_lt 0 n)); [done|]. apply Z.eqb_neq in En. unfold is_u32 in Hn. lia.
Qed.

(** ** Messages *)

Definition qcount (q : QBook) : nat := length (bidq q) + length (askq q).

Definition qids (q : QBook) : list Z := o_id <$> (bidq q ++ askq q).

(** A new order must have a size and an id that is not resting. *)
Definition arrival_ok (q : QBook) (m : LobsterMessage) : bool :=
  negb (m_type m =? 1) || ((0 <? m_size m) && bool_decide (m_order_id m ∉ qids q)).

Fixpoint arrivals_ok (q : QBook) (ms : list LobsterMessage) : bool :=
  match ms with
  | [] => true
  | m :: ms => arrival_ok q m && arrivals_ok (spec_message q m) ms
  end.

Lemma qcount_abs b : qcount (abs b) = length (all_orders b).
Proof. unfold qcount, all_orders, abs, queue. cbn. by rewrite length_app. Qed.

Lemma qcount_sides s own opp : qcount (mkSides s own opp) = (length own + length opp)%nat.
Proof. destruct s; unfold qcount; cbn; lia. Qed.

Lemma qcount_qside s q : qcount q = (length (qside s q) + length (qside (opposite s) q))%nat.
Proof. destruct s; unfold qcount; cbn; lia. Qed.

Lemma sweep_limit_length s p q os : (length (sweep_limit s p q os).1.2 <= length os)%nat.
Proof.
  revert q. induction os as [|o os IH]; intros q; cbn; [lia|]. destruct (_ && _); [|cbn; lia].
  destruct (o_quantity o <=? q); [|cbn; lia]. specialize (IH (q - o_quantity o)).
  destruct (sweep_limit s p (q - o_quantity o) os) as [[? ?] ?]. cbn in *. lia.
Qed.

Lemma remove_id_length id os x os' : remove_id id os = Some (x, os') -> (length os' <= length os)%nat.
Proof.
  revert os'. induction os as [|o os IH]; intros os'; cbn; [done|]. destruct (_ =? _); [intros [= <- <-]; lia|].
  destruct (remove_id id os) as [[y l]|]; [|done]. intros [= <- <-]. specialize (IH l eq_refl). cbn. lia.
Qed.

Lemma take_at_length p n os : (length (take_at p n os) <= length os)%nat.
Proof.
  revert n. induction os as [|o os IH]; intros n; cbn; [lia|]. destruct (_ =? p); cbn.
  - destruct (0 <? n); [|cbn; lia]. destruct (_ <=? n); [|cbn; lia]. specialize (IH (n - o_quantity o)). lia.
  - specialize (IH n). lia.
Qed.

Lemma spec_limit_count o q : o_type o = LIMIT -> (qcount (spec_process o q).1.2 <= S (qcount q))%nat.
Proof.
  intros Ht. unfold spec_process. rewrite Ht. set (s := o_side o).
  pose proof (sweep_limit_length s (o_price_ticks o) (o_quantity o) (qside (opposite s) q)) as Hl.
  destruct (sweep_limit _ _ _ _) as [[rem rest] fills]. cbn [fst snd] in *. rewrite qcount_sides, (qcount_qside s q).
  destruct (0 <? rem); [|lia]. rewrite (Permutation_length (insert_prio_perm _ _ _)). cbn. lia.
Qed.

Lemma spec_cancel_count id q : (qcount (spec_cancel id q).2 <= qcount q)%nat.
Proof.
  unfold spec_cancel, spec_process. cbn [o_type o_id o_side].
  destruct (remove_id id (bidq q)) as [[x bq]|] eqn:Eb.
  - apply remove_id_length in Eb. unfold qcount. cbn. lia.
  - destruct (remove_id id (askq q)) as [[x aq]|] eqn:Ea; [|cbn; lia].
    apply remove_id_length in Ea. unfold qcount. cbn. lia.
Qed.

Lemma spec_reduce_count s p n q : (qcount (spec_reduce s p n q) <= qcount q)%nat.
Proof.
  unfold spec_reduce. destruct (_ || _); [lia|]. rewrite qcount_sides, (qcount_qside s q).
  pose proof (take_at_length p n (qside s q)). lia.
Qed.

Lemma spec_message_count q m : (qcount (spec_message q m) <= S (qcount q))%nat.
Proof.
  unfold spec_message. destruct (m_type m =? 1); [by apply spec_limit_count|].
  destruct (m_type m =? 2).
  { unfold spec_replace. destruct (m_size m =? 0).
    - pose proof (spec_cancel_count (m_order_id m) q). lia.
    - unfold qcount, set_remaining. cbn. rewrite !length_fmap. lia. }
  destruct (m_type m =? 3).
  { pose proof (spec_cancel_count (m_order_id m) q) as H. destruct (spec_cancel (m_order_id m) q) as [[] q']; cbn in H; [lia|].
    pose proof (spec_reduce_count (side_of_direction (m_direction m)) (m_price_ticks m) (m_size m) q'). lia. }
  destruct (_ || _); [|lia].
  pose proof (spec_reduce_count (side_of_direction (m_direction m)) (m_price_ticks m) (m_size m) q). lia.
Qed.

Lemma message_refines e m :
  engine_inv (book_ e) -> message_ok m -> arrival_ok (abs (book_ e)) m = true ->
  Z.of_nat (qcount (abs (book_ e))) <= 2 ^ 32 ->
  abs (book_ (apply_message e m)) = spec_message (abs (book_ e)) m /\ engine_inv (book_ (apply_message e m)).
Proof.
  intros Hi (_ & _ & _ & Hsz & _) Ha Hn. unfold arrival_ok in Ha. unfold apply_message, spec_message.
  destruct (m_type m =? 1).
  - cbn [negb orb] in Ha. apply andb_true_iff in Ha as [H0%Z.ltb_lt Hf%bool_decide_eq_true].
    assert (acceptable (order_of_message m) (book_ e)) as Hacc by (unfold acceptable; cbn; done).
    destruct e as [b log]. pose proof (process_refines_lemma (order_of_message m) b log Hi Hacc) as H.
    cbn [book_] in *. fold (order_of_message m).
    destruct (spec_process (order_of_message m) (abs b)) as [[r q] ts]. by destruct H as (b' & -> & ? & ?).
  - rewrite qcount_abs in Hn. destruct (m_type m =? 2); [by apply replace_refines|].
    destruct (m_type m =? 3).
    + pose proof (cancelOrder_refines (m_order_id m) (book_ e) Hi) as H.
      pose proof (spec_cancel_count (m_order_id m) (abs (book_ e))) as Hc.
      destruct (spec_cancel _ _) as [ok q]. destruct H as (b' & Hb & <- & Hi'). unfold on_book. rewrite Hb.
      destruct ok; [done|]. cbn [book_ snd] in *. rewrite !qcount_abs in Hc. apply reduce_refines; [done|done|lia].
    + destruct ((m_type m =? 4) || (m_type m =? 5)); [by apply reduce_refines|done].
Qed.

(** ** Claims *)

(** C16: [replay_refines]. Replaying a LOBSTER file refines the two priority
    queues, message by message, with the meaning the validator gives the types:
    a new order (type 1) is matched and rests, a partial cancellation (type 2)
    makes its size what remains of the order, in its place, a deletion (type 3)
    removes the order or else takes its size from its price level in the same way,
    an execution,
    visible or hidden (types 4 and 5), takes its size from the front of its
    price level if that much rests there, and a halt (type 7) changes nothing. The book stays well formed
    and uncrossed with all quantities positive. The files covered are those
    whose new orders have a size and ids not resting at the time. LOBSTER's own
    document gives types 2 and 5 another meaning: a partial cancellation's size
    is the part removed, and a hidden order is not in the book (see the
    findings). *)
Theorem replay_refines (e : MatchingEngine) (ms : list LobsterMessage) :
  engine_inv (book_ e) -> Forall message_ok ms -> arrivals_ok (abs (book_ e)) ms = true ->
  Z.of_nat (qcount (abs (book_ e)) + length ms) <= 2 ^ 32 ->
  let e' := foldl apply_message e ms in
  abs (book_ e') = foldl spec_message (abs (book_ e)) ms /\ engine_inv (book_ e').
Proof.
  intros Hi Hok. revert e Hi. induction Hok as [|m ms Hm Hok IH]; intros e Hi Ha Hn; [done|].
  cbn [arrivals_ok foldl length] in *. apply andb_true_iff in Ha as [Ha1 Ha2].
  destruct (message_refines e m Hi Hm Ha1) as [He Hi']; [lia|]. rewrite <- He in *.
  pose proof (spec_message_count (abs (book_ e)) m) as Hc. rewrite <- He in Hc.
  apply IH; [done|done|lia].
Qed.

Definition sample_messages : list LobsterMessage :=
  [mkMessage 1 1 11 10 100 1; mkMessage 2 1 12 5 100 1; mkMessage 3 1 13 7 101 (-1); mkMessage 4 4 0 12 100 1;
   mkMessage 5 2 13 2 101 (-1); mkMessage 6 1 14 3 101 1; mkMessage 7 3 99 1 100 1; mkMessage 8 7 0 0 (-1) (-1)].

Lemma replay_refines_witness :
  let e' := foldl apply_message empty_engine sample_messages in
  abs (book_ e') = foldl spec_message (abs empty_book) sample_messages /\ engine_inv (book_ e').
Proof.
  apply (replay_refines empty_engine sample_messages).
  - vm_decide.
  - apply (bool_decide_unpack _). vm_compute. exact I.
  - vm_compute. reflexivity.
  - vm_compute. discriminate.
Defined.
