(* ===== verification/ZiPaper.v ===== *)
(** The zero-intelligence model of tools/zi_paper.cpp: constant-size orders
    deposited behind the opposite quote, market orders and random cancellations,
    driven through the matching engine. What the random generator yields is an
    argument of each event; prices are not reduced to 64 bits (the source's
    signed arithmetic on them is undefined outside). *)
From Stdlib Require Import ZArith Lia SpecFloat.
From stdpp Require Import base numbers list gmap sorting.
From S2P Require Import Prelude Types OrderBook BookFacts Engine EngineProps RiskConfig Session LobsterParser.

Record Config := mkConfig {
  alpha : double; mu : double; delta : double; sigma : double; dp : double;
  events : nat; warmup_frac : double; width_pc : double;
}.

(** ** The simulator *)

Record PaperSim := mkSim {
  eng_ : MatchingEngine;
  live_ : list Z;
  (** the counter of [Order::make] *)
  next_id : Z;
}.

Definition sim0 (next_id : Z) : PaperSim := mkSim empty_engine [] next_id.

(** What an event draws: the uniform that chooses it, an integer of a range
    starting at 0, the coin of a market order, and the indices of a
    cancellation, by turn and by size of the list. *)
Record Draws := mkDraws {
  dr_u : double;
  dr_pick : Z -> Z;
  dr_coin : double;
  dr_index : nat -> nat -> nat;
}.

(** The generator's documented ranges. *)
Definition draws_ok (d : Draws) : Prop :=
  (forall span, 0 <= span -> 0 <= dr_pick d span <= span) /\
  (forall k n, (0 < n)%nat -> (dr_index d k n < n)%nat).

Definition pick (d : Draws) (lo hi : Z) : Z := if hi <? lo then lo else lo + dr_pick d (hi - lo).

(** [live_[i] = live_.back(); live_.pop_back();] *)
Definition swap_remove (i : nat) (l : list Z) : list Z :=
  match last l with
  | Some x => take (length l - 1) (<[i := x]> l)
  | None => l
  end.

Definition place (size : Z) (s : Side) (px ts : Z) (st : PaperSim) : PaperSim :=
  let '(o, next) := order_make (next_id st) px size s LIMIT ts in
  let '(res, e) := processOrder o (eng_ st) in
  mkSim e (if accepted res then live_ st ++ [o_id o] else live_ st) next.

Definition forget (id : Z) (live : list Z) : list Z :=
  match list_find (fun x => x = id) live with
  | Some (i, _) => swap_remove i live
  | None => live
  end.

Definition market (size : Z) (s : Side) (ts : Z) (st : PaperSim) : PaperSim * Z :=
  let before := length (trade_log_ (eng_ st)) in
  let '(o, next) := order_make (next_id st) 0 size s MARKET ts in
  let '(_, e) := processOrder o (eng_ st) in
  let fresh_trades := drop before (trade_log_ e) in
  let passive t := if t_buyer_id t =? o_id o then t_seller_id t else t_buyer_id t in
  (mkSim (clear_trade_log e) (foldl (fun live t => forget (passive t) live) (live_ st) fresh_trades) next,
   Z.of_nat (length fresh_trades)).

(** The while loop; it shortens the list at every turn. *)
Fixpoint cancel_loop (fuel k : nat) (d : Draws) (st : PaperSim) : PaperSim :=
  match fuel with
  | O => st
  | S fuel =>
      match live_ st with
      | [] => st
      | _ =>
          let i := dr_index d k (length (live_ st)) in
          let id := live_ st !!! i in
          let live := swap_remove i (live_ st) in
          let '(removed, b) := cancelOrder id (book_ (eng_ st)) in
          let st := mkSim (mkEngine b (trade_log_ (eng_ st))) live (next_id st) in
          if removed then st else cancel_loop fuel (S k) d st
      end
  end.
Definition cancel (d : Draws) (st : PaperSim) : PaperSim := cancel_loop (length (live_ st)) 0 d st.

Inductive EventKind := BuyLimit | SellLimit | MarketOrder | Cancellation.

(** Which of the competing processes fires; [None]: no rate is positive. *)
Definition choose (c : Config) (half : Z) (n_live : nat) (u01 : double) : option EventKind :=
  let w := dbl_mul (double_of_Z half) (dp c) in
  let r_lb := dbl_div (dbl_mul (alpha c) w) (sigma c) in
  let r_ls := r_lb in
  let r_mkt := dbl_div (mu c) (sigma c) in
  let r_can := dbl_mul (delta c) (double_of_Z (Z.of_nat n_live)) in
  let total := dbl_add (dbl_add (dbl_add r_lb r_ls) r_mkt) r_can in
  if dbl_le total (double_of_Z 0) then None else
  let u := dbl_mul u01 total in
  if dbl_lt u r_lb then Some BuyLimit else
  let u := dbl_sub u r_lb in
  if dbl_lt u r_ls then Some SellLimit else
  let u := dbl_sub u r_ls in
  if dbl_lt u r_mkt then Some MarketOrder else Some Cancellation.

(** The deposition intervals: below the best ask and above the best bid. *)
Definition ref_ask (b : OrderBook) : Z :=
  match best_ask_ticks b, best_bid_ticks b with
  | Some a, _ => a | None, Some bid => bid + 1 | None, None => 1
  end.
Definition ref_bid (b : OrderBook) : Z :=
  match best_bid_ticks b, best_ask_ticks b with
  | Some bid, _ => bid | None, Some a => a - 1 | None, None => 0
  end.

Definition half_coin : double := binary_normalize dbl_prec dbl_emax 1 (-1) false.

(** One event, with the trades it is credited with. *)
Definition event (size half ts : Z) (k : EventKind) (d : Draws) (st : PaperSim) : PaperSim * Z :=
  let b := book_ (eng_ st) in
  match k with
  | BuyLimit => let hi := ref_ask b - 1 in (place size BID (pick d (hi - half + 1) hi) ts st, 0)
  | SellLimit => let lo := ref_bid b + 1 in (place size ASK (pick d lo (lo + half - 1)) ts st, 0)
  | MarketOrder => market size (if dbl_lt (dr_coin d) half_coin then BID else ASK) ts st
  | Cancellation => (cancel d st, 0)
  end.

Record PaperResult := mkPaperResult {
  measured : Z; trades : Z; boundary_hits : Z; spread_sum : double; resting_sum : double;
}.

Definition boundary_hit (half : Z) (b : OrderBook) : bool :=
  match best_bid_ticks b, best_ask_ticks b with
  | Some bid, Some ask => half <=? ask - bid
  | _, _ => false
  end.

(** The measurement after an event past the warm-up. *)
Definition measure (n_live : nat) (b : OrderBook) (r : PaperResult) : PaperResult :=
  let resting := dbl_add (resting_sum r) (double_of_Z (Z.of_nat n_live)) in
  match best_bid_ticks b, best_ask_ticks b with
  | Some b2, Some a2 =>
      if b2 <? a2 then
        mkPaperResult (u64 (measured r + 1)) (trades r) (boundary_hits r)
          (dbl_add (spread_sum r) (double_of_Z (a2 - b2))) resting
      else mkPaperResult (measured r) (trades r) (boundary_hits r) (spread_sum r) resting
  | _, _ => mkPaperResult (measured r) (trades r) (boundary_hits r) (spread_sum r) resting
  end.

(** The loop of [run] over the draws of its events, from event [ev] on. *)
Fixpoint run_loop (c : Config) (half size : Z) (warm ev : nat) (ds : list Draws) (st : PaperSim) (r : PaperResult)
    : PaperSim * PaperResult :=
  match ds with
  | [] => (st, r)
  | d :: ds =>
      let b := book_ (eng_ st) in
      let n_live := length (live_ st) in
      let r := if boundary_hit half b
               then mkPaperResult (measured r) (trades r) (u64 (boundary_hits r + 1)) (spread_sum r) (resting_sum r)
               else r in
      match choose c half n_live (dr_u d) with
      | None => (st, r)
      | Some k =>
          let '(st, n) := event size half (Z.of_nat (S ev)) k d st in
          let r := mkPaperResult (measured r) (u64 (trades r + n)) (boundary_hits r) (spread_sum r) (resting_sum r) in
          let r := if (warm <=? ev)%nat then measure n_live (book_ (eng_ st)) r else r in
          run_loop c half size warm (S ev) ds st r
      end
  end.

(** What [run] returns: the mean spread in ticks and in log price, and the mean
    number of resting orders. *)
Definition means (c : Config) (r : PaperResult) : double * double * double :=
  let zero := double_of_Z 0 in
  let ticks := if 0 <? measured r then dbl_div (spread_sum r) (double_of_Z (measured r)) else zero in
  let log := if 0 <? measured r then dbl_mul ticks (dp c) else zero in
  let denom := dbl_mul (double_of_Z (Z.of_nat (events c))) (dbl_sub (double_of_Z 1) (warmup_frac c)) in
  (ticks, log, if dbl_lt zero denom then dbl_div (resting_sum r) denom else zero).

(** [std::llround], and the truncation of a conversion to an integer. *)
Definition trunc (f : spec_float) : Z :=
  match f with
  | S754_finite s m e =>
      let n := if 0 <=? e then Zpos m * 2 ^ e else Zpos m / 2 ^ (- e) in if s then - n else n
  | _ => 0
  end.

Definition order_size (c : Config) : Z := u32 (Z.max 1 (llround (sigma c))).

Definition warm_events (c : Config) : nat :=
  Z.to_nat (trunc (dbl_mul (double_of_Z (Z.of_nat (events c))) (warmup_frac c))).

Definition half_ticks (c : Config) : Z :=
  let p_c := dbl_div (mu c) (alpha c) in
  Z.max 3 (llround (dbl_div (dbl_mul (width_pc c) p_c) (dp c))).

(** [run_one] up to its report: [None] where the parameters are refused. *)
Definition run_one (c : Config) (next : Z) (ds : list Draws) : option (PaperSim * PaperResult) :=
  let zero := double_of_Z 0 in
  if dbl_le (alpha c) zero || dbl_le (mu c) zero || dbl_le (delta c) zero || dbl_le (sigma c) zero || dbl_le (dp c) zero
  then None
  else Some (run_loop c (half_ticks c) (order_size c) (warm_events c) 0 (take (events c) ds) (sim0 next)
               (mkPaperResult 0 0 0 zero zero)).

(** ** Invariant *)

(** Every resting order has the one size, and the list of live ids is the list
    of resting ids, in some order. *)
Record sim_inv (size : Z) (st : PaperSim) : Prop := {
  si_engine : engine_inv (book_ (eng_ st));
  si_size : Forall (fun o => o_quantity o = size) (all_orders (book_ (eng_ st)));
  si_live : live_ st ≡ₚ o_id <$> all_orders (book_ (eng_ st));
  si_ids : Forall (fun o => o_id o < next_id st) (all_orders (book_ (eng_ st)));
  si_next : 0 <= next_id st;
  si_log : trade_log_ (eng_ st) = [];
}.

Lemma swap_remove_perm i x l : l !! i = Some x -> x :: swap_remove i l ≡ₚ l.
Proof.
  intros Hi. unfold swap_remove. destruct (last l) as [y|] eqn:El.
  2: { apply last_None in El. by subst. }
  apply last_Some in El as [l' ->]. rewrite length_app. cbn [length].
  replace (length l' + 1 - 1)%nat with (length l') by lia.
  destruct (decide (i < length l')%nat) as [Hlt|Hge].
  - rewrite lookup_app_l in Hi by done. rewrite insert_app_l by done.
    rewrite take_app_length' by (by rewrite length_insert).
    pose proof (take_drop_middle l' i x Hi) as Hs. rewrite <- Hs at 2.
    rewrite insert_take_drop by done. rewrite <- app_assoc. cbn [app].
    rewrite <- (Permutation_middle (take i l') (drop (S i) l') y).
    rewrite <- (Permutation_middle (take i l') (drop (S i) l' ++ [y]) x). apply Permutation_skip.
    rewrite app_assoc. apply Permutation_cons_append.
  - rewrite lookup_app_r in Hi by lia. assert (i - length l' = 0)%nat as E.
    { destruct (i - length l')%nat; [done|]. by destruct n. }
    rewrite E in Hi. injection Hi as ->. rewrite insert_app_r_alt by lia. rewrite E. cbn.
    rewrite take_app_length. by rewrite Permutation_app_comm.
Qed.

Lemma forget_perm id l : id ∈ l -> id :: forget id l ≡ₚ l.
Proof.
  intros Hin. unfold forget. destruct (list_find_elem_of (fun x => x = id) l id Hin eq_refl) as [[i x] Hf].
  rewrite Hf. apply list_find_Some in Hf as (Hi & -> & _). by apply swap_remove_perm.
Qed.

(** The best price is the price of the front order. *)
Lemma best_front s b :
  book_wf b ->
  match s with BID => best_bid_ticks b | ASK => best_ask_ticks b end = o_price_ticks <$> head (queue s b).
Proof.
  intros Hw. pose proof (book_wf_side b s Hw) as Hs. unfold best_bid_ticks, best_ask_ticks, queue.
  destruct s; cbn [levels] in *.
  - destruct (bids_ b) as [|pl ls]; [done|]. destruct (flat_cons_inv _ _ _ Hs) as (o & os & -> & Hp). cbn. by rewrite Hp.
  - destruct (asks_ b) as [|pl ls]; [done|]. destruct (flat_cons_inv _ _ _ Hs) as (o & os & -> & Hp). cbn. by rewrite Hp.
Qed.

Definition behind (s : Side) (px : Z) (b : OrderBook) : Prop :=
  uncrossedq s [mkOrder 0 px 0 s LIMIT 0] (queue (opposite s) b).

Lemma buy_behind b px : book_wf b -> px <= ref_ask b - 1 -> behind BID px b.
Proof.
  intros Hw Hp. unfold behind, ref_ask in *. pose proof (best_front ASK b Hw) as Hb. cbv iota in Hb. rewrite Hb in Hp.
  cbn [opposite]. destruct (queue ASK b) as [|o os]; [done|]. cbn in *. lia.
Qed.

Lemma sell_behind b px : book_wf b -> ref_bid b + 1 <= px -> behind ASK px b.
Proof.
  intros Hw Hp. unfold behind, ref_bid in *. pose proof (best_front BID b Hw) as Hb. cbv iota in Hb. rewrite Hb in Hp.
  cbn [opposite]. destruct (queue BID b) as [|o os]; [done|]. cbn in *. lia.
Qed.

Lemma next_id_fresh size st : sim_inv size st -> fresh (next_id st) (book_ (eng_ st)).
Proof.
  intros H (o & Ho & Hin)%list_elem_of_fmap. pose proof (si_ids _ _ H) as Hi. rewrite Forall_forall in Hi.
  apply Hi in Hin. lia.
Qed.

Lemma place_inv size s px ts st :
  0 < size < 2 ^ 32 -> next_id st + 1 < 2 ^ 64 -> sim_inv size st -> behind s px (book_ (eng_ st)) ->
  sim_inv size (place size s px ts st) /\ next_id (place size s px ts st) = next_id st + 1 /\
  live_ (place size s px ts st) = live_ st ++ [next_id st].
Proof.
  intros Hsz Hn H Hb. pose proof (next_id_fresh size st H) as Hf. destruct H as [Hi Hs Hl Hids Hnx Hlog].
  unfold place, order_make. destruct st as [[b log] live nid]. cbn [eng_ book_ trade_log_ live_ next_id] in *. subst log.
  rewrite u64_id by (unfold is_u64; lia).
  pose proof (processOrder_limit (mkOrder nid px size s LIMIT ts) b [] Hi eq_refl ltac:(unfold is_u32; cbn; lia)
    ltac:(cbn; lia) Hf) as Hp. cbn zeta in Hp. cbn [o_side o_price_ticks o_quantity] in Hp.
  rewrite sweep_limit_stop in Hp by done. destruct Hp as (b' & -> & Hi' & Ho & Hq). cbn [accepted].
  rewrite (proj2 (Z.ltb_lt 0 size)) in Hq by lia. cbn [set_quantity] in Hq.
  assert (all_orders b' ≡ₚ mkOrder nid px size s LIMIT ts :: all_orders b) as Hperm.
  { rewrite (all_orders_perm s b'), (all_orders_perm s b).
    change (flat (levels s b')) with (queue s b'). change (flat (levels (opposite s) b')) with (queue (opposite s) b').
    by rewrite Hq, Ho, insert_prio_perm. }
  split; [|done]. split; cbn [eng_ book_ trade_log_ live_ next_id].
  - done.
  - rewrite Hperm. by constructor.
  - rewrite Hperm, fmap_cons, Hl. cbn [o_id]. by rewrite Permutation_app_comm.
  - rewrite Hperm. constructor; [cbn; lia|]. eapply Forall_impl; [exact Hids|]. cbn. lia.
  - lia.
  - done.
Qed.

Lemma sweep_one size o os :
  0 < size -> o_quantity o = size -> sweep size (o :: os) = (0, os, [(o, size)]).
Proof.
  intros Hs Ho. cbn [sweep]. rewrite (proj2 (Z.ltb_lt 0 size)), Ho, Z.leb_refl, Z.sub_diag by lia.
  by destruct os.
Qed.

Lemma market_inv size s ts st :
  0 < size < 2 ^ 32 -> next_id st + 1 < 2 ^ 64 -> sim_inv size st ->
  sim_inv size (market size s ts st).1 /\ next_id (market size s ts st).1 = next_id st + 1 /\
  (market size s ts st).2 = (if decide (queue (opposite s) (book_ (eng_ st)) = []) then 0 else 1) /\
  Z.of_nat (length (live_ (market size s ts st).1)) + (market size s ts st).2 = Z.of_nat (length (live_ st)).
Proof.
  intros Hsz Hn [Hi Hs Hl Hids Hnx Hlog].
  unfold market, order_make. destruct st as [[b log] live nid]. cbn [eng_ book_ trade_log_ live_ next_id] in *. subst log.
  rewrite u64_id by (unfold is_u64; lia). cbn [length].
  pose proof (processOrder_market (mkOrder nid 0 size s MARKET ts) b [] Hi eq_refl ltac:(unfold is_u32; cbn; lia)) as Hp.
  cbn zeta in Hp. cbn [o_side o_quantity o_id o_timestamp] in Hp.
  rewrite (all_orders_perm s b) in Hs, Hl, Hids.
  change (flat (levels s b)) with (queue s b) in *. change (flat (levels (opposite s) b)) with (queue (opposite s) b) in *.
  destruct (queue (opposite s) b) as [|o os] eqn:Eq.
  - cbn [sweep] in Hp. destruct Hp as (b' & -> & Hi' & Ho & Hq). cbn [fmap list_fmap app trade_log_ drop foldl length fst snd].
    split; [|split; [done|split; [by rewrite decide_True|cbn; lia]]]. split; cbn [eng_ clear_trade_log book_ trade_log_ live_ next_id]; try done; try lia;
      rewrite (all_orders_perm s b'); change (flat (levels s b')) with (queue s b');
      change (flat (levels (opposite s) b')) with (queue (opposite s) b'); rewrite Hq, Ho; try done.
    eapply Forall_impl; [exact Hids|]. cbn. lia.
  - assert (o_quantity o = size) as Hoq by (apply Forall_app in Hs as [_ Hs]; by apply Forall_cons in Hs as [? _]).
    assert (o_id o < nid) as Hoid by (apply Forall_app in Hids as [_ H]; by apply Forall_cons in H as [? _]).
    rewrite sweep_one in Hp by (done || lia). destruct Hp as (b' & -> & Hi' & Ho & Hq).
    cbn [fmap list_fmap app trade_log_ drop foldl length fst snd o_id].
    assert ((if t_buyer_id (market_trade nid s size ts o) =? nid then t_seller_id (market_trade nid s size ts o)
      else t_buyer_id (market_trade nid s size ts o)) = o_id o) as ->.
    { destruct s; cbn; [by rewrite Z.eqb_refl|]. by rewrite (proj2 (Z.eqb_neq _ _)) by lia. }
    assert (o_id o ∈ live) as Hin by (rewrite Hl, fmap_app, elem_of_app; right; by left).
    pose proof (Permutation_length (forget_perm _ _ Hin)) as Hlen. cbn [length] in Hlen.
    split; [|split; [done|split; [by rewrite decide_False|cbn [live_]; lia]]].
    assert (all_orders b' ≡ₚ queue s b ++ os) as Hperm.
    { rewrite (all_orders_perm s b'). change (flat (levels s b')) with (queue s b').
      change (flat (levels (opposite s) b')) with (queue (opposite s) b'). by rewrite Hq, Ho. }
    rewrite <- Permutation_middle in Hs, Hl, Hids.
    apply Forall_cons in Hs as [_ Hs]. apply Forall_cons in Hids as [_ Hids]. rewrite fmap_cons in Hl.
    split; cbn [eng_ clear_trade_log book_ trade_log_ live_ next_id]; try done; try lia; rewrite ?Hperm; try done.
    + apply (Permutation_cons_inv (a := o_id o)). by rewrite forget_perm.
    + eapply Forall_impl; [exact Hids|]. cbn. lia.
Qed.

(** A cancellation finds its order at the first draw. *)
Lemma cancel_inv size d st :
  draws_ok d -> sim_inv size st ->
  sim_inv size (cancel d st) /\ next_id (cancel d st) = next_id st /\
  length (live_ (cancel d st)) = pred (length (live_ st)).
Proof.
  intros [_ Hd] H. pose proof H as [Hi Hs Hl Hids Hnx Hlog]. pose proof Hi as (Hw & _ & _).
  unfold cancel. destruct (live_ st) as [|x l] eqn:El; [cbn; by rewrite El|]. cbn [length cancel_loop].
  set (i := dr_index d 0 (length (live_ st))). rewrite El. rewrite <- El.
  assert (i < length (live_ st))%nat as Hlt by (apply Hd; rewrite El; cbn; lia).
  destruct (lookup_lt_is_Some_2 (live_ st) i Hlt) as [id Hid]. rewrite (list_lookup_total_correct _ _ _ Hid).
  assert (id ∈ (o_id <$> all_orders (book_ (eng_ st)))) as Hin.
  { rewrite <- Hl, <- ?El. exact (list_elem_of_lookup_2 _ _ _ Hid). }
  destruct (order_loc_ (book_ (eng_ st)) !! id) as [[s p]|] eqn:Eloc.
  2: { exfalso. unfold all_orders in Hin. rewrite fmap_app, elem_of_app in Hin.
       destruct Hin as [Hin|Hin];
         [exact (loc_none_absent BID _ id Hw Eloc Hin)|exact (loc_none_absent ASK _ id Hw Eloc Hin)]. }
  destruct (cancelOrder_hit _ _ _ _ Hw Eloc) as (b' & l1 & o & l2 & Hc & Hw' & Ho & Hf & Hf' & Hop).
  pose proof (processOrder_cancel (mkOrder id 0 0 BID CANCEL 0) (book_ (eng_ st)) [] Hi eq_refl) as Hp. cbn [o_id] in Hp.
  rewrite Eloc in Hp. destruct Hp as (b1 & _ & _ & _ & Hp & Hi' & _). unfold processOrder in Hp.
  cbn [o_type o_id book_ trade_log_] in Hp. rewrite Hc in Hp |- *. apply (f_equal (fun r => book_ r.2)) in Hp. cbn in Hp.
  subst b1.
  assert (all_orders (book_ (eng_ st)) ≡ₚ o :: all_orders b') as Hperm.
  { rewrite (all_orders_perm s (book_ (eng_ st))), (all_orders_perm s b'), Hf, Hf', Hop.
    rewrite <- app_assoc. cbn [app]. rewrite <- Permutation_middle. by rewrite <- app_assoc. }
  pose proof (swap_remove_perm i id (live_ st) Hid) as Hsw.
  split; [|split; [done|apply Permutation_length in Hsw; cbn in *; rewrite El in Hsw at 2; cbn in Hsw; lia]].
  rewrite Hperm in Hs, Hl, Hids. apply Forall_cons in Hs as [_ Hs]. apply Forall_cons in Hids as [_ Hids].
  split; cbn [eng_ book_ trade_log_ live_ next_id]; try done.
  apply (Permutation_cons_inv (a := id)). rewrite Hsw, El, Hl, fmap_cons. by rewrite Ho.
Qed.

(** ** Runs *)

Lemma pick_range d lo hi : draws_ok d -> lo <= hi -> lo <= pick d lo hi <= hi.
Proof.
  intros [Hp _] Hle. unfold pick. rewrite (proj2 (Z.ltb_ge hi lo)) by lia.
  specialize (Hp (hi - lo) ltac:(lia)). lia.
Qed.

Lemma event_inv size half ts k d st :
  0 < size < 2 ^ 32 -> 1 <= half -> draws_ok d -> next_id st + 1 < 2 ^ 64 -> sim_inv size st ->
  let r := event size half ts k d st in
  sim_inv size r.1 /\ next_id st <= next_id r.1 <= next_id st + 1 /\
  0 <= r.2 <= 1 /\ r.2 + Z.of_nat (length (live_ r.1)) <= Z.of_nat (length (live_ st)) + 1.
Proof.
  intros Hsz Hh Hd Hn H. pose proof (si_engine _ _ H) as (Hw & _ & _). destruct k; cbn [event fst snd].
  - destruct (place_inv size BID (pick d (ref_ask (book_ (eng_ st)) - 1 - half + 1) (ref_ask (book_ (eng_ st)) - 1))
      ts st Hsz Hn H) as (Hi & -> & ->).
    { apply buy_behind; [done|]. apply pick_range; [done|lia]. }
    rewrite length_app. cbn [length]. split_and!; (done || lia).
  - destruct (place_inv size ASK (pick d (ref_bid (book_ (eng_ st)) + 1) (ref_bid (book_ (eng_ st)) + 1 + half - 1))
      ts st Hsz Hn H) as (Hi & -> & ->).
    { apply sell_behind; [done|]. apply pick_range; [done|lia]. }
    rewrite length_app. cbn [length]. split_and!; (done || lia).
  - destruct (market_inv size (if dbl_lt (dr_coin d) half_coin then BID else ASK) ts st Hsz Hn H) as (Hi & -> & Ht & Hc).
    rewrite Ht in *. destruct (decide _) in Hc |- *; split_and!; (done || lia).
  - destruct (cancel_inv size d st Hd H) as (Hi & -> & ->). split_and!; (done || lia).
Qed.

Lemma measure_counts n b r : 
  measured r + 1 < 2 ^ 64 -> 0 <= measured r ->
  trades (measure n b r) = trades r /\ measured r <= measured (measure n b r) <= measured r + 1.
Proof.
  intros Hm H0. unfold measure. destruct (best_bid_ticks b), (best_ask_ticks b); try (cbn; lia).
  destruct (_ <? _); cbn; [|lia]. rewrite u64_id by (unfold is_u64; lia). lia.
Qed.

(** The counters stay within the number of events; trades and resting orders
    together never exceed them. *)
Lemma run_loop_inv c half size warm ds : forall ev st r,
  0 < size < 2 ^ 32 -> 1 <= half -> Forall draws_ok ds ->
  next_id st + Z.of_nat (length ds) < 2 ^ 64 -> Z.of_nat (ev + length ds) < 2 ^ 64 ->
  sim_inv size st -> 0 <= trades r -> 0 <= measured r <= Z.of_nat (ev - warm) ->
  trades r + Z.of_nat (length (live_ st)) <= Z.of_nat ev ->
  let '(st', r') := run_loop c half size warm ev ds st r in
  sim_inv size st' /\ 0 <= trades r' /\ 0 <= measured r' <= Z.of_nat (ev + length ds - warm) /\
  trades r' + Z.of_nat (length (live_ st')) <= Z.of_nat (ev + length ds).
Proof.
  induction ds as [|d ds IH]; intros ev st r Hsz Hh Hd Hn Hev Hi Ht Hm Hs; cbn [run_loop].
  { cbn [length]. rewrite Nat.add_0_r. done. }
  apply Forall_cons in Hd as [Hd Hds]. cbn [length] in *.
  set (r1 := if boundary_hit half _ then _ else _).
  assert (trades r1 = trades r /\ measured r1 = measured r) as [E1 E2] by (unfold r1; by destruct (boundary_hit _ _)).
  destruct (choose _ _ _ _) as [k|]; [|rewrite E1, E2; split_and!; (done || lia)].
  pose proof (event_inv size half (Z.of_nat (S ev)) k d st Hsz Hh Hd ltac:(lia) Hi) as He. cbn zeta in He.
  destruct (event _ _ _ _ _ _) as [st' n]. cbn [fst snd] in He. destruct He as (Hi' & Hnx & Hn1 & Hl).
  rewrite E1, E2. rewrite u64_id by (unfold is_u64; lia).
  set (r2 := mkPaperResult _ _ _ _ _).
  set (r3 := if (warm <=? ev)%nat then _ else r2).
  assert (trades r3 = trades r + n /\ 0 <= measured r3 <= Z.of_nat (S ev - warm)) as [E3 E4].
  { unfold r3. destruct (Nat.leb_spec warm ev) as [Hwm|Hwm]; [|cbn; lia].
    destruct (measure_counts (length (live_ st)) (book_ (eng_ st')) r2 ltac:(cbn; lia) ltac:(cbn; lia)) as [-> ?].
    cbn [trades measured r2] in *. lia. }
  replace (ev + S (length ds))%nat with (S ev + length ds)%nat by lia.
  apply IH; try done; lia.
Qed.

Lemma half_ticks_pos c : 3 <= half_ticks c.
Proof. unfold half_ticks. lia. Qed.

Lemma sim0_inv size next : 0 <= next -> sim_inv size (sim0 next).
Proof. intros Hn. split; cbn; try done. apply engine_inv_empty. Qed.

(** C39: [paper_run_sound]. Accepted parameters, whatever the generator draws:
    after the run the list of live ids holds every resting order exactly once
    and nothing else (the cancellation rate counts what really rests), every
    resting order has the one size and the book is sound and uncrossed, no
    limit order has traded, trades and resting orders together are at most the
    events, and the spread is measured at most once per event past the warm-up. *)
Theorem paper_run_sound c next ds st r :
  0 < order_size c -> 0 <= next -> next + Z.of_nat (events c) < 2 ^ 64 -> Forall draws_ok ds ->
  run_one c next ds = Some (st, r) ->
  sim_inv (order_size c) st /\ 0 <= trades r /\
  trades r + Z.of_nat (length (all_orders (book_ (eng_ st)))) <= Z.of_nat (events c) /\
  0 <= measured r <= Z.of_nat (events c - warm_events c).
Proof.
  intros Hs Hn He Hd. unfold run_one. destruct (_ || _); [done|]. intros Hr%(inj Some).
  pose proof (Z.mod_pos_bound (Z.max 1 (llround (sigma c))) (2 ^ 32) ltac:(lia)) as Hb.
  assert (length (take (events c) ds) <= events c)%nat as Ht by (rewrite length_take; lia).
  pose proof (run_loop_inv c (half_ticks c) (order_size c) (warm_events c) (take (events c) ds) 0 (sim0 next)
    (mkPaperResult 0 0 0 (double_of_Z 0) (double_of_Z 0)) ltac:(unfold order_size, u32 in *; lia)
    ltac:(pose proof (half_ticks_pos c); lia) (Forall_take _ _ _ Hd) ltac:(cbn [next_id sim0]; lia) ltac:(lia)
    (sim0_inv _ _ Hn) ltac:(done) ltac:(cbn; lia) ltac:(cbn; lia)) as H.
  rewrite Hr in H. destruct H as (Hi & Ht0 & Hm & Hl). split_and!; try done; try lia.
  pose proof (Permutation_length (si_live _ _ Hi)) as Hp. rewrite length_fmap in Hp. lia.
Qed.

Definition sixteenths (n : Z) : double := binary_normalize dbl_prec dbl_emax n (-4) false.

Definition sample_config : Config :=
  let one := double_of_Z 1 in mkConfig one one one one one 6 (sixteenths 2) (double_of_Z 5).

Definition sample_draws : list Draws :=
  (fun u => mkDraws (sixteenths u) (fun span => span / 2) (sixteenths 1) (fun _ n => pred n)) <$> [1; 9; 2; 3; 11; 15].

Lemma sample_draws_ok : Forall draws_ok sample_draws.
Proof.
  apply Forall_fmap. apply Forall_true. intros u. split; cbn.
  - intros span Hs. pose proof (Z.div_le_upper_bound span 2 span). pose proof (Z.div_pos span 2). lia.
  - intros _ n Hn. lia.
Qed.

Lemma paper_run_sound_witness :
  exists st r, run_one sample_config 7 sample_draws = Some (st, r) /\ trades r = 1 /\ live_ st = [7; 10] /\
    sim_inv (order_size sample_config) st.
Proof.
  destruct (run_one sample_config 7 sample_draws) as [[st r]|] eqn:E; [|vm_compute in E; discriminate].
  exists st, r. pose proof (paper_run_sound sample_config 7 sample_draws st r ltac:(by vm_compute) ltac:(lia)
    ltac:(by vm_compute) sample_draws_ok E) as (Hi & _).
  vm_compute in E. injection E as <- <-. done.
Defined.
