(* ===== verification/ZiSim.v ===== *)
(** The zero-intelligence generator of tools/zi_sim.cpp: its parameter file, its
    samplers, and the loop that drives random orders through the engine and
    writes a LOBSTER-format log. What the uniform generator yields is a list the
    samplers consume; the logarithm is an argument; the log is the list of its
    rows, before their numbers are printed. *)
From Stdlib Require Import ZArith Lia SpecFloat Ascii String.
From stdpp Require Import base numbers list gmap sorting.
From S2P Require Import Prelude Types OrderBook BookFacts Engine EngineProps Text RiskConfig RiskFile Session.
From S2P Require Import JsonViews LobsterParser.

(** ** Numbers *)

(** [std::atof] and [std::atoll]: 0 where nothing can be read, the nearest
    bound where the integer is too large. *)
Definition atof (s : text) : double :=
  let '(neg, s) := read_sign (drop_while isspace s) in
  match read_numeral s with
  | Some (Decimal m e) => decimal_float dbl_prec dbl_emax neg m e
  | Some (Binary m e) => let v := binary_normalize dbl_prec dbl_emax m e false in if neg then SFopp v else v
  | Some Infinite => S754_infinity neg
  | Some NotANumber => S754_nan
  | None => S754_zero false
  end.

Definition atoll (s : text) : Z :=
  match read_int s with
  | Some (neg, v, _) => Z.max (- 2 ^ 63) (Z.min (2 ^ 63 - 1) (if neg then - v else v))
  | None => 0
  end.

(** [m * 10 ^ e] as a literal. *)
Definition dlit (m e : Z) : double := decimal_float dbl_prec dbl_emax false m e.

(** A conversion to a signed integer of [w] bits truncates; out of range x86
    yields the least one. *)
Definition to_signed (w : Z) (f : double) : Z :=
  let z := match f with
           | S754_finite s m e =>
               let n := if 0 <=? e then Zpos m * 2 ^ e else Zpos m / 2 ^ (- e) in if s then - n else n
           | S754_zero _ => 0
           | _ => 2 ^ (w - 1)
           end in
  if (- 2 ^ (w - 1) <=? z) && (z <? 2 ^ (w - 1)) then z else - 2 ^ (w - 1).

(** ** Parameters *)

Record Params := mkParams {
  limit_rate : double; cancel_rate : double; market_rate : double;
  spread_p50 : Z; size_mean : double; size_p50 : Z; size_p90 : Z;
  round_lot_share : double; crossed_mid_share : double;
  placement_edges : list double; placement_weights : list double;
  initial_mid : Z;
}.

Definition params0 : Params :=
  mkParams (dlit 5 0) (dlit 5 0) (dlit 4 (-1)) 100 (dlit 100 0) 100 200 (dlit 7 (-1)) (dlit 1 (-2)) [] [] 1000000.

Definition csv_doubles (v : text) : list double := atof <$> getlines ch_comma v.

Definition set_param (k v : text) (p : Params) : Params :=
  let 'mkParams lr cr mr sp sm s5 s9 rl cm pe pw im := p in
  if bool_decide (k = lit "limit_rate") then mkParams (atof v) cr mr sp sm s5 s9 rl cm pe pw im
  else if bool_decide (k = lit "cancel_rate") then mkParams lr (atof v) mr sp sm s5 s9 rl cm pe pw im
  else if bool_decide (k = lit "market_rate") then mkParams lr cr (atof v) sp sm s5 s9 rl cm pe pw im
  else if bool_decide (k = lit "spread_p50") then mkParams lr cr mr (atoll v) sm s5 s9 rl cm pe pw im
  else if bool_decide (k = lit "size_mean") then mkParams lr cr mr sp (atof v) s5 s9 rl cm pe pw im
  else if bool_decide (k = lit "size_p50") then mkParams lr cr mr sp sm (atoll v) s9 rl cm pe pw im
  else if bool_decide (k = lit "size_p90") then mkParams lr cr mr sp sm s5 (atoll v) rl cm pe pw im
  else if bool_decide (k = lit "round_lot_share") then mkParams lr cr mr sp sm s5 s9 (atof v) cm pe pw im
  else if bool_decide (k = lit "crossed_mid_share") then mkParams lr cr mr sp sm s5 s9 rl (atof v) pe pw im
  else if bool_decide (k = lit "placement_edges") then mkParams lr cr mr sp sm s5 s9 rl cm (csv_doubles v) pw im
  else if bool_decide (k = lit "placement_weights") then mkParams lr cr mr sp sm s5 s9 rl cm pe (csv_doubles v) im
  else p.

Definition params_line (p : Params) (line : text) : Params :=
  match cut_at ch_equals (cut_at ch_hash line).1 with
  | (_, None) => p
  | (k, Some v) =>
      match trim k, trim v with
      | [], _ | _, [] => p
      | k, v => set_param k v p
      end
  end.

Inductive ParamsError := CannotOpenParams | PlacementRequired | PlacementCounts.

Definition load_params (file : option text) (p : Params) : ParamsError + Params :=
  match file with
  | None => inl CannotOpenParams
  | Some s =>
      let p := foldl params_line p (getlines ch_newline s) in
      match placement_edges p, placement_weights p with
      | [], _ | _, [] => inl PlacementRequired
      | es, ws => if (length ws =? length es + 1)%nat then inr p else inl PlacementCounts
      end
  end.

(** ** Samplers *)

(** A computation that consumes uniform draws; [None]: it needs more of them. *)
Definition Gen (A : Type) : Type := list double -> option (A * list double).
Definition gret {A} (a : A) : Gen A := fun us => Some (a, us).
Definition gbind {A B} (g : Gen A) (f : A -> Gen B) : Gen B :=
  fun us => match g us with Some (a, us) => f a us | None => None end.
Notation "'let!' x ':=' g 'in' k" := (gbind g (fun x => k)) (at level 200, x name, right associativity).

Definition uniform : Gen double := fun us => match us with u :: us => Some (u, us) | [] => None end.

Definition coin : Gen bool := let! u := uniform in gret (dbl_lt u (dlit 5 (-1))).

(** [cum_] and [total_weight_], as the constructor of [Sim] computes them. *)
Fixpoint cumulative (acc : double) (ws : list double) : list double :=
  match ws with
  | [] => []
  | w :: ws => let acc := dbl_add acc w in acc :: cumulative acc ws
  end.

Definition total_weight (p : Params) : double :=
  let acc := foldl dbl_add (double_of_Z 0) (placement_weights p) in
  if dbl_lt (double_of_Z 0) acc then acc else double_of_Z 1.

(** The loop of [sample_placement]: the first bucket that reaches [u], the last
    one if none does. *)
Fixpoint bucket (u : double) (cum : list double) (b : nat) : nat :=
  match cum with
  | c :: ((_ :: _) as rest) => if dbl_lt c u then bucket u rest (S b) else b
  | _ => b
  end.

Definition sample_placement (p : Params) : Gen double :=
  let! u0 := uniform in
  let u := dbl_mul u0 (total_weight p) in
  let b := bucket u (cumulative (double_of_Z 0) (placement_weights p)) 0 in
  let zero := double_of_Z 0 in
  let es := placement_edges p in
  let lo := match b with O => zero | S b => default zero (es !! b) end in
  let hi := if (b <? length es)%nat then default zero (es !! b) else dbl_mul (default zero (last es)) (double_of_Z 2) in
  let! v := uniform in
  gret (dbl_add lo (dbl_mul v (dbl_sub hi lo))).

Section Generator.

Context (log : double -> double).

(** The lots of a round-lot draw, less one. *)
Definition extra_lots (u : double) : Z :=
  to_signed 32 (dbl_mul (SFopp (log (dbl_sub (double_of_Z 1) (dbl_mul u (dlit 86 (-2)))))) (dlit 12 (-1))).

Definition sample_size (p : Params) : Gen Z :=
  let! r := uniform in
  let! u := uniform in
  gret (if dbl_lt r (round_lot_share p) then u32 (Z.min (1 + extra_lots u) 30 * 100)
        else u32 (1 + to_signed 32 (dbl_mul u (double_of_Z 99)))).

Definition exponential (rate : double) : Gen double :=
  if dbl_le rate (double_of_Z 0) then gret (dlit 1 18)
  else let! u := uniform in gret (dbl_div (SFopp (log (dbl_sub (double_of_Z 1) u))) rate).

(** ** The generator *)

(** A row of the message log. *)
Record Row := mkRow { r_time : double; r_type : Z; r_id : Z; r_size : Z; r_price : Z; r_direction : Z }.

Record GenState := mkGen {
  g_engine : MatchingEngine;
  (** client order id and exchange order id *)
  g_live : list (Z * Z);
  next_oid : Z; next_coid : Z; last_mid : Z; logical_ts : Z;
  g_time : double; g_seq : Z;
  n_new : Z; n_cancel : Z; n_market : Z; n_exec : Z;
  messages : list Row; jsonl : text;
}.

(** Whether each output was opened (a stream that was not swallows what it is
    given). *)
Record Options := mkOptions { use_fixed_scale : bool; msgf : bool; jf : bool; duration : double }.

Definition gen_place (px qty : Z) (bid market : bool) (g : GenState) : Z * GenState :=
  let oid := next_oid g in
  let ts := u64 (logical_ts g + 1) in
  let o := mkOrder oid px qty (if bid then BID else ASK) (if market then MARKET else LIMIT) ts in
  (oid, mkGen (processOrder o (g_engine g)).2 (g_live g) (u64 (oid + 1)) (next_coid g) (last_mid g) ts
          (g_time g) (g_seq g) (n_new g) (n_cancel g) (n_market g) (n_exec g) (messages g) (jsonl g)).

(** [live.emplace_back(next_coid++, oid)]. *)
Definition add_live (oid : Z) (g : GenState) : Z * GenState :=
  let coid := next_coid g in
  (coid, mkGen (g_engine g) (g_live g ++ [(coid, oid)]) (next_oid g) (u64 (coid + 1)) (last_mid g) (logical_ts g)
           (g_time g) (g_seq g) (n_new g) (n_cancel g) (n_market g) (n_exec g) (messages g) (jsonl g)).

Definition gen0 (p : Params) : GenState :=
  mkGen empty_engine [] 1 1 (initial_mid p) 0 (double_of_Z 0) 0 0 0 0 0 [] [].

(** One order of the starting book. *)
Definition seed_order (p : Params) (g : GenState) (i : Z * bool) : GenState :=
  let off := i64 (spread_p50 p ÷ 2 + i.1 * spread_p50 p) in
  let px := i64 (if i.2 then initial_mid p - off else initial_mid p + off) in
  let '(oid, g) := gen_place px 100 i.2 false g in
  (add_live oid g).2.

(** The two nested loops, by level and side. *)
Definition seed_slots : list (Z * bool) := [0; 1; 2; 3; 4; 5; 6; 7; 8; 9] ≫= fun i => [(i, true); (i, false)].

Definition seed_book (p : Params) (g : GenState) : GenState := foldl (seed_order p) g seed_slots.

Definition with_message (o : Options) (r : Row) (g : GenState) : GenState :=
  mkGen (g_engine g) (g_live g) (next_oid g) (next_coid g) (last_mid g) (logical_ts g) (g_time g) (g_seq g)
    (n_new g) (n_cancel g) (n_market g) (n_exec g) (if msgf o then messages g ++ [r] else messages g) (jsonl g).

Definition count_new (g : GenState) : GenState :=
  mkGen (g_engine g) (g_live g) (next_oid g) (next_coid g) (last_mid g) (logical_ts g) (g_time g) (g_seq g)
    (u64 (n_new g + 1)) (n_cancel g) (n_market g) (n_exec g) (messages g) (jsonl g).
Definition count_cancel (g : GenState) : GenState :=
  mkGen (g_engine g) (g_live g) (next_oid g) (next_coid g) (last_mid g) (logical_ts g) (g_time g) (g_seq g)
    (n_new g) (u64 (n_cancel g + 1)) (n_market g) (n_exec g) (messages g) (jsonl g).
Definition count_market (g : GenState) : GenState :=
  mkGen (g_engine g) (g_live g) (next_oid g) (next_coid g) (last_mid g) (logical_ts g) (g_time g) (g_seq g)
    (n_new g) (n_cancel g) (u64 (n_market g + 1)) (n_exec g) (messages g) (jsonl g).
Definition count_exec (g : GenState) : GenState :=
  mkGen (g_engine g) (g_live g) (next_oid g) (next_coid g) (last_mid g) (logical_ts g) (g_time g) (g_seq g)
    (n_new g) (n_cancel g) (n_market g) (u64 (n_exec g + 1)) (messages g) (jsonl g).

(** The price reference and the placement scale of a turn. *)
Definition mid_of (g : GenState) : Z :=
  match best_bid_ticks (book_ (g_engine g)), best_ask_ticks (book_ (g_engine g)) with
  | Some bb, Some ba => i64 (bb + ba) ÷ 2
  | _, _ => last_mid g
  end.

Definition half_of (o : Options) (p : Params) (g : GenState) : Z :=
  if use_fixed_scale o then spread_p50 p ÷ 2 else
  match best_bid_ticks (book_ (g_engine g)), best_ask_ticks (book_ (g_engine g)) with
  | Some bb, Some ba => if bb <? ba then i64 (ba - bb) ÷ 2 else spread_p50 p ÷ 2
  | _, _ => spread_p50 p ÷ 2
  end.

(** [t], [last_mid], and the cleared trade log. *)
Definition begin_turn (t : double) (mid : Z) (g : GenState) : GenState :=
  mkGen (clear_trade_log (g_engine g)) (g_live g) (next_oid g) (next_coid g) mid (logical_ts g) t (g_seq g)
    (n_new g) (n_cancel g) (n_market g) (n_exec g) (messages g) (jsonl g).

(** The three branches, each with the side of the incoming order. *)
Definition limit_event (o : Options) (p : Params) (mid half : Z) (g : GenState) : Gen (bool * GenState) :=
  let! bid := coin in
  let! x := uniform in
  let! r0 := sample_placement p in
  let r := if dbl_lt x (crossed_mid_share p) then SFopp r0 else r0 in
  let off := to_signed 64 (dbl_mul r (double_of_Z half)) in
  let px0 := i64 (if bid then mid - off else mid + off) in
  let px := if px0 <=? 0 then 1 else px0 in
  let! qty := sample_size p in
  let '(oid, g) := gen_place px qty bid false g in
  let '(coid, g) := add_live oid g in
  gret (bid, with_message o (mkRow (g_time g) 1 coid qty px (if bid then 1 else -1)) (count_new g)).

Definition cancel_event (o : Options) (mid : Z) (g : GenState) : Gen (bool * GenState) :=
  let! u := uniform in
  let n := length (g_live g) in
  let idx := Nat.min (Z.to_nat (to_signed 64 (dbl_mul u (double_of_Z (Z.of_nat n))))) (n - 1) in
  match g_live g !! idx with
  | None => gret (false, g)
  | Some (coid, oid) =>
      let '(res, e) := processOrder (mkOrder oid 0 0 BID CANCEL 0) (g_engine g) in
      let g := mkGen e (delete idx (g_live g)) (next_oid g) (next_coid g) (last_mid g) (logical_ts g) (g_time g)
                 (g_seq g) (n_new g) (n_cancel g) (n_market g) (n_exec g) (messages g) (jsonl g) in
      gret (false, if accepted res then with_message o (mkRow (g_time g) 3 coid 0 mid 1) (count_cancel g) else g)
  end.

Definition market_event (p : Params) (g : GenState) : Gen (bool * GenState) :=
  let! buy := coin in
  let! qty := sample_size p in
  gret (buy, count_market (gen_place 0 qty buy true g).2).

(** The rows of the trades an event produced. *)
Definition trade_row (t : double) (buy : bool) (tr : Trade) : Row :=
  mkRow t 4 (if buy then t_seller_id tr else t_buyer_id tr) (t_quantity tr) (t_price_ticks tr) (if buy then -1 else 1).

Definition log_trades (o : Options) (buy : bool) (g : GenState) : GenState :=
  foldl (fun g tr => with_message o (trade_row (g_time g) buy tr) (count_exec g)) g (trade_log_ (g_engine g)).

Definition write_jsonl (o : Options) (g : GenState) : GenState :=
  if jf o then
    let seq := u64 (g_seq g + 1) in
    let b := book_ (g_engine g) in
    mkGen (g_engine g) (g_live g) (next_oid g) (next_coid g) (last_mid g) (logical_ts g) (g_time g) seq
      (n_new g) (n_cancel g) (n_market g) (n_exec g) (messages g)
      (if seq mod 10 =? 0
       then jsonl g ++ write_book_record (to_signed 64 (dbl_mul (g_time g) (dlit 1 9))) seq
                         (bid_levels_ticks 10 b) (ask_levels_ticks 10 b)
       else jsonl g)
  else g.

(** Which clock fires first. *)
Definition min3 (a b c : double) : double :=
  let m := if dbl_lt b a then b else a in if dbl_lt c m then c else m.

(** One turn of the main loop; [None] as the state: the loop ends. *)
Definition turn (o : Options) (p : Params) (g : GenState) : Gen (option GenState) :=
  if negb (dbl_lt (g_time g) (duration o)) then gret None else
  let! dt_limit := exponential (limit_rate p) in
  let! dt_cancel := exponential (match g_live g with [] => double_of_Z 0 | _ => cancel_rate p end) in
  let! dt_market := exponential (market_rate p) in
  let dt := min3 dt_limit dt_cancel dt_market in
  let t := dbl_add (g_time g) dt in
  if dbl_le (duration o) t then gret None else
  let mid := mid_of g in
  let half := half_of o p g in
  let g := begin_turn t mid g in
  let! r := (if SFeqb dt dt_limit then limit_event o p mid half g
             else if SFeqb dt dt_cancel && negb (bool_decide (g_live g = [])) then cancel_event o mid g
             else market_event p g) in
  gret (Some (write_jsonl o (log_trades o r.1 r.2))).

(** At most [n] turns; the flag says whether the loop has ended. *)
Fixpoint turns (n : nat) (o : Options) (p : Params) (g : GenState) : Gen (bool * GenState) :=
  match n with
  | O => gret (false, g)
  | S n =>
      let! r := turn o p g in
      match r with None => gret (true, g) | Some g => turns n o p g end
  end.

Definition zi_run (n : nat) (o : Options) (p : Params) : Gen (bool * GenState) := turns n o p (seed_book p (gen0 p)).

End Generator.

(** ** Reasoning about samplers *)

(** What holds of the uniform draws: the logarithms and products the sizes are
    made of are not negative ([u] lies in [[0, 1)]). *)
Definition draw_ok (log : double -> double) (u : double) : Prop :=
  0 <= extra_lots log u /\ 0 <= to_signed 32 (dbl_mul u (double_of_Z 99)).

Section Samplers.

Context (log : double -> double).

(** Whatever the draws, a result satisfies [P]. *)
Definition yields {A} (g : Gen A) (P : A -> Prop) : Prop :=
  forall us a us', Forall (draw_ok log) us -> g us = Some (a, us') -> Forall (draw_ok log) us' /\ P a.

Lemma yields_ret {A} (a : A) (P : A -> Prop) : P a -> yields (gret a) P.
Proof. intros Hp us a' us' Hus [= <- <-]. done. Qed.

Lemma yields_bind {A B} (g : Gen A) (f : A -> Gen B) (Q : A -> Prop) (P : B -> Prop) :
  yields g Q -> (forall a, Q a -> yields (f a) P) -> yields (gbind g f) P.
Proof.
  intros Hg Hf us b us' Hus. unfold gbind. destruct (g us) as [[a us1]|] eqn:E; [|done].
  destruct (Hg _ _ _ Hus E) as [Hus1 Ha]. by apply Hf.
Qed.

Lemma yields_uniform : yields uniform (draw_ok log).
Proof. intros [|u us] a us' Hus; [done|]. apply Forall_cons in Hus as [? ?]. by intros [= <- <-]. Qed.

Lemma yields_true {A} (g : Gen A) (P : A -> Prop) : yields g P -> yields g (fun _ => True).
Proof. intros H us a us' Hus E. destruct (H _ _ _ Hus E). done. Qed.

(** A sampler about whose result nothing is needed. *)
Ltac any_draw :=
  repeat first
    [ apply yields_ret; done
    | eapply yields_bind; [first [apply yields_uniform | any_draw]|intros ? _]
    | apply yields_true with (P := draw_ok log); apply yields_uniform ].

Lemma yields_coin : yields coin (fun _ => True).
Proof. unfold coin. any_draw. Qed.

Lemma yields_placement p : yields (sample_placement p) (fun _ => True).
Proof. unfold sample_placement. any_draw. Qed.

Lemma yields_exponential r : yields (exponential log r) (fun _ => True).
Proof. unfold exponential. destruct (dbl_le _ _); any_draw. Qed.

Lemma to_signed_lt w f : 0 < w -> to_signed w f < 2 ^ (w - 1).
Proof.
  intros Hw. unfold to_signed. pose proof (Z.pow_pos_nonneg 2 (w - 1) ltac:(lia) ltac:(lia)).
  destruct (_ && _) eqn:E; [|lia]. apply andb_true_iff in E as [_ E%Z.ltb_lt]. done.
Qed.

Lemma yields_size p : yields (sample_size log p) (fun q => 0 < q < 2 ^ 32).
Proof.
  unfold sample_size. eapply yields_bind; [apply yields_uniform|]. intros r _.
  eapply yields_bind; [apply yields_uniform|]. intros u [Hl Hs]. apply yields_ret.
  pose proof (to_signed_lt 32 (dbl_mul u (double_of_Z 99)) ltac:(lia)) as Hb. cbn [Z.sub Z.opp Z.add Z.pos_sub Pos.pred_double] in Hb.
  destruct (dbl_lt _ _); rewrite u32_id by (unfold is_u32; lia); lia.
Qed.

End Samplers.

(** ** What the engine does with the generator's orders *)

(** The incoming order hit [tr]'s resting order, which was on the book. *)
Definition hit (buy : bool) (b : OrderBook) (tr : Trade) : Prop :=
  exists o, o ∈ queue (if buy then ASK else BID) b /\
    o_id o = (if buy then t_seller_id tr else t_buyer_id tr) /\ 0 < t_quantity tr <= o_quantity o.

Lemma sweep_limit_names s p q os :
  0 <= q -> positive os ->
  let '(_, rest, fills) := sweep_limit s p q os in
  Forall (fun o => o_id o ∈ (o_id <$> os)) rest /\ Forall (fun f => f.1 ∈ os /\ 0 < f.2 <= o_quantity f.1) fills.
Proof.
  intros Hq Hp. revert q Hq. induction Hp as [|o os Ho Hp IH]; intros q Hq; cbn [sweep_limit]; [done|].
  assert (Forall (fun x => o_id x ∈ (o_id <$> os)) os) as Hself.
  { apply Forall_forall. intros x Hx. by apply list_elem_of_fmap_2. }
  destruct ((0 <? q) && _) eqn:E.
  - apply andb_true_iff in E as [E%Z.ltb_lt _]. destruct (Z.leb_spec (o_quantity o) q) as [Hle|Hgt].
    + specialize (IH (q - o_quantity o) ltac:(lia)). destruct (sweep_limit _ _ _ _) as [[q' rest] fills].
      destruct IH as [Hr Hf]. split.
      * eapply Forall_impl; [exact Hr|]. intros x Hx. by right.
      * constructor; [cbn; split; [left|lia]|]. eapply Forall_impl; [exact Hf|]. intros x [? ?]. split; [by right|done].
    + split; [constructor; [cbn; by left|]|].
      * eapply Forall_impl; [exact Hself|]. intros x Hx. by right.
      * repeat constructor; cbn; lia.
  - split; [|done]. constructor; [by left|]. eapply Forall_impl; [exact Hself|]. intros x Hx. by right.
Qed.

(** A market sweep is a limit sweep at a price nothing is beyond. *)
Lemma sweep_as_limit q os p :
  Forall (fun o => o_price_ticks o <= p) os -> sweep q os = sweep_limit BID p q os.
Proof.
  intros Hp. revert q. induction Hp as [|o os Ho Hp IH]; intros q; [done|]. cbn [sweep sweep_limit].
  unfold crossesb. rewrite (proj2 (Z.leb_le _ _) Ho), andb_true_r, IH. done.
Qed.

Lemma price_bound (os : list Order) : exists p, Forall (fun o => o_price_ticks o <= p) os.
Proof.
  induction os as [|o os [p Hp]]; [by exists 0|]. exists (Z.max p (o_price_ticks o)).
  constructor; [lia|]. eapply Forall_impl; [exact Hp|]. cbn. lia.
Qed.

Lemma elem_of_all_orders s o b :
  o ∈ all_orders b <-> o ∈ queue s b \/ o ∈ queue (opposite s) b.
Proof. rewrite (all_orders_perm s b), elem_of_app. done. Qed.

(** An order the generator places: the book stays sound, nothing but that order
    is new on it, and every trade hits an order that was there. *)
Lemma place_spec px qty bid mkt g :
  engine_inv (book_ (g_engine g)) -> 0 < qty < 2 ^ 32 ->
  Forall (fun o => o_id o < next_oid g) (all_orders (book_ (g_engine g))) ->
  let e := g_engine (gen_place px qty bid mkt g).2 in
  engine_inv (book_ e) /\
  Forall (fun o => o_id o ∈ (o_id <$> all_orders (book_ (g_engine g))) \/ mkt = false /\ o_id o = next_oid g)
    (all_orders (book_ e)) /\
  exists new, trade_log_ e = trade_log_ (g_engine g) ++ new /\ Forall (hit bid (book_ (g_engine g))) new.
Proof.
  intros Hi Hq Hids. destruct g as [[b lg] live no nc lm ts t sq nn ncc nm nx ms js]. cbn in *.
  set (s := if bid then BID else ASK). set (o := mkOrder no px qty s _ _).
  assert (fresh no b) as Hf.
  { intros (x & Hx & Hin)%list_elem_of_fmap. rewrite Forall_forall in Hids. apply Hids in Hin. lia. }
  pose proof (engine_inv_positive (opposite s) b Hi) as Hpos.
  assert (forall x, x ∈ queue s b -> o_id x ∈ (o_id <$> all_orders b)) as Hown.
  { intros x Hx. apply list_elem_of_fmap_2, (elem_of_all_orders s). by left. }
  assert (forall x, o_id x ∈ (o_id <$> queue (opposite s) b) -> o_id x ∈ (o_id <$> all_orders b)) as Hopp.
  { intros x (y & -> & Hy)%list_elem_of_fmap. apply list_elem_of_fmap_2, (elem_of_all_orders s). by right. }
  destruct mkt.
  - pose proof (processOrder_market o b lg Hi eq_refl ltac:(unfold is_u32; cbn; lia)) as Hp. cbn zeta in Hp.
    cbn [o o_side o_quantity o_id o_timestamp] in Hp. destruct (price_bound (queue (opposite s) b)) as [p Hb].
    pose proof (sweep_limit_names BID p qty _ ltac:(lia) Hpos) as Hn.
    rewrite (sweep_as_limit _ _ _ Hb) in Hp. destruct (sweep_limit _ _ _ _) as [[q' rest] fills].
    destruct Hp as (b' & -> & Hi' & Ho & Hs), Hn as [Hr Hfl]. cbn [snd book_ trade_log_]. split; [done|]. split.
    + apply Forall_forall. intros x [Hx|Hx]%(elem_of_all_orders s); left; [rewrite Hs in Hx; by apply Hown|].
      rewrite Ho in Hx. rewrite Forall_forall in Hr. by apply Hopp, Hr.
    + eexists. split; [done|]. apply Forall_fmap. eapply Forall_impl; [exact Hfl|]. intros [x q] [Hx Hxq]. exists x.
      subst s. destruct bid; cbn in *; done.
  - pose proof (processOrder_limit o b lg Hi eq_refl ltac:(unfold is_u32; cbn; lia) ltac:(cbn; lia) Hf) as Hp.
    cbn zeta in Hp. cbn [o o_side o_quantity o_price_ticks] in Hp.
    pose proof (sweep_limit_names s px qty _ ltac:(lia) Hpos) as Hn.
    destruct (sweep_limit _ _ _ _) as [[q' rest] fills].
    destruct Hp as (b' & -> & Hi' & Ho & Hs), Hn as [Hr Hfl]. cbn [snd book_ trade_log_]. split; [done|]. split.
    + apply Forall_forall. intros x [Hx|Hx]%(elem_of_all_orders s).
      * rewrite Hs in Hx. destruct (0 <? q'); [|left; by apply Hown].
        rewrite insert_prio_perm in Hx. apply elem_of_cons in Hx as [->|Hx]; [by right|left; by apply Hown].
      * rewrite Ho in Hx. rewrite Forall_forall in Hr. left. by apply Hopp, Hr.
    + eexists. split; [done|]. apply Forall_fmap. eapply Forall_impl; [exact Hfl|]. intros [x q] [Hx Hxq]. exists x.
      subst o s. unfold compose, limit_trade. destruct bid; cbn in *; done.
Qed.

(** ** Invariant of the generator *)

Definition tally (k : Z) (rows : list Row) : Z := Z.of_nat (length (filter (fun r => r_type r = k) rows)).

(** The book is sound, every resting order can be cancelled (its id is on the
    list of live ones), the ids on that list are distinct and used up, and the
    counters are those of the rows written. *)
Record gen_inv (o : Options) (g : GenState) : Prop := {
  gi_engine : engine_inv (book_ (g_engine g));
  gi_ids : Forall (fun x => o_id x < next_oid g) (all_orders (book_ (g_engine g)));
  gi_live : Forall (fun x => o_id x ∈ (g_live g).*2) (all_orders (book_ (g_engine g)));
  gi_oids : NoDup (g_live g).*2 /\ Forall (fun id => id < next_oid g) (g_live g).*2;
  gi_coids : NoDup (g_live g).*1 /\ Forall (fun id => id < next_coid g) (g_live g).*1;
  gi_next : 0 <= next_oid g /\ 0 <= next_coid g;
  gi_rows : msgf o = true ->
    n_new g = u64 (tally 1 (messages g)) /\ n_cancel g = u64 (tally 3 (messages g)) /\
    n_exec g = u64 (tally 4 (messages g));
}.

(** The order an event sends to the engine. *)
Definition sent_order (px qty : Z) (bid : bool) (ty : OrderType) (g : GenState) : Order :=
  mkOrder (next_oid g) px qty (if bid then BID else ASK) ty (u64 (logical_ts g + 1)).

Definition trade_rows (bid : bool) (g : GenState) : list Row :=
  trade_row (g_time g) bid <$> trade_log_ (g_engine g).

(** What happens between two states, and the rows that tell it. *)
Inductive event_rows (mid : Z) (g g' : GenState) : list Row -> Prop :=
  | rows_entered px qty bid :
      0 < px -> 0 < qty < 2 ^ 32 ->
      g_engine g' = (processOrder (sent_order px qty bid LIMIT g) (clear_trade_log (g_engine g))).2 ->
      g_live g' = g_live g ++ [(next_coid g, next_oid g)] ->
      Forall (hit bid (book_ (g_engine g))) (trade_log_ (g_engine g')) ->
      event_rows mid g g'
        (mkRow (g_time g') 1 (next_coid g) qty px (if bid then 1 else -1) :: trade_rows bid g')
  | rows_market qty buy :
      0 < qty < 2 ^ 32 ->
      g_engine g' = (processOrder (sent_order 0 qty buy MARKET g) (clear_trade_log (g_engine g))).2 ->
      g_live g' = g_live g ->
      Forall (hit buy (book_ (g_engine g))) (trade_log_ (g_engine g')) ->
      event_rows mid g g' (trade_rows buy g')
  | rows_cancelled coid x :
      g_live g ≡ₚ (coid, o_id x) :: g_live g' ->
      all_orders (book_ (g_engine g)) ≡ₚ x :: all_orders (book_ (g_engine g')) ->
      event_rows mid g g' [mkRow (g_time g') 3 coid 0 mid 1]
  | rows_gone coid oid :
      g_live g ≡ₚ (coid, oid) :: g_live g' ->
      Forall (fun x => o_id x <> oid) (all_orders (book_ (g_engine g))) ->
      book_ (g_engine g') = book_ (g_engine g) ->
      event_rows mid g g' [].

(** One event: the invariant, the row it writes, the trades left to report. *)
Definition event_ok (o : Options) (mid : Z) (g : GenState) (r : bool * GenState) : Prop :=
  gen_inv o r.2 /\ next_oid r.2 <= next_oid g + 1 /\ next_coid r.2 <= next_coid g + 1 /\
  exists new, messages r.2 = messages g ++ (if msgf o then new else []) /\
    event_rows mid g r.2 (new ++ trade_rows r.1 r.2).

(** The rows depend on the engine, the live orders and the time reached. *)
Lemma event_rows_after mid g g' g2 rows :
  g_engine g2 = g_engine g' -> g_live g2 = g_live g' -> g_time g2 = g_time g' ->
  event_rows mid g g' rows -> event_rows mid g g2 rows.
Proof.
  intros E1 E2 E3 H.
  assert (forall b, trade_rows b g' = trade_rows b g2) as Et by (intros b; unfold trade_rows; by rewrite E1, E3).
  destruct H as [px qty bid|qty buy|coid x|coid oid]; rewrite ?Et, <- ?E3.
  - apply (rows_entered _ _ _ px qty bid); rewrite ?E1, ?E2; done.
  - apply (rows_market _ _ _ qty buy); rewrite ?E1, ?E2; done.
  - apply (rows_cancelled _ _ _ coid x); rewrite ?E1, ?E2; done.
  - apply (rows_gone _ _ _ coid oid); rewrite ?E1, ?E2; done.
Qed.

(** Clearing the trade log first makes no difference. *)
Lemma event_rows_begin t m mid g g' rows :
  event_rows mid (begin_turn t m g) g' rows -> event_rows mid g g' rows.
Proof.
  intros H. destruct H as [px qty bid H1 H2 H3 H4 H5|qty buy H1 H2 H3 H4|coid x H1 H2|coid oid H1 H2 H3].
  - exact (rows_entered mid g g' px qty bid H1 H2 H3 H4 H5).
  - exact (rows_market mid g g' qty buy H1 H2 H3 H4).
  - exact (rows_cancelled mid g g' coid x H1 H2).
  - exact (rows_gone mid g g' coid oid H1 H2 H3).
Qed.

Lemma tally_snoc k rows r : tally k (rows ++ [r]) = tally k rows + (if decide (r_type r = k) then 1 else 0).
Proof.
  unfold tally. rewrite filter_app, length_app, filter_cons. destruct (decide _); cbn; lia.
Qed.

Lemma live_snoc {A} (f : A -> Z) (l : list A) (x : A) (n : Z) :
  NoDup (f <$> l) -> Forall (fun i => i < n) (f <$> l) -> f x = n ->
  NoDup (f <$> (l ++ [x])) /\ Forall (fun i => i < n + 1) (f <$> (l ++ [x])).
Proof.
  intros Hn Hf Hx. rewrite fmap_app. cbn. split.
  - apply NoDup_app. split; [done|]. split; [|apply NoDup_singleton]. intros i Hi ->%list_elem_of_singleton.
    rewrite Forall_forall in Hf. apply Hf in Hi. lia.
  - apply Forall_app. split; [eapply Forall_impl; [exact Hf|]; cbn; lia|]. repeat constructor. lia.
Qed.

Lemma live_delete {A} (f : A -> Z) (l : list A) (i : nat) (n : Z) :
  NoDup (f <$> l) -> Forall (fun i => i < n) (f <$> l) ->
  NoDup (f <$> delete i l) /\ Forall (fun i => i < n) (f <$> delete i l).
Proof.
  intros Hn Hf. rewrite list_fmap_delete. split.
  - eapply sublist_NoDup; [done|apply sublist_delete].
  - by apply Forall_delete.
Qed.

(** An order placed and put on the list keeps everything but the counters. *)
Lemma place_live_inv o px qty bid g :
  gen_inv o g -> 0 < qty < 2 ^ 32 -> next_oid g + 1 < 2 ^ 64 -> next_coid g + 1 < 2 ^ 64 ->
  let g' := (add_live (next_oid g) (gen_place px qty bid false g).2).2 in
  gen_inv o g' /\ next_oid g' = next_oid g + 1 /\ next_coid g' = next_coid g + 1.
Proof.
  intros [Hi Hids Hl [Ho Ho'] [Hc Hc'] [Hn1 Hn2] Hr] Hq Hb1 Hb2.
  pose proof (place_spec px qty bid false g Hi Hq Hids) as (Hi' & Hnew & _). cbn in *.
  rewrite (u64_id (next_oid g + 1)), (u64_id (next_coid g + 1)) by (unfold is_u64; lia).
  split; [|done]. split; cbn; try done; try lia.
  - eapply Forall_impl; [exact Hnew|]. intros x [(y & -> & Hy)%list_elem_of_fmap|[_ ->]]; [|lia].
    rewrite Forall_forall in Hids. apply Hids in Hy. lia.
  - eapply Forall_impl; [exact Hnew|]. intros x Hx. rewrite fmap_app, elem_of_app.
    destruct Hx as [(y & -> & Hy)%list_elem_of_fmap|[_ ->]]; [left|right; by left].
    rewrite Forall_forall in Hl. by apply Hl.
  - by apply (live_snoc snd).
  - by apply (live_snoc fst).
Qed.

(** Counting and writing a row. *)
Ltac count_row :=
  intros [Hi Hids Hl Ho Hc Hn Hr] Ht; split; try done; intros Hm; cbn; rewrite Hm, !tally_snoc, Ht; cbn;
  destruct (Hr Hm) as (-> & -> & ->); rewrite !Z.add_0_r; by rewrite u64_add_l.

Lemma new_row_inv o r g :
  gen_inv o g -> r_type r = 1 -> gen_inv o (with_message o r (count_new g)).
Proof. count_row. Qed.

Lemma cancel_row_inv o r g :
  gen_inv o g -> r_type r = 3 -> gen_inv o (with_message o r (count_cancel g)).
Proof. count_row. Qed.

Lemma exec_row_inv o r g :
  gen_inv o g -> r_type r = 4 -> gen_inv o (with_message o r (count_exec g)).
Proof. count_row. Qed.

(** ** Events *)

Lemma cleared e : trade_log_ e = [] -> clear_trade_log e = e.
Proof. destruct e. cbn. by intros ->. Qed.

Lemma limit_placed o mid px qty (bid : bool) g :
  gen_inv o g -> trade_log_ (g_engine g) = [] -> 0 < px -> 0 < qty < 2 ^ 32 ->
  next_oid g + 1 < 2 ^ 64 -> next_coid g + 1 < 2 ^ 64 ->
  event_ok o mid g (bid, with_message o (mkRow (g_time g) 1 (next_coid g) qty px (if bid then 1 else -1))
    (count_new (add_live (next_oid g) (gen_place px qty bid false g).2).2)).
Proof.
  intros Hg Hlog Hpx Hq Hb1 Hb2. destruct (place_live_inv o px qty bid g Hg Hq Hb1 Hb2) as (Hg' & Hn1 & Hn2).
  destruct (place_spec px qty bid false g (gi_engine _ _ Hg) Hq (gi_ids _ _ Hg)) as (_ & _ & new & Hnew & Hhit).
  rewrite Hlog in Hnew. split_and!.
  - by apply new_row_inv.
  - cbn in *. lia.
  - cbn in *. lia.
  - exists [mkRow (g_time g) 1 (next_coid g) qty px (if bid then 1 else -1)]. split; [cbn; by destruct (msgf o); rewrite ?app_nil_r|].
    refine (rows_entered mid g _ px qty bid _ _ _ _ _); cbn -[clear_trade_log]; [done|done|by rewrite cleared|done|]. cbn in Hnew. by rewrite Hnew.
Qed.

Lemma market_placed o mid qty buy g :
  gen_inv o g -> trade_log_ (g_engine g) = [] -> 0 < qty < 2 ^ 32 -> next_oid g + 1 < 2 ^ 64 ->
  event_ok o mid g (buy, count_market (gen_place 0 qty buy true g).2).
Proof.
  intros [Hi Hids Hl [Ho Ho'] Hc [Hn1 Hn2] Hr] Hlog Hq Hb1.
  destruct (place_spec 0 qty buy true g Hi Hq Hids) as (Hi' & Hnew & tr & Htr & Hhit). rewrite Hlog in Htr. cbn in *.
  assert (Forall (fun o => o_id o ∈ (o_id <$> all_orders (book_ (g_engine g))))
    (all_orders (book_ (g_engine (gen_place 0 qty buy true g).2)))) as Hold.
  { eapply Forall_impl; [exact Hnew|]. intros x [Hx|[? _]]; done. }
  rewrite Forall_forall in Hids, Hl.
  split_and!; cbn; rewrite ?(u64_id (next_oid g + 1)) by (unfold is_u64; lia); try lia.
  - split; cbn; rewrite ?(u64_id (next_oid g + 1)) by (unfold is_u64; lia); try done; try lia.
    + eapply Forall_impl; [exact Hold|]. intros x (y & -> & Hy%Hids)%list_elem_of_fmap. lia.
    + eapply Forall_impl; [exact Hold|]. intros x (y & -> & Hy)%list_elem_of_fmap. by apply Hl.
    + split; [done|]. eapply Forall_impl; [exact Ho'|]. cbn. lia.
  - exists []. split; [cbn; by destruct (msgf o); rewrite app_nil_r|].
    refine (rows_market mid g _ qty buy _ _ _ _); cbn -[clear_trade_log]; [done|by rewrite cleared|done|by rewrite Htr].
Qed.

Lemma live_other idx coid oid id (l : list (Z * Z)) :
  l !! idx = Some (coid, oid) -> id ∈ l.*2 -> id <> oid -> id ∈ (delete idx l).*2.
Proof.
  intros Hi Hin Hne. rewrite (delete_Permutation l idx _ Hi) in Hin. cbn in Hin.
  by apply elem_of_cons in Hin as [->|?].
Qed.

Lemma cancelled o idx coid oid mid g :
  gen_inv o g -> trade_log_ (g_engine g) = [] -> g_live g !! idx = Some (coid, oid) ->
  let '(res, e) := processOrder (mkOrder oid 0 0 BID CANCEL 0) (g_engine g) in
  let g' := mkGen e (delete idx (g_live g)) (next_oid g) (next_coid g) (last_mid g) (logical_ts g) (g_time g)
              (g_seq g) (n_new g) (n_cancel g) (n_market g) (n_exec g) (messages g) (jsonl g) in
  event_ok o mid g
    (false, if accepted res then with_message o (mkRow (g_time g) 3 coid 0 mid 1) (count_cancel g') else g').
Proof.
  intros [Hi Hids Hl [Ho Ho'] [Hc Hc'] Hn Hr] Hlog Hidx.
  pose proof (live_delete snd _ idx _ Ho Ho') as Hod. pose proof (live_delete fst _ idx _ Hc Hc') as Hcd.
  pose proof (processOrder_cancel (mkOrder oid 0 0 BID CANCEL 0) (book_ (g_engine g)) (trade_log_ (g_engine g)) Hi eq_refl) as Hp.
  destruct (g_engine g) as [b lg] eqn:Eg. cbn [o_id book_ trade_log_] in *. subst lg.
  pose proof Hi as (Hw & _ & _).
  destruct (order_loc_ b !! oid) as [[s p]|] eqn:El.
  - destruct Hp as (b' & l1 & x & l2 & -> & Hi' & Hx & Hq & Hq' & Hop). cbn [accepted].
    assert (all_orders b ≡ₚ x :: all_orders b') as Hperm.
    { rewrite (all_orders_perm s b), (all_orders_perm s b').
      change (flat (levels s b)) with (queue s b). change (flat (levels (opposite s) b)) with (queue (opposite s) b).
      change (flat (levels s b')) with (queue s b'). change (flat (levels (opposite s) b')) with (queue (opposite s) b').
      rewrite Hq, Hq', Hop, <- !app_assoc. cbn [app]. by rewrite <- Permutation_middle. }
    pose proof Hw as (_ & _ & Hnd & _). rewrite Hperm, fmap_cons in Hnd. apply NoDup_cons in Hnd as [Hnin _].
    rewrite Hperm in Hids, Hl. apply Forall_cons in Hids as [_ Hids]. apply Forall_cons in Hl as [_ Hl].
    split_and!; cbn [fst snd].
    + apply cancel_row_inv; [|done]. split; cbn; try done.
      rewrite Forall_forall in Hl |- *. intros y Hy. eapply live_other; [done|by apply Hl|].
      intros E. apply Hnin. rewrite Hx, <- E. by apply list_elem_of_fmap_2.
    + cbn. lia.
    + cbn. lia.
    + exists [mkRow (g_time g) 3 coid 0 mid 1]. split; [cbn; by destruct (msgf o); rewrite ?app_nil_r|].
      refine (rows_cancelled mid g _ coid x _ _); cbn; [|by rewrite Eg].
      rewrite Hx. by apply delete_Permutation.
  - rewrite Hp. cbn [accepted]. split_and!; cbn; try lia; try done.
    + split; cbn; try done. rewrite Forall_forall in Hl |- *. intros y Hy. eapply live_other; [done|by apply Hl|].
      intros E. apply (elem_of_all_orders BID) in Hy as [Hy|Hy]; apply (list_elem_of_fmap_2 o_id) in Hy; rewrite E in Hy.
      * exact (loc_none_absent BID _ _ Hw El Hy).
      * exact (loc_none_absent ASK _ _ Hw El Hy).
    + exists []. split; [cbn; by destruct (msgf o); rewrite app_nil_r|].
      refine (rows_gone mid g _ coid oid _ _ _); cbn; [by apply delete_Permutation| |by rewrite Eg].
      rewrite Eg. apply Forall_forall. intros y [Hy|Hy]%(elem_of_all_orders BID) E; apply (list_elem_of_fmap_2 o_id) in Hy; rewrite E in Hy.
      * exact (loc_none_absent BID _ _ Hw El Hy).
      * exact (loc_none_absent ASK _ _ Hw El Hy).
Qed.

Lemma rows_logged o buy trs : forall g,
  gen_inv o g ->
  let g' := foldl (fun g tr => with_message o (trade_row (g_time g) buy tr) (count_exec g)) g trs in
  gen_inv o g' /\ g_engine g' = g_engine g /\ g_live g' = g_live g /\
  next_oid g' = next_oid g /\ next_coid g' = next_coid g /\ g_time g' = g_time g /\
  messages g' = messages g ++ (if msgf o then trade_row (g_time g) buy <$> trs else []).
Proof.
  induction trs as [|tr trs IH]; intros g Hg; cbn [foldl fmap list_fmap].
  - split_and!; try done. destruct (msgf o); by rewrite app_nil_r.
  - destruct (IH _ (exec_row_inv o (trade_row (g_time g) buy tr) g Hg eq_refl)) as (? & -> & -> & -> & -> & -> & ->).
    split_and!; try done. cbn. destruct (msgf o); [|by rewrite !app_nil_r]. by rewrite <- app_assoc.
Qed.

(** The end of a turn: the trades are reported and the book perhaps recorded. *)
Lemma turn_end o mid g r :
  event_ok o mid g r ->
  let g' := write_jsonl o (log_trades o r.1 r.2) in
  gen_inv o g' /\ next_oid g' <= next_oid g + 1 /\ next_coid g' <= next_coid g + 1 /\
  exists new, messages g' = messages g ++ (if msgf o then new else []) /\ event_rows mid g g' new.
Proof.
  intros (Hg & Hn1 & Hn2 & new & Hm & Hnew). destruct r as [buy g1]. cbn [fst snd] in *.
  destruct (rows_logged o buy (trade_log_ (g_engine g1)) g1 Hg) as (Hg2 & He & Hl & Ho & Hc & Ht & Hm2).
  change (foldl _ g1 _) with (log_trades o buy g1) in *. set (g2 := log_trades o buy g1) in *.
  assert (messages g2 = messages g ++ (if msgf o then new ++ trade_rows buy g1 else [])) as Hms.
  { rewrite Hm2, Hm. unfold trade_rows. destruct (msgf o); by rewrite <- ?app_assoc, ?app_nil_r. }
  unfold write_jsonl. destruct (jf o).
  - split; [destruct Hg2; by split|]. cbn. split_and!; [lia|lia|].
    exists (new ++ trade_rows buy g1). split; [done|]. by eapply event_rows_after.
  - split_and!; [done|lia|lia|]. exists (new ++ trade_rows buy g1). split; [done|]. by eapply event_rows_after.
Qed.

Section Turns.

Context (log : double -> double) (o : Options) (p : Params).

Lemma floored px : 0 < (if px <=? 0 then 1 else px).
Proof. destruct (Z.leb_spec px 0); lia. Qed.

Lemma limit_event_ok mid half g :
  gen_inv o g -> trade_log_ (g_engine g) = [] -> next_oid g + 1 < 2 ^ 64 -> next_coid g + 1 < 2 ^ 64 ->
  yields log (limit_event log o p mid half g) (event_ok o mid g).
Proof.
  intros Hg Hlog Hb1 Hb2. unfold limit_event.
  eapply yields_bind; [apply yields_coin|]. intros bid _.
  eapply yields_bind; [apply yields_uniform|]. intros x _.
  eapply yields_bind; [apply yields_placement|]. intros r _.
  eapply yields_bind; [apply yields_size|]. intros qty Hq.
  match goal with |- context [gen_place ?px qty bid false g] =>
    exact (yields_ret log _ _ (limit_placed o mid px qty bid g Hg Hlog (floored _) Hq Hb1 Hb2))
  end.
Qed.

Lemma market_event_ok mid g :
  gen_inv o g -> trade_log_ (g_engine g) = [] -> next_oid g + 1 < 2 ^ 64 ->
  yields log (market_event log p g) (event_ok o mid g).
Proof.
  intros Hg Hlog Hb1. unfold market_event. eapply yields_bind; [apply yields_coin|]. intros buy _.
  eapply yields_bind; [apply yields_size|]. intros qty Hq. apply yields_ret. by apply market_placed.
Qed.

Lemma cancel_event_ok mid g :
  gen_inv o g -> trade_log_ (g_engine g) = [] -> g_live g <> [] ->
  yields log (cancel_event o mid g) (event_ok o mid g).
Proof.
  intros Hg Hlog Hne. unfold cancel_event. eapply yields_bind; [apply yields_uniform|]. intros u _. cbn zeta.
  destruct (g_live g !! _) as [[coid oid]|] eqn:E.
  - pose proof (cancelled o _ coid oid mid g Hg Hlog E) as Hc.
    destruct (processOrder _ _) as [res e]. apply yields_ret. exact Hc.
  - apply lookup_ge_None in E. destruct (g_live g); [done|]. cbn [length] in E. lia.
Qed.

(** What a turn that does not end the loop does. *)
Definition turn_true (g g' : GenState) : Prop :=
  gen_inv o g' /\ next_oid g' <= next_oid g + 1 /\ next_coid g' <= next_coid g + 1 /\
  exists new, messages g' = messages g ++ (if msgf o then new else []) /\ event_rows (mid_of g) g g' new.

Lemma turn_ok g :
  gen_inv o g -> next_oid g + 1 < 2 ^ 64 -> next_coid g + 1 < 2 ^ 64 ->
  yields log (turn log o p g) (fun r => match r with Some g' => turn_true g g' | None => True end).
Proof.
  intros Hg Hb1 Hb2. unfold turn. destruct (negb _); [by apply yields_ret|].
  do 3 (eapply yields_bind; [apply yields_exponential|]; intros ? _).
  destruct (dbl_le _ _); [by apply yields_ret|].
  set (g1 := begin_turn _ _ g). assert (gen_inv o g1) as Hg1 by (destruct Hg; by split).
  eapply (yields_bind _ _ _ (event_ok o (mid_of g) g1)).
  - destruct (SFeqb _ _); [by apply limit_event_ok|]. destruct (_ && _) eqn:E; [|by apply market_event_ok].
    apply andb_true_iff in E as [_ E%negb_true_iff%bool_decide_eq_false]. by apply cancel_event_ok.
  - intros r Hr. apply yields_ret. destruct (turn_end o _ g1 r Hr) as (? & ? & ? & new & ? & Hrows).
    split_and!; try done. exists new. split; [done|]. by eapply event_rows_begin.
Qed.

End Turns.

(** ** Runs *)

Lemma gen0_inv o p : gen_inv o (gen0 p).
Proof.
  split; cbn; try done; [apply engine_inv_empty|..]; split; constructor.
Qed.

Lemma seed_inv o p l : forall g,
  gen_inv o g -> next_oid g + Z.of_nat (length l) < 2 ^ 64 -> next_coid g + Z.of_nat (length l) < 2 ^ 64 ->
  let g' := foldl (seed_order p) g l in
  gen_inv o g' /\ next_oid g' = next_oid g + Z.of_nat (length l) /\ next_coid g' = next_coid g + Z.of_nat (length l).
Proof.
  induction l as [|i l IH]; intros g Hg Hb1 Hb2; cbn [foldl length] in *.
  { split_and!; [done|lia|lia]. }
  set (px := i64 (if i.2 then initial_mid p - i64 (spread_p50 p ÷ 2 + i.1 * spread_p50 p)
    else initial_mid p + i64 (spread_p50 p ÷ 2 + i.1 * spread_p50 p))).
  destruct (place_live_inv o px 100 i.2 g Hg ltac:(lia) ltac:(lia) ltac:(lia)) as (Hg' & E1 & E2).
  change ((add_live (next_oid g) (gen_place px 100 i.2 false g).2).2) with (seed_order p g i) in *.
  destruct (IH _ Hg' ltac:(lia) ltac:(lia)) as (? & -> & ->). split_and!; [done|lia|lia].
Qed.

Section Runs.

Context (log : double -> double) (o : Options) (p : Params).

Lemma turns_inv n : forall g,
  gen_inv o g -> next_oid g + Z.of_nat n < 2 ^ 64 -> next_coid g + Z.of_nat n < 2 ^ 64 ->
  yields log (turns log n o p g)
    (fun r => gen_inv o r.2 /\ next_oid r.2 <= next_oid g + Z.of_nat n /\ next_coid r.2 <= next_coid g + Z.of_nat n).
Proof.
  induction n as [|n IH]; intros g Hg Hb1 Hb2; cbn [turns].
  { apply yields_ret. cbn. split_and!; [done|lia|lia]. }
  eapply yields_bind; [apply (turn_ok log o p g Hg); lia|]. intros [g'|] Hr.
  - destruct Hr as (Hg' & H1 & H2 & _). intros us r us' Hus E.
    destruct (IH g' Hg' ltac:(lia) ltac:(lia) us r us' Hus E) as (? & ? & ? & ?). split_and!; [done|done|lia|lia].
  - apply yields_ret. cbn. split_and!; [done|lia|lia].
Qed.

Lemma seeded_inv :
  let g := seed_book p (gen0 p) in gen_inv o g /\ next_oid g = 21 /\ next_coid g = 21.
Proof. by apply (seed_inv o p seed_slots (gen0 p) (gen0_inv o p)). Qed.

(** C37: [generator_rows_true]. The generator's log tells what happened.
    Whatever the parameters, and whatever draws in [0, 1) make the sizes (the
    logarithms and products they are computed from are not negative), after any
    number of turns, fewer than 2^64 - 22, the state is sound: the book is sound
    and uncrossed, every resting order is on the list cancellations choose from,
    under distinct ids, and the counters are the numbers of rows written. The
    rows the next turn writes are those of what it does, one after the other.
    Either an order is entered under the next client id: the row has the price,
    the quantity and the side of the very order the engine processed, and is
    followed by one row for each trade that made, in order. Or a market order is
    processed, and there is one row for each trade. Or a client id is taken off
    the list: there is a row if, and only if, its order was resting, and then
    that order is the only one gone. A row of a trade has the engine's price and
    quantity and names (by exchange id) an order that rested on the side the
    row's direction gives and was at least as large. (Of a cancelled order the
    row gives the id only: its size is always 0, its price the middle and its
    direction 1.) *)
Theorem generator_rows_true n us ended g us1 g' us2 :
  Z.of_nat n + 22 < 2 ^ 64 -> Forall (draw_ok log) us ->
  zi_run log n o p us = Some (ended, g, us1) -> turn log o p g us1 = Some (Some g', us2) ->
  gen_inv o g /\ gen_inv o g' /\
  exists new, messages g' = messages g ++ (if msgf o then new else []) /\ event_rows (mid_of g) g g' new.
Proof.
  intros Hn Hus Hrun Hturn. pose proof seeded_inv as (Hs & E1 & E2).
  destruct (turns_inv n _ Hs ltac:(lia) ltac:(lia) us _ us1 Hus Hrun) as (Hus1 & Hg & H1 & H2). cbn [snd] in *.
  destruct (turn_ok log o p g Hg ltac:(lia) ltac:(lia) us1 _ us2 Hus1 Hturn) as (_ & Hg' & _ & _ & Hrows). done.
Qed.

End Runs.

(** ** A run *)

(** A stand-in for the logarithm near 1, and a calibration file. *)
Definition log1 (x : double) : double := dbl_sub x (double_of_Z 1).

Definition zi_sample_params_file : text :=
  lit "# calibrated" ++ [ch_newline] ++ lit "spread_p50 = 100" ++ [ch_newline] ++
  lit "placement_edges = 1.0,2" ++ [ch_newline] ++ lit "placement_weights=1,1,1 # per bucket" ++ [ch_newline].

Definition zi_sample_params : Params :=
  match load_params (Some zi_sample_params_file) params0 with inr p => p | inl _ => params0 end.

Definition zi_sample_options : Options := mkOptions true true false (dlit 10 0).

(** A market buy, a bid at the middle, a market sell. *)
Definition zi_sample_uniforms : list double :=
  dlit 9 (-1) :: dlit 9 (-1) :: dlit 1 (-2) :: dlit 1 (-1) :: dlit 9 (-1) :: dlit 0 0 ::
  dlit 1 (-2) :: dlit 9 (-1) :: dlit 9 (-1) :: dlit 1 (-1) :: dlit 5 (-1) :: dlit 0 0 :: dlit 0 0 :: dlit 9 (-1) :: dlit 0 0 ::
  dlit 9 (-1) :: dlit 9 (-1) :: dlit 1 (-2) :: dlit 9 (-1) :: dlit 9 (-1) :: dlit 0 0 :: [].

Lemma zi_sample_uniforms_ok : Forall (draw_ok log1) zi_sample_uniforms.
Proof. repeat constructor; vm_compute; done. Qed.

Definition zi_sample_run (n : nat) : option (bool * GenState * list double) :=
  zi_run log1 n zi_sample_options zi_sample_params zi_sample_uniforms.

Definition zi_sample_state (n : nat) : GenState :=
  match zi_sample_run n with Some (_, g, _) => g | None => gen0 zi_sample_params end.
Definition zi_sample_rest (n : nat) : list double :=
  match zi_sample_run n with Some (_, _, us) => us | None => [] end.

Lemma generator_rows_true_witness :
  zi_run log1 2 zi_sample_options zi_sample_params zi_sample_uniforms = Some (false, zi_sample_state 2, zi_sample_rest 2) /\
  exists new, messages (zi_sample_state 3) = messages (zi_sample_state 2) ++ new /\
    event_rows (mid_of (zi_sample_state 2)) (zi_sample_state 2) (zi_sample_state 3) new /\ tally 4 new = 1.
Proof.
  assert (zi_run log1 2 zi_sample_options zi_sample_params zi_sample_uniforms = Some (false, zi_sample_state 2, zi_sample_rest 2)) as E1 by (vm_compute; reflexivity).
  assert (turn log1 zi_sample_options zi_sample_params (zi_sample_state 2) (zi_sample_rest 2) = Some (Some (zi_sample_state 3), [])) as E2
    by (vm_compute; reflexivity).
  destruct (generator_rows_true log1 zi_sample_options zi_sample_params 2 zi_sample_uniforms false (zi_sample_state 2) (zi_sample_rest 2)
    (zi_sample_state 3) [] ltac:(by vm_compute) zi_sample_uniforms_ok E1 E2) as (_ & _ & new & Hm & Hnew).
  change (if msgf zi_sample_options then new else []) with new in Hm.
  split; [exact E1|]. exists new. split; [exact Hm|]. split; [exact Hnew|].
  rewrite <- (drop_app_length (messages (zi_sample_state 2)) new), <- Hm. vm_compute. reflexivity.
Defined.

(** ** The parameter file *)

Lemma bucket_bound u cum b : (b <= bucket u cum b <= b + pred (length cum))%nat.
Proof.
  revert b. induction cum as [|c [|c' rest] IH]; intros b; [cbn; lia| |].
  { cbn. lia. }
  change (bucket u (c :: c' :: rest) b) with (if dbl_lt c u then bucket u (c' :: rest) (S b) else b).
  destruct (dbl_lt c u); [|cbn; lia]. specialize (IH (S b)). cbn [length pred] in *. lia.
Qed.

(** [placement_in_range]. With a parameter file that loads, the edges
    [sample_placement] reads exist, whatever is drawn. *)
Theorem placement_in_range file p0 p u :
  load_params (Some file) p0 = inr p ->
  let b := bucket u (cumulative (double_of_Z 0) (placement_weights p)) 0 in
  (b <= length (placement_edges p))%nat /\ is_Some (last (placement_edges p)).
Proof.
  unfold load_params. set (q := foldl _ _ _). intros H.
  assert (p = q /\ length (placement_weights q) = length (placement_edges q) + 1 /\ placement_edges q <> [])%nat as (-> & Hl & He).
  { destruct (placement_edges q) as [|x es]; [done|]. destruct (placement_weights q) as [|w ws]; [done|].
    destruct (Nat.eqb_spec (length (w :: ws)) (length (x :: es) + 1)); [|done]. by injection H as <-. }
  assert (forall acc ws, length (cumulative acc ws) = length ws) as Hc.
  { intros acc ws. revert acc. induction ws as [|w ws IH]; intros acc; [done|]. cbn. by rewrite IH. }
  split; [|by apply last_is_Some].
  pose proof (bucket_bound u (cumulative (double_of_Z 0) (placement_weights q)) 0) as Hb. rewrite Hc in Hb. lia.
Qed.
