(* ===== verification/LoadGen.v ===== *)
(** The load generator (bench/loadgen.cpp): arguments, the paced sends and the
    reads of one worker, the whole run and what it reports. A worker's readings
    of the clock and the answers of [send] and [poll] with the [recv]s behind it
    are functions of how many such calls it has made; the calls themselves are
    recorded. The unused field [outbuf] of a client is left out. *)
From Stdlib Require Import String ZArith Lia SpecFloat.
From stdpp Require Import base numbers list gmap sorting.
From S2P Require Import Prelude Bytes Protocol FrameReader Text RiskConfig Session ZiSim.
Import protocol.

Module loadgen.

(** ** Configuration *)

Definition kMaxPollBlockMs : Z := 1.
Definition kDefaultWorkers : Z := 4.

Record Config := mkConfig {
  host : text; port : Z; clients : Z; rate_per_client : double; duration_s : double;
  warmup_s : double; workers : Z; csv : bool; cross : bool;
}.

Definition config0 : Config :=
  mkConfig (lit "127.0.0.1") 9001 10 (double_of_Z 100) (double_of_Z 10) (double_of_Z 2) 0 false false.

Definition i32 (z : Z) : Z := (z + 2 ^ 31) mod 2 ^ 32 - 2 ^ 31.

(** [std::atoi] is [strtol] cut down to an int. *)
Definition atoi (s : text) : Z := i32 (atoll s).

Definition set_host v (c : Config) :=
  mkConfig v (port c) (clients c) (rate_per_client c) (duration_s c) (warmup_s c) (workers c) (csv c) (cross c).
Definition set_port v (c : Config) :=
  mkConfig (host c) v (clients c) (rate_per_client c) (duration_s c) (warmup_s c) (workers c) (csv c) (cross c).
Definition set_clients v (c : Config) :=
  mkConfig (host c) (port c) v (rate_per_client c) (duration_s c) (warmup_s c) (workers c) (csv c) (cross c).
Definition set_rate v (c : Config) :=
  mkConfig (host c) (port c) (clients c) v (duration_s c) (warmup_s c) (workers c) (csv c) (cross c).
Definition set_duration v (c : Config) :=
  mkConfig (host c) (port c) (clients c) (rate_per_client c) v (warmup_s c) (workers c) (csv c) (cross c).
Definition set_warmup v (c : Config) :=
  mkConfig (host c) (port c) (clients c) (rate_per_client c) (duration_s c) v (workers c) (csv c) (cross c).
Definition set_workers v (c : Config) :=
  mkConfig (host c) (port c) (clients c) (rate_per_client c) (duration_s c) (warmup_s c) v (csv c) (cross c).
Definition set_csv (c : Config) :=
  mkConfig (host c) (port c) (clients c) (rate_per_client c) (duration_s c) (warmup_s c) (workers c) true (cross c).
Definition set_cross (c : Config) :=
  mkConfig (host c) (port c) (clients c) (rate_per_client c) (duration_s c) (warmup_s c) (workers c) (csv c) true.

(** The effect of an option that takes a value. *)
Definition valued (a v : text) (c : Config) : option Config :=
  if decide (a = lit "--host") then Some (set_host v c) else
  if decide (a = lit "--port") then Some (set_port (u16 (atoi v)) c) else
  if decide (a = lit "--clients") then Some (set_clients (atoi v) c) else
  if decide (a = lit "--rate") then Some (set_rate (atof v) c) else
  if decide (a = lit "--duration") then Some (set_duration (atof v) c) else
  if decide (a = lit "--warmup") then Some (set_warmup (atof v) c) else
  if decide (a = lit "--workers") then Some (set_workers (atoi v) c) else None.

Definition flag (a : text) (c : Config) : option Config :=
  if decide (a = lit "--csv") then Some (set_csv c) else
  if decide (a = lit "--cross") then Some (set_cross c) else None.

Inductive Args := ArgHelp | ArgUnknown (a : text) | ArgConfig (c : Config).

(** The loop over the arguments; an option at the end takes the empty value. *)
Fixpoint parse_args (args : list text) (c : Config) : Args :=
  match args with
  | [] => ArgConfig c
  | a :: rest =>
      if decide (a = lit "--help") then ArgHelp else
      match flag a c with
      | Some c => parse_args rest c
      | None =>
          match rest with
          | v :: rest => match valued a v c with Some c => parse_args rest c | None => ArgUnknown a end
          | [] => match valued a [] c with Some c => ArgConfig c | None => ArgUnknown a end
          end
      end
  end.

Definition refused (c : Config) : bool :=
  (clients c <=? 0) || dbl_le (rate_per_client c) (double_of_Z 0) || dbl_le (duration_s c) (double_of_Z 0).

Definition worker_count (c : Config) : Z :=
  Z.min (if workers c <=? 0 then Z.min (clients c) kDefaultWorkers else workers c) (clients c).

(** A conversion to a 64-bit unsigned integer truncates; it has no meaning for a
    value out of range. *)
Definition to_u64 (f : double) : option Z :=
  match f with
  | S754_zero _ => Some 0
  | S754_finite s m e =>
      let n := if 0 <=? e then Zpos m * 2 ^ e else Zpos m / 2 ^ (- e) in
      if if s then n =? 0 else n <? 2 ^ 64 then Some n else None
  | _ => None
  end.

Definition k1e9 : double := double_of_Z 1000000000.

Definition interval_of (c : Config) : option Z := to_u64 (dbl_div k1e9 (rate_per_client c)).

(** ** Clients and samples *)

Record Sample := mkSample {
  latencies_ns : list Z; sent : Z; acked : Z; rejected : Z; send_failed : Z;
}.

Definition sample0 : Sample := mkSample [] 0 0 0 0.

Record Client := mkClient {
  fd : Z; reader : FrameReader; next_coid : Z; next_send_ns : Z; in_flight : gmap Z Z;
}.

Definition client0 (fd : Z) : Client := mkClient fd frame_reader0 1 0 ∅.

Definition set_next_send t (c : Client) := mkClient (fd c) (reader c) (next_coid c) t (in_flight c).
Definition set_reader r (c : Client) := mkClient (fd c) r (next_coid c) (next_send_ns c) (in_flight c).
Definition set_in_flight m (c : Client) := mkClient (fd c) (reader c) (next_coid c) (next_send_ns c) m.

(** A call of [send]: the descriptor, the bytes offered, the answer, and how
    often the clock had been read before it. *)
Record Call := mkCall { to_fd : Z; offered : list Z; answer : Z; called_after : nat }.

(** A frame taken from a connection: the descriptor, and the number of the clock
    reading made for it. *)
Record Seen := mkSeen { from_fd : Z; seen_at : nat; seen_frame : Frame }.

(** A worker's own state: how often it read the clock, what it sent, the frames
    it took, the timeouts it passed to [poll], its sample. *)
Record Io := mkIo { reads_ : nat; calls_ : list Call; seen_ : list Seen; polls_ : list Z; out_ : Sample }.

Definition io0 : Io := mkIo 0 [] [] [] sample0.

Definition on_out (f : Sample -> Sample) (w : Io) : Io :=
  mkIo (reads_ w) (calls_ w) (seen_ w) (polls_ w) (f (out_ w)).

(** The record of a frame taken. *)
Definition see (f : Z) (fr : Frame) (w : Io) : Io :=
  mkIo (reads_ w) (calls_ w) (seen_ w ++ [mkSeen f (reads_ w) fr]) (polls_ w) (out_ w).

Definition count_sent (s : Sample) : Sample :=
  mkSample (latencies_ns s) (u64 (sent s + 1)) (acked s) (rejected s) (send_failed s).
Definition count_failed (s : Sample) : Sample :=
  mkSample (latencies_ns s) (sent s) (acked s) (rejected s) (u64 (send_failed s + 1)).
Definition count_rejected (s : Sample) : Sample :=
  mkSample (latencies_ns s) (sent s) (acked s) (u64 (rejected s + 1)) (send_failed s).
Definition count_acked (s : Sample) : Sample :=
  mkSample (latencies_ns s) (sent s) (u64 (acked s + 1)) (rejected s) (send_failed s).
Definition push_latency (l : Z) (s : Sample) : Sample :=
  mkSample (latencies_ns s ++ [l]) (sent s) (acked s) (rejected s) (send_failed s).

(** The order a client sends under an id. *)
Definition order_for (crossing : bool) (coid : Z) : NewOrder :=
  let bid := coid mod 2 =? 0 in
  mkNewOrder coid
    (if crossing then 1000000 + (if bid then 100 else -100) else 1000000 + (if bid then -100 else 100))
    (if crossing then u32 (5 + (coid mod 7) * 3) else 10)
    (if bid then Bid else Ask) Limit.

(** What [poll] reports for a client, with the bytes its [recv]s return from
    there on: [None] when it is not readable. *)
Definition Ready : Type := list (option (list (list Z))).

Section worker.
Context (clock : nat -> Z) (send_answer : nat -> Z) (poll_answer : nat -> Ready).
Context (crossing : bool) (interval_ns warmup_end_ns end_ns : Z).

Definition now_ns (w : Io) : Z * Io := (clock (reads_ w), mkIo (S (reads_ w)) (calls_ w) (seen_ w) (polls_ w) (out_ w)).

(** [::send] *)
Definition send (f : Z) (bytes : list Z) (w : Io) : Z * Io :=
  let n := send_answer (length (calls_ w)) in
  (n, mkIo (reads_ w) (calls_ w ++ [mkCall f bytes n (reads_ w)]) (seen_ w) (polls_ w) (out_ w)).

(** ** Paced sends *)

(** The body of the sending loop. *)
Definition send_order (t : Z) (c : Client) (w : Io) : Client * Io :=
  let coid := next_coid c in
  let frame := encode_frame TNewOrder (order_for crossing coid) in
  let '(send_ts, w) := now_ns w in
  let '(n, w) := send (fd c) frame w in
  let '(flight, w) :=
    if n =? Z.of_nat (length frame)
    then (<[coid := send_ts]> (in_flight c), on_out count_sent w)
    else (in_flight c, on_out count_failed w) in
  let next := u64 (next_send_ns c + interval_ns) in
  let next := if u64 (next + u64 (interval_ns * 100)) <? t then u64 (t + interval_ns) else next in
  (mkClient (fd c) (reader c) (u64 (coid + 1)) next flight, w).

(** [None] when the loop has not ended within [fuel] turns. *)
Fixpoint send_due (fuel : nat) (t : Z) (c : Client) (w : Io) : option (Client * Io) :=
  match fuel with
  | O => None
  | S fuel =>
      if next_send_ns c <=? t
      then let '(c, w) := send_order t c w in send_due fuel t c w
      else Some (c, w)
  end.

(** The loop over the clients, with the earliest time anything is due. *)
Fixpoint send_all (fuel : nat) (t : Z) (cs : list Client) (earliest_due : Z) (w : Io)
    : option (list Client * Z * Io) :=
  match cs with
  | [] => Some ([], earliest_due, w)
  | c :: cs =>
      if fd c <? 0 then
        '(cs, due, w) ← send_all fuel t cs earliest_due w; Some (c :: cs, due, w)
      else
        '(c, w) ← send_due fuel t c w;
        '(cs, due, w) ← send_all fuel t cs (Z.min earliest_due (next_send_ns c)) w;
        Some (c :: cs, due, w)
  end.

(** ** Waiting *)

Definition poll_timeout (earliest_due nowt : Z) : Z :=
  let wake := Z.min earliest_due end_ns in
  if nowt <? wake then Z.min (i32 ((wake - nowt) / 1000000)) kMaxPollBlockMs else 0.

Definition poll (timeout_ms : Z) (w : Io) : Ready * Io :=
  (poll_answer (length (polls_ w)), mkIo (reads_ w) (calls_ w) (seen_ w) (polls_ w ++ [timeout_ms]) (out_ w)).

(** ** Reads *)

Definition on_frame (f : Frame) (c : Client) (w : Io) : Client * Io :=
  let '(recv_ts, w) := now_ns (see (fd c) f w) in
  match mtype_of (h_type (f_header f)) with
  | Some TAck =>
      match decode_Ack (f_payload f) with
      | None => (c, w)
      | Some ack =>
          match in_flight c !! ak_client_order_id ack with
          | None => (c, w)
          | Some send_ts =>
              let w := if warmup_end_ns <=? send_ts
                       then on_out (push_latency (i64 (u64 (recv_ts - send_ts)))) w else w in
              (set_in_flight (delete (ak_client_order_id ack) (in_flight c)) c, on_out count_acked w)
          end
      end
  | Some TReject => (c, on_out count_rejected w)
  | _ => (c, w)
  end.

(** The frames of one [recv]; each takes at least its header. *)
Fixpoint read_frames (fuel : nat) (c : Client) (w : Io) : Client * Io :=
  match fuel with
  | O => (c, w)
  | S fuel =>
      match next_frame (reader c) with
      | (None, r) => (set_reader r c, w)
      | (Some f, r) => let '(c, w) := on_frame f (set_reader r c) w in read_frames fuel c w
      end
  end.

Definition kBuf : Z := 64 * 1024.

(** The [recv] loop: no bytes, an error or the end of the answers end it. The
    answers are a finite list; the code has no other bound, so a peer that always
    has a full buffer ready would keep it here. *)
Fixpoint read_client (chunks : list (list Z)) (c : Client) (w : Io) : Client * Io :=
  match chunks with
  | [] | [] :: _ => (c, w)
  | bytes :: chunks =>
      let c := set_reader (fr_append bytes (reader c)) c in
      let '(c, w) := read_frames (S (buffered (reader c))) c w in
      if Z.of_nat (length bytes) <? kBuf then (c, w) else read_client chunks c w
  end.

Fixpoint read_all (ready : Ready) (cs : list Client) (w : Io) : list Client * Io :=
  match cs, ready with
  | c :: cs, Some chunks :: ready =>
      let '(c, w) := read_client chunks c w in
      let '(cs, w) := read_all ready cs w in (c :: cs, w)
  | c :: cs, None :: ready => let '(cs, w) := read_all ready cs w in (c :: cs, w)
  | _, _ => (cs, w)
  end.

(** ** The worker *)

(** One turn at time [t]. *)
Definition worker_turn (fuel : nat) (t : Z) (cs : list Client) (w : Io) : option (list Client * Io) :=
  '(cs, due, w) ← send_all fuel t cs end_ns w;
  let '(nowt, w) := now_ns w in
  let '(ready, w) := poll (poll_timeout due nowt) w in
  Some (read_all ready cs w).

(** [None] when a loop has not ended within [fuel] turns. *)
Fixpoint worker_loop (sends fuel : nat) (cs : list Client) (w : Io) : option (list Client * Io) :=
  match fuel with
  | O => None
  | S fuel =>
      let '(t, w) := now_ns w in
      if end_ns <=? t then Some (cs, w) else
      '(cs, w) ← worker_turn sends t cs w;
      worker_loop sends fuel cs w
  end.

Definition run_worker (sends fuel : nat) (start_ns : Z) (cs : list Client) : option (list Client * Io) :=
  worker_loop sends fuel (set_next_send start_ns <$> cs) io0.

End worker.

(** ** The run *)

(** What opening a connection meets: the descriptor of [socket], whether the host
    is an address, and the answer of [connect]. The socket options set after that
    do not decide anything. *)
Record DialCalls := mkDial { d_socket : Z; d_address : bool; d_connect : Z }.

Definition dial (d : DialCalls) : Z :=
  if d_socket d <? 0 then -1 else
  if negb (d_address d) then -1 else
  if d_connect d <? 0 then -1 else d_socket d.

Definition connections (dials : nat -> DialCalls) (n : nat) : list Z := (fun i => dial (dials i)) <$> seq 0 n.

(** [per_worker[i % nworkers].push_back(c)] *)
Definition assign (nworkers : nat) (i : nat) (c : Client) (per_worker : list (list Client)) : list (list Client) :=
  alter (fun cs => cs ++ [c]) (i mod nworkers)%nat per_worker.

(** Connecting, by the descriptors [dial] returned; [inl] the first that failed. *)
Fixpoint connect_all (nworkers i : nat) (fds : list Z) (per_worker : list (list Client)) : nat + list (list Client) :=
  match fds with
  | [] => inr per_worker
  | f :: fds =>
      if f <? 0 then inl i else connect_all nworkers (S i) fds (assign nworkers i (client0 f) per_worker)
  end.

Definition add_sample (all s : Sample) : Sample :=
  mkSample (latencies_ns all ++ latencies_ns s) (u64 (sent all + sent s)) (u64 (acked all + acked s))
    (u64 (rejected all + rejected s)) (u64 (send_failed all + send_failed s)).

Definition merge (samples : list Sample) : Sample :=
  let all := foldl add_sample sample0 samples in
  mkSample (merge_sort Z.le (latencies_ns all)) (sent all) (acked all) (rejected all) (send_failed all).

(** [None] for a read outside the vector. *)
Definition percentile (sorted : list Z) (q : double) : option Z :=
  match sorted with
  | [] => Some 0
  | _ => i ← to_u64 (dbl_mul (double_of_Z (Z.of_nat (length sorted - 1))) q); sorted !! Z.to_nat i
  end.

Definition us (ns : Z) : double := dbl_div (double_of_Z ns) (double_of_Z 1000).

(** The figures printed; latencies go through [us]. *)
Record Report := mkReport {
  rp_sample : Sample; rp_workers : Z; rp_connected : Z; rp_achieved : double; rp_offered : double; rp_percent : double;
  rp_p50 : option Z; rp_p90 : option Z; rp_p99 : option Z; rp_p999 : option Z; rp_max : Z; rp_exit : Z;
}.

Definition report (cfg : Config) (all : Sample) : Report :=
  let l := latencies_ns all in
  let achieved := dbl_div (double_of_Z (Z.of_nat (length l))) (duration_s cfg) in
  let offered := dbl_mul (double_of_Z (clients cfg)) (rate_per_client cfg) in
  mkReport all (worker_count cfg) (clients cfg) achieved offered
    (if dbl_lt (double_of_Z 0) offered
     then dbl_div (dbl_mul (double_of_Z 100) achieved) offered else double_of_Z 0)
    (percentile l (dlit 50 (-2))) (percentile l (dlit 90 (-2))) (percentile l (dlit 99 (-2)))
    (percentile l (dlit 999 (-3))) (default 0 (last l))
    (match l with [] => if csv cfg then 0 else 1 | _ => 0 end).

(** What each worker meets: its clock and the kernel's answers. *)
Record World := mkWorld { w_clock : nat -> Z; w_send : nat -> Z; w_poll : nat -> Ready }.

Inductive Exit := Helped | Unknown (a : text) | Refused | ConnectFailed (i : nat) | NoMeaning | Unfinished | Reported (r : Report).

(** [main]: [dials] is what opening each connection meets, [start] the clock's reading before the
    workers start. *)
Definition main (sends fuel : nat) (args : list text) (dials : nat -> DialCalls) (start : Z) (worlds : nat -> World) : Exit :=
  match parse_args args config0 with
  | ArgHelp => Helped
  | ArgUnknown a => Unknown a
  | ArgConfig cfg =>
      if refused cfg then Refused else
      let nworkers := Z.to_nat (worker_count cfg) in
      match connect_all nworkers 0 (connections dials (Z.to_nat (clients cfg))) (replicate nworkers []) with
      | inl i => ConnectFailed i
      | inr per_worker =>
          match interval_of cfg, to_u64 (dbl_mul (warmup_s cfg) k1e9),
                to_u64 (dbl_mul (dbl_add (warmup_s cfg) (duration_s cfg)) k1e9) with
          | Some interval, Some warm, Some total =>
              let warmup_end := u64 (start + warm) in
              let end_ns := u64 (start + total) in
              match mapM (fun '(k, cs) => run_worker (w_clock (worlds k)) (w_send (worlds k)) (w_poll (worlds k))
                            (cross cfg) interval warmup_end end_ns sends fuel start cs)
                      (imap pair per_worker) with
              | None => Unfinished
              | Some rs => Reported (report cfg (merge ((fun r => out_ r.2) <$> rs)))
              end
          | _, _, _ => NoMeaning
          end
      end
  end.

End loadgen.
