(* ===== verification/ToolArgs.v ===== *)
(** The programs around the models of the tools: the arguments, exit codes and
    printed figures of tools/wal_verify.cpp, tools/zi_paper.cpp and
    tools/zi_sim.cpp. [std::pow] and the outputs of the random generators are
    arguments; how a figure is printed is not modelled. *)
From Stdlib Require Import String ZArith Lia SpecFloat.
From stdpp Require Import base numbers gmap list.
From S2P Require Import Prelude Types OrderBook Engine Text RiskConfig RiskFile Session Wal Snapshot GatewayArgs.
From S2P Require Import WalVerify ZiPaper.
From S2P Require Import ZiSim LoadGen.

(** ** The log verifier *)

Record VerifyOptions := mkVerify { vo_wal : text; vo_snapshot : text; vo_risk : text; vo_dump : bool }.

Definition verify0 : VerifyOptions := mkVerify [] [] [] false.

(** [None]: the usage text is printed. *)
Fixpoint verify_args (args : list text) (o : VerifyOptions) : option VerifyOptions :=
  match args with
  | [] => Some o
  | a :: rest =>
      match rest with
      | v :: rest' =>
          if decide (a = lit "--wal") then verify_args rest' (mkVerify v (vo_snapshot o) (vo_risk o) (vo_dump o)) else
          if decide (a = lit "--snapshot") then verify_args rest' (mkVerify (vo_wal o) v (vo_risk o) (vo_dump o)) else
          if decide (a = lit "--risk") then verify_args rest' (mkVerify (vo_wal o) (vo_snapshot o) v (vo_dump o)) else
          if decide (a = lit "--dump") then verify_args rest (mkVerify (vo_wal o) (vo_snapshot o) (vo_risk o) true) else None
      | [] =>
          if decide (a = lit "--dump") then verify_args rest (mkVerify (vo_wal o) (vo_snapshot o) (vo_risk o) true) else None
      end
  end.

(** The exit code and the digest printed. *)
Definition verify_exit (x : verify.Outcome) : Z * option Z :=
  match x with
  | verify.CannotRead => (2, None)
  | verify.SequenceGap _ => (3, None)
  | verify.Insane => (4, None)
  | verify.Verified _ d => (0, Some d)
  end.

(** [main], over the text files and the binary ones by path. *)
Definition verify_main (texts : text -> option text) (files : text -> option (list Z)) (args : list text) : Z * option Z :=
  match verify_args args verify0 with
  | None => (2, None)
  | Some o =>
      if negb (configured (vo_wal o)) then (2, None) else
      match (if configured (vo_risk o) then load (texts (vo_risk o)) risk_config0 else inr risk_config0) with
      | inl _ => (2, None)
      | inr risk =>
          verify_exit (verify.wal_verify risk
            (if configured (vo_snapshot o) then Some (files (vo_snapshot o)) else None) (files (vo_wal o)))
      end
  end.

(** What [--dump] lists of a side: price, total quantity, number of orders. *)
Definition vdump_side (ls : list (Z * list verify.VOrder)) : list (Z * Z * nat) :=
  (fun '(px, dq) => (px, foldl (fun t o => u64 (t + verify.v_quantity o)) 0 dq, length dq)) <$> ls.

Definition vdump (b : verify.SimpleBook) : list (Z * Z * nat) * list (Z * Z * nat) :=
  (vdump_side (verify.bids b), vdump_side (verify.asks b)).

(** ** The simulator of the paper *)

Definition paper_config0 : ZiPaper.Config :=
  let zero := double_of_Z 0 in
  ZiPaper.mkConfig zero zero zero zero zero (Z.to_nat 2000000) (dlit 2 (-1)) (double_of_Z 50).

(** The effect of an option with a value. The seed only selects the draws. *)
Definition paper_valued (a v : text) (c : ZiPaper.Config) : option ZiPaper.Config :=
  let 'ZiPaper.mkConfig al mu de si dp ev wf wp := c in
  if decide (a = lit "--alpha") then Some (ZiPaper.mkConfig (atof v) mu de si dp ev wf wp) else
  if decide (a = lit "--mu") then Some (ZiPaper.mkConfig al (atof v) de si dp ev wf wp) else
  if decide (a = lit "--delta") then Some (ZiPaper.mkConfig al mu (atof v) si dp ev wf wp) else
  if decide (a = lit "--sigma") then Some (ZiPaper.mkConfig al mu de (atof v) dp ev wf wp) else
  if decide (a = lit "--dp") then Some (ZiPaper.mkConfig al mu de si (atof v) ev wf wp) else
  if decide (a = lit "--events") then Some (ZiPaper.mkConfig al mu de si dp (Z.to_nat (strtoull v)) wf wp) else
  if decide (a = lit "--width-pc") then Some (ZiPaper.mkConfig al mu de si dp ev wf (atof v)) else
  if decide (a = lit "--seed") then Some c else None.

Inductive PaperArgs := PaperHelp | PaperUnknown (a : text) | PaperRun (c : ZiPaper.Config) (header scan : bool).

(** An option at the end takes the empty value. *)
Fixpoint paper_args (args : list text) (c : ZiPaper.Config) (header scan : bool) : PaperArgs :=
  match args with
  | [] => PaperRun c header scan
  | a :: rest =>
      if decide (a = lit "--no-header") then paper_args rest c false scan else
      if decide (a = lit "--width-scan") then paper_args rest c header true else
      if decide (a = lit "--help") then PaperHelp else
      if decide (a = lit "-h") then PaperHelp else
      match rest with
      | v :: rest => match paper_valued a v c with Some c => paper_args rest c header scan | None => PaperUnknown a end
      | [] => match paper_valued a [] c with Some c => PaperRun c header scan | None => PaperUnknown a end
      end
  end.

Section paper.
(** [std::pow] *)
Context (pow : double -> double -> double).

Definition f_eps (eps : double) : double := dbl_add (dlit 28 (-2)) (dbl_mul (dlit 186 (-2)) (pow eps (dlit 75 (-2)))).

(** The figures of a row of the table. *)
Record PaperRow := mkRowP {
  pr_header : bool; pr_eps : double; pr_tick_ratio : double; pr_half : Z; pr_s_hat : double; pr_s_sim : double;
  pr_ratio : double; pr_resting : double; pr_wide : double;
}.

(** [run_one]: the row, with the id counter of [Order::make]; [None]: 2 is
    returned. *)
Definition run_row (c : ZiPaper.Config) (header : bool) (next : Z) (ds : list ZiPaper.Draws) : option (PaperRow * Z) :=
  '(st, r) ← ZiPaper.run_one c next ds;
  let eps := dbl_div (dbl_mul (ZiPaper.delta c) (ZiPaper.sigma c)) (ZiPaper.mu c) in
  let p_c := dbl_div (ZiPaper.mu c) (ZiPaper.alpha c) in
  let s_hat := dbl_mul p_c (f_eps eps) in
  let '(_, mean_log, mean_resting) := ZiPaper.means c r in
  let ratio := if dbl_lt (double_of_Z 0) s_hat then dbl_div mean_log s_hat else double_of_Z 0 in
  let n := Z.of_nat (ZiPaper.events c) in
  let wide := if n =? 0 then double_of_Z 0
              else dbl_div (dbl_mul (double_of_Z 100) (double_of_Z (ZiPaper.boundary_hits r))) (double_of_Z n) in
  Some (mkRowP header eps (dbl_div (ZiPaper.dp c) p_c) (ZiPaper.half_ticks c) s_hat mean_log ratio mean_resting wide,
        ZiPaper.next_id st).

Definition scan_widths : list double := [dlit 125 (-1); double_of_Z 25; double_of_Z 50; double_of_Z 100; double_of_Z 200].

Definition set_width (w : double) (c : ZiPaper.Config) : ZiPaper.Config :=
  let 'ZiPaper.mkConfig al mu de si dp ev wf _ := c in ZiPaper.mkConfig al mu de si dp ev wf w.

(** The scan from run [k] on: the exit code and the rows printed. *)
Fixpoint scan_loop (ws : list double) (k : nat) (first : bool) (c : ZiPaper.Config) (next : Z)
    (draws : nat -> list ZiPaper.Draws) : Z * list PaperRow :=
  match ws with
  | [] => (0, [])
  | w :: ws =>
      match run_row (set_width w c) first next (draws k) with
      | None => (2, [])
      | Some (row, next) => let '(code, rows) := scan_loop ws (S k) false c next draws in (code, row :: rows)
      end
  end.

Definition paper_main (args : list text) (draws : nat -> list ZiPaper.Draws) : Z * list PaperRow :=
  match paper_args args paper_config0 true false with
  | PaperHelp => (0, [])
  | PaperUnknown _ => (2, [])
  | PaperRun c header false =>
      match run_row c header 1 (draws 0%nat) with Some (row, _) => (0, [row]) | None => (2, []) end
  | PaperRun c _ true => scan_loop scan_widths 0 true c 1 draws
  end.

(** A width does not decide whether the parameters are accepted: the scan prints
    all its rows, the first with the header, or none. *)
Lemma scan_all_or_nothing ws : forall k first c next draws,
  (scan_loop ws k first c next draws).1 = 0 /\ length (scan_loop ws k first c next draws).2 = length ws \/
  (scan_loop ws k first c next draws).1 = 2 /\ (scan_loop ws k first c next draws).2 = [].
Proof.
  assert (forall w v c next next' ds ds', is_Some (ZiPaper.run_one (set_width w c) next ds) ->
    is_Some (ZiPaper.run_one (set_width v c) next' ds')) as Hw.
  { intros w v [al mu de si dp ev wf wp] next next' ds ds'. unfold ZiPaper.run_one, set_width.
    cbn [ZiPaper.alpha ZiPaper.mu ZiPaper.delta ZiPaper.sigma ZiPaper.dp]. destruct (_ || _); [by intros [? ?]|done]. }
  assert (forall w c b next ds, is_Some (run_row (set_width w c) b next ds) <-> is_Some (ZiPaper.run_one (set_width w c) next ds)) as Hr.
  { intros. unfold run_row. destruct (ZiPaper.run_one _ _ _) as [[st r]|]; [|by split; intros [? ?]]. cbn [mbind option_bind].
    destruct (ZiPaper.means _ r) as [[? ?] ?]. split; intros _; by eexists. }
  intros k first c next draws. destruct (decide (is_Some (ZiPaper.run_one (set_width (double_of_Z 0) c) 1 []))) as [Hs|Hs].
  - left. revert k first next. induction ws as [|w ws IH]; intros k first next; [done|]. cbn [scan_loop length].
    destruct (proj2 (Hr w c first next (draws k)) (Hw _ w c _ next _ (draws k) Hs)) as [[row next'] ->].
    specialize (IH (S k) false next'). destruct (scan_loop _ _ _ _ _ _) as [code rows]. cbn in *. naive_solver.
  - destruct ws as [|w ws]; [by left|]. right. cbn [scan_loop].
    destruct (run_row _ _ _ _) as [[row next']|] eqn:E; [|done]. exfalso. apply Hs.
    apply (Hw w _ c next 1 (draws k) []). apply (Hr w c first). by rewrite E.
Qed.

End paper.

(** ** The generator *)

Record SimArgs := mkSimArgs {
  sa_config : text; sa_messages : text; sa_jsonl : text; sa_seed : Z; sa_duration : double; sa_fixed : bool;
}.

Definition sim_args0 : SimArgs := mkSimArgs [] [] [] 1 (double_of_Z 3600) true.

Definition sim_valued (a v : text) (o : SimArgs) : option SimArgs :=
  let 'mkSimArgs cf ms js se du fi := o in
  if decide (a = lit "--config") then Some (mkSimArgs v ms js se du fi) else
  if decide (a = lit "--messages") then Some (mkSimArgs cf v js se du fi) else
  if decide (a = lit "--jsonl") then Some (mkSimArgs cf ms v se du fi) else
  if decide (a = lit "--seed") then Some (mkSimArgs cf ms js (u32 (loadgen.atoi v)) du fi) else
  if decide (a = lit "--duration") then Some (mkSimArgs cf ms js se (atof v) fi) else None.

(** [None]: the usage text. *)
Fixpoint sim_args (args : list text) (o : SimArgs) : option SimArgs :=
  match args with
  | [] => Some o
  | a :: rest =>
      if decide (a = lit "--adaptive-scale")
      then sim_args rest (mkSimArgs (sa_config o) (sa_messages o) (sa_jsonl o) (sa_seed o) (sa_duration o) false)
      else match rest with
           | v :: rest => o ← sim_valued a v o; sim_args rest o
           | [] => sim_valued a [] o
           end
  end.

(** The figures of the closing summary: counters, best prices (-1 when there is
    none), numbers of levels, digest. *)
Record SimSummary := mkSummary {
  ss_seed : Z; ss_duration : double; ss_new : Z; ss_cancels : Z; ss_markets : Z; ss_execs : Z;
  ss_bid : Z; ss_ask : Z; ss_bids : nat; ss_asks : nat; ss_digest : Z;
}.

Definition summary (o : SimArgs) (g : GenState) : SimSummary :=
  let b := book_ (g_engine g) in
  mkSummary (sa_seed o) (sa_duration o) (n_new g) (n_cancel g) (n_market g) (n_exec g)
    (default (-1) (best_bid_ticks b)) (default (-1) (best_ask_ticks b))
    (length (bid_levels_ticks 100 b)) (length (ask_levels_ticks 100 b)) (digest b).

Inductive SimExit := SimUsage | SimNoConfig | SimBadParams (e : ParamsError) | SimUnfinished | SimDone (g : GenState) (s : SimSummary).

(** [main]: the files by path, which paths can be written, [std::log], and what
    the generator draws for a seed; at most [n] turns of the loop. *)
Definition sim_main (log : double -> double) (n : nat) (files : text -> option text) (writable : text -> bool)
    (draws : Z -> list double) (args : list text) : SimExit :=
  match sim_args args sim_args0 with
  | None => SimUsage
  | Some o =>
      if negb (configured (sa_config o)) then SimNoConfig else
      match load_params (files (sa_config o)) params0 with
      | inl e => SimBadParams e
      | inr p =>
          let out := ZiSim.mkOptions (sa_fixed o) (configured (sa_messages o) && writable (sa_messages o))
                       (configured (sa_jsonl o) && writable (sa_jsonl o)) (sa_duration o) in
          match zi_run log n out p (draws (sa_seed o)) with
          | Some (true, g, _) => SimDone g (summary o g)
          | _ => SimUnfinished
          end
      end
  end.

(** Given a log and a snapshot by path, the verifier's exit is that of the
    verification of those files, and its code is 0 exactly when it prints a
    digest. *)
Lemma verify_main_files texts files w s :
  w <> [] -> s <> [] ->
  verify_main texts files [lit "--wal"; w; lit "--snapshot"; s] =
    verify_exit (verify.wal_verify risk_config0 (Some (files s)) (files w)) /\
  (forall x, (verify_exit x).1 = 0 <-> is_Some (verify_exit x).2).
Proof.
  intros Hw Hs. split.
  - unfold verify_main. change (verify_args _ _) with (Some (mkVerify w s [] false)). cbn [vo_wal vo_snapshot vo_risk].
    unfold configured. rewrite (bool_decide_false (w = [])), (bool_decide_false (s = [])) by done. done.
  - intros [| | |n d]; cbn; split; intros H; first [done | by eexists | by destruct H].
Qed.
