(* ===== verification/Benchmarker.v ===== *)
(** The micro-benchmark wrapper (include/benchmarker.h) and the demo program
    (src/main.cpp). The readings of the clock, in nanoseconds, are a function of
    how many were taken; the index of a percentile is computed in doubles, and
    this file shows that it stays inside the samples, for the wrapper and for the
    load generator. *)
From Stdlib Require Import String ZArith Lia SpecFloat Reals Lra.
From stdpp Require Import base numbers list gmap sorting.
From S2P Require Import Prelude Types OrderBook BookFacts Engine EngineProps Text RiskConfig Session Rounding ZiSim LoadGen.
Import loadgen.

(** ** Percentiles *)

(** [None] for a read outside the vector. *)
Definition percentile_sorted (sorted : list Z) (q : double) : option Z :=
  match sorted with
  | [] => Some 0
  | _ =>
      let n := length sorted in
      idx ← to_u64 (dbl_mul (double_of_Z (Z.of_nat (n - 1))) q);
      sorted !! Z.to_nat idx
  end.

(** ** The wrapper *)

Record Benchmarker := mkBenchmarker { engine_ : MatchingEngine; last_latency_ns_ : list Z; optimizer_sink_ : Z }.

Definition benchmarker (e : MatchingEngine) : Benchmarker := mkBenchmarker e [] 0.

Section bench.
Context (clock : nat -> Z).

(** One timed order, the [k]-th of the run. *)
Definition time_order (k : nat) (o : Order) (b : Benchmarker) : Benchmarker :=
  let t0 := clock (2 * k) in
  let e := (processOrder o (engine_ b)).2 in
  let t1 := clock (2 * k + 1) in
  let ns := i64 (t1 - t0) in
  let latencies := last_latency_ns_ b ++ [ns] in
  let sink := Z.lxor (optimizer_sink_ b) (u64 ns) in
  mkBenchmarker e latencies (u64 (sink + u32 (Z.of_nat (length latencies)))).

Fixpoint time_orders (k : nat) (os : list Order) (b : Benchmarker) : Benchmarker :=
  match os with
  | [] => b
  | o :: os => time_orders (S k) os (time_order k o b)
  end.

(** The benchmark and the percentiles it prints. *)
Definition run_latency (os : list Order) (b : Benchmarker) : Benchmarker * (option Z * option Z * option Z) :=
  let b := time_orders 0 os (mkBenchmarker (engine_ b) [] (optimizer_sink_ b)) in
  let sorted := merge_sort Z.le (last_latency_ns_ b) in
  (b, (percentile_sorted sorted (dlit 50 (-2)), percentile_sorted sorted (dlit 99 (-2)),
       percentile_sorted sorted (dlit 999 (-3)))).

Definition side_number (s : Side) : Z := match s with BID => 0 | ASK => 1 end.

(** One order of the throughput run. *)
Definition push_order (b : Benchmarker) (o : Order) : Benchmarker :=
  let e := (processOrder o (engine_ b)).2 in
  let sink := Z.lxor (optimizer_sink_ b) (o_id o) in
  let sink := u64 (sink + o_quantity o) in
  mkBenchmarker e (last_latency_ns_ b) (Z.lxor sink (Z.shiftl (side_number (o_side o)) 16)).

(** The run and the seconds and orders per second it prints; the duration comes
    from nanoseconds by one division. *)
Definition run_throughput (os : list Order) (b : Benchmarker) : Benchmarker * double * double :=
  let t0 := clock 0 in
  let b := foldl push_order b os in
  let t1 := clock 1 in
  let sec := dbl_div (double_of_Z (t1 - t0)) (double_of_Z 1000000000) in
  let ops := if dbl_lt (double_of_Z 0) sec then dbl_div (double_of_Z (Z.of_nat (length os))) sec else double_of_Z 0 in
  (b, sec, ops).

End bench.

(** ** The demo *)

(** [main]: the line it prints, for the first id [Order::make] assigns. *)
Definition demo_main (next : Z) : text :=
  let '(bid, next) := order_make next 100 10 BID LIMIT 1 in
  let book := addOrder bid empty_book in
  let '(ask, next) := order_make next 101 5 ASK LIMIT 2 in
  let book := addOrder ask book in
  lit "orders added; cancel bid: " ++ (if (cancelOrder 1 book).1 then lit "1" else lit "0").

(** ** The index of a percentile *)

(** A fraction below one with some room, as a double in canonical form. *)
Definition fraction (q : double) : Prop :=
  exists m, q = S754_finite false m (-53) /\ canon q /\ Zpos m <= 2 ^ 53 - 2 ^ 42.

Lemma fraction_val m : Zpos m <= 2 ^ 53 - 2 ^ 42 -> (0 <= fval (Zpos m) (-53) <= 1 - bp (-11))%R.
Proof.
  intros H. split; [by apply fval_nonneg|]. eapply Rle_trans; [by apply fval_mono|]. unfold fval.
  rewrite minus_IZR, !bp_IZR by lia. rewrite Rmult_minus_distr_r, <- !bp_add. apply Rle_refl.
Qed.

(** Two roundings do not make up for that room. *)
Lemma room_left n q : (1 <= n)%R -> (0 <= q <= 1 - bp (-11))%R -> (grow (grow n * q) <= n)%R.
Proof.
  intros Hn Hq. assert (bp (-11) = / 2048)%R as E11 by (unfold bp, powerRZ; simpl; f_equal; lra).
  assert (bp (-20) = / 1048576)%R as E20 by (unfold bp, powerRZ; simpl; f_equal; lra).
  pose proof (bp_le (-52) (-20) ltac:(lia)) as L1. pose proof (bp_le (-1074) (-20) ltac:(lia)) as L2.
  pose proof (bp_pos (-52)) as P1. pose proof (bp_pos (-1074)) as P2. rewrite E11 in Hq. rewrite E20 in L1, L2.
  assert (grow n <= n * (1 + / 1048576))%R as G1 by (apply Rmax_lub; nra).
  assert (0 <= grow n)%R as G0 by (pose proof (grow_ge n); lra).
  assert (0 <= grow n * q <= n * (1 - / 4096))%R as [Y0 Y1].
  { split; [apply Rmult_le_pos; lra|]. apply (Rle_trans _ (n * (1 + / 1048576) * (1 - / 2048))); [apply Rmult_le_compat; lra|nra]. }
  apply Rmax_lub; nra.
Qed.

Lemma to_u64_up f n : 0 <= n < 2 ^ 64 -> up f (IZR n) -> exists i, to_u64 f = Some i /\ 0 <= i <= n.
Proof.
  intros Hn Hu. destruct f as [s|[]| |[] m e]; cbn [up to_u64] in *; try done.
  - exists 0. split; [done|lia].
  - exfalso. pose proof (bp_le 64 971 ltac:(lia)) as L. rewrite <- (bp_IZR 64) in L by lia.
    pose proof (IZR_lt n (2 ^ 64) ltac:(lia)). lra.
  - assert (forall i, (IZR i <= fval (Zpos m) e)%R -> i <= n) as Hi.
    { intros i Hi. apply le_IZR. lra. }
    destruct (Z.leb_spec 0 e) as [He|He].
    + assert (Zpos m * 2 ^ e <= n) as Hle.
      { apply Hi. unfold fval. rewrite mult_IZR, bp_IZR by lia. lra. }
      rewrite (proj2 (Z.ltb_lt _ _)) by lia. eexists. split; [done|]. split; [|done]. apply Z.mul_nonneg_nonneg; [lia|].
      by apply Z.pow_nonneg.
    + assert (Zpos m / 2 ^ (- e) <= n) as Hle.
      { apply Hi. pose proof (fval_shift (Zpos m) e 0 ltac:(lia) ltac:(lia)) as F. unfold fval at 1 in F.
        change (bp 0) with 1%R in F. rewrite Rmult_1_r in F. by replace (0 - e) with (- e) in F by lia. }
      rewrite (proj2 (Z.ltb_lt _ _)) by lia. eexists. split; [done|]. split; [|done]. apply Z.div_pos; [lia|].
      apply Z.pow_pos_nonneg; lia.
Qed.

Lemma index_in_range n q : 0 <= n < 2 ^ 64 -> fraction q ->
  exists i, to_u64 (dbl_mul (double_of_Z n) q) = Some i /\ 0 <= i <= n.
Proof.
  intros Hn (m & -> & Hc & Hm). pose proof (fraction_val m Hm) as Hq. destruct (decide (n = 0)) as [->|Hne].
  { exists 0. done. }
  assert (1 <= IZR n)%R as Hr by (apply (IZR_le 1); lia). destruct (of_Z_up n ltac:(lia)) as [Cn Un].
  destruct (double_of_Z n) as [s|[]| |[] mn en]; cbn [up] in Un; try done.
  - exists 0. split; [done|lia].
  - exfalso. pose proof (bp_le 66 971 ltac:(lia)) as L. rewrite <- (bp_IZR 66) in L by lia.
    pose proof (IZR_lt n (2 ^ 64) ltac:(lia)) as L1. pose proof (bp_le (-52) 0 ltac:(lia)) as L2. pose proof (bp_le (-1074) 0 ltac:(lia)) as L3.
    change (bp 0) with 1%R in L2, L3. assert (grow (IZR n) <= IZR n * 2)%R as G by (apply Rmax_lub; nra).
    assert (IZR n * 2 < IZR (2 ^ 66))%R by (rewrite <- mult_IZR; apply IZR_lt; lia). lra.
  - apply to_u64_up; [done|]. destruct (mul_up mn en m (-53) Cn Hc) as [_ Hu]. cbv zeta in Hu.
    assert (grow (fval (Zpos mn) en * fval (Zpos m) (-53)) <= IZR n)%R as Hg.
    { eapply Rle_trans; [|by apply (room_left _ _ Hr Hq)]. unfold grow at 1 2.
      assert (fval (Zpos mn) en * fval (Zpos m) (-53) <= grow (IZR n) * fval (Zpos m) (-53))%R as Hmul by (apply Rmult_le_compat_r; lra).
      pose proof (bp_pos (-52)). apply Rmax_lub; [apply grow_rel|apply grow_abs]; nra. }
    destruct (dbl_mul _ _) as [|[]| |[] ? ?]; cbn [up] in *; try done; lra.
Qed.

Lemma printed_fractions : Forall fraction [dlit 50 (-2); dlit 90 (-2); dlit 99 (-2); dlit 999 (-3)].
Proof. repeat constructor; (eexists; split_and!; [vm_compute; reflexivity|vm_compute; reflexivity|vm_compute; discriminate]). Qed.

(** The wrapper and the load generator compute the same. *)
Lemma percentile_same l q : percentile l q = percentile_sorted l q.
Proof. by destruct l. Qed.

Lemma percentile_sample l q : Z.of_nat (length l) < 2 ^ 64 -> l <> [] -> fraction q ->
  exists i x, percentile_sorted l q = Some x /\ l !! i = Some x.
Proof.
  intros Hl Hne Hq. destruct l as [|a l]; [done|]. clear Hne. cbn [percentile_sorted].
  destruct (index_in_range (Z.of_nat (length (a :: l) - 1)) q) as (i & -> & Hi); [cbn [length] in *; lia|done|].
  cbn [mbind option_bind]. destruct (lookup_lt_is_Some_2 (a :: l) (Z.to_nat i)) as [x Hx]; [cbn [length] in *; lia|].
  exists (Z.to_nat i), x. by rewrite Hx.
Qed.

(** In a sorted list nothing is above the last. *)
Lemma sorted_last (l : list Z) i x : Sorted Z.le l -> l !! i = Some x -> x <= default 0 (last l).
Proof.
  intros Hs Hx. apply Sorted_StronglySorted in Hs; [|intros ? ? ?; lia].
  revert i x Hx. induction Hs as [|a l Hs IH Ha]; intros i x Hx; [done|]. rewrite last_cons.
  destruct i as [|i]; cbn in Hx.
  - simplify_eq. destruct (last l) as [y|] eqn:E; cbn; [|lia]. rewrite Forall_forall in Ha. apply Ha.
    by apply last_Some_elem_of in E.
  - specialize (IH i x Hx). destruct (last l) as [y|] eqn:E; [done|]. apply last_None in E. by subst.
Qed.

(** ** Runs *)

(** Timing does not change what the engine does, and gives a figure per order. *)
Lemma time_orders_engine clock os : forall k b,
  engine_ (time_orders clock k os b) = foldl (fun e o => (processOrder o e).2) (engine_ b) os /\
  length (last_latency_ns_ (time_orders clock k os b)) = (length (last_latency_ns_ b) + length os)%nat.
Proof.
  induction os as [|o os IH]; intros k b; [split; [done|cbn; lia]|]. cbn [time_orders foldl length].
  destruct (IH (S k) (time_order clock k o b)) as [-> ->]. split; [done|].
  unfold time_order. cbn [last_latency_ns_]. rewrite length_app. cbn. lia.
Qed.

Lemma push_orders_engine os : forall b, engine_ (foldl push_order b os) = foldl (fun e o => (processOrder o e).2) (engine_ b) os.
Proof. induction os as [|o os IH]; intros b; [done|]. apply IH. Qed.

(** A timed run leaves the book the untimed one leaves, with one latency for
    each order, and prints percentiles of those. *)
Lemma run_latency_sound clock os b b' p50 p99 p999 :
  Z.of_nat (length os) < 2 ^ 64 -> os <> [] -> run_latency clock os b = (b', (p50, p99, p999)) ->
  engine_ b' = engine_ (run_throughput clock os b).1.1 /\ length (last_latency_ns_ b') = length os /\
  Forall (fun p => exists x, p = Some x /\ x ∈ last_latency_ns_ b') [p50; p99; p999].
Proof.
  intros Hn Hne E. unfold run_latency in E. injection E as Eb E50 E99 E999.
  destruct (time_orders_engine clock os 0 (mkBenchmarker (engine_ b) [] (optimizer_sink_ b))) as [He Hl]. rewrite Eb in He, Hl.
  cbn [last_latency_ns_ length Nat.add] in Hl. split_and!; [|done|].
  { rewrite He. cbn [run_throughput fst]. by rewrite push_orders_engine. }
  rewrite Eb in *. set (l := merge_sort Z.le (last_latency_ns_ b')) in *.
  assert (l ≡ₚ last_latency_ns_ b') as Hp by apply merge_sort_Permutation.
  pose proof printed_fractions as Hf. rewrite !Forall_cons in Hf. destruct Hf as (F50 & _ & F99 & F999 & _).
  assert (forall q, fraction q -> exists x, percentile_sorted l q = Some x /\ x ∈ last_latency_ns_ b') as Hq.
  { intros q Hq. destruct (percentile_sample l q) as (i & x & Hx & Hi); [by rewrite Hp, Hl| |done|].
    - intros El. apply Hne. apply length_zero_iff_nil. rewrite <- Hl, <- Hp, El. done.
    - exists x. split; [done|]. rewrite <- Hp. by eapply list_elem_of_lookup_2. }
  subst. repeat (constructor; [by apply Hq|]). constructor.
Qed.
