(* ===== verification/LoadProps.v ===== *)
(** The load generator keeps its books: every send is counted once, every
    acknowledged order was sent, every latency is the time between the two, the
    schedule never runs ahead of its rate, and a worker ends. *)
From Stdlib Require Import String ZArith Lia SpecFloat.
From stdpp Require Import base numbers list gmap sorting.
From S2P Require Import Prelude Bytes Protocol FrameReader Text RiskConfig Session ZiSim LoadGen Benchmarker WireProps.
Import protocol loadgen.

(** ** What a worker has done *)

(** The calls of [send] on a descriptor. *)
Definition calls_to (f : Z) (w : Io) : list Call := filter (fun k => to_fd k = f) (calls_ w).

Definition is_whole (k : Call) : Prop := answer k = Z.of_nat (length (offered k)).

#[export] Instance is_whole_dec k : Decision (is_whole k).
Proof. unfold is_whole. apply _. Defined.

(** How many calls took the whole frame. *)
Definition whole (w : Io) : Z := Z.of_nat (length (filter is_whole (calls_ w))).

(** How many frames taken were Rejects. *)
Definition is_reject (s : Seen) : Prop := mtype_of (h_type (f_header (seen_frame s))) = Some TReject.

#[local] Instance MessageType_eq_dec : EqDecision MessageType.
Proof. solve_decision. Defined.

#[export] Instance is_reject_dec s : Decision (is_reject s).
Proof. unfold is_reject. apply _. Defined.

Definition rejects (w : Io) : Z := Z.of_nat (length (filter is_reject (seen_ w))).

Definition frame_for (crossing : bool) (coid : Z) : list Z := encode_frame TNewOrder (order_for crossing coid).

(** Orders sent and not acknowledged. *)
Definition flying (c : Client) : Z := Z.of_nat (size (in_flight c)).
Definition all_flying (cs : list Client) : Z := foldr (fun c n => flying c + n) 0 cs.

(** From [w] on, a worker only read the clock, took frames, and sent on [fds]. *)
Record extends (fds : list Z) (w w' : Io) : Prop := mkExtends {
  ex_reads : (reads_ w <= reads_ w')%nat;
  ex_calls : exists new, calls_ w' = calls_ w ++ new /\ Forall (fun k => to_fd k ∈ fds) new;
  ex_seen : exists new, seen_ w' = seen_ w ++ new;
}.

Lemma no_more {A} (l : list A) : exists new, l = l ++ new.
Proof. exists []. by rewrite app_nil_r. Qed.

Lemma extends_same fds w w' :
  (reads_ w <= reads_ w')%nat -> calls_ w' = calls_ w -> (exists new, seen_ w' = seen_ w ++ new) -> extends fds w w'.
Proof. intros Hr Hc Hs. split; [done| |done]. exists []. by rewrite app_nil_r. Qed.

Lemma extends_refl fds w : extends fds w w.
Proof. apply extends_same; [lia|done|apply no_more]. Qed.

Lemma extends_trans fds w1 w2 w3 : extends fds w1 w2 -> extends fds w2 w3 -> extends fds w1 w3.
Proof.
  intros [R1 (n1 & E1 & F1) (s1 & S1)] [R2 (n2 & E2 & F2) (s2 & S2)]. split; [lia| |].
  - exists (n1 ++ n2). rewrite E2, E1, app_assoc. split; [done|]. by apply Forall_app.
  - exists (s1 ++ s2). by rewrite S2, S1, app_assoc.
Qed.

Lemma extends_weaken fds fds' w w' : fds ⊆ fds' -> extends fds w w' -> extends fds' w w'.
Proof.
  intros Hs [R (n & E & F) S]. split; [done| |done]. exists n. split; [done|]. eapply Forall_impl; [exact F|]. set_solver.
Qed.

(** Nothing is added to the calls of another descriptor. *)
Lemma calls_to_other f fds w w' : f ∉ fds -> extends fds w w' -> calls_to f w' = calls_to f w.
Proof.
  intros Hf [_ (n & E & F) _]. unfold calls_to. rewrite E, filter_app.
  assert (filter (fun k => to_fd k = f) n = []) as ->; [|by rewrite app_nil_r]. clear E.
  induction F as [|k n Hk F IH]; [done|]. rewrite filter_cons_False; [apply IH|set_solver].
Qed.

Section worker.
Context (clock : nat -> Z) (send_answer : nat -> Z) (poll_answer : nat -> Ready).
Context (crossing : bool) (interval_ns warmup_end_ns end_ns : Z).

Notation send_order := (send_order clock send_answer crossing interval_ns).
Notation send_due := (send_due clock send_answer crossing interval_ns).
Notation send_all := (send_all clock send_answer crossing interval_ns).
Notation on_frame := (on_frame clock warmup_end_ns).
Notation read_frames := (read_frames clock warmup_end_ns).
Notation read_client := (read_client clock warmup_end_ns).
Notation read_all := (read_all clock warmup_end_ns).

(** The worker's own figures are those of its calls and of the frames it took. *)
Record io_ok (w : Io) : Prop := mkIoOk {
  io_sent : sent (out_ w) = u64 (whole w);
  io_failed : send_failed (out_ w) = u64 (Z.of_nat (length (calls_ w)) - whole w);
  io_rejected : rejected (out_ w) = u64 (rejects w);
}.

(** A client has sent the orders up to its next id, in order; those in flight
    were taken whole, and the time recorded is that of the clock reading just
    before the call. *)
Record client_ok (w : Io) (c : Client) : Prop := mkClientOk {
  co_next : 1 <= next_coid c;
  co_calls : offered <$> calls_to (fd c) w = frame_for crossing <$> seqZ 1 (next_coid c - 1);
  co_flight : map_Forall (fun k ts => exists i call, (i < reads_ w)%nat /\ ts = clock i /\ 1 <= k < next_coid c /\
    calls_to (fd c) w !! Z.to_nat (k - 1) = Some call /\ is_whole call /\ called_after call = S i) (in_flight c);
}.

(** An order acknowledged: its descriptor and client id, and the clock readings
    before its [send] and for its Ack. *)
Record Acked := mkAcked { a_fd : Z; a_coid : Z; a_sent : nat; a_read : nat }.

Definition name (a : Acked) : Z * Z := (a_fd a, a_coid a).

(** It was taken whole by the [send] that followed the first reading, and the
    second was made for a frame of its connection that acknowledges it. *)
Definition acknowledged (w : Io) (a : Acked) : Prop :=
  (a_sent a < a_read a < reads_ w)%nat /\
  (exists call, calls_to (a_fd a) w !! Z.to_nat (a_coid a - 1) = Some call /\ is_whole call /\
     called_after call = S (a_sent a)) /\
  exists s ack, s ∈ seen_ w /\ from_fd s = a_fd a /\ seen_at s = a_read a /\
    mtype_of (h_type (f_header (seen_frame s))) = Some TAck /\
    decode_Ack (f_payload (seen_frame s)) = Some ack /\ ak_client_order_id ack = a_coid a.

Definition timed (a : Acked) : Prop := warmup_end_ns <= clock (a_sent a).
#[local] Instance timed_dec a : Decision (timed a).
Proof. unfold timed. apply _. Defined.

Definition latency (a : Acked) : Z := i64 (u64 (clock (a_read a) - clock (a_sent a))).

(** The orders acknowledged account for [acked] and the latencies. *)
Record ledger (w : Io) (acks : list Acked) : Prop := mkLedger {
  le_each : Forall (acknowledged w) acks;
  le_once : NoDup (name <$> acks);
  le_count : acked (out_ w) = u64 (Z.of_nat (length acks));
  le_latencies : latencies_ns (out_ w) = latency <$> filter timed acks;
}.

(** What a client has in flight, or will send, is not acknowledged. *)
Definition unacked (acks : list Acked) (c : Client) : Prop :=
  forall k, is_Some (in_flight c !! k) \/ next_coid c <= k -> (fd c, k) ∉ name <$> acks.

Lemma acknowledged_mono fds w w' a : extends fds w w' -> acknowledged w a -> acknowledged w' a.
Proof.
  intros [R (new & E & _) (sn & S)] (Hr & (call & Hl & Hc) & (s & ack & Hs & H)). split; [lia|]. split.
  - exists call. split; [|done]. unfold calls_to in *. rewrite E, filter_app. by apply lookup_app_l_Some.
  - exists s, ack. split; [|done]. rewrite S. apply elem_of_app. by left.
Qed.

Lemma ledger_mono fds w w' acks :
  extends fds w w' -> acked (out_ w') = acked (out_ w) -> latencies_ns (out_ w') = latencies_ns (out_ w) ->
  ledger w acks -> ledger w' acks.
Proof.
  intros Hx Ha Hl [L1 L2 L3 L4]. split; [|done|by rewrite Ha|by rewrite Hl].
  eapply Forall_impl; [exact L1|]. intros a. by eapply acknowledged_mono.
Qed.

(** What another client's calls leave alone. *)
Lemma client_frame fds w w' c : fd c ∉ fds -> extends fds w w' -> client_ok w c -> client_ok w' c.
Proof.
  intros Hf Hx [H1 H2 H3]. pose proof (calls_to_other _ _ _ _ Hf Hx) as E. split; [done|by rewrite E|].
  intros k ts Hk. destruct (H3 k ts Hk) as (i & call & Hi & ? & ? & ?). exists i, call. rewrite E. split_and!; try naive_solver.
  pose proof (ex_reads _ _ _ Hx). lia.
Qed.

(** The orders acknowledged and in flight account for the frames taken, however
    many ([n]) the other clients have in flight. *)
Definition balanced (n : Z) (w : Io) : Prop := u64 (acked (out_ w) + n) = u64 (whole w).

(** ** One send *)

Lemma u64_congr a b c : u64 a = u64 b -> u64 (a + c) = u64 (b + c).
Proof. unfold u64. intros H. rewrite <- (Zplus_mod_idemp_l a), H. apply Zplus_mod_idemp_l. Qed.

(** The calls and the clock readings of one send. *)
Lemma send_order_io t c w :
  let k := mkCall (fd c) (frame_for crossing (next_coid c)) (send_answer (length (calls_ w))) (S (reads_ w)) in
  calls_ (send_order t c w).2 = calls_ w ++ [k] /\
  reads_ (send_order t c w).2 = S (reads_ w) /\ seen_ (send_order t c w).2 = seen_ w /\
  polls_ (send_order t c w).2 = polls_ w /\
  out_ (send_order t c w).2 = (if decide (is_whole k) then count_sent else count_failed) (out_ w) /\
  in_flight (send_order t c w).1 =
    (if decide (is_whole k) then <[next_coid c := clock (reads_ w)]> (in_flight c) else in_flight c) /\
  next_coid (send_order t c w).1 = u64 (next_coid c + 1) /\ fd (send_order t c w).1 = fd c /\
  reader (send_order t c w).1 = reader c.
Proof.
  intros k. unfold LoadGen.loadgen.send_order, now_ns, send. cbn [calls_ reads_ seen_ polls_ out_]. fold (frame_for crossing (next_coid c)).
  destruct (Z.eqb_spec (send_answer (length (calls_ w))) (Z.of_nat (length (frame_for crossing (next_coid c))))) as [E|E].
  - by rewrite !(decide_True (P := is_whole k)) by done.
  - by rewrite !(decide_False (P := is_whole k)) by done.
Qed.

Lemma send_order_extends t c w : extends [fd c] w (send_order t c w).2.
Proof.
  destruct (send_order_io t c w) as (E & R & S & _). split; [lia| |rewrite S; apply no_more]. eexists. split; [exact E|].
  constructor; [|done]. cbn. set_solver.
Qed.

Lemma send_order_whole t c w :
  let k := mkCall (fd c) (frame_for crossing (next_coid c)) (send_answer (length (calls_ w))) (S (reads_ w)) in
  whole (send_order t c w).2 = whole w + (if decide (is_whole k) then 1 else 0).
Proof.
  intros k. destruct (send_order_io t c w) as (E & _). fold k in E. unfold whole. rewrite E, filter_app, length_app.
  destruct (decide (is_whole k)); [rewrite filter_cons_True by done|rewrite filter_cons_False by done]; cbn; lia.
Qed.

Lemma send_order_io_ok t c w : io_ok w -> io_ok (send_order t c w).2.
Proof.
  intros [H1 H2 H3]. pose proof (send_order_whole t c w) as Hw. destruct (send_order_io t c w) as (E & R & S & _ & O & _).
  cbv zeta in *. split.
  - rewrite O, Hw. destruct (decide _); cbn [sent count_sent count_failed]; [|by rewrite Z.add_0_r].
    by rewrite H1, u64_add_l.
  - rewrite O, E, Hw, length_app. cbn [length]. destruct (decide _); cbn [send_failed count_sent count_failed];
      rewrite H2, ?u64_add_l; f_equal; lia.
  - unfold rejects. rewrite S, O. by destruct (decide _).
Qed.

Lemma send_order_balanced t c w n :
  in_flight c !! next_coid c = None -> balanced (flying c + n) w ->
  balanced (flying (send_order t c w).1 + n) (send_order t c w).2.
Proof.
  intros Hfree H. unfold balanced in *. pose proof (send_order_whole t c w) as Hw.
  destruct (send_order_io t c w) as (_ & _ & _ & _ & O & F & _). cbv zeta in *. rewrite Hw, O. unfold flying. rewrite F.
  destruct (decide _); cbn [acked count_sent count_failed].
  - rewrite map_size_insert_None by done. rewrite <- (u64_congr _ _ 1 H). unfold flying. f_equal. lia.
  - rewrite Z.add_0_r. exact H.
Qed.

Lemma send_order_client t c w :
  next_coid c + 1 < 2 ^ 64 -> client_ok w c -> client_ok (send_order t c w).2 (send_order t c w).1.
Proof.
  intros Hb [H1 H2 H3]. destruct (send_order_io t c w) as (E & R & _ & _ & _ & F & N & D & _). cbv zeta in *.
  rewrite u64_id in N by (unfold is_u64; lia).
  assert (calls_to (fd c) (send_order t c w).2 = calls_to (fd c) w ++
    [mkCall (fd c) (frame_for crossing (next_coid c)) (send_answer (length (calls_ w))) (S (reads_ w))]) as Ec.
  { unfold calls_to. rewrite E, filter_app, filter_cons_True by done. done. }
  assert (length (calls_to (fd c) w) = Z.to_nat (next_coid c - 1)) as El.
  { pose proof (f_equal length H2) as L. rewrite !length_fmap, length_seqZ in L. done. }
  split.
  - rewrite N. lia.
  - rewrite D, Ec, fmap_app, H2, N. replace (next_coid c + 1 - 1) with ((next_coid c - 1) + 1) by lia.
    rewrite seqZ_app by lia. rewrite fmap_app. do 2 f_equal. replace (1 + (next_coid c - 1)) with (next_coid c) by lia.
    done.
  - assert (map_Forall (fun k ts => exists i call, (i < reads_ (send_order t c w).2)%nat /\ ts = clock i /\
      1 <= k < next_coid c + 1 /\ calls_to (fd c) (send_order t c w).2 !! Z.to_nat (k - 1) = Some call /\ is_whole call /\
      called_after call = S i) (in_flight c)) as Hold.
    { intros k ts Hk. destruct (H3 k ts Hk) as (i & call & ? & ? & ? & Hl & ? & ?). exists i, call. rewrite Ec.
      split_and!; try done; try lia. by apply lookup_app_l_Some. }
    rewrite F, N, D. destruct (decide _) as [Hwh|]; [|exact Hold]. apply map_Forall_insert_2; [|exact Hold].
    eexists (reads_ w), _. rewrite Ec. split_and!; [rewrite R; lia|done|lia|lia| |exact Hwh|done].
    rewrite lookup_app_r by lia. rewrite El, Nat.sub_diag. done.
Qed.

(** ** The schedule *)

Context (start_ns : Z).

(** A client's next send is no earlier than its rate allows. *)
Record paced (c : Client) : Prop := mkPaced {
  pa_first : 1 <= next_coid c;
  pa_rate : start_ns + interval_ns * (next_coid c - 1) <= next_send_ns c;
  pa_bound : next_send_ns c <= Z.max start_ns (end_ns + interval_ns);
  pa_last : next_coid c = 1 \/ start_ns + interval_ns * (next_coid c - 2) < end_ns;
}.

(** The run lies within the range of the clock. *)
Definition schedule_ok : Prop :=
  1 <= interval_ns /\ 0 <= start_ns <= end_ns /\ end_ns + 101 * interval_ns < 2 ^ 64.

(** Nothing wraps: the next send is one interval later, or one interval from now
    when the client had fallen behind by more than a hundred. *)
Lemma send_order_next t c w :
  schedule_ok -> t < end_ns -> 0 <= next_send_ns c <= t ->
  next_send_ns (send_order t c w).1 =
    (if next_send_ns c + 101 * interval_ns <? t then t + interval_ns else next_send_ns c + interval_ns).
Proof.
  intros (H1 & H2 & H3) Ht Hn. unfold LoadGen.loadgen.send_order, now_ns, send. destruct (_ =? _); cbn [fst next_send_ns].
  all: rewrite !u64_id by (unfold is_u64; rewrite ?u64_id by (unfold is_u64; lia); lia).
  all: by replace (next_send_ns c + interval_ns + interval_ns * 100) with (next_send_ns c + 101 * interval_ns) by lia.
Qed.

(** So it advances by an interval at least, and is then at most a hundred behind. *)
Lemma send_order_gain t c w :
  schedule_ok -> t < end_ns -> paced c -> next_send_ns c <= t ->
  next_send_ns c + interval_ns <= next_send_ns (send_order t c w).1 <= t + interval_ns /\
  t < next_send_ns (send_order t c w).1 + interval_ns * 101.
Proof.
  intros Hs Ht [P1 P2 _ _] Hn. pose proof Hs as (S1 & S2 & S3). assert (0 <= interval_ns * (next_coid c - 1)) by nia.
  rewrite (send_order_next t c w Hs Ht) by lia. destruct (Z.ltb_spec (next_send_ns c + 101 * interval_ns) t); lia.
Qed.

Lemma paced_small c : schedule_ok -> paced c -> next_send_ns c < end_ns -> next_coid c + 1 < 2 ^ 64.
Proof. intros (H1 & H2 & H3) [P1 P2 _ _] Hn. assert (next_coid c - 1 <= interval_ns * (next_coid c - 1)) by nia. lia. Qed.

Lemma send_order_paced t c w :
  schedule_ok -> t < end_ns -> next_send_ns c <= t -> paced c -> paced (send_order t c w).1.
Proof.
  intros Hs Ht Hn Hp. pose proof (paced_small c Hs Hp ltac:(lia)) as Hb.
  destruct (send_order_gain t c w Hs Ht Hp Hn) as [Hr _]. destruct Hp as [P1 P2 P3 P4].
  destruct (send_order_io t c w) as (_ & _ & _ & _ & _ & _ & N & _). cbv zeta in N.
  rewrite u64_id in N by (unfold is_u64; lia).
  split; rewrite ?N; [lia| |lia|].
  - replace (next_coid c + 1 - 1) with (next_coid c - 1 + 1) by lia. lia.
  - right. replace (next_coid c + 1 - 2) with (next_coid c - 1) by lia. lia.
Qed.

(** The sending loop ends: a client less than [n] intervals behind sends at most
    [n] orders. *)
Lemma send_due_within n : forall t c w,
  schedule_ok -> t < end_ns -> paced c -> t < next_send_ns c + interval_ns * Z.of_nat n ->
  is_Some (send_due (S n) t c w).
Proof.
  induction n as [|n IH]; intros t c w Hs Ht Hp Hn; simpl; (destruct (Z.leb_spec (next_send_ns c) t) as [Hle|]; [|done]).
  - lia.
  - pose proof (send_order_paced t c w Hs Ht Hle Hp) as Hp'. destruct (send_order_gain t c w Hs Ht Hp Hle) as [Hr _].
    destruct (send_order t c w) as [c1 w1]. apply IH; try done. cbn [fst] in Hr. lia.
Qed.

(** After one send, a client is at most a hundred intervals behind. *)
Lemma send_due_ends t c w :
  schedule_ok -> t < end_ns -> paced c -> is_Some (send_due 103 t c w).
Proof.
  intros Hs Ht Hp. change (is_Some (if next_send_ns c <=? t
    then let '(c, w) := send_order t c w in send_due (S 101) t c w else Some (c, w))).
  destruct (Z.leb_spec (next_send_ns c) t) as [Hle|]; [|done].
  pose proof (send_order_paced t c w Hs Ht Hle Hp) as Hp'. destruct (send_order_gain t c w Hs Ht Hp Hle) as [_ Hr].
  destruct (send_order t c w) as [c1 w1]. by apply send_due_within.
Qed.

(** ** The steps of a worker *)

Definition good (w : Io) (c : Client) : Prop := client_ok w c /\ paced c.

(** The ledger is continued by orders of the clients served. *)
Definition continued (cs : list Client) (w : Io) (cs' : list Client) (w' : Io) : Prop :=
  forall acks, ledger w acks -> Forall (unacked acks) cs ->
  exists new, ledger w' (acks ++ new) /\ Forall (unacked (acks ++ new)) cs' /\ Forall (fun a => a_fd a ∈ fd <$> cs) new.

(** What a part of the worker's loop does for the clients it serves. *)
Definition advance (cs : list Client) (w : Io) (cs' : list Client) (w' : Io) : Prop :=
  Forall (good w) cs ->
  fd <$> cs' = fd <$> cs /\ extends (fd <$> cs) w w' /\ Forall (good w') cs' /\ (io_ok w -> io_ok w') /\
  continued cs w cs' w' /\ forall n, balanced (all_flying cs + n) w -> balanced (all_flying cs' + n) w'.

(** Nothing acknowledged, and no order taken up again. *)
Lemma continued_same fds cs w cs' w' :
  extends fds w w' -> acked (out_ w') = acked (out_ w) -> latencies_ns (out_ w') = latencies_ns (out_ w) ->
  (forall acks, Forall (unacked acks) cs -> Forall (unacked acks) cs') -> continued cs w cs' w'.
Proof.
  intros Hx Ha Hl Hu acks L U. exists []. rewrite app_nil_r. split_and!; [by eapply ledger_mono|by apply Hu|constructor].
Qed.

Lemma continued_trans cs1 w1 cs2 w2 cs3 w3 :
  fd <$> cs2 = fd <$> cs1 -> continued cs1 w1 cs2 w2 -> continued cs2 w2 cs3 w3 -> continued cs1 w1 cs3 w3.
Proof.
  intros F C1 C2 acks L U. destruct (C1 _ L U) as (n1 & L1 & U1 & F1). destruct (C2 _ L1 U1) as (n2 & L2 & U2 & F2).
  exists (n1 ++ n2). rewrite app_assoc. split_and!; [done..|]. apply Forall_app. split; [done|by rewrite <- F].
Qed.

(** Another client's acknowledgements. *)
Lemma unacked_app acks new (fds : list Z) c :
  unacked acks c -> Forall (fun a => a_fd a ∈ fds) new -> fd c ∉ fds -> unacked (acks ++ new) c.
Proof.
  intros U F Hf k Hk. rewrite fmap_app, elem_of_app. intros [H|H]; [by apply (U k)|]. apply Hf.
  apply list_elem_of_fmap in H as (a & E & Ha). rewrite Forall_forall in F. injection E as -> _. by apply F.
Qed.

Lemma continued_cons c cs w c1 w1 cs2 w2 :
  NoDup (fd <$> c :: cs) -> fd c1 = fd c -> continued [c] w [c1] w1 -> continued cs w1 cs2 w2 ->
  continued (c :: cs) w (c1 :: cs2) w2.
Proof.
  intros [Hc _]%NoDup_cons F C1 C2 acks L [U Us]%Forall_cons.
  destruct (C1 _ L ltac:(by constructor)) as (n1 & L1 & [U1 _]%Forall_cons & F1).
  assert (Forall (unacked (acks ++ n1)) cs) as Us1.
  { rewrite Forall_forall in Us. apply Forall_forall. intros x Hx. eapply unacked_app; [by apply Us|exact F1|].
    cbn. rewrite list_elem_of_singleton. intros E. apply Hc. rewrite <- E. by apply list_elem_of_fmap_2. }
  destruct (C2 _ L1 Us1) as (n2 & L2 & U2 & F2). exists (n1 ++ n2). rewrite app_assoc. split_and!; [done| |].
  - constructor; [|done]. eapply unacked_app; [exact U1|exact F2|]. by rewrite F.
  - apply Forall_app. split; (eapply Forall_impl; [eassumption|]); intros a; cbn; set_solver.
Qed.

Lemma advance_refl cs w : advance cs w cs w.
Proof. intros H. split_and!; auto using extends_refl. by eapply continued_same; [apply (extends_refl [])|..]. Qed.

Lemma advance_trans cs1 w1 cs2 w2 cs3 w3 : advance cs1 w1 cs2 w2 -> advance cs2 w2 cs3 w3 -> advance cs1 w1 cs3 w3.
Proof.
  intros A1 A2 H1. destruct (A1 H1) as (F1 & X1 & G1 & I1 & C1 & B1). destruct (A2 G1) as (F2 & X2 & G2 & I2 & C2 & B2).
  split_and!; auto; [congruence| |by eapply continued_trans]. rewrite F1 in X2. by eapply extends_trans.
Qed.

Lemma good_frame fds w w' cs :
  (forall c, c ∈ cs -> fd c ∉ fds) -> extends fds w w' -> Forall (good w) cs -> Forall (good w') cs.
Proof.
  intros Hd Hx. rewrite !Forall_forall. intros H c Hc. destruct (H c Hc) as [H1 H2]. split; [|done].
  eapply client_frame; [|exact Hx|exact H1]. by apply Hd.
Qed.

Lemma advance_cons c cs w c1 w1 cs2 w2 :
  NoDup (fd <$> c :: cs) -> advance [c] w [c1] w1 -> advance cs w1 cs2 w2 -> advance (c :: cs) w (c1 :: cs2) w2.
Proof.
  intros Hnd A1 A2 H. pose proof Hnd as [Hc _]%NoDup_cons. inversion H as [|? ? Gc Gcs]; subst.
  destruct (A1 (Forall_cons_2 _ _ _ Gc (Forall_nil_2 _))) as (F1 & X1 & G1 & I1 & C1 & B1).
  assert (Forall (good w1) cs) as Gcs1.
  { eapply good_frame; [|exact X1|exact Gcs]. intros x Hx. cbn. rewrite list_elem_of_singleton. intros E. apply Hc.
    rewrite <- E. by apply list_elem_of_fmap_2. }
  destruct (A2 Gcs1) as (F2 & X2 & G2 & I2 & C2 & B2). injection F1 as F1. split_and!.
  - cbn. by rewrite F1, F2.
  - eapply extends_trans; (eapply extends_weaken; [|eassumption]); cbn; set_solver.
  - constructor; [|exact G2]. apply Forall_singleton. eapply good_frame; [|exact X2|exact G1].
    intros x ->%list_elem_of_singleton. by rewrite F1.
  - auto.
  - exact (continued_cons _ _ _ _ _ _ _ Hnd F1 C1 C2).
  - intros n Hb. cbn [all_flying foldr] in *. fold (all_flying cs) (all_flying cs2) in *.
    replace (flying c1 + all_flying cs2 + n) with (all_flying cs2 + (flying c1 + n)) by lia. apply B2.
    replace (all_flying cs + (flying c1 + n)) with (flying c1 + 0 + (all_flying cs + n)) by lia. apply B1.
    by replace (flying c + 0 + (all_flying cs + n)) with (flying c + all_flying cs + n) by lia.
Qed.

(** Readings of the clock, polls and frames that acknowledge nothing change
    nothing of this. *)
Lemma advance_io cs w w' :
  (reads_ w <= reads_ w')%nat -> calls_ w' = calls_ w -> (exists new, seen_ w' = seen_ w ++ new) ->
  (exists r, out_ w' = mkSample (latencies_ns (out_ w)) (sent (out_ w)) (acked (out_ w)) r (send_failed (out_ w))) ->
  (rejected (out_ w) = u64 (rejects w) -> rejected (out_ w') = u64 (rejects w')) -> advance cs w cs w'.
Proof.
  intros Hr Hc Hs [r Ho] Hj H. assert (forall fds, extends fds w w') as Hx by (intros fds; by apply extends_same).
  assert (whole w' = whole w) as Hw by (unfold whole; by rewrite Hc). split_and!; auto.
  - eapply (good_frame []); [|apply Hx|exact H]. set_solver.
  - intros [I1 I2 I3]. split; rewrite ?Ho, ?Hw, ?Hc; auto. rewrite <- Ho. auto.
  - eapply continued_same; [apply (Hx [])|by rewrite Ho..|done].
  - intros n. unfold balanced. by rewrite Ho, Hw.
Qed.

Lemma send_order_advance t c w :
  schedule_ok -> t < end_ns -> next_send_ns c <= t ->
  advance [c] w [(send_order t c w).1] (send_order t c w).2.
Proof.
  intros Hs Ht Hn [[Hc Hp] _]%Forall_cons. pose proof (paced_small c Hs Hp ltac:(lia)) as Hb.
  destruct (send_order_io t c w) as (_ & _ & _ & _ & O & F & N & D & _). cbv zeta in *. split_and!.
  - change ([fd (send_order t c w).1] = [fd c]). by rewrite D.
  - apply send_order_extends.
  - constructor; [|done]. split; [by apply send_order_client|by apply send_order_paced].
  - apply send_order_io_ok.
  - eapply continued_same; [apply send_order_extends|by rewrite O; destruct (decide _)..|].
    intros acks [U _]%Forall_cons. constructor; [|done]. intros k Hk. rewrite D. apply U. revert Hk. rewrite F, N.
    rewrite u64_id by (unfold is_u64; pose proof (co_next _ _ Hc); lia). intros [Hk|Hk]; [|right; lia].
    destruct (decide (is_whole _)); [|by left]. apply lookup_insert_is_Some in Hk as [->|[_ Hk]]; [right; lia|by left].
  - intros n. cbn [all_flying foldr]. rewrite !Z.add_0_r. apply send_order_balanced. destruct (in_flight c !! next_coid c) as [ts|] eqn:E; [|done].
    destruct (co_flight _ _ Hc _ _ E) as (? & ? & ? & ? & ? & _). lia.
Qed.

Lemma send_due_advance fuel : forall t c w c' w',
  schedule_ok -> t < end_ns -> send_due fuel t c w = Some (c', w') -> advance [c] w [c'] w'.
Proof.
  induction fuel as [|fuel IH]; intros t c w c' w' Hs Ht E; [done|]. simpl in E.
  destruct (Z.leb_spec (next_send_ns c) t) as [Hle|]; [|by simplify_eq; apply advance_refl].
  pose proof (send_order_advance t c w Hs Ht Hle) as A. destruct (send_order t c w) as [c1 w1].
  eapply advance_trans; [exact A|]. by eapply IH.
Qed.

Lemma send_all_advance fuel t : forall cs due w cs' due' w',
  schedule_ok -> t < end_ns -> NoDup (fd <$> cs) -> send_all fuel t cs due w = Some (cs', due', w') ->
  advance cs w cs' w'.
Proof.
  induction cs as [|c cs IH]; intros due w cs' due' w' Hs Ht Hnd E; [by simplify_eq/=; apply advance_refl|].
  pose proof Hnd as Hnd'. apply NoDup_cons in Hnd' as [_ Hnd']. simpl in E. destruct (fd c <? 0).
  - apply bind_Some in E as ([[cs1 due1] w1] & E1 & E). simplify_eq.
    eapply advance_cons; [done|apply advance_refl|]. by eapply IH.
  - apply bind_Some in E as ([c1 w1] & E1 & E). apply bind_Some in E as ([[cs2 due2] w2] & E2 & E). simplify_eq.
    eapply advance_cons; [done|by eapply send_due_advance|by eapply IH].
Qed.

(** The replacement of the reader is nobody's business. *)
Lemma set_reader_advance r c w : advance [c] w [set_reader r c] w.
Proof.
  intros [[[C1 C2 C3] [P1 P2 P3 P4]] _]%Forall_cons. split_and!; auto using extends_refl.
  - constructor; [|done]. split; by split.
  - eapply continued_same; [apply (extends_refl [])|done..|]. intros acks [U _]%Forall_cons. by constructor.
Qed.

(** A frame taken that is neither an Ack of an order in flight nor a Reject. *)
Lemma now_advance cs w : advance cs w cs (now_ns clock w).2.
Proof. apply advance_io; cbn; eauto using no_more. by destruct (out_ w); eexists. Qed.

Lemma see_rejects f fr w w' : seen_ w' = seen_ w ++ [mkSeen f (reads_ w) fr] ->
  rejects w' = rejects w + (if decide (mtype_of (h_type (f_header fr)) = Some TReject) then 1 else 0).
Proof.
  intros E. unfold rejects. rewrite E, filter_app, length_app. destruct (decide _).
  - rewrite filter_cons_True by done. cbn. lia.
  - rewrite filter_cons_False by done. cbn. lia.
Qed.

Lemma taken_advance cs f fr w : mtype_of (h_type (f_header fr)) <> Some TReject ->
  advance cs w cs (now_ns clock (see f fr w)).2.
Proof.
  intros Hn. apply advance_io; [cbn; lia|done|by eexists|cbn; by destruct (out_ w); eexists|].
  intros H. rewrite (see_rejects f fr w (now_ns clock (see f fr w)).2 eq_refl), decide_False, Z.add_0_r by done. exact H.
Qed.

Lemma rejected_advance cs f fr w : mtype_of (h_type (f_header fr)) = Some TReject ->
  advance cs w cs (on_out count_rejected (now_ns clock (see f fr w)).2).
Proof.
  intros Hn. apply advance_io; [cbn; lia|done|by eexists|cbn; by destruct (out_ w); eexists|].
  intros H. rewrite (see_rejects f fr w (on_out count_rejected (now_ns clock (see f fr w)).2) eq_refl), decide_True, <- u64_add_l, <- H by done.
  done.
Qed.

(** An acknowledgement enters the ledger. *)
Lemma ledger_snoc w w' acks a :
  extends [a_fd a] w w' -> ledger w acks -> acknowledged w' a -> name a ∉ name <$> acks ->
  acked (out_ w') = u64 (acked (out_ w) + 1) ->
  latencies_ns (out_ w') = latencies_ns (out_ w) ++ (if decide (timed a) then [latency a] else []) ->
  ledger w' (acks ++ [a]).
Proof.
  intros Hx [L1 L2 L3 L4] Ha Hn Hc Hl. split.
  - apply Forall_app. split; [|by apply Forall_singleton]. eapply Forall_impl; [exact L1|]. intros x. by eapply acknowledged_mono.
  - rewrite fmap_app. apply NoDup_app. split_and!; [done| |apply NoDup_singleton].
    intros x Hxs. cbn. rewrite list_elem_of_singleton. by intros ->.
  - rewrite Hc, L3, length_app, u64_add_l. cbn. f_equal. lia.
  - rewrite Hl, L4, filter_app, fmap_app. f_equal. destruct (decide (timed a)).
    + by rewrite filter_cons_True.
    + by rewrite filter_cons_False.
Qed.

(** What the Ack of an order in flight does. *)
Definition acked_io (f : Z) (fr : Frame) (send_ts : Z) (w : Io) : Io :=
  let w1 := (now_ns clock (see f fr w)).2 in
  on_out count_acked (if warmup_end_ns <=? send_ts
    then on_out (push_latency (i64 (u64 (clock (reads_ w) - send_ts)))) w1 else w1).

Lemma acked_io_fields f fr ts w :
  reads_ (acked_io f fr ts w) = S (reads_ w) /\ calls_ (acked_io f fr ts w) = calls_ w /\
  seen_ (acked_io f fr ts w) = seen_ w ++ [mkSeen f (reads_ w) fr] /\
  out_ (acked_io f fr ts w) = mkSample
    (latencies_ns (out_ w) ++ (if decide (warmup_end_ns <= ts) then [i64 (u64 (clock (reads_ w) - ts))] else []))
    (sent (out_ w)) (u64 (acked (out_ w) + 1)) (rejected (out_ w)) (send_failed (out_ w)).
Proof.
  unfold acked_io. destruct (Z.leb_spec warmup_end_ns ts).
  - by rewrite decide_True.
  - rewrite decide_False by lia. cbn. rewrite app_nil_r. by destruct (out_ w).
Qed.

(** The ledger's entry for it. *)
Lemma acked_ledger c fr w ack ts acks :
  mtype_of (h_type (f_header fr)) = Some TAck -> decode_Ack (f_payload fr) = Some ack ->
  in_flight c !! ak_client_order_id ack = Some ts -> client_ok w c -> ledger w acks -> unacked acks c ->
  exists i, ledger (acked_io (fd c) fr ts w) (acks ++ [mkAcked (fd c) (ak_client_order_id ack) i (reads_ w)]).
Proof.
  intros Ht Hd E Gc L U. destruct (co_flight _ _ Gc _ _ E) as (i & call & Hi & -> & Hk & Hl & Hwh & Hca). exists i.
  destruct (acked_io_fields (fd c) fr (clock i) w) as (R & C & S & O).
  assert (forall fds, extends fds w (acked_io (fd c) fr (clock i) w)) as Hx
    by (intros fds; apply extends_same; [lia|done|by eexists]).
  eapply ledger_snoc; [apply Hx|exact L| |apply (U _); left; by eexists|by rewrite O|by rewrite O].
  split_and!; cbn [a_fd a_coid a_sent a_read]; [lia|lia| |].
  - exists call. unfold calls_to. by rewrite C.
  - exists (mkSeen (fd c) (reads_ w) fr), ack. rewrite S. split_and!; try done. apply elem_of_app. right. by apply list_elem_of_singleton.
Qed.

(** An acknowledged order leaves the table. *)
Lemma ack_advance c fr w ack ts :
  mtype_of (h_type (f_header fr)) = Some TAck -> decode_Ack (f_payload fr) = Some ack ->
  in_flight c !! ak_client_order_id ack = Some ts ->
  advance [c] w [set_in_flight (delete (ak_client_order_id ack) (in_flight c)) c] (acked_io (fd c) fr ts w).
Proof.
  intros Ht Hd E [[Gc [P1 P2 P3 P4]] _]%Forall_cons. set (k := ak_client_order_id ack) in *.
  destruct (acked_io_fields (fd c) fr ts w) as (R & C & S & O).
  assert (forall fds, extends fds w (acked_io (fd c) fr ts w)) as Hx by (intros fds; apply extends_same; [lia|done|by eexists]).
  assert (whole (acked_io (fd c) fr ts w) = whole w) as Hw by (unfold whole; by rewrite C).
  assert (client_ok (acked_io (fd c) fr ts w) c) as [C1 C2 C3] by (eapply (client_frame []); [set_solver|apply Hx|exact Gc]).
  split_and!; auto.
  - constructor; [|done]. split; split; auto. cbn [in_flight set_in_flight fd next_coid]. by apply map_Forall_delete.
  - intros [I1 I2 I3]. split; rewrite O; cbn [sent send_failed rejected]; rewrite ?Hw, ?C; auto.
    rewrite (see_rejects _ _ _ _ S), decide_False by (rewrite Ht; congruence). by rewrite Z.add_0_r.
  - intros acks L [U _]%Forall_cons. destruct (acked_ledger c fr w ack ts acks Ht Hd E Gc L U) as (i & L').
    eexists. split_and!; [exact L'| |by apply Forall_singleton, list_elem_of_singleton].
    constructor; [|done]. intros j Hj. cbn [fd set_in_flight] in *. rewrite fmap_app, elem_of_app. intros [Hin|Hin].
    + revert Hin. apply U. cbn [in_flight next_coid set_in_flight] in Hj. destruct Hj as [Hj|Hj]; [left|by right].
      by apply lookup_delete_is_Some in Hj as [_ ?].
    + cbn in Hin. apply list_elem_of_singleton in Hin. injection Hin as ->. cbn [in_flight next_coid set_in_flight] in Hj.
      destruct Hj as [Hj|Hj]; [by apply lookup_delete_is_Some in Hj as [? _]|].
      destruct (co_flight _ _ Gc _ _ E) as (? & ? & ? & ? & ? & _). lia.
  - intros n H. unfold balanced in *. rewrite Hw, O. cbn [acked all_flying foldr set_in_flight in_flight] in *.
    rewrite u64_add_l, <- H. f_equal. unfold flying. cbn [set_in_flight in_flight]. rewrite map_size_delete_Some by eauto.
    pose proof (map_size_ne_0_lookup_2 (in_flight c) k ltac:(eauto)). lia.
Qed.

Lemma on_frame_advance f c w : advance [c] w [(on_frame f c w).1] (on_frame f c w).2.
Proof.
  unfold LoadGen.loadgen.on_frame. pose proof (taken_advance [c] (fd c) f w) as A1.
  destruct (now_ns clock (see (fd c) f w)) as [recv_ts w1] eqn:En. cbn [snd] in A1.
  destruct (mtype_of _) as [[]|] eqn:Ht; try (by apply A1).
  - destruct (decode_Ack _) as [ack|] eqn:Hd; [|by apply A1].
    destruct (in_flight c !! ak_client_order_id ack) as [ts|] eqn:E; [|by apply A1]. cbn [fst snd].
    pose proof (ack_advance c f w ack ts Ht Hd E) as A2. unfold acked_io in A2. rewrite En in A2.
    injection En as <- _. exact A2.
  - pose proof (rejected_advance [c] (fd c) f w Ht) as A2. by rewrite En in A2.
Qed.

Lemma read_frames_advance fuel : forall c w, advance [c] w [(read_frames fuel c w).1] (read_frames fuel c w).2.
Proof.
  induction fuel as [|fuel IH]; intros c w; [apply advance_refl|]. simpl.
  destruct (next_frame (reader c)) as [[f|] r]; [|apply set_reader_advance].
  pose proof (on_frame_advance f (set_reader r c) w) as A. destruct (on_frame f (set_reader r c) w) as [c1 w1].
  eapply advance_trans; [apply set_reader_advance|]. eapply advance_trans; [exact A|apply IH].
Qed.

Lemma read_client_advance chunks : forall c w, advance [c] w [(read_client chunks c w).1] (read_client chunks c w).2.
Proof.
  induction chunks as [|[|b bs] chunks IH]; intros c w; [apply advance_refl..|]. cbn [LoadGen.loadgen.read_client].
  set (c1 := set_reader _ c). set (n := S _). pose proof (read_frames_advance n c1 w) as A.
  destruct (read_frames n c1 w) as [c2 w2].
  eapply advance_trans; [apply set_reader_advance|]. eapply advance_trans; [exact A|].
  destruct (_ <? kBuf); [apply advance_refl|apply IH].
Qed.

Lemma read_all_advance cs : forall ready w, NoDup (fd <$> cs) ->
  advance cs w (read_all ready cs w).1 (read_all ready cs w).2.
Proof.
  induction cs as [|c cs IH]; intros ready w Hnd; [destruct ready; apply advance_refl|].
  pose proof Hnd as Hnd'. apply NoDup_cons in Hnd' as [_ Hnd']. destruct ready as [|[chunks|] ready]; simpl; [apply advance_refl|..].
  - pose proof (read_client_advance chunks c w) as A. destruct (read_client chunks c w) as [c1 w1].
    pose proof (IH ready w1 Hnd') as B. destruct (read_all ready cs w1) as [cs2 w2]. by eapply advance_cons.
  - pose proof (IH ready w Hnd') as B. destruct (read_all ready cs w) as [cs2 w2].
    eapply advance_cons; [done|apply advance_refl|exact B].
Qed.

Notation worker_turn := (worker_turn clock send_answer poll_answer crossing interval_ns warmup_end_ns end_ns).
Notation worker_loop := (worker_loop clock send_answer poll_answer crossing interval_ns warmup_end_ns end_ns).

Lemma worker_turn_advance sends t cs w cs' w' :
  schedule_ok -> t < end_ns -> NoDup (fd <$> cs) -> Forall (good w) cs ->
  worker_turn sends t cs w = Some (cs', w') -> advance cs w cs' w'.
Proof.
  intros Hs Ht Hnd G E. apply bind_Some in E as ([[cs1 due] w1] & E1 & E).
  pose proof (send_all_advance _ _ _ _ _ _ _ _ Hs Ht Hnd E1) as A. destruct (A G) as (F & _).
  eapply advance_trans; [exact A|]. injection E as E. set (w2 := mkIo _ _ _ _ _) in E.
  eapply advance_trans; [apply (advance_io cs1 w1 w2); cbn; eauto using no_more; by destruct (out_ w1); eexists|].
  pose proof (read_all_advance cs1 (poll_answer (length (polls_ w1))) w2 ltac:(by rewrite F)) as B. cbn in E, B. by rewrite E in B.
Qed.

Lemma worker_loop_advance sends fuel : forall cs w cs' w',
  schedule_ok -> NoDup (fd <$> cs) -> Forall (good w) cs ->
  worker_loop sends fuel cs w = Some (cs', w') -> advance cs w cs' w'.
Proof.
  induction fuel as [|fuel IH]; intros cs w cs' w' Hs Hnd G E; [done|]. simpl in E.
  pose proof (now_advance cs w) as A1. unfold now_ns in A1. cbn [snd] in A1. set (w1 := mkIo _ _ _ _ _) in *.
  destruct (Z.leb_spec end_ns (clock (reads_ w))) as [|Ht]; [by simplify_eq|].
  apply bind_Some in E as ([cs2 w2] & E2 & E). destruct (A1 G) as (_ & _ & G1 & _).
  pose proof (worker_turn_advance _ _ _ _ _ _ Hs Ht Hnd G1 E2) as A2. destruct (A2 G1) as (F2 & _ & G2 & _).
  eapply advance_trans; [exact A1|]. eapply advance_trans; [exact A2|]. eapply IH; eauto. by rewrite F2.
Qed.

(** ** Ending *)

Lemma send_all_ends t : forall cs due w,
  schedule_ok -> t < end_ns -> Forall paced cs -> is_Some (send_all 103 t cs due w).
Proof.
  induction cs as [|c cs IH]; intros due w Hs Ht Hp; [done|]. inversion Hp as [|? ? Pc Pcs]; subst.
  cbn [LoadGen.loadgen.send_all]. destruct (fd c <? 0).
  - destruct (IH due w Hs Ht Pcs) as [[[cs1 due1] w1] ->]. done.
  - destruct (send_due_ends t c w Hs Ht Pc) as [[c1 w1] E]. rewrite E. cbn [mbind option_bind].
    destruct (IH (Z.min due (next_send_ns c1)) w1 Hs Ht Pcs) as [[[cs2 due2] w2] ->]. done.
Qed.

Lemma good_paced w cs : Forall (good w) cs -> Forall paced cs.
Proof. intros H. eapply Forall_impl; [exact H|]. by intros c [_ ?]. Qed.

Lemma worker_loop_ends (K : nat) : (forall k, (K <= k)%nat -> end_ns <= clock k) ->
  forall fuel cs w, schedule_ok -> NoDup (fd <$> cs) -> Forall (good w) cs -> (K < fuel + reads_ w)%nat -> (0 < fuel)%nat ->
  is_Some (worker_loop 103 fuel cs w).
Proof.
  intros HK. induction fuel as [|fuel IH]; intros cs w Hs Hnd G Hf H0; [lia|]. cbn [LoadGen.loadgen.worker_loop].
  pose proof (now_advance cs w) as A1. unfold now_ns in *. cbn [snd] in A1. set (w1 := mkIo _ _ _ _ _) in *.
  destruct (Z.leb_spec end_ns (clock (reads_ w))) as [|Ht]; [done|]. destruct (A1 G) as (_ & _ & G1 & _).
  destruct (send_all_ends _ cs end_ns w1 Hs Ht (good_paced _ _ G1)) as [[[cs2 due] w2] E2].
  assert (exists p, worker_turn 103 (clock (reads_ w)) cs w1 = Some p) as [[cs3 w3] E3].
  { unfold LoadGen.loadgen.worker_turn. rewrite E2. eexists. reflexivity. }
  rewrite E3. cbn [mbind option_bind].
  destruct (worker_turn_advance _ _ _ _ _ _ Hs Ht Hnd G1 E3 G1) as (F3 & X3 & G3 & _).
  pose proof (ex_reads _ _ _ X3) as R3. change (reads_ w1) with (S (reads_ w)) in R3.
  apply IH; try done; [by rewrite F3|lia|].
  destruct fuel; [|lia]. exfalso. pose proof (HK (reads_ w) ltac:(lia)). lia.
Qed.

(** ** Fresh clients *)

Lemma fresh_good (fds : list Z) : schedule_ok -> Forall (good io0) (set_next_send start_ns <$> (client0 <$> fds)).
Proof.
  intros (H1 & H2 & H3). rewrite !Forall_fmap. apply Forall_true. intros f. split; split; cbn; try lia; try done.
Qed.

Lemma fresh_fds (fds : list Z) : fd <$> (set_next_send start_ns <$> (client0 <$> fds)) = fds.
Proof. rewrite <- !list_fmap_compose. by apply list_fmap_id. Qed.

Lemma fresh_balanced (fds : list Z) : balanced (all_flying (set_next_send start_ns <$> (client0 <$> fds)) + 0) io0.
Proof. induction fds as [|f fds IH]; [done|]. exact IH. Qed.

Lemma fresh_unacked (fds : list Z) : Forall (unacked []) (set_next_send start_ns <$> (client0 <$> fds)).
Proof. rewrite !Forall_fmap. apply Forall_true. intros f k _. cbn. set_solver. Qed.

Lemma io0_ok : io_ok io0.
Proof. by split. Qed.

(** A run that returned: its books are in order. *)
Lemma run_settled sends fuel fds cs w :
  schedule_ok -> NoDup fds ->
  run_worker clock send_answer poll_answer crossing interval_ns warmup_end_ns end_ns sends fuel start_ns (client0 <$> fds) = Some (cs, w) ->
  fd <$> cs = fds /\ Forall (good w) cs /\ io_ok w /\ balanced (all_flying cs) w /\
  exists acks, ledger w acks /\ Forall (unacked acks) cs /\ Forall (fun a => a_fd a ∈ fds) acks.
Proof.
  intros Hs Hnd E. pose proof (fresh_good fds Hs) as G.
  destruct (worker_loop_advance _ _ _ _ _ _ Hs ltac:(by rewrite fresh_fds) G E G) as (F & _ & G' & I & C & B).
  rewrite fresh_fds in F. pose proof (B 0 (fresh_balanced fds)) as Hb. rewrite Z.add_0_r in Hb.
  split_and!; auto using io0_ok.
  destruct (C [] ltac:(split; [constructor..|done|done]) (fresh_unacked fds)) as (acks & L & U & Fa).
  exists acks. rewrite fresh_fds in Fa. by split_and!.
Qed.

Lemma run_returns K fds :
  schedule_ok -> (forall k, (K <= k)%nat -> end_ns <= clock k) -> NoDup fds ->
  is_Some (run_worker clock send_answer poll_answer crossing interval_ns warmup_end_ns end_ns 103 (S K) start_ns (client0 <$> fds)).
Proof.
  intros Hs HK Hnd. apply (worker_loop_ends K HK); [done|by rewrite fresh_fds|by apply fresh_good|cbn; lia|lia].
Qed.

(** The clock of a run: monotone, and short of 2^63 nanoseconds. *)
Definition clock_ok : Prop := forall i j, (i <= j)%nat -> 0 <= clock i <= clock j /\ clock j < 2 ^ 63.

(** With it, the latencies are the times between the two readings. *)
Lemma ledger_exact w acks : clock_ok -> ledger w acks ->
  latencies_ns (out_ w) = (fun a => clock (a_read a) - clock (a_sent a)) <$> filter timed acks /\
  Forall (fun l => 0 <= l) (latencies_ns (out_ w)).
Proof.
  intros Hc [L1 _ _ ->]. assert (Forall (fun a => latency a = clock (a_read a) - clock (a_sent a) /\ 0 <= latency a)
    (filter timed acks)) as H.
  { apply Forall_forall. intros a [_ Ha]%list_elem_of_filter. rewrite Forall_forall in L1. destruct (L1 a Ha) as (Hi & _).
    destruct (Hc (a_sent a) (a_read a) ltac:(lia)) as [? ?]. unfold latency.
    rewrite u64_id by (unfold is_u64; lia). rewrite i64_id by (unfold is_i64; lia). lia. }
  split; [apply Forall_fmap_ext_1|apply Forall_fmap]; (eapply Forall_impl; [exact H|]); by intros a [? ?].
Qed.

(** The calls of a client count its ids. *)
Lemma client_sends w c : client_ok w c -> Z.of_nat (length (calls_to (fd c) w)) = next_coid c - 1.
Proof.
  intros [H1 H2 _]. pose proof (f_equal length H2) as L. rewrite !length_fmap, length_seqZ in L. lia.
Qed.

(** ** What the gateway reads *)

Lemma order_for_ok k : is_u64 k -> NewOrder_ok (order_for crossing k).
Proof.
  intros Hk. unfold order_for, NewOrder_ok. cbn [no_client_order_id no_price_ticks no_quantity].
  pose proof (Z.mod_pos_bound k 7 ltac:(lia)) as H7. split_and!; [done| |].
  - unfold is_i64. destruct crossing, (k mod 2 =? 0); lia.
  - unfold is_u32. destruct crossing; [|lia]. rewrite u32_id; unfold is_u32; lia.
Qed.

(** The bytes of whole sends, in whatever pieces they arrive, are read as the
    client's orders. *)
Lemma sends_delivered w c chunks :
  client_ok w c -> next_coid c <= 2 ^ 64 -> mjoin chunks = mjoin (offered <$> calls_to (fd c) w) ->
  decode_frame <$> (feed_all frame_reader0 chunks).1 =
    (fun k => Some (MNewOrder (order_for crossing k))) <$> seqZ 1 (next_coid c - 1).
Proof.
  intros [H1 H2 _] Hb Hm. set (ms := (fun k => MNewOrder (order_for crossing k)) <$> seqZ 1 (next_coid c - 1)).
  assert (Forall any_ok ms) as Hok.
  { apply Forall_fmap, Forall_forall. intros k [? ?]%elem_of_seqZ. apply order_for_ok. unfold is_u64. lia. }
  assert (mjoin chunks = (frame_of <$> ms) ≫= frame_bytes) as Hbytes.
  { rewrite Hm, H2, <- any_frames_eq. unfold ms. clear. induction (seqZ 1 (next_coid c - 1)) as [|k l IH]; [done|].
    cbn. f_equal. exact IH. }
  pose proof (frames_of_ok ms Hok) as Hf.
  pose proof (feed_all_parses chunks ltac:(rewrite Hbytes; by apply frames_bytes)) as P1. rewrite Hbytes in P1.
  pose proof (parses_frames (frame_of <$> ms) [] Hf ltac:(constructor) eq_refl) as P2. rewrite app_nil_r in P2.
  destruct (parses_det _ _ _ _ _ P1 P2) as [-> _]. rewrite decode_frames_of by done. unfold ms. by rewrite <- list_fmap_compose.
Qed.

Lemma paced_u64 c : schedule_ok -> paced c -> next_coid c <= 2 ^ 64.
Proof.
  intros (S1 & S2 & S3) [P1 _ _ [P|P]]; [lia|]. destruct (decide (next_coid c = 1)); [lia|].
  assert (next_coid c - 2 <= interval_ns * (next_coid c - 2)) by nia. lia.
Qed.

Lemma poll_timeout_range due nowt :
  Z.min due end_ns - nowt < 2 ^ 31 * 1000000 -> 0 <= poll_timeout end_ns due nowt <= kMaxPollBlockMs.
Proof.
  intros H. unfold poll_timeout, kMaxPollBlockMs, i32. destruct (Z.ltb_spec nowt (Z.min due end_ns)) as [Hl|]; [|lia].
  assert (0 <= (Z.min due end_ns - nowt) / 1000000 < 2 ^ 31) as Hd
    by (split; [apply Z.div_pos|apply Z.div_lt_upper_bound]; lia).
  rewrite Z.mod_small by lia. lia.
Qed.

End worker.

#[export] Existing Instance timed_dec.

(** ** The claims *)

(** C35: [worker_accounts]. A worker's books. It drives distinct descriptors
    ([NoDup]), by a monotone clock below 2^63 ns ([clock_ok]), with an interval of
    a nanosecond or more and an end that a hundred and one intervals fit behind
    ([schedule_ok]). However the run goes (any answers of [send], [poll] and
    [recv], Acks forged or repeated), when it returns: [sent] and [send_failed]
    count the calls that took the whole frame and those that did not, [rejected]
    the Rejects read, and [sent] is [acked] plus the orders still in flight (all
    modulo 2^64); each client has offered exactly the frames of its orders
    1, 2, 3, ... in order; an order in flight was taken whole, with the clock
    reading just before its [send]. [acked] counts orders each acknowledged once
    and none of them in flight: each was taken whole by the [send] that directly
    followed one clock reading and named by an Ack read on its connection with
    another, later; and the latencies are, in that order, exactly the times
    between those two readings for the orders whose first reading is not before
    the end of the warm-up, none negative. What a client offered, if it all goes
    out, is read by the gateway's frame reader as just those orders, in whatever
    pieces it arrives. *)
Theorem worker_accounts (clock : nat -> Z) (send_answer : nat -> Z) (poll_answer : nat -> Ready) (crossing : bool)
    (interval warmup_end end_ns start : Z) (sends fuel : nat) (fds : list Z) (cs : list Client) (w : Io) :
  schedule_ok interval end_ns start -> clock_ok clock -> NoDup fds ->
  run_worker clock send_answer poll_answer crossing interval warmup_end end_ns sends fuel start (client0 <$> fds) = Some (cs, w) ->
  fd <$> cs = fds /\
  sent (out_ w) = u64 (whole w) /\ send_failed (out_ w) = u64 (Z.of_nat (length (calls_ w)) - whole w) /\
  rejected (out_ w) = u64 (rejects w) /\ sent (out_ w) = u64 (acked (out_ w) + all_flying cs) /\
  Forall (client_ok clock crossing w) cs /\
  (exists acks, Forall (acknowledged w) acks /\ NoDup (name <$> acks) /\ Forall (fun a => a_fd a ∈ fds) acks /\
    Forall (fun c => forall k, is_Some (in_flight c !! k) -> (fd c, k) ∉ name <$> acks) cs /\
    acked (out_ w) = u64 (Z.of_nat (length acks)) /\
    latencies_ns (out_ w) = (fun a => clock (a_read a) - clock (a_sent a)) <$> filter (timed clock warmup_end) acks /\
    Forall (fun l => 0 <= l) (latencies_ns (out_ w))) /\
  Forall (fun c => forall chunks, mjoin chunks = mjoin (offered <$> calls_to (fd c) w) ->
    decode_frame <$> (feed_all frame_reader0 chunks).1 =
      (fun k => Some (MNewOrder (order_for crossing k))) <$> seqZ 1 (next_coid c - 1)) cs.
Proof.
  intros Hs Hc Hnd E.
  destruct (run_settled _ _ _ _ _ _ _ _ _ _ _ _ _ Hs Hnd E) as (F & G & [I1 I2 I3] & B & acks & L & U & Fa). split_and!; auto.
  - by rewrite I1, B.
  - eapply Forall_impl; [exact G|]. by intros c [? _].
  - exists acks. destruct (ledger_exact _ _ _ _ Hc L) as [Hl H0]. destruct L as [L1 L2 L3 _]. split_and!; try done.
    eapply Forall_impl; [exact U|]. intros c Hu k Hk. apply Hu. by left.
  - eapply Forall_impl; [exact G|]. intros c [Hk Hp] chunks. eapply sends_delivered; [exact Hk|by eapply paced_u64].
Qed.

(** C36: [worker_ends]. A worker returns, and never offers more than its rate:
    with an interval of at least one nanosecond and a clock that reaches the end
    by its [K]-th reading, a hundred and three turns of the sending loop and one
    more than [K] of the outer loop are enough whatever the kernel answers, and
    on each connection the [n]-th order was offered only if [n - 1] intervals
    fit before the end: the schedule never catches up by a burst above it. The
    interval, the start and the end are in the range of the clock
    ([schedule_ok]), and after each [poll] a connection has finitely many bytes
    to read: the code's [recv] loop has no other bound. *)
Theorem worker_ends (clock : nat -> Z) (send_answer : nat -> Z) (poll_answer : nat -> Ready) (crossing : bool)
    (interval warmup_end end_ns start : Z) (K : nat) (fds : list Z) :
  schedule_ok interval end_ns start -> (forall k, (K <= k)%nat -> end_ns <= clock k) -> NoDup fds ->
  exists cs w,
    run_worker clock send_answer poll_answer crossing interval warmup_end end_ns 103 (S K) start (client0 <$> fds) = Some (cs, w) /\
    fd <$> cs = fds /\
    Forall (fun f => calls_to f w = [] \/ start + interval * (Z.of_nat (length (calls_to f w)) - 1) < end_ns) fds.
Proof.
  intros Hs HK Hnd. destruct (run_returns clock send_answer poll_answer crossing interval warmup_end end_ns start K fds Hs HK Hnd)
    as [[cs w] E].
  destruct (run_settled _ _ _ _ _ _ _ _ _ _ _ _ _ Hs Hnd E) as (F & G & _). exists cs, w. split_and!; [exact E|done|].
  rewrite <- F, Forall_fmap. eapply Forall_impl; [exact G|]. intros c [Hc [_ _ _ P]].
  pose proof (client_sends _ _ _ _ Hc) as L. cbn. rewrite L. destruct P as [P|P]; [left|right; lia]. apply length_zero_iff_nil. lia.
Qed.

(** ** The whole run *)

(** Sums of figures over the workers. *)
Definition total {A} (f : A -> Z) (l : list A) : Z := foldr (fun x n => f x + n) 0 l.

Lemma total_ext {A} (f g : A -> Z) l : Forall (fun x => u64 (f x) = u64 (g x)) l -> u64 (total f l) = u64 (total g l).
Proof.
  induction 1 as [|x l Hx _ IH]; [done|]. cbn [total foldr]. unfold u64 in *. rewrite Z.add_mod, Hx by done.
  fold (total f l) (total g l). rewrite IH. by rewrite <- Z.add_mod by done.
Qed.

Lemma total_add {A} (f g : A -> Z) l : total (fun x => f x + g x) l = total f l + total g l.
Proof. induction l as [|x l IH]; [done|]. cbn [total foldr]. fold (total f l) (total g l) (total (fun x => f x + g x) l). lia. Qed.

Lemma total_fmap {A B} (f : B -> Z) (g : A -> B) l : total f (g <$> l) = total (f ∘ g) l.
Proof. induction l as [|x l IH]; [done|]. cbn. unfold total in *. by rewrite IH. Qed.

(** A figure that the merge adds up. *)
Lemma merged_total (f : Sample -> Z) (samples : list Sample) :
  (forall a s, f (add_sample a s) = u64 (f a + f s)) -> f sample0 = 0 ->
  u64 (f (foldl add_sample sample0 samples)) = u64 (total f samples).
Proof.
  intros Ha H0. assert (forall a, u64 (f (foldl add_sample a samples)) = u64 (f a + total f samples)) as H.
  { induction samples as [|s ss IH]; intros a; cbn [foldl total foldr]; [by rewrite Z.add_0_r|].
    rewrite IH, Ha, u64_add_l. f_equal. fold (total f ss). lia. }
  by rewrite H, H0.
Qed.

Lemma merged_reduced (f : Sample -> Z) (samples : list Sample) :
  (forall a s, f (add_sample a s) = u64 (f a + f s)) -> f sample0 = 0 ->
  u64 (f (foldl add_sample sample0 samples)) = f (foldl add_sample sample0 samples).
Proof.
  intros Ha H0. destruct samples as [|s ss _] using rev_ind; [cbn [foldl]; by rewrite H0|].
  rewrite foldl_app. cbn [foldl]. rewrite Ha. by rewrite u64_u64.
Qed.

Lemma merged_latencies (samples : list Sample) :
  latencies_ns (foldl add_sample sample0 samples) = mjoin (latencies_ns <$> samples).
Proof.
  assert (forall a, latencies_ns (foldl add_sample a samples) = latencies_ns a ++ mjoin (latencies_ns <$> samples)) as H.
  { induction samples as [|s ss IH]; intros a; cbn [foldl]; [by rewrite app_nil_r|]. rewrite IH. cbn. by rewrite app_assoc. }
  apply H.
Qed.

(** ** The clients among the workers *)

Lemma assign_all n i c pw : (i mod n < length pw)%nat -> mjoin (assign n i c pw) ≡ₚ c :: mjoin pw.
Proof.
  unfold assign. generalize (i mod n)%nat. intros k. revert k. induction pw as [|cs pw IH]; intros k Hk; [cbn in Hk; lia|].
  destruct k as [|k]; cbn.
  - rewrite <- app_assoc. cbn. by rewrite Permutation_middle.
  - rewrite (IH k) by (cbn in Hk; lia). by rewrite Permutation_middle.
Qed.

(** The descriptors worker [k] of [n] gets when they are dealt round robin, the
    first to worker [i mod n]. *)
Definition share_from (n k i : nat) (fds : list Z) : list Z :=
  snd <$> filter (fun p => (p.1 mod n)%nat = k) (imap (fun j f => ((i + j)%nat, f)) fds).

Definition share (n k : nat) (fds : list Z) : list Z := share_from n k 0 fds.

Lemma share_from_cons n k i f fds :
  share_from n k i (f :: fds) = (if decide ((i mod n)%nat = k) then [f] else []) ++ share_from n k (S i) fds.
Proof.
  unfold share_from. rewrite imap_cons. assert (imap ((fun j f => ((i + j)%nat, f)) ∘ S) fds = imap (fun j f => ((S i + j)%nat, f)) fds) as ->.
  { apply imap_ext. intros j x _. cbn. f_equal. lia. }
  rewrite Nat.add_0_r. destruct (decide _) as [H|H]; [by rewrite filter_cons_True|by rewrite filter_cons_False].
Qed.

Lemma assign_lookup n i c pw k cs :
  pw !! k = Some cs -> assign n i c pw !! k = Some (cs ++ (if decide ((i mod n)%nat = k) then [c] else [])).
Proof.
  intros Hk. unfold assign. destruct (decide _) as [<-|H].
  - by rewrite list_lookup_alter_eq, Hk.
  - by rewrite list_lookup_alter_ne, app_nil_r.
Qed.

(** Every connection goes to one worker, by turns. *)
Lemma connect_all_clients n fds : forall i pw,
  (0 < n)%nat -> length pw = n -> Forall (fun f => 0 <= f) fds ->
  exists pw', connect_all n i fds pw = inr pw' /\ length pw' = n /\ mjoin pw' ≡ₚ (client0 <$> fds) ++ mjoin pw /\
    forall k cs, pw !! k = Some cs -> pw' !! k = Some (cs ++ (client0 <$> share_from n k i fds)).
Proof.
  induction fds as [|f fds IH]; intros i pw Hn Hl Hf.
  { exists pw. split_and!; [done..|]. intros k cs Hk. by rewrite app_nil_r. }
  inversion Hf as [|? ? H0 H1]; subst.
  cbn [connect_all]. rewrite (proj2 (Z.ltb_ge f 0)) by lia.
  pose proof (Nat.mod_upper_bound i (length pw) ltac:(lia)) as Hm.
  destruct (IH (S i) (assign (length pw) i (client0 f) pw)) as (pw' & -> & Hl' & Hp & Hk); [done|by apply length_alter|done|].
  exists pw'. split_and!; [done|done| |].
  - rewrite Hp, assign_all by done. cbn. by rewrite <- Permutation_middle.
  - intros k cs E. rewrite (Hk k _ (assign_lookup _ _ _ _ _ _ E)), share_from_cons, fmap_app, <- app_assoc. by destruct (decide _).
Qed.

(** Each worker's clients are fresh, on descriptors of their own. *)
Lemma workers_fresh (fds : list Z) pw : NoDup fds -> mjoin pw ≡ₚ client0 <$> fds ->
  Forall (fun cs => cs = client0 <$> (fd <$> cs) /\ NoDup (fd <$> cs)) pw.
Proof.
  intros Hnd Hp. assert (NoDup (fd <$> mjoin pw)) as Hn.
  { rewrite Hp, <- list_fmap_compose. by rewrite (list_fmap_id (A := Z)). }
  assert (Forall (fun c => c = client0 (fd c)) (mjoin pw)) as Hf by (rewrite Hp, Forall_fmap; by apply Forall_true).
  clear Hp. induction pw as [|cs pw IH]; [constructor|]. cbn in Hn, Hf. rewrite fmap_app in Hn.
  apply NoDup_app in Hn as (N1 & _ & N2). apply Forall_app in Hf as [F1 F2]. constructor; [split|by apply IH]; [|done].
  rewrite <- list_fmap_compose. clear N1. induction F1 as [|c cs Hc _ IHc]; [done|]. cbn. by rewrite <- Hc, <- IHc.
Qed.

(** The configuration fits the clock: every conversion has a meaning, and the
    run lies within its range. *)
Definition run_fits (cfg : Config) (start interval warm total_ns : Z) : Prop :=
  refused cfg = false /\ interval_of cfg = Some interval /\ to_u64 (dbl_mul (warmup_s cfg) k1e9) = Some warm /\
  to_u64 (dbl_mul (dbl_add (warmup_s cfg) (duration_s cfg)) k1e9) = Some total_ns /\
  1 <= interval /\ 0 <= start /\ 0 <= total_ns /\ start + total_ns + 101 * interval < 2 ^ 64 /\ start + warm < 2 ^ 64.

Lemma worker_count_pos cfg : refused cfg = false -> 1 <= worker_count cfg.
Proof.
  unfold refused, worker_count, kDefaultWorkers. intros [[Hc _]%orb_false_iff _]%orb_false_iff.
  apply Z.leb_gt in Hc. destruct (Z.leb_spec (workers cfg) 0); lia.
Qed.

Lemma imap_pair_snd {A} (l : list A) : snd <$> imap pair l = l.
Proof. apply list_eq. intros i. rewrite list_lookup_fmap, list_lookup_imap. by destruct (l !! i). Qed.

(** What a worker of the run leaves, by its number and clients. *)
Definition worker_left (cfg : Config) (start interval warm total_ns : Z) (worlds : nat -> World) (x : nat * list Client)
    (p : list Client * Io) : Prop :=
  let clock := w_clock (worlds x.1) in
  fd <$> p.1 = fd <$> x.2 /\
  Forall (good clock (cross cfg) interval (start + total_ns) start p.2) p.1 /\ io_ok p.2 /\
  balanced (all_flying p.1) p.2 /\ exists acks, ledger clock (start + warm) p.2 acks.

Section main.
Context (cfg : Config) (start interval warm total_ns : Z) (worlds : nat -> World) (K : nat).
Context (Hfit : run_fits cfg start interval warm total_ns).
Context (Hend : forall k j, (K <= j)%nat -> start + total_ns <= w_clock (worlds k) j).

Definition worker_run (x : nat * list Client) : option (list Client * Io) :=
  let '(k, cs) := x in
  run_worker (w_clock (worlds k)) (w_send (worlds k)) (w_poll (worlds k)) (cross cfg) interval (u64 (start + warm))
    (u64 (start + total_ns)) 103 (S K) start cs.

Lemma schedule_fits : schedule_ok interval (start + total_ns) start.
Proof. destruct Hfit as (_ & _ & _ & _ & H). unfold schedule_ok. lia. Qed.

Lemma warm_nonneg : 0 <= warm.
Proof.
  destruct Hfit as (_ & _ & H & _). destruct (dbl_mul _ _) as [| | |b m e]; cbn [to_u64] in H; simplify_eq; [done|].
  destruct (if b then _ else _); [|done]. simplify_eq. destruct (0 <=? e) eqn:E.
  - apply Z.mul_nonneg_nonneg; [lia|]. apply Z.pow_nonneg. lia.
  - apply Z.div_pos; [lia|]. apply Z.leb_gt in E. apply Z.pow_pos_nonneg; lia.
Qed.

Lemma worker_run_unfold k cs :
  worker_run (k, cs) = run_worker (w_clock (worlds k)) (w_send (worlds k)) (w_poll (worlds k)) (cross cfg) interval
    (start + warm) (start + total_ns) 103 (S K) start cs.
Proof.
  pose proof warm_nonneg. pose proof Hfit as (_ & _ & _ & _ & ? & ? & ? & ? & ?).
  unfold worker_run. by rewrite !u64_id by (unfold is_u64; lia).
Qed.

Lemma worker_run_left k cs : cs = client0 <$> (fd <$> cs) -> NoDup (fd <$> cs) ->
  exists p, worker_run (k, cs) = Some p /\ worker_left cfg start interval warm total_ns worlds (k, cs) p.
Proof.
  intros Hc Hnd. pose proof schedule_fits as Hs. rewrite worker_run_unfold. set (fds := fd <$> cs) in *. rewrite Hc.
  destruct (run_returns (w_clock (worlds k)) (w_send (worlds k)) (w_poll (worlds k)) (cross cfg) interval (start + warm)
    (start + total_ns) start K fds Hs (Hend k) Hnd) as [[cs' w] E].
  exists (cs', w). split; [exact E|]. destruct (run_settled _ _ _ _ _ _ _ _ _ _ _ _ _ Hs Hnd E) as (F & G & I & B & acks & L & _).
  unfold worker_left. cbn [fst snd]. rewrite <- list_fmap_compose, (list_fmap_id (A := Z)). split_and!; by try exists acks.
Qed.

Lemma workers_left pw : Forall (fun cs => cs = client0 <$> (fd <$> cs) /\ NoDup (fd <$> cs)) pw ->
  exists rs, mapM worker_run (imap pair pw) = Some rs /\
    Forall2 (worker_left cfg start interval warm total_ns worlds) (imap pair pw) rs.
Proof.
  intros H. assert (Forall (fun x => exists p, worker_run x = Some p /\ worker_left cfg start interval warm total_ns worlds x p)
    (imap pair pw)) as Hall.
  { rewrite <- (imap_pair_snd pw), Forall_fmap in H. eapply Forall_impl; [exact H|]. intros [k cs] [H1 H2].
    by apply worker_run_left. }
  clear H. induction Hall as [|x l (p & E & L) _ (rs & IH & F)]; [by exists []|].
  exists (p :: rs). cbn. rewrite E. cbn. rewrite IH. split; [done|by constructor].
Qed.

(** *** The figures of the workers and of the merge *)

Lemma left_fds xs rs : Forall2 (worker_left cfg start interval warm total_ns worlds) xs rs ->
  mjoin ((fun p => fd <$> p.1) <$> rs) = fd <$> mjoin (snd <$> xs).
Proof. induction 1 as [|x p xs rs (F & _) _ IH]; [done|]. cbn. rewrite F, fmap_app. f_equal. exact IH. Qed.

(** Which run a result is of. *)
Lemma left_runs pw rs k p : mapM worker_run (imap pair pw) = Some rs -> rs !! k = Some p ->
  exists cs, pw !! k = Some cs /\ worker_run (k, cs) = Some p.
Proof.
  intros H Hp. apply mapM_Some in H. destruct (Forall2_lookup_r _ _ _ _ _ H Hp) as (x & Hx & E).
  rewrite list_lookup_imap in Hx. destruct (pw !! k) as [cs|]; [|done]. injection Hx as <-. by exists cs.
Qed.

Lemma left_each (P : list Client * Io -> Prop) xs rs :
  (forall x p, worker_left cfg start interval warm total_ns worlds x p -> P p) ->
  Forall2 (worker_left cfg start interval warm total_ns worlds) xs rs -> Forall P rs.
Proof. intros H. induction 1; constructor; eauto. Qed.

Notation merged rs := (merge ((fun r : list Client * Io => out_ r.2) <$> rs)).

Lemma merged_figure (f : Sample -> Z) (g : list Client * Io -> Z) rs :
  (forall a s, f (add_sample a s) = u64 (f a + f s)) -> f sample0 = 0 -> (forall l s, f s = f (mkSample l (sent s) (acked s) (rejected s) (send_failed s))) ->
  Forall (fun p => u64 (f (out_ p.2)) = u64 (g p)) rs -> f (merged rs) = u64 (total g rs).
Proof.
  intros Ha H0 Hl H. unfold merge. set (all := foldl _ _ _). rewrite <- (Hl _ all). unfold all.
  rewrite <- (merged_reduced f _ Ha H0), (merged_total f _ Ha H0), total_fmap. by apply total_ext.
Qed.

Lemma report_figures xs rs : Forall2 (worker_left cfg start interval warm total_ns worlds) xs rs ->
  sent (merged rs) = u64 (total (fun p => whole p.2) rs) /\
  send_failed (merged rs) = u64 (total (fun p => Z.of_nat (length (calls_ p.2)) - whole p.2) rs) /\
  acked (merged rs) = u64 (total (fun p => acked (out_ p.2)) rs) /\
  rejected (merged rs) = u64 (total (fun p => rejects p.2) rs) /\
  sent (merged rs) = u64 (acked (merged rs) + total (fun p => all_flying p.1) rs).
Proof.
  intros HL. pose proof (left_each) as Each.
  assert (sent (merged rs) = u64 (total (fun p => whole p.2) rs)) as Hsent.
  { apply (merged_figure sent); [done..|]. eapply Each; [|exact HL]. intros x p (_ & _ & [I1 _ _] & _). cbn beta.
    rewrite I1. by rewrite u64_u64. }
  assert (acked (merged rs) = u64 (total (fun p => acked (out_ p.2)) rs)) as Hack
    by (apply (merged_figure acked); [done..|by apply Forall_true]).
  split_and!; [done| |done| |].
  - apply (merged_figure send_failed); [done..|]. eapply Each; [|exact HL]. intros x p (_ & _ & [_ I2 _] & _). cbn beta.
    rewrite I2. by rewrite u64_u64.
  - apply (merged_figure rejected); [done..|]. eapply Each; [|exact HL]. intros x p (_ & _ & [_ _ I3] & _). cbn beta.
    rewrite I3. by rewrite u64_u64.
  - rewrite Hsent, Hack, u64_add_l, <- total_add. apply total_ext. eapply Each; [|exact HL].
    intros x p (_ & _ & _ & B & _). cbn beta. symmetry. exact B.
Qed.

Lemma left_latencies xs rs :
  (forall k, clock_ok (w_clock (worlds k))) -> Forall2 (worker_left cfg start interval warm total_ns worlds) xs rs ->
  Forall (fun l => 0 <= l) (mjoin ((fun p => latencies_ns (out_ p.2)) <$> rs)).
Proof.
  intros Hc. induction 1 as [|x p xs rs (_ & _ & _ & _ & acks & L) _ IH]; [constructor|]. cbn. apply Forall_app. split; [|exact IH].
  by destruct (ledger_exact _ _ _ _ (Hc x.1) L) as [_ ?].
Qed.

End main.

(** The percentiles of a report are samples, up to its maximum. *)
Lemma report_percentiles cfg all :
  Sorted Z.le (latencies_ns all) -> latencies_ns all <> [] -> Z.of_nat (length (latencies_ns all)) < 2 ^ 64 ->
  Forall (fun p => exists x, p = Some x /\ x ∈ latencies_ns all /\ x <= rp_max (report cfg all))
    [rp_p50 (report cfg all); rp_p90 (report cfg all); rp_p99 (report cfg all); rp_p999 (report cfg all)].
Proof.
  intros Hs Hne Hl. pose proof printed_fractions as Hf.
  change [rp_p50 (report cfg all); rp_p90 (report cfg all); rp_p99 (report cfg all); rp_p999 (report cfg all)]
    with (percentile (latencies_ns all) <$> [dlit 50 (-2); dlit 90 (-2); dlit 99 (-2); dlit 999 (-3)]).
  rewrite Forall_fmap. eapply Forall_impl; [exact Hf|]. intros q Hq. cbn. rewrite percentile_same.
  destruct (percentile_sample _ q Hl Hne Hq) as (i & x & Hx & Hi). exists x. split_and!; [exact Hx|by eapply list_elem_of_lookup_2|].
  by eapply sorted_last.
Qed.

(** C34: [loadgen_reports]. The load generator as a whole. With arguments that
    give a usable configuration whose times fit the clock ([run_fits]),
    connections that all open, on distinct descriptors, and workers' clocks that
    are monotone, below 2^63 ns, and reach the end by their [K]-th reading,
    [main] ends in a report, whatever the kernel answers. The report is made of
    [worker_count] runs: the [k]-th is what [run_worker] returns on the [k]-th
    worker's clock and kernel for every [worker_count]-th connection from the
    [k]-th on ([share]), so that each connection is driven by one of them. Over
    all those runs, modulo 2^64: [sent] is the number of frames taken whole and
    [send_failed] of the others, [acked] the sum of the workers' figures,
    [rejected] the Rejects read, and [sent] is [acked] plus the orders left in
    flight; its samples are those of all the workers, sorted and none negative;
    and each percentile printed is read inside the samples and is at most the
    maximum printed. *)
Theorem loadgen_reports (args : list text) (cfg : Config) (dials : nat -> DialCalls) (start interval warm total_ns : Z)
    (worlds : nat -> World) (K : nat) :
  let fds := connections dials (Z.to_nat (clients cfg)) in
  let n := Z.to_nat (worker_count cfg) in
  parse_args args config0 = ArgConfig cfg -> run_fits cfg start interval warm total_ns ->
  NoDup fds -> Forall (fun f => 0 <= f) fds ->
  (forall k j, (K <= j)%nat -> start + total_ns <= w_clock (worlds k) j) -> (forall k, clock_ok (w_clock (worlds k))) ->
  exists rs r, main 103 (S K) args dials start worlds = Reported r /\
    length rs = n /\ mjoin ((fun p => fd <$> p.1) <$> rs) ≡ₚ fds /\
    (forall k p, rs !! k = Some p ->
      run_worker (w_clock (worlds k)) (w_send (worlds k)) (w_poll (worlds k)) (cross cfg) interval (start + warm)
        (start + total_ns) 103 (S K) start (client0 <$> share n k fds) = Some p) /\
    sent (rp_sample r) = u64 (total (fun p => whole p.2) rs) /\
    send_failed (rp_sample r) = u64 (total (fun p => Z.of_nat (length (calls_ p.2)) - whole p.2) rs) /\
    acked (rp_sample r) = u64 (total (fun p => acked (out_ p.2)) rs) /\
    rejected (rp_sample r) = u64 (total (fun p => rejects p.2) rs) /\
    sent (rp_sample r) = u64 (acked (rp_sample r) + total (fun p => all_flying p.1) rs) /\
    Sorted Z.le (latencies_ns (rp_sample r)) /\ Forall (fun l => 0 <= l) (latencies_ns (rp_sample r)) /\
    latencies_ns (rp_sample r) ≡ₚ mjoin ((fun p => latencies_ns (out_ p.2)) <$> rs) /\
    (latencies_ns (rp_sample r) <> [] -> Z.of_nat (length (latencies_ns (rp_sample r))) < 2 ^ 64 ->
     Forall (fun p => exists x, p = Some x /\ x ∈ latencies_ns (rp_sample r) /\ x <= rp_max r)
       [rp_p50 r; rp_p90 r; rp_p99 r; rp_p999 r]).
Proof.
  intros fds n Hargs Hfit Hnd Hpos Hend Hclock. pose proof Hfit as (Hr & Hi & Hw & Ht & _). pose proof (worker_count_pos cfg Hr) as Hn.
  destruct (connect_all_clients n fds 0 (replicate n [])) as (pw & Hpw & Hlen & Hperm & Hshare); [lia|apply length_replicate|done|].
  assert (mjoin (replicate n ([] : list Client)) = []) as Hnil by (clear; induction n; done). rewrite Hnil, app_nil_r in Hperm.
  destruct (workers_left cfg start interval warm total_ns worlds K Hfit Hend pw (workers_fresh fds pw Hnd Hperm)) as (rs & Hrs & HL).
  set (all := merge ((fun r => out_ r.2) <$> rs)). exists rs, (report cfg all).
  change (rp_sample (report cfg all)) with all. split.
  { unfold main. rewrite Hargs, Hr. fold n fds. rewrite Hpw, Hi, Hw, Ht. unfold worker_run in Hrs. by rewrite Hrs. }
  pose proof (left_each cfg start interval warm total_ns worlds) as Each.
  destruct (report_figures cfg start interval warm total_ns worlds _ _ HL) as (Hsent & Hfail & Hack & Hrej & Hbal).
  assert (latencies_ns all ≡ₚ mjoin ((fun p => latencies_ns (out_ p.2)) <$> rs)) as Hlat.
  { unfold all, merge. cbn [latencies_ns]. rewrite merge_sort_Permutation, merged_latencies. by rewrite <- list_fmap_compose. }
  split_and!; try done.
  - by rewrite <- (Forall2_length _ _ _ HL), length_imap, Hlen.
  - rewrite (left_fds _ _ _ _ _ _ _ _ HL), imap_pair_snd, Hperm, <- list_fmap_compose. by rewrite (list_fmap_id (A := Z)).
  - intros k p Hp. destruct (left_runs _ _ _ _ _ _ _ _ _ _ _ Hrs Hp) as (cs & Hk & E).
    assert (cs = client0 <$> share n k fds) as ->; [|by rewrite (worker_run_unfold _ _ _ _ _ _ _ Hfit) in E].
    pose proof (lookup_lt_Some _ _ _ Hk). specialize (Hshare k [] ltac:(apply lookup_replicate_2; lia)).
    rewrite Hk in Hshare. by injection Hshare.
  - apply (Sorted_merge_sort Z.le).
  - rewrite Hlat. by eapply left_latencies.
  - apply (report_percentiles cfg all). apply (Sorted_merge_sort Z.le).
Qed.

(** ** A run *)

Section run.

(** Every reading a millisecond later; the polls bring Acks on descriptor 3, of
    orders in flight and of others. *)
Definition ms_clock (k : nat) : Z := 1000000 * Z.min 1000 (Z.of_nat k).
Definition sample_polls (k : nat) : Ready := [Some [encode_frame TAck (mkAck (Z.of_nat k / 4) 1)]; None].
Notation sample_worker :=
  (run_worker ms_clock (fun _ => 30) sample_polls false 10000000 10000000 60000000 103 61 0 (client0 <$> [3; 4])).

Lemma ms_clock_ok : clock_ok ms_clock.
Proof. intros i j H. unfold ms_clock. lia. Qed.

Lemma sample_schedule : schedule_ok 10000000 60000000 0.
Proof. unfold schedule_ok. lia. Qed.

Lemma sample_figures :
  option_map (fun p => (sent (out_ p.2), acked (out_ p.2), all_flying p.1)) sample_worker = Some (12, 3, 9).
Proof. vm_compute. reflexivity. Qed.

Lemma sample_returns : exists cs w,
  sample_worker = Some (cs, w) /\ sent (out_ w) = 12 /\ acked (out_ w) = 3 /\ all_flying cs = 9.
Proof.
  pose proof sample_figures as V. destruct sample_worker as [[cs w]|]; [|discriminate V].
  cbn in V. injection V as V1 V2 V3. by exists cs, w.
Qed.

Lemma worker_accounts_witness : exists cs w,
  sent (out_ w) = 12 /\ acked (out_ w) = 3 /\ all_flying cs = 9 /\
  sent (out_ w) = u64 (acked (out_ w) + all_flying cs) /\ Forall (client_ok ms_clock false w) cs /\
  exists acks : list Acked, acked (out_ w) = u64 (Z.of_nat (length acks)).
Proof.
  destruct sample_returns as (cs & w & E & V1 & V2 & V3).
  destruct (worker_accounts ms_clock (fun _ => 30) sample_polls false 10000000 10000000 60000000 0 103 61 [3; 4] cs w
    sample_schedule ms_clock_ok ltac:(vm_decide) E) as (_ & _ & _ & _ & Hs & Hc & (acks & _ & _ & _ & _ & Ha & _) & _).
  exists cs, w. split_and!; [exact V1|exact V2|exact V3|exact Hs|exact Hc|by exists acks].
Defined.

Lemma worker_ends_witness : exists cs w,
  run_worker ms_clock (fun _ => 7) sample_polls true 10000000 0 60000000 103 (S 60) 0 (client0 <$> [3; 4]) = Some (cs, w) /\
  fd <$> cs = [3; 4].
Proof.
  destruct (worker_ends ms_clock (fun _ => 7) sample_polls true 10000000 0 60000000 0 60 [3; 4] sample_schedule)
    as (cs & w & E & F & _); [intros k Hk; unfold ms_clock; lia|vm_decide|]. exists cs, w. split; [exact E|exact F].
Defined.

Definition sample_args : list text :=
  [lit "--clients"; lit "3"; lit "--rate"; lit "100"; lit "--duration"; lit "0.05"; lit "--warmup"; lit "0.01"; lit "--workers"; lit "2"].

Definition sample_cfg : Config :=
  set_workers 2 (set_warmup (dlit 1 (-2)) (set_duration (dlit 5 (-2)) (set_rate (double_of_Z 100) (set_clients 3 config0)))).

Definition sample_dials (k : nat) : DialCalls := mkDial (3 + Z.of_nat k) true 0.

Lemma sample_fits : run_fits sample_cfg 0 10000000 10000000 60000000.
Proof. repeat split; vm_compute; done. Qed.

Lemma sample_args_parsed : parse_args sample_args config0 = ArgConfig sample_cfg.
Proof. vm_compute. reflexivity. Qed.

Lemma loadgen_reports_witness : exists r,
  main 103 (S 60) sample_args sample_dials 0 (fun _ => mkWorld ms_clock (fun _ => 30) sample_polls) = Reported r /\
  Sorted Z.le (latencies_ns (rp_sample r)).
Proof.
  destruct (loadgen_reports sample_args sample_cfg sample_dials 0 10000000 10000000 60000000
    (fun _ => mkWorld ms_clock (fun _ => 30) sample_polls) 60 sample_args_parsed sample_fits ltac:(vm_decide) ltac:(vm_decide))
    as (rs & r & Hm & _ & _ & _ & _ & _ & _ & _ & _ & Hs & _).
  - intros _ j Hj. cbn [w_clock]. unfold ms_clock. lia.
  - intros _. exact ms_clock_ok.
  - exists r. split; [exact Hm|exact Hs].
Defined.

End run.
