(* ===== verification/Findings.v ===== *)
(** Cases where the code does something else than its comments or documents
    say. *)
From Stdlib Require Import ZArith Lia String.
From stdpp Require Import base numbers gmap list.
From S2P Require Import ZiSim.
From S2P Require Import FrameReader LoadGen Benchmarker LoadProps.
From S2P Require Import Prelude Types OrderBook BookFacts Engine Bytes Protocol Commands Wal.
From S2P Require Import WalProps Snapshot Egress RiskConfig MatchingThread Recovery Ownership.
From S2P Require Import CoreInv MatchProps EventProps Gateway Durable WalVerify VerifyProps.
From S2P Require Import Text LobsterParser LobsterReplay.

(** The book, in priority order, as (id, price, quantity). *)
Definition resting (m : MatchingThread) : list (Z * Z * Z) :=
  (fun o => (o_id o, o_price_ticks o, o_quantity o)) <$> all_orders (core_book (core_ m)).

Definition fresh_thread : MatchingThread := matching_thread0 risk_config0 None false 0.

(** [foreign_cancel]. Beyond those bounds keys collide: session 2, cancelling a
    client id of its own choosing that it never used, removes the order session
    1 entered as its order 1. *)
Theorem foreign_cancel :
  key_of 1 1 = key_of 2 3995604364617056257 /\
  resting (run fresh_thread [at_ 1 (buy 1 1 100 10)]) = [(1, 100, 10)] /\
  resting (run fresh_thread [at_ 1 (buy 1 1 100 10); at_ 2 (cancel 2 3995604364617056257)]) = [].
Proof. vm_compute. done. Qed.

(** ** Modify *)

Definition shrink (s coid p q : Z) : OrderCommand := modify s (protocol.mkModify coid p q).

(** [modify_decrease_loses_priority]. Reducing the size of the first order of a
    level at an unchanged price moves it behind the others, where the protocol
    document promises that priority is retained. *)
Theorem modify_decrease_loses_priority :
  resting (run fresh_thread [at_ 1 (buy 1 1 100 10); at_ 2 (buy 2 1 100 5)]) =
    [(1, 100, 10); (2, 100, 5)] /\
  resting (run fresh_thread [at_ 1 (buy 1 1 100 10); at_ 2 (buy 2 1 100 5);
                             at_ 3 (shrink 1 1 100 9)]) =
    [(2, 100, 5); (3, 100, 9)].
Proof. vm_compute. done. Qed.

(** [modify_reject_loses_order]. The cancel half of a Modify is applied before
    the replacement is checked: a Modify above the size limit is rejected, and
    the order it named is gone. *)
Theorem modify_reject_loses_order :
  let m := apply_modify (shrink 1 7 100 1000001) two_sessions in
  resting two_sessions = [(1, 100, 10)] /\ resting m = [] /\
  items 1 m = items 1 two_sessions ++ [ev_reject 1 7 RISK_MAX_ORDER_SIZE].
Proof. vm_compute. done. Qed.

(** ** Market orders *)

Definition market_sell (s coid q : Z) : OrderCommand :=
  new_order s (protocol.mkNewOrder coid 0 q protocol.Ask protocol.Market).

(** [market_remainder_not_reported]. A market order larger than the book is
    dropped with quantity left over, and no event says that it is closed: the
    last one its session sees leaves 10 to go. *)
Theorem market_remainder_not_reported :
  let m := apply_new_order (market_sell 2 8 20) two_sessions in
  resting m = [] /\ find_order 2 8 (tables_ (core_ m)) = 0 /\
  items 2 m = [ev_ack 2 8 2 false; ev_fill 2 8 2 100 10 10] /\
  Forall (fun e => e_closes_order e = false) (items 2 m).
Proof. vm_compute. split_and!; [done..|]. repeat constructor. Qed.

(** ** The log *)

Definition durable_thread : MatchingThread :=
  matching_thread0 risk_config0 (Some (wal_open [] 0 0 wal_config0)) false 0.
Definition log_of (m : MatchingThread) : option (list Z) := w_file <$> wal_ m.

(** Order 1 logged, order 2 refused because its write failed at once, order 3
    logged and acknowledged. *)
Definition failed_write_run : list (Env * OrderCommand) :=
  [at_ 1 (buy 1 1 100 10); (mkEnv 2 (Some 0%nat), buy 1 2 100 5); at_ 3 (buy 1 3 100 7)].

(** [failed_write_hides_later_commands]. A failed log write drops the command
    but the thread goes on, with the sequence number of the lost record used
    up: what it accepts afterwards is behind a gap, recovery returns only what
    came before, and the gateway refuses to start. *)
Theorem failed_write_hides_later_commands :
  let m := run durable_thread failed_write_run in
  resting m = [(1, 100, 10); (2, 100, 7)] /\ wal_failures (stats_ m) = 1 /\
  wr_sequence_gap (read_wal (log_of m)) = true /\
  wr_commands (read_wal (log_of m)) = [buy 1 1 100 10] /\
  gateway_start risk_config0 wal_config0 9 0 true (mkFiles None None (log_of m)) = None.
Proof. vm_compute. done. Qed.

(** ** Startup *)

Definition durable_run : MatchingThread :=
  run durable_thread [at_ 1 (buy 1 1 100 10); at_ 2 (buy 1 2 99 5)].

(** Start on the given files, then run some commands. *)
Definition restarted (do_recover : bool) (fs : Files) (ps : list (Env * OrderCommand))
    : option MatchingThread :=
  (fun m => run m ps) <$> gateway_start risk_config0 wal_config0 9 0 do_recover fs.

(** [start_without_recover_breaks_log]. Starting on an existing log without
    [--recover] restarts numbering at 1 in the same file: the next recovery
    finds a gap and refuses to start. *)
Theorem start_without_recover_breaks_log :
  let m := restarted false (mkFiles None None (log_of durable_run)) [at_ 3 (buy 1 1 98 4)] in
  resting <$> m = Some [(1, 98, 4)] /\
  resting <$> restarted true (mkFiles None None (m ≫= log_of)) [] = None.
Proof. vm_compute. done. Qed.

Definition lost_log_snapshot : list Z := snapshot_bytes (export_snapshot 2 (core_ durable_run)).

(** [lost_log_drops_new_commands]. With a snapshot and no log (lost, or moved
    away), numbering restarts at 1 although the snapshot's last record is 2: the
    commands accepted next are numbered below it, and the following recovery
    skips them as already covered. *)
Theorem lost_log_drops_new_commands :
  let m := restarted true (mkFiles (Some lost_log_snapshot) None None) [at_ 3 (buy 1 3 98 4)] in
  resting <$> m = Some [(1, 100, 10); (2, 99, 5); (3, 98, 4)] /\
  resting <$> restarted true (mkFiles (Some lost_log_snapshot) None (m ≫= log_of)) [] =
    Some [(1, 100, 10); (2, 99, 5)].
Proof. vm_compute. done. Qed.

(** [snapshot_ahead_of_log]. A snapshot is not preceded by a sync of the log:
    when a power failure keeps the snapshot of records 1 and 2 but only record
    1 of the log, the restarted gateway has the right book and numbers its next
    record 3, behind record 1. The start after that finds a gap and is refused,
    although the snapshot covers the missing record. *)
Theorem snapshot_ahead_of_log :
  let short_log := take 47 <$> log_of durable_run in
  let m := restarted true (mkFiles (Some lost_log_snapshot) None short_log) [at_ 3 (buy 1 3 98 4)] in
  resting <$> m = Some [(1, 100, 10); (2, 99, 5); (3, 98, 4)] /\
  resting <$> restarted true (mkFiles (Some lost_log_snapshot) None (m ≫= log_of)) [] = None.
Proof. vm_compute. done. Qed.

(** ** Snapshots and truncation that go wrong *)

(** Three batches of one order, a snapshot after each, [io2] and [io3] saying
    how the second and the third went. *)
Definition three_batches (io2 io3 : SnapIo) : MatchingThread :=
  drains (matching_thread0 risk_config0 (Some (wal_open [] 0 0 wal_config0)) true 1)
    [mkBatch [at_ 1 (buy 1 1 100 10)] 2 snap_ok; mkBatch [at_ 3 (buy 1 2 99 7)] 4 io2;
     mkBatch [at_ 5 (buy 1 3 98 5)] 6 io3].

(** The book after a restart on its files, the newest snapshot damaged. *)
Definition behind (m : MatchingThread) : option (list (Z * Z * Z)) :=
  resting <$> restarted true (mkFiles (Some [1; 2; 3]) (snap_prev m) (log_of m)) [].

(** [failed_move_breaks_fallback]. The log is truncated up to the snapshot
    before the newest one whether or not that snapshot was moved aside. When the
    [rename] fails, the file at [path.prev] is one older, and falling back to it
    skips order 2 without a complaint: order 3 is even entered with its id. *)
Theorem failed_move_breaks_fallback :
  behind (three_batches snap_ok snap_ok) = Some [(1, 100, 10); (2, 99, 7); (3, 98, 5)] /\
  behind (three_batches snap_ok (mkSnapIo false true TruncOk)) = Some [(1, 100, 10); (2, 98, 5)].
Proof. vm_compute. done. Qed.

(** [short_read_drops_records]. A [read] that fails while the log is read back
    for truncation is taken for its end: the log is rewritten without the
    records behind it, truncation reports success, and falling back to the
    previous snapshot gives a book without order 3. *)
Theorem short_read_drops_records :
  let m := three_batches snap_ok (mkSnapIo true true (TruncShortRead 0 true)) in
  resting m = [(1, 100, 10); (2, 99, 7); (3, 98, 5)] /\ log_of m = Some [] /\
  behind m = Some [(1, 100, 10); (2, 99, 7)].
Proof. vm_compute. done. Qed.

(** ** The log verifier *)

(** What the verifier prints for the log of a run, and the digest of the book. *)
Definition verified (cs : list OrderCommand) : verify.Outcome * Z :=
  let m := run (matching_thread0 risk_config0 (Some (wal_open [] 0 0 wal_config0)) true 0) (at_ 1 <$> cs) in
  (verify.wal_verify risk_config0 None (log_of m), OrderBook.digest (core_book (core_ m))).

(** [verifier_keeps_filled_orders]. When a market order fills a resting order
    the verifier pops it before it calls [cancel], which then finds nothing and
    leaves the order's location behind. Cancelling the name is still harmless,
    but a Modify of it, which the engine refuses, enters a new order in the
    verifier's book, and the digests of an intact log differ. *)
Theorem verifier_keeps_filled_orders :
  let filled := [buy 1 1 100 10; market_sell 2 1 10] in
  let late := shrink 1 1 90 5 in
  (let '(out, d) := verified (filled ++ [cancel 1 1]) in out = verify.Verified 3 d) /\
  (let '(out, d) := verified (filled ++ [late]) in
   exists d', out = verify.Verified 3 d' /\ d' <> d) /\
  misled late
    (verify.apply risk_config0 (verify.apply risk_config0 (verify.simple_book0, 1) (buy 1 1 100 10))
       (market_sell 2 1 10)).1 = true.
Proof. vm_compute. split; [done|]. split; [by eexists|done]. Qed.

(** ** The LOBSTER check *)

(** [failed_seed_passes]. When the book cannot be seeded (a level of the first
    row is too large) nothing is replayed and nothing is compared: the result
    has no mismatch, and the command exits with success. *)
Theorem failed_seed_passes :
  let row := lit "101,5,100,4294967296
102,1,99,1
" in
  let env := mkReplayEnv (fun p => Some (if decide (p = lit "book") then row else lit "1,1,5,7,100,1
2,1,6,7,99,1
")) (fun _ => true) (fun _ => true) in
  let args := [lit "lobster_replay"; lit "--messages"; lit "m"; lit "--orderbook"; lit "book";
               lit "--events"; lit "2"; lit "--seed-orderbook-zero"] in
  exit_code (lobster_replay env args) = 0 /\
  match lobster_replay env args with
  | Replayed r _ => accuracy_percent r = double_of_Z 0 /\ first_mismatch_level_index r = None
  | _ => False
  end.
Proof. vm_compute. done. Qed.

(** [zero_size_order_rests]. A row that enters an order of size zero is
    accepted, and the order rests: the book can even be left crossed. *)
Theorem zero_size_order_rests :
  let ms := parse_messages (lit "1,1,5,7,100,1
2,1,6,0,99,-1
") in
  let b := book_ (foldl apply_message empty_engine ms) in
  length ms = 2%nat /\ is_crossed b = true /\ ask_levels_ticks 10 b = [(99, 0)].
Proof. vm_compute. done. Qed.

Definition lobster_book (rows : string) : list (Z * Z) :=
  bid_levels_ticks 10 (book_ (foldl apply_message empty_engine (parse_messages (lit rows)))).

(** [partial_cancel_keeps_size]. Deleting 3 of an order of 10 leaves 3, where
    LOBSTER's document (a partial deletion of that size) means 7. *)
Theorem partial_cancel_keeps_size :
  lobster_book "1,1,5,10,100,1
2,2,5,3,100,1
" = [(100, 3)].
Proof. vm_compute. done. Qed.

(** [hidden_execution_takes_visible]. The execution of a hidden order of 4 at
    the best bid takes 4 from the visible order resting there. *)
Theorem hidden_execution_takes_visible :
  lobster_book "1,1,5,10,100,1
2,5,0,4,100,1
" = [(100, 6)].
Proof. vm_compute. done. Qed.

(** [execution_rows_misnamed]. New orders and cancellations are logged under
    client ids, executions under exchange ids, and a market order uses up an
    exchange id only: after the first one, the log says that order 21 was
    entered and that order 22, which it never mentioned before, was executed. *)
Theorem execution_rows_misnamed :
  exists g, zi_sample_run 3 = Some (false, g, []) /\
    (fun r => (r_type r, r_id r)) <$> messages g = [(4, 2); (1, 21); (4, 22)].
Proof. eexists. split; [vm_compute; reflexivity|]. done. Qed.

(** ** The load generator *)

(** [loadgen_never_ends]. A rate above a billion passes the check of the
    arguments and gives an interval of zero, with which the sending loop does not
    end, whatever its fuel. *)
Theorem loadgen_never_ends (clock send : nat -> Z) (crossing : bool) (fuel : nat) (t : Z) (c : loadgen.Client) (w : loadgen.Io) :
  (let cfg := loadgen.set_rate (atof (lit "2e9")) loadgen.config0 in
   loadgen.refused cfg = false /\ loadgen.interval_of cfg = Some 0) /\
  (0 <= loadgen.next_send_ns c <= t -> is_u64 t -> loadgen.send_due clock send crossing 0 fuel t c w = None).
Proof.
  split; [by vm_compute|]. revert c w. induction fuel as [|fuel IH]; intros c w Hn Ht; [done|]. simpl.
  rewrite (proj2 (Z.leb_le _ _)) by lia. unfold is_u64 in Ht.
  assert (0 <= loadgen.next_send_ns (loadgen.send_order clock send crossing 0 t c w).1 <= t) as Hn'.
  { unfold loadgen.send_order, loadgen.now_ns, loadgen.send. destruct (_ =? _); cbn [fst loadgen.next_send_ns].
    all: rewrite !Z.add_0_r, !u64_id by (unfold is_u64; rewrite ?u64_id by (unfold is_u64; lia); lia).
    all: destruct (_ <? t); lia. }
  destruct (loadgen.send_order clock send crossing 0 t c w) as [c1 w1]. by apply IH.
Qed.

(** [partial_send_forges_order]. A partial send is counted and forgotten, but its
    bytes are in the stream: after eight bytes of the first frame, the gateway
    reads the next frame's header as a payload and finds a market order for
    999900 that nobody sent, then gives up on the connection. *)
Theorem partial_send_forges_order :
  let frame := frame_for false in
  let '(fs, r) := feed_all frame_reader0 [take 8 (frame 1) ++ frame 2 ++ frame 3] in
  ((fun f => protocol.decode_NewOrder (f_payload f)) <$> fs) =
    [Some (protocol.mkNewOrder 281479271677974 2 999900 protocol.Bid protocol.Market)] /\ failed_ r = true.
Proof. vm_compute. done. Qed.

(** [workers_not_cores]. The usage text promises [min(clients, cores)] workers by
    default; the number is [min(clients, 4)] on any machine. *)
Theorem workers_not_cores : forall n, 0 < n -> loadgen.worker_count (loadgen.set_clients n loadgen.config0) = Z.min n 4.
Proof. intros n Hn. unfold loadgen.worker_count, loadgen.kDefaultWorkers. cbn. lia. Qed.

(** [percentile_below_nearest_rank]. The comment calls the index nearest-rank,
    whose 99th percentile of ten samples is the tenth; the code takes the ninth. *)
Theorem percentile_below_nearest_rank :
  percentile_sorted [1; 2; 3; 4; 5; 6; 7; 8; 9; 10] (dlit 99 (-2)) = Some 9.
Proof. vm_compute. reflexivity. Qed.
